(* ===== verification/_CoqProject ===== *)
-Q . S2P
Prelude.v
GoLib.v
GoText.v
GoJson.v
RawTemplate.v
Effects.v
ApiTypes.v
Install.v
External.v
StatusList.v
Memory.v
StatusHeap.v
StatusHeapProperties.v
DeepCopy.v
NamespaceSelection.v
ConditionNames.v
Shared.v
ClusterHandler.v
Kube.v
NamespaceController.v
ReplicaState.v
ReplicaTarget.v
ReplicaCreateOrUpdate.v
ReplicaDelete.v
DeleteSelection.v
ReplicaReconcile.v
ReplicaPolicy.v
ReplicaSafety.v
FakeServer.v
Scenarios.v
DeleteProperties.v
CreateProperties.v
OutcomeProperties.v
TargetProperties.v
Divergences.v
SafetyProperties.v
WriteOnce.v
Witnesses.v
EmbedDocs.v
EmbedDocsProperties.v
Setup.v
ControllerSetup.v
Command.v
CommandProperties.v
StatusType.v
HonestServer.v
Convergence.v
Quiescence.v
DeletionRuns.v
ComingToRest.v
StayingAtRest.v
