(* ===== verification/Prelude.v ===== *)
(** * The platform service "resource replicator", verified

    ** The program

    The service copies Kubernetes resources.  A [Replica] (namespaced) or
    [ClusterReplica] names source resources, an optional template that renders
    one manifest from them, and target definitions that select clusters and
    namespaces; the service keeps one copy of the manifest in every selected
    place, and removes copies that are not selected any more.  The parts, all
    in Go under [src/]:

    - [api/core/v1alpha1]: the resource types, their constants, and the list of
      created resources in the status, which is the only memory of the service;
    - [internal/replica/controller.go]: the reconcile of one (Cluster)Replica:
      [Reconcile] fetches the object and dispatches; [handleCreateOrUpdate]
      reads the sources and handles every target; [deleteObsoleteResources]
      deletes the copies that are tracked in the status and were not managed in
      this run; [handleDelete] removes the finalizer at the end;
    - [internal/cluster/handler.go] and [internal/namespace/controller.go]:
      react to events of clusters and namespaces by asking for a reconcile of
      the (Cluster)Replicas concerned;
    - [internal/shared/shared.go]: the channel over which they ask, and the set
      of pending keys that suppresses duplicates;
    - [cmd/]: the commands [init] and [run]; [hack/embed-docs]: a tool that
      injects files into documentation.

    They interact as follows: [main] runs a command ([Command]), which registers
    the types ([Install]) and sets up the controllers ([ControllerSetup]);
    events pass the predicates of the controllers ([Setup]); cluster and
    namespace events end in [EnqueueReplica] ([Shared]); a notification received
    from the channel becomes a request of the replica controller; [Reconcile]
    clears the pending key and works on the API servers ([Kube]).

    ** How the code is modelled

    Code outside the repository is never given a definition of its own.  Pure
    helpers of imported modules are the fields of the class [External.Ext],
    with their documented behaviour in [External.ExtLaws]; calls that leave the
    process are requests of the signature [Kube.Req], answered arbitrarily: any
    call may fail, other actors may change everything between two calls, and
    template execution may even change the sources it is given.  A function of
    the controllers is a program of [Effects.M]: state passing with early exits
    and panics over trees of requests.  The trees are inductive, so a reconcile
    stops after finitely many requests under every environment; what it does
    under all environments is stated on histories ([exec], [wp], [mwp]).
    Iteration over Go maps asks the environment for the order.  Concurrency is
    modelled where the code has it: [Shared.step] interleaves any number of
    callers of [EnqueueReplica], receivers and reconciles.

    Where recursion is not structural, the fuel is the size of the input and
    a theorem shows that it suffices: the number of lines for
    [EmbedDocs.injectLoop] ([inject_terminates]), the number of bytes for
    [GoJson.quoteBody] and [unquoteBody] ([UnmarshalString_Marshal]).
    [Shared.channelCapacity] is the 1000 of the source.  Go's [int64]
    generations and durations are integers [Z]; they are only compared, printed
    and copied.  Strings are byte strings.

    ** The files

    - [Prelude]: list lemmas, tactics, the hint database [replicator];
      [GoLib], [GoText], [GoJson]: what the sources use of Go's standard
      library (strings, numbers, lines, regular expressions, paths, JSON
      strings); [Effects]: programs, histories and their calculus;
    - [ApiTypes] ([constants.go], [policies.go], [replica_types.go],
      [cluster_replica_types.go]), [Install] ([groupversion_info.go],
      [api/install], [api/crds]), [RawTemplate] (the JSON form of templates),
      [StatusList] and [NamespaceSelection] ([utils.go]); [Memory] (heap,
      slices, pointers, deep copies in general), [StatusHeap] (the status list
      as the code mutates it in memory) with [StatusHeapProperties], [DeepCopy]
      ([zz_generated.deepcopy.go]);
    - [External], [Kube]: imported code and requests;
    - [ConditionNames] ([internal/replica/utils.go]), [Shared],
      [ClusterHandler], [NamespaceController]: the parts of the same names;
    - [internal/replica/controller.go]: [ReplicaState] (the working state),
      [ReplicaTarget] (lines 381-690, one target), [ReplicaCreateOrUpdate]
      (lines 227-701), [ReplicaDelete] (lines 703-942), [ReplicaReconcile]
      (lines 77-225), [Setup] (lines 961-993, with the predicates of the
      namespace controller), [ControllerSetup] (lines 57-71 and 957-969, with
      the setup of the namespace controller);
    - [Command] ([cmd/]) with [CommandProperties], [EmbedDocs]
      ([hack/embed-docs/main.go]);
    - the properties of reconciles, in the files named in the next section;
    - [FakeServer], [Scenarios], [Witnesses]: implementations of the classes, a
      small API server, and the concrete runs at which the theorems are
      instantiated.  [FakeServer] is an example, not a model of the code.

    ** What is proved

    - Safety of every reconcile, under every environment ([ReplicaPolicy],
      [ReplicaSafety], [SafetyProperties]): only own, unkept, live objects are
      deleted, right after reading them; nothing is written that belongs to
      someone else; a resource is tracked in a stored status before it is
      created; kept copies lose exactly the labels of the controller and
      nothing else is patched; of the (Cluster)Replica only the finalizers and
      the operation annotation change, and the finalizer stays while copies are
      tracked; namespaces are created on demand only.  No resource is written
      twice for the same cluster in one reconcile ([WriteOnce]).
    - Deletion ([DeleteSelection], [DeleteProperties]): no copy that may still
      exist is forgotten, only obsolete ones are deleted, every obsolete one is
      dealt with, and a deletion completes.
    - Errors, panics and bookkeeping ([CreateProperties], [OutcomeProperties]):
      a reconcile always concludes with exactly one status update; errors are
      reported as conditions and as the result; nothing is deleted before all
      sources were read; managed resources are in the status.
    - The contents of a copy ([TargetProperties]): what an update changes and
      keeps, and that what is written is recognised later.
    - Coming to rest ([HonestServer], [Convergence], [Quiescence],
      [DeletionRuns], [ComingToRest], [StayingAtRest]): against an honest
      server, after a reconcile that ends well every further [Reconcile]
      changes nothing before its status update, which stores what is stored
      already, whatever reconciles and notifications come in between.
    - The status list: its operations refine those of finite sets
      ([StatusList]), and whole reconciles keep it well formed ([StatusType]).
      The slices mutated in place compute the same as the values
      ([StatusHeapProperties]), and an object and its deep copy do not influence
      each other ([DeepCopy]); this is why the other files can use values.
    - Notifications ([Shared], [ClusterHandler], [NamespaceController],
      [Setup], [ControllerSetup]): bounds and coverage of deduplication under all
      interleavings, an account of every notification (a request can only get
      lost when the channel is full), which events enqueue which
      (Cluster)Replicas, which occurrences on which cluster become requests of
      which controller, and that a notification leads to a reconcile after
      which the key is free again.
    - Names and templates: condition types do not collide
      ([ConditionNames]), templates survive their JSON form ([RawTemplate]).
    - The command line ([Install], [CommandProperties]): the order of everything
      the process does to the outside and that it does it, effects of the
      dry-run flag, secured servers, and that the clients know the types.  The tool
      ([EmbedDocsProperties]): injection against its specification,
      termination, idempotence, check mode and exit code.
    - [Divergences] has concrete reconciles in which the controller does not
      do what its comments say.

    ** Not modelled

    - Outside of [Memory], [StatusHeap] and [DeepCopy], values are immutable
      and a deep copy is the value itself.
    - What the builder of the controllers and [cobra] do with what they are
      told: the former is a class with documented behaviour, the latter's
      answer is arbitrary.  Logging.
    - Resource versions of (Cluster)Replicas and conflicts of their patches
      appear as failing patches only.

    ** What could be added

    Reconciles of different (Cluster)Replicas over one world. *)

From stdpp Require Export base list strings gmap sets fin_maps option pretty.
From Stdlib Require Export Ascii ZArith Lia.

#[global] Open Scope string_scope.
#[global] Open Scope list_scope.
#[global] Open Scope nat_scope.

(** ** Notation scope of the development *)

Declare Scope go_scope.
Delimit Scope go_scope with go.

(** ** Generic list lemmas shared by the components *)

Lemma existsb_app {A} (f : A → bool) (l k : list A) :
  existsb f (l ++ k) = existsb f l || existsb f k.
Proof. induction l as [|x l IH]; simpl; [done|]. by rewrite IH, orb_assoc. Qed.

Lemma existsb_true {A} (f : A → bool) (l : list A) :
  existsb f l = true ↔ ∃ x, x ∈ l ∧ f x = true.
Proof.
  rewrite List.existsb_exists. split; intros (x & Hx & Hf); exists x;
    (split; [by apply list_elem_of_In | done]).
Qed.

Lemma existsb_false {A} (f : A → bool) (l : list A) :
  existsb f l = false ↔ ∀ x, x ∈ l → f x = false.
Proof.
  rewrite <- not_true_iff_false, existsb_true. split.
  - intros H x Hx. destruct (f x) eqn:E; [|done]. exfalso. eauto.
  - intros H (x & Hx & Hf). rewrite H in Hf; done.
Qed.

Lemma filter_filter {A} (f g : A → bool) (l : list A) :
  List.filter f (List.filter g l) = List.filter (λ x, g x && f x) l.
Proof.
  induction l as [|x l IH]; simpl; [done|]. destruct (g x); simpl; [|done].
  by rewrite IH.
Qed.

Lemma elem_of_filterb {A} (f : A → bool) (l : list A) x :
  x ∈ List.filter f l ↔ x ∈ l ∧ f x = true.
Proof. by rewrite !list_elem_of_In, List.filter_In. Qed.

Lemma NoDup_filterb {A} (f : A → bool) (l : list A) : NoDup l → NoDup (List.filter f l).
Proof. rewrite !NoDup_ListNoDup. apply List.NoDup_filter. Qed.

(** The lists of a Go slice are split as [pre ++ x :: post] when an element is
    removed in place ([append(s[:i], s[i+1:]...)]): the first element that
    satisfies the test goes, everything else keeps its order. *)
Fixpoint remove_first {A} (f : A → bool) (l : list A) : list A :=
  match l with
  | [] => []
  | x :: l' => if f x then l' else x :: remove_first f l'
  end.

Lemma remove_first_none {A} (f : A → bool) (l : list A) :
  existsb f l = false → remove_first f l = l.
Proof.
  induction l as [|x l IH]; simpl; [done|].
  destruct (f x); simpl; [done|]. intros H. by rewrite IH.
Qed.

Lemma remove_first_split {A} (f : A → bool) (l : list A) :
  existsb f l = true →
  ∃ pre x post, l = pre ++ x :: post ∧ f x = true ∧ existsb f pre = false ∧
                remove_first f l = pre ++ post.
Proof.
  induction l as [|x l IH]; simpl; [done|].
  destruct (f x) eqn:Hx; simpl.
  - intros _. by exists [], x, l.
  - intros H. destruct (IH H) as (pre & y & post & -> & Hy & Hpre & Hr).
    exists (x :: pre), y, post. simpl. by rewrite Hx, Hr.
Qed.

Lemma elem_of_remove_first {A} (f : A → bool) (l : list A) x :
  x ∈ remove_first f l → x ∈ l.
Proof.
  destruct (existsb f l) eqn:E.
  - destruct (remove_first_split _ _ E) as (pre & y & post & -> & _ & _ & ->).
    rewrite !elem_of_app, elem_of_cons. tauto.
  - by rewrite remove_first_none.
Qed.

Lemma elem_of_remove_first_ne {A} (f : A → bool) (l : list A) x :
  f x = false → x ∈ l → x ∈ remove_first f l.
Proof.
  intros Hx Hin. destruct (existsb f l) eqn:E.
  - destruct (remove_first_split _ _ E) as (pre & y & post & -> & Hy & _ & ->).
    revert Hin. rewrite !elem_of_app, elem_of_cons.
    intros [?|[->|?]]; [tauto|congruence|tauto].
  - by rewrite remove_first_none.
Qed.

Lemma remove_first_sublist {A} (f : A → bool) (l : list A) :
  sublist (remove_first f l) l.
Proof.
  induction l as [|x l IH]; simpl; [constructor|].
  destruct (f x); [by apply sublist_cons | by apply sublist_skip].
Qed.

(** ** Tactics *)

(** Case analysis on the boolean or optional scrutinee the goal is stuck on. *)
Ltac case_scrutinee :=
  match goal with
  | |- context [match ?x with _ => _ end] => destruct x eqn:?
  end.

(** Split the conjunctions of the context. *)
Ltac split_hyps :=
  repeat match goal with H : _ ∧ _ |- _ => destruct H end.

(** ** Hint database of the development *)

Create HintDb replicator.
#[export] Hint Resolve elem_of_remove_first elem_of_remove_first_ne
  remove_first_sublist NoDup_filterb : replicator.
Create Rewrite HintDb replicator.
#[export] Hint Rewrite @existsb_app : replicator.
