(* ===== verification/GoLib.v ===== *)
(** * The parts of the Go standard library the sources call

    Models the functions of the packages [strings] and [fmt] that the
    repository uses, on byte strings: [strings.HasPrefix], [TrimPrefix],
    [TrimSuffix], [ToLower] (on ASCII, which is all the sources lower), the
    formatting of an [int64] with [%d], and the concatenation that a
    [fmt.Sprintf] whose verbs are all [%s] performs. *)

From S2P Require Import Prelude.

(** [fmt.Sprintf] with [%s] verbs only: the pieces in order. *)
Definition sprint (pieces : list string) : string := foldr String.append "" pieces.

Definition HasPrefix (s prefix : string) : bool := String.prefix prefix s.

(** Some tail of the string is the suffix. *)
Fixpoint HasSuffix (s suffix : string) : bool :=
  String.eqb s suffix ||
  match s with EmptyString => false | String _ s' => HasSuffix s' suffix end.

Fixpoint string_drop (n : nat) (s : string) : string :=
  match n, s with
  | O, _ => s
  | S n', String _ s' => string_drop n' s'
  | S _, EmptyString => EmptyString
  end.

Definition TrimPrefix (s prefix : string) : string :=
  if HasPrefix s prefix then string_drop (String.length prefix) s else s.

(** [strings.TrimSuffix]: the tail that equals the suffix is cut off. *)
Fixpoint TrimSuffix (s suffix : string) : string :=
  if String.eqb s suffix then ""
  else match s with EmptyString => EmptyString | String c s' => String c (TrimSuffix s' suffix) end.

(** [strings.ToLower] on ASCII letters. *)
Definition ascii_lower (c : Ascii.ascii) : Ascii.ascii :=
  let n := Ascii.nat_of_ascii c in
  if Nat.leb 65 n && Nat.leb n 90 then Ascii.ascii_of_nat (n + 32) else c.

Fixpoint ToLower (s : string) : string :=
  match s with
  | EmptyString => EmptyString
  | String c s' => String (ascii_lower c) (ToLower s')
  end.

(** [fmt.Sprintf("%d", n)] *)
Definition format_int (n : Z) : string := pretty n.

(** A Go map with string values that may be nil; reading a missing key (or
    reading from a nil map) gives the zero value. *)
Abbreviation StringMap := (option (gmap string string)).

Definition map_get (m : StringMap) (k : string) : string := default "" (m ≫= (.!! k)).

Definition map_has (m : StringMap) (k : string) : bool := bool_decide (is_Some (m ≫= (.!! k))).

Lemma HasPrefix_append p s : HasPrefix (p +:+ s) p = true.
Proof.
  unfold HasPrefix. induction p as [|c p IH]; simpl; [by destruct s|].
  destruct (Ascii.ascii_dec c c); [done|congruence].
Qed.

Lemma string_drop_append p s : string_drop (String.length p) (p +:+ s) = s.
Proof. by induction p. Qed.

Lemma TrimPrefix_append p s : TrimPrefix (p +:+ s) p = s.
Proof. unfold TrimPrefix. rewrite HasPrefix_append. apply string_drop_append. Qed.

Lemma HasPrefix_inv s p : HasPrefix s p = true → ∃ r, s = p +:+ r.
Proof.
  unfold HasPrefix. revert s. induction p as [|c p IH]; intros s; simpl.
  - intros _. by exists s.
  - destruct s as [|d s]; simpl; [done|]. destruct (Ascii.ascii_dec c d) as [<-|]; [|done].
    intros H. destruct (IH _ H) as [r ->]. by exists r.
Qed.

Lemma sprint_cons x l : sprint (x :: l) = x +:+ sprint l.
Proof. done. Qed.

Lemma string_app_assoc (a b c : string) : (a +:+ b) +:+ c = a +:+ (b +:+ c).
Proof. induction a as [|x a IH]; [done|]. exact (f_equal (String x) IH). Qed.

Lemma string_app_nil_r (s : string) : s +:+ "" = s.
Proof. induction s as [|x s IH]; [done|]. exact (f_equal (String x) IH). Qed.

Lemma string_app_length (a b : string) :
  String.length (a +:+ b) = String.length a + String.length b.
Proof. induction a as [|x a IH]; [done|]. exact (f_equal S IH). Qed.

Lemma TrimSuffix_append s suffix : TrimSuffix (s +:+ suffix) suffix = s.
Proof.
  induction s as [|c s IH].
  - change ("" +:+ suffix) with suffix. destruct suffix as [|c s]; [done|].
    cbn -[String.eqb]. by rewrite String.eqb_refl.
  - change (String c s +:+ suffix) with (String c (s +:+ suffix)). cbn -[String.eqb].
    destruct (String.eqb_spec (String c (s +:+ suffix)) suffix) as [Heq|]; [|by rewrite IH].
    exfalso. apply (f_equal String.length) in Heq. simpl in Heq.
    rewrite string_app_length in Heq. lia.
Qed.

Lemma HasSuffix_self s : HasSuffix s s = true.
Proof. destruct s as [|c s]; [done|]. cbn -[String.eqb]. by rewrite String.eqb_refl. Qed.

Lemma HasSuffix_append s suffix : HasSuffix (s +:+ suffix) suffix = true.
Proof.
  induction s as [|c s IH]; [apply HasSuffix_self|].
  change (String c s +:+ suffix) with (String c (s +:+ suffix)). simpl.
  by rewrite IH, orb_true_r.
Qed.

Lemma TrimSuffix_no_suffix s suffix : HasSuffix s suffix = false → TrimSuffix s suffix = s.
Proof.
  induction s as [|c s IH]; simpl; intros [-> H]%orb_false_iff; [done|]. by rewrite IH.
Qed.

(** A one-character suffix is a suffix of the last non-empty piece. *)
Lemma HasSuffix_char_app c (a b : string) :
  b ≠ "" → HasSuffix (a +:+ b) (String c "") = HasSuffix b (String c "").
Proof.
  intros Hb. induction a as [|d a IH]; [done|].
  change (String d a +:+ b) with (String d (a +:+ b)). simpl. rewrite IH.
  destruct (String.eqb_spec (a +:+ b) "") as [He|]; [|by destruct (Ascii.eqb d c)].
  destruct a; [done|]. done.
Qed.

#[global] Arguments sprint : simpl never.
#[global] Arguments format_int : simpl never.
