(* ===== verification/GoText.v ===== *)
(** * Text, lines and paths of the Go standard library

    The functions of [strings], [regexp] and [path/filepath] that the
    documentation tool uses, on byte strings.  Regular expressions are lists of
    pieces, matched with the priorities of Go's leftmost-first semantics. *)

From S2P Require Import Prelude GoLib.

(** ** [strings.Split] and [strings.Join] *)

Fixpoint Split (sep : ascii) (s : string) : list string :=
  match s with
  | EmptyString => [""]
  | String c s' =>
      if Ascii.eqb c sep then "" :: Split sep s'
      else match Split sep s' with
           | [] => [String c ""]
           | l :: ls => String c l :: ls
           end
  end.

Fixpoint Join (l : list string) (sep : ascii) : string :=
  match l with
  | [] => ""
  | [x] => x
  | x :: l' => x +:+ String sep (Join l' sep)
  end.

Definition newline : ascii := "010"%char.

(** The character does not occur. *)
Fixpoint lacks (c : ascii) (s : string) : bool :=
  match s with EmptyString => true | String d s' => negb (Ascii.eqb d c) && lacks c s' end.

(** [strings.TrimRight(s, "\n")] *)
Fixpoint TrimRight (c : ascii) (s : string) : string :=
  match s with
  | EmptyString => ""
  | String d s' =>
      match TrimRight c s' with
      | EmptyString => if Ascii.eqb d c then "" else String d ""
      | t => String d t
      end
  end.

(** [strings.TrimSpace(s) == ""]: all runes are white space ([unicode.IsSpace]),
    the ones outside ASCII in their UTF-8 encoding. *)
Definition isSpaceByte (n : nat) : bool := Nat.leb 9 n && Nat.leb n 13 || Nat.eqb n 32.

Definition isSpace2 (a b : nat) : bool := Nat.eqb a 194 && (Nat.eqb b 133 || Nat.eqb b 160).

Definition isSpace3 (a b c : nat) : bool :=
  Nat.eqb a 225 && Nat.eqb b 154 && Nat.eqb c 128 ||
  Nat.eqb a 226 && Nat.eqb b 128 &&
    (Nat.leb 128 c && Nat.leb c 138 || Nat.eqb c 168 || Nat.eqb c 169 || Nat.eqb c 175) ||
  Nat.eqb a 226 && Nat.eqb b 129 && Nat.eqb c 159 ||
  Nat.eqb a 227 && Nat.eqb b 128 && Nat.eqb c 128.

Fixpoint isBlank (s : string) : bool :=
  match s with
  | EmptyString => true
  | String a s1 =>
      isSpaceByte (nat_of_ascii a) && isBlank s1 ||
      match s1 with
      | EmptyString => false
      | String b s2 =>
          isSpace2 (nat_of_ascii a) (nat_of_ascii b) && isBlank s2 ||
          match s2 with
          | EmptyString => false
          | String c s3 => isSpace3 (nat_of_ascii a) (nat_of_ascii b) (nat_of_ascii c) && isBlank s3
          end
      end
  end.

(** ** Regular expressions anchored at both ends *)

Inductive piece :=
| Lit (l : string)  (** literal text *)
| Spaces            (** [\s*], greedy *)
| Group.            (** [(.+?)], lazy *)

(** [\s]: tab, newline, form feed, carriage return, space *)
Definition isReSpace (c : ascii) : bool :=
  let n := nat_of_ascii c in
  Nat.eqb n 9 || Nat.eqb n 10 || Nat.eqb n 12 || Nat.eqb n 13 || Nat.eqb n 32.

(** The rests after [\s*], the longest match first. *)
Fixpoint afterSpaces (s : string) : list string :=
  match s with
  | String c s' => if isReSpace c then afterSpaces s' ++ [s] else [s]
  | EmptyString => [s]
  end.

(** The matches of [.+?] with their rests, the shortest first; the dot does
    not match a newline. *)
Fixpoint lazyGroup (s : string) : list (string * string) :=
  match s with
  | EmptyString => []
  | String c s' =>
      if Ascii.eqb c newline then []
      else (String c "", s') :: ((λ '(g, r), (String c g, r)) <$> lazyGroup s')
  end.

(** All matches of the whole string, the preferred one first, with their
    submatches. *)
Fixpoint matches (re : list piece) (s : string) : list (list string) :=
  match re with
  | [] => if String.eqb s "" then [[]] else []
  | Lit l :: re' => if HasPrefix s l then matches re' (string_drop (String.length l) s) else []
  | Spaces :: re' => afterSpaces s ≫= matches re'
  | Group :: re' => lazyGroup s ≫= λ '(g, r), cons g <$> matches re' r
  end.

(** [FindStringSubmatch] without the whole match, and [MatchString]. *)
Definition FindStringSubmatch (re : list piece) (s : string) : option (list string) :=
  head (matches re s).
Definition MatchString (re : list piece) (s : string) : bool :=
  match matches re s with [] => false | _ => true end.

(** ** [path/filepath] on Unix *)

Definition slash : ascii := "/"%char.

(** One component against the components so far, the last one first. *)
Definition cleanStep (rooted : bool) (acc : list string) (comp : string) : list string :=
  if String.eqb comp "" || String.eqb comp "." then acc
  else if String.eqb comp ".." then
    match acc with
    | [] => if rooted then [] else [".."]
    | last :: acc' => if String.eqb last ".." then ".." :: acc else acc'
    end
  else comp :: acc.

Definition Clean (path : string) : string :=
  let rooted := HasPrefix path "/" in
  let comps := rev (foldl (cleanStep rooted) [] (Split slash path)) in
  let out := (if rooted then "/" else "") +:+ Join comps slash in
  if String.eqb out "" then "." else out.

(** [filepath.Join] of two elements: empty ones are ignored. *)
Definition JoinPath (a b : string) : string :=
  match List.filter (λ x, negb (String.eqb x "")) [a; b] with
  | [] => ""
  | l => Clean (Join l slash)
  end.

(** Everything up to the last separator. *)
Definition Dir (path : string) : string :=
  Clean (match rev (Split slash path) with
         | _ :: ((_ :: _) as l) => Join (rev l) slash +:+ "/"
         | _ => ""
         end).

(** ** Lemmas *)

Lemma Split_cons sep s : ∃ l ls, Split sep s = l :: ls.
Proof.
  induction s as [|c s (l & ls & IH)]; simpl; [by eauto|].
  destruct (Ascii.eqb c sep); [by eauto|]. rewrite IH. by eauto.
Qed.

Lemma Join_cons sep x y l : Join (x :: y :: l) sep = x +:+ String sep (Join (y :: l) sep).
Proof. done. Qed.

(** Splitting and joining are inverse to each other. *)
Lemma Join_Split sep s : Join (Split sep s) sep = s.
Proof.
  induction s as [|c s IH]; simpl; [done|].
  destruct (Split_cons sep s) as (l & ls & Hs). rewrite Hs in *.
  destruct (Ascii.eqb_spec c sep) as [->|_]; [by rewrite Join_cons, IH|].
  destruct ls; [by rewrite <- IH|]. rewrite !Join_cons in *. by rewrite <- IH.
Qed.

Lemma Split_lacks sep s l : l ∈ Split sep s → lacks sep l = true.
Proof.
  revert l. induction s as [|c s IH]; simpl; intros l.
  - by intros ->%list_elem_of_singleton.
  - destruct (Split_cons sep s) as (x & xs & Hs). rewrite Hs in *.
    destruct (Ascii.eqb c sep) eqn:Hc.
    + intros [->|Hl]%elem_of_cons; [done|]. by apply IH.
    + intros [->|Hl]%elem_of_cons; simpl; [rewrite Hc; apply IH; by left|apply IH; by right].
Qed.

Lemma Split_id sep s : lacks sep s = true → Split sep s = [s].
Proof.
  induction s as [|c s IH]; simpl; [done|].
  intros [Hc Hs]%andb_true_iff. apply negb_true_iff in Hc. by rewrite Hc, IH.
Qed.

Lemma Split_app sep a b : Split sep (a +:+ String sep b) = Split sep a ++ Split sep b.
Proof.
  induction a as [|c a IH].
  - change ("" +:+ String sep b) with (String sep b). simpl. by rewrite Ascii.eqb_refl.
  - change (String c a +:+ String sep b) with (String c (a +:+ String sep b)). simpl. rewrite IH.
    destruct (Ascii.eqb c sep); [done|].
    by destruct (Split_cons sep a) as (l & ls & ->).
Qed.

(** Joined elements split into their lines. *)
Lemma Split_Join sep l : l ≠ [] → Split sep (Join l sep) = l ≫= Split sep.
Proof.
  induction l as [|x [|y l] IH]; intros H; [done|simpl; by rewrite app_nil_r|].
  rewrite Join_cons, Split_app, IH by done. done.
Qed.

Lemma Split_Join_bind sep l : l ≠ [] → Join (l ≫= Split sep) sep = Join l sep.
Proof. intros H. by rewrite <- Split_Join, Join_Split. Qed.

Lemma bind_Split_id sep l : Forall (λ x, lacks sep x = true) l → l ≫= Split sep = l.
Proof.
  induction 1 as [|x l Hx _ IH]; [done|]. rewrite bind_cons, IH. by rewrite (Split_id _ _ Hx).
Qed.

(** A match of a literal first piece starts with the literal. *)
Lemma matches_Lit l re s : MatchString (Lit l :: re) s = true → HasPrefix s l = true.
Proof. unfold MatchString. simpl. by destruct (HasPrefix s l). Qed.

Lemma Find_Match re s g : FindStringSubmatch re s = Some g → MatchString re s = true.
Proof. unfold FindStringSubmatch, MatchString. by destruct (matches re s). Qed.
