(* ===== verification/GoJson.v ===== *)
(** * JSON strings in Go

    What [encoding/json] does to a string: [json.Marshal] of a string (with
    the HTML escapes), and [json.Unmarshal] into a string.  Strings are byte
    strings; UTF-8 sequences are recognised as [utf8.DecodeRune] does. *)

From Stdlib Require Import ZifyBool.
From S2P Require Import Prelude GoLib.

Local Open Scope N_scope.

Definition code (c : ascii) : N := N_of_ascii c.
Definition between (lo n hi : N) : bool := (lo <=? n) && (n <=? hi).

(** ** UTF-8 *)

(** A continuation byte. *)
Definition cont (c : ascii) : bool := between 128 (code c) 191.

(** The second byte that the first one admits. *)
Definition second (a b : N) : bool :=
  if a =? 224 then between 160 b 191
  else if a =? 237 then between 128 b 159
  else if a =? 240 then between 144 b 191
  else if a =? 244 then between 128 b 143
  else between 128 b 191.

(** The length of the well-formed sequence of a rune outside ASCII at the head
    of the string, or 0. *)
Definition runeLength (s : string) : nat :=
  match s with
  | String a (String b s2) =>
      if between 194 (code a) 223 && second (code a) (code b) then 2
      else
        match s2 with
        | String c s3 =>
            if between 224 (code a) 239 && second (code a) (code b) && cont c then 3
            else
              match s3 with
              | String d _ =>
                  if between 240 (code a) 244 && second (code a) (code b) && cont c && cont d then 4
                  else 0
              | EmptyString => 0
              end
        | EmptyString => 0
        end
  | _ => 0
  end.

Fixpoint string_take (n : nat) (s : string) : string :=
  match n, s with
  | S n, String c s => String c (string_take n s)
  | _, _ => ""
  end.

(** [utf8.RuneError] as bytes, and [utf8.AppendRune]. *)
Definition byte (n : N) : ascii := ascii_of_N n.

Definition EncodeRune (r : N) : string :=
  if r <? 128 then String (byte r) ""
  else if r <? 2048 then String (byte (192 + r / 64)) (String (byte (128 + r mod 64)) "")
  else if r <? 65536 then
    String (byte (224 + r / 4096)) (String (byte (128 + r / 64 mod 64)) (String (byte (128 + r mod 64)) ""))
  else
    String (byte (240 + r / 262144)) (String (byte (128 + r / 4096 mod 64))
      (String (byte (128 + r / 64 mod 64)) (String (byte (128 + r mod 64)) ""))).

Definition RuneError : N := 65533.

(** ** Marshal *)

Definition hexDigit (n : N) : ascii := byte (if n <? 10 then 48 + n else 87 + n).

(** The escape of a byte below 128; [None] when it stands for itself. *)
Definition escapeOf (c : ascii) : option string :=
  let n := code c in
  if (n =? 92) || (n =? 34) then Some (String "092" (String c ""))
  else if n =? 8 then Some "\b"
  else if n =? 12 then Some "\f"
  else if n =? 10 then Some "\n"
  else if n =? 13 then Some "\r"
  else if n =? 9 then Some "\t"
  else if (n <? 32) || (n =? 60) || (n =? 62) || (n =? 38) then
    Some ("\u00" +:+ String (hexDigit (n / 16)) (String (hexDigit (n mod 16)) ""))
  else None.

(** One rune of the string: what it is written as, and the rest. *)
Definition quoteRune (c : ascii) (s : string) : string * string :=
  if code c <? 128 then (match escapeOf c with Some e => e | None => String c "" end, s)
  else
    match runeLength (String c s) with
    | O => ("\ufffd", s)
    | S n =>
        let rune := String c (string_take n s) in
        ((if String.eqb rune (String "226" (String "128" (String "168" ""))) then "\u2028"
          else if String.eqb rune (String "226" (String "128" (String "169" ""))) then "\u2029"
          else rune), string_drop n s)
    end.

(** Every round consumes a byte, so the length is enough fuel. *)
Fixpoint quoteBody (fuel : nat) (s : string) : string :=
  match fuel, s with
  | S fuel, String c s' => let '(out, rest) := quoteRune c s' in out +:+ quoteBody fuel rest
  | _, _ => ""
  end.

Definition dquote : ascii := "034"%char.

(** [json.Marshal] of a string; it never fails. *)
Definition MarshalString (s : string) : string :=
  String dquote (quoteBody (String.length s) s +:+ String dquote "").

(** ** Unmarshal *)

Definition hexValue (c : ascii) : option N :=
  let n := code c in
  if between 48 n 57 then Some (n - 48)
  else if between 97 n 102 then Some (n - 87)
  else if between 65 n 70 then Some (n - 55)
  else None.

Definition getHex4 (s : string) : option (N * string) :=
  match s with
  | String a (String b (String c (String d s))) =>
      match hexValue a, hexValue b, hexValue c, hexValue d with
      | Some a, Some b, Some c, Some d => Some (4096 * a + 256 * b + 16 * c + d, s)
      | _, _, _, _ => None
      end
  | _ => None
  end.

(** [getu4] *)
Definition getu4 (s : string) : option (N * string) :=
  match s with
  | String a (String b s) => if (code a =? 92) && (code b =? 117) then getHex4 s else None
  | _ => None
  end.

(** The rune of an escape [\uXXXX], joined with the following escape when the
    two are a surrogate pair; a lone surrogate is replaced. *)
Definition unicodeEscape (r : N) (s : string) : string * string :=
  if between 55296 r 57343 then
    match getu4 s with
    | Some (r1, s') =>
        if (r <? 56320) && between 56320 r1 57343
        then (EncodeRune ((r - 55296) * 1024 + (r1 - 56320) + 65536), s')
        else (EncodeRune RuneError, s)
    | None => (EncodeRune RuneError, s)
    end
  else (EncodeRune r, s).

(** One character of the literal after the opening quote: its bytes and the
    rest.  [None] is a syntax error. *)
Definition unquoteRune (c : ascii) (s : string) : option (string * string) :=
  let n := code c in
  if n <? 32 then None
  else if n =? 92 then
    match s with
    | EmptyString => None
    | String e s =>
        let m := code e in
        if (m =? 34) || (m =? 92) || (m =? 47) then Some (String e "", s)
        else if m =? 98 then Some (String (byte 8) "", s)
        else if m =? 102 then Some (String (byte 12) "", s)
        else if m =? 110 then Some (String (byte 10) "", s)
        else if m =? 114 then Some (String (byte 13) "", s)
        else if m =? 116 then Some (String (byte 9) "", s)
        else if m =? 117 then
          match getHex4 s with Some (r, s) => Some (unicodeEscape r s) | None => None end
        else None
    end
  else if n <? 128 then Some (String c "", s)
  else
    match runeLength (String c s) with
    | O => Some (EncodeRune RuneError, s)
    | S k => Some (String c (string_take k s), string_drop k s)
    end.

Fixpoint unquoteBody (fuel : nat) (s : string) : option (string * string) :=
  match fuel, s with
  | S fuel, String c s' =>
      if Ascii.eqb c dquote then Some ("", s')
      else
        match unquoteRune c s' with
        | None => None
        | Some (out, rest) =>
            match unquoteBody fuel rest with
            | None => None
            | Some (t, rest) => Some (out +:+ t, rest)
            end
        end
  | _, _ => None
  end.

(** JSON white space. *)
Fixpoint skipSpace (s : string) : string :=
  match s with
  | String c s' =>
      let n := code c in
      if (n =? 32) || (n =? 9) || (n =? 10) || (n =? 13) then skipSpace s' else s
  | EmptyString => ""
  end.

(** [json.Unmarshal] of the data into a string that is still empty: [None] is
    an error; [null] leaves the string alone. *)
Definition UnmarshalString (data : string) : option string :=
  let s := skipSpace data in
  if String.eqb (string_take 4 s) "null" && String.eqb (skipSpace (string_drop 4 s)) "" then Some ""
  else
    match s with
    | String c s' =>
        if Ascii.eqb c dquote then
          match unquoteBody (String.length s') s' with
          | Some (t, rest) => if String.eqb (skipSpace rest) "" then Some t else None
          | None => None
          end
        else None
    | EmptyString => None
    end.

(** ** Round trip *)

(** The string is well-formed UTF-8 ([utf8.ValidString]). *)
Fixpoint validBytes (fuel : nat) (s : string) : bool :=
  match fuel, s with
  | S fuel, String c s' =>
      if code c <? 128 then validBytes fuel s'
      else match runeLength s with O => false | S n => validBytes fuel (string_drop n s') end
  | O, String _ _ => false
  | _, EmptyString => true
  end.

Definition ValidString (s : string) : bool := validBytes (String.length s) s.

(** A byte below 128 and its escape are read back. *)
Lemma unquote_ascii c k :
  code c <? 128 = true →
  let out := match escapeOf c with Some e => e | None => String c "" end in
  ∃ d rest, out = String d rest ∧ Ascii.eqb d dquote = false ∧
    unquoteRune d (rest +:+ k) = Some (String c "", k).
Proof.
  destruct c as [[] [] [] [] [] [] [] []]; intros H; try discriminate H; clear H;
    do 2 eexists; (split; [reflexivity|]); split; reflexivity.
Qed.

Lemma string_take_drop n s : string_take n s +:+ string_drop n s = s.
Proof.
  revert s. induction n as [|n IH]; intros [|c s]; try done. exact (f_equal (String c) (IH s)).
Qed.

Lemma string_take_all s : string_take (String.length s) s = s.
Proof. induction s as [|c s IH]; [done|]. exact (f_equal (String c) IH). Qed.

(** A well-formed sequence is recognised whatever follows it. *)
Lemma runeLength_app c s n k :
  runeLength (String c s) = S n →
  let rune := string_take n s in
  runeLength (String c (rune +:+ k)) = S n ∧ string_take n (rune +:+ k) = rune ∧
  string_drop n (rune +:+ k) = k.
Proof.
  unfold runeLength. destruct s as [|b s]; [done|].
  destruct (between 194 (code c) 223 && second (code c) (code b)) eqn:H2.
  { intros [= <-]. simpl. by rewrite H2. }
  destruct s as [|d s]; [done|].
  destruct (between 224 (code c) 239 && second (code c) (code b) && cont d) eqn:H3.
  { intros [= <-]. simpl. by rewrite H2, H3. }
  destruct s as [|e s]; [done|].
  destruct (between 240 (code c) 244 && second (code c) (code b) && cont d && cont e) eqn:H4; [|done].
  intros [= <-]. simpl. by rewrite H2, H3, H4.
Qed.

(** The first byte of a longer sequence is no quote and no control character. *)
Lemma high_byte c : code c <? 128 = false →
  Ascii.eqb c dquote = false ∧ (code c <? 32) = false ∧ (code c =? 92) = false.
Proof.
  intros H. apply N.ltb_ge in H. split; [|split].
  - apply Ascii.eqb_neq. intros ->. by apply H.
  - apply N.ltb_ge. lia.
  - apply N.eqb_neq. lia.
Qed.

Lemma quoteRune_unquoted c s k :
  (code c <? 128 = true ∨ runeLength (String c s) ≠ O) →
  ∃ d out rest n, quoteRune c s = (String d out, rest) ∧ Ascii.eqb d dquote = false ∧
    s = string_take n s +:+ rest ∧ rest = string_drop n s ∧
    (if code c <? 128 then n = O else runeLength (String c s) = S n) ∧
    unquoteRune d (out +:+ k) = Some (String c (string_take n s), k).
Proof.
  intros Hvalid. unfold quoteRune. destruct (code c <? 128) eqn:Hlow.
  - destruct (unquote_ascii c k Hlow) as (d & out & Hout & Hd & Hu). rewrite Hout.
    exists d, out, s, O. done.
  - destruct Hvalid as [?|Hvalid]; [done|].
    destruct (runeLength (String c s)) as [|n] eqn:Hn; [done|].
    pose proof (string_take_drop n s) as Htd.
    destruct (high_byte c Hlow) as (Hq & H32 & H92).
    set (rune := String c (string_take n s)).
    destruct (String.eqb_spec rune (String "226" (String "128" (String "168" "")))) as [Heq|_];
      [|destruct (String.eqb_spec rune (String "226" (String "128" (String "169" "")))) as [Heq|_]].
    + exists "092"%char, "u2028", (string_drop n s), n. fold rune. rewrite Heq. by rewrite Htd.
    + exists "092"%char, "u2029", (string_drop n s), n. fold rune. rewrite Heq. by rewrite Htd.
    + exists c, (string_take n s), (string_drop n s), n. rewrite Htd. unfold unquoteRune.
      destruct (runeLength_app c s n k Hn) as (Hl & Ht & Hdr).
      rewrite H32, H92, Hlow, Hl, Ht, Hdr. done.
Qed.

Lemma string_drop_length n s : (String.length (string_drop n s) <= String.length s)%nat.
Proof.
  revert s. induction n as [|n IH]; intros [|c s]; simpl; [lia..|]. specialize (IH s). lia.
Qed.

#[local] Arguments runeLength : simpl never.

Lemma unquote_quote fuel fuel' s tail :
  (String.length s <= fuel)%nat → validBytes fuel s = true →
  (String.length (quoteBody fuel s) < fuel')%nat →
  unquoteBody fuel' (quoteBody fuel s +:+ String dquote tail) = Some (s, tail).
Proof.
  revert fuel' s. induction fuel as [|fuel IH]; intros fuel' [|c s] Hlen Hv Hf; simpl in *; try lia.
  - destruct fuel'; [lia|]. done.
  - destruct fuel'; [lia|]. done.
  - assert (code c <? 128 = true ∨ runeLength (String c s) ≠ O) as Hc.
    { revert Hv. destruct (code c <? 128); [by left|]. destruct (runeLength (String c s)); [done|].
      intros _. by right. }
    destruct (quoteRune c s) as [out rest] eqn:Hq.
    set (k := quoteBody fuel rest +:+ String dquote tail).
    destruct (quoteRune_unquoted c s k Hc) as (d & out' & rest' & n & Hq' & Hd & Hs & Hr & Hn & Hu).
    rewrite Hq in Hq'. injection Hq' as -> ->.
    destruct fuel' as [|fuel']; [lia|]. rewrite string_app_assoc. fold k.
    change (String d out' +:+ k) with (String d (out' +:+ k)). simpl. rewrite Hd, Hu.
    assert (validBytes fuel rest' = true) as Hv'.
    { revert Hv Hn. rewrite Hr. destruct (code c <? 128).
      - by intros Hv ->.
      - intros Hv Hn'. by rewrite Hn' in Hv. }
    change (String d out' +:+ quoteBody fuel rest') with (String d (out' +:+ quoteBody fuel rest')) in Hf.
    simpl in Hf. rewrite string_app_length in Hf. unfold k. rewrite IH; [|subst rest'|done|lia].
    + change (String c (string_take n s) +:+ rest') with (String c (string_take n s +:+ rest')).
      by rewrite <- Hs.
    + pose proof (string_drop_length n s). lia.
Qed.

(** A quotation mark starts no white space and not [null]. *)
Lemma quoted_head s : skipSpace (String dquote s) = String dquote s.
Proof. done. Qed.

Lemma quoted_not_null s : String.eqb (string_take 4 (String dquote s)) "null" = false.
Proof. done. Qed.

Lemma UnmarshalString_Marshal s : ValidString s = true → UnmarshalString (MarshalString s) = Some s.
Proof.
  intros Hv. unfold UnmarshalString, MarshalString. rewrite quoted_head, quoted_not_null.
  cbv iota. rewrite Ascii.eqb_refl, unquote_quote; [done|lia|exact Hv|].
  rewrite string_app_length. simpl. lia.
Qed.

(** ** What is read is well-formed *)

(** The bytes of one rune. *)
Definition isRune (out : string) : Prop :=
  match out with
  | String c r =>
      (code c <? 128 = true ∧ r = "") ∨
      (code c <? 128 = false ∧ runeLength out = S (String.length r))
  | EmptyString => False
  end.

Lemma validBytes_mono f f' s : validBytes f s = true → (f <= f')%nat → validBytes f' s = true.
Proof.
  revert f' s. induction f as [|f IH]; intros f' [|c s]; simpl; [by destruct f'|done|by destruct f'|].
  intros Hv Hf. destruct f' as [|f']; [lia|]. simpl.
  destruct (code c <? 128); [apply IH; [done|lia]|].
  destruct (runeLength (String c s)); [done|]. apply IH; [done|lia].
Qed.

Lemma ValidString_rune out s : isRune out → ValidString s = true → ValidString (out +:+ s) = true.
Proof.
  destruct out as [|c r]; [done|]. unfold ValidString. intros [[Hlow ->]|[Hlow Hr]] Hv.
  - simpl. by rewrite Hlow.
  - destruct (runeLength_app c r (String.length r) s Hr) as (Hl & _ & Hd).
    rewrite string_take_all in Hl, Hd.
    change (String c r +:+ s) with (String c (r +:+ s)). simpl. rewrite Hlow, Hl, Hd.
    eapply validBytes_mono; [exact Hv|]. rewrite string_app_length. lia.
Qed.

Lemma code_byte n : n < 256 → code (byte n) = n.
Proof. intros Hn. apply N_ascii_embedding, Hn. Qed.

(** Decide the comparisons of the goal by arithmetic. *)
Ltac bytes :=
  unfold cont, second, between; rewrite ?code_byte by lia;
  repeat match goal with
  | |- context [?a <? ?b] =>
      first [ rewrite (proj2 (N.ltb_lt a b)) by lia | rewrite (proj2 (N.ltb_ge a b)) by lia ]
  | |- context [?a <=? ?b] =>
      first [ rewrite (proj2 (N.leb_le a b)) by lia | rewrite (proj2 (N.leb_gt a b)) by lia ]
  | |- context [?a =? ?b] => destruct (N.eqb_spec a b)
  end; cbn [andb]; try reflexivity; try lia.

Lemma EncodeRune_isRune r : r < 1114112 → ¬ 55296 <= r <= 57343 → isRune (EncodeRune r).
Proof.
  intros Hmax Hsur. unfold EncodeRune.
  destruct (N.ltb_spec r 128) as [H1|H1]; [left; split; [by bytes|done]|].
  destruct (N.ltb_spec r 2048) as [H2|H2]; [|destruct (N.ltb_spec r 65536) as [H3|H3]];
    right; unfold runeLength; simpl.
  - set (a := r / 64) in *. set (b := r mod 64).
    assert (2 <= a < 32 ∧ b < 64) by (subst a b; zify; Z.to_euclidean_division_equations; lia).
    split; by bytes.
  - set (a := r / 4096) in *. set (b := r / 64 mod 64). set (d := r mod 64).
    assert (a < 16 ∧ b < 64 ∧ d < 64 ∧ (a = 0 → 32 <= b) ∧ (a = 13 → b < 32))
      by (subst a b d; zify; Z.to_euclidean_division_equations; lia).
    split; by bytes.
  - set (a := r / 262144) in *. set (b := r / 4096 mod 64). set (d := r / 64 mod 64). set (e := r mod 64).
    assert (a < 5 ∧ b < 64 ∧ d < 64 ∧ e < 64 ∧ (a = 0 → 16 <= b) ∧ (a = 4 → b < 16))
      by (subst a b d e; zify; Z.to_euclidean_division_equations; lia).
    split; by bytes.
Qed.

Lemma RuneError_isRune : isRune (EncodeRune RuneError).
Proof. right. split; reflexivity. Qed.

Lemma hexValue_bound c v : hexValue c = Some v → v < 16.
Proof.
  unfold hexValue, between.
  destruct ((48 <=? code c) && (code c <=? 57)) eqn:H1; [intros [= <-]; lia|].
  destruct ((97 <=? code c) && (code c <=? 102)) eqn:H2; [intros [= <-]; lia|].
  destruct ((65 <=? code c) && (code c <=? 70)) eqn:H3; [intros [= <-]; lia|done].
Qed.

Lemma getHex4_bound s r rest : getHex4 s = Some (r, rest) → r < 65536.
Proof.
  destruct s as [|a [|b [|c [|d s]]]]; try done. simpl.
  destruct (hexValue a) eqn:Ha; [|done]. destruct (hexValue b) eqn:Hb; [|done].
  destruct (hexValue c) eqn:Hc; [|done]. destruct (hexValue d) eqn:Hd; [|done].
  apply hexValue_bound in Ha, Hb, Hc, Hd. intros [= <- _]. lia.
Qed.

Lemma unicodeEscape_isRune r s : r < 65536 → isRune (unicodeEscape r s).1.
Proof.
  intros Hr. unfold unicodeEscape, between.
  destruct ((55296 <=? r) && (r <=? 57343)) eqn:Hs; [|apply EncodeRune_isRune; lia].
  destruct (getu4 s) as [[r1 s']|]; [|exact RuneError_isRune].
  destruct ((r <? 56320) && ((56320 <=? r1) && (r1 <=? 57343))) eqn:Hp; [|exact RuneError_isRune].
  apply EncodeRune_isRune; lia.
Qed.

(** A sequence cut out of the input is one rune. *)
Lemma isRune_take c s n :
  code c <? 128 = false → runeLength (String c s) = S n → isRune (String c (string_take n s)).
Proof.
  intros Hlow Hn. right. split; [done|].
  destruct (runeLength_app c s n "" Hn) as (Hl & _ & _). rewrite string_app_nil_r in Hl.
  rewrite Hl. f_equal. revert Hn. unfold runeLength.
  destruct s as [|b [|d [|e s]]]; repeat case_match; intros [= <-]; done.
Qed.

Lemma unquoteRune_isRune c s out rest : unquoteRune c s = Some (out, rest) → isRune out.
Proof.
  unfold unquoteRune. destruct (code c <? 32); [done|]. destruct (code c =? 92).
  - destruct s as [|e s]; [done|].
    destruct ((code e =? 34) || (code e =? 92) || (code e =? 47)) eqn:He.
    { intros [= <- _]. left. split; [lia|done]. }
    repeat (case_match; [intros [= <- _]; by left|]).
    destruct (code e =? 117); [|done]. destruct (getHex4 s) as [[r s']|] eqn:Hh; [|done].
    intros [= Hu]. apply getHex4_bound in Hh. pose proof (unicodeEscape_isRune r s' Hh) as Hr.
    by rewrite Hu in Hr.
  - destruct (code c <? 128) eqn:Hlow; [intros [= <- _]; by left|].
    destruct (runeLength (String c s)) as [|n] eqn:Hn; intros [= <- _].
    + exact RuneError_isRune.
    + by apply isRune_take.
Qed.

Lemma unquoteBody_valid fuel s t rest : unquoteBody fuel s = Some (t, rest) → ValidString t = true.
Proof.
  revert s t rest. induction fuel as [|fuel IH]; intros [|c s] t rest; simpl; try done.
  destruct (Ascii.eqb c dquote); [by intros [= <- _]|].
  destruct (unquoteRune c s) as [[out s']|] eqn:Hr; [|done].
  destruct (unquoteBody fuel s') as [[t' rest']|] eqn:Hb; [|done].
  intros [= <- _]. apply ValidString_rune; [by eapply unquoteRune_isRune|by eapply IH].
Qed.

(** What [json.Unmarshal] stores in a string is well-formed UTF-8, whatever
    the data. *)
Lemma UnmarshalString_valid data s : UnmarshalString data = Some s → ValidString s = true.
Proof.
  unfold UnmarshalString. case_match; [by intros [= <-]|]. destruct (skipSpace data) as [|c d]; [done|].
  destruct (Ascii.eqb c dquote); [|done].
  destruct (unquoteBody (String.length d) d) as [[t rest]|] eqn:Hb; [|done].
  case_match; [|done]. intros [= <-]. by eapply unquoteBody_valid.
Qed.
