(* ===== verification/RawTemplate.v ===== *)
(** * Templates in the API

    [RawTemplate] of [api/core/v1alpha1/replica_types.go]: a template that is
    given as a JSON string or as a JSON object or array, and is written back
    in the form in which it came.  [yaml.JSONToYAML] is a parameter. *)

From S2P Require Import Prelude GoLib GoJson.

Section RawTemplate.

(** [yaml.JSONToYAML]: an error or the YAML document. *)
Context (JSONToYAML : string → string + string).

(** The two fields; [None] is a nil slice. *)
Record RawTemplate := MkRawTemplate { value : string; rawJSON : option string }.

Definition NewRawTemplate (s : string) : RawTemplate := MkRawTemplate s None.

(** [RawTemplate.String] *)
Definition template_String (t : RawTemplate) : string := value t.

(** [append([]byte(nil), data...)]: nil when there is nothing to append. *)
Definition appendToNil (data : string) : option string :=
  match data with EmptyString => None | _ => Some data end.

(** The receiver afterwards, and the error. *)
Definition UnmarshalJSON (t : RawTemplate) (data : string) : RawTemplate * option string :=
  match UnmarshalString data with
  | Some s => (MkRawTemplate s None, None)
  | None =>
      match JSONToYAML data with
      | inl err => (t, Some err)
      | inr yamlData => (MkRawTemplate yamlData (appendToNil data), None)
      end
  end.

(** It never fails. *)
Definition MarshalJSON (t : RawTemplate) : string :=
  match rawJSON t with
  | Some raw => raw
  | None => MarshalString (value t)
  end.

Lemma unmarshal_string t s :
  ValidString s = true → UnmarshalJSON t (MarshalJSON (NewRawTemplate s)) = (NewRawTemplate s, None).
Proof.
  intros Hv. unfold UnmarshalJSON, MarshalJSON. simpl. by rewrite UnmarshalString_Marshal.
Qed.

(** C36: A template survives the API.  Data that is accepted is read into a
    template which, written and read again by any receiver, is the same
    template.  A JSON string becomes the plain template with that value; other
    data is kept to the byte, and the template engine gets its YAML form.
    Data that is refused leaves the receiver alone. *)
Theorem template_roundtrip t data t' err :
  data ≠ "" → UnmarshalJSON t data = (t', err) →
  match err with
  | None =>
      (∀ t0, UnmarshalJSON t0 (MarshalJSON t') = (t', None)) ∧
      match UnmarshalString data with
      | Some s => t' = NewRawTemplate s
      | None => MarshalJSON t' = data ∧ JSONToYAML data = inr (template_String t')
      end
  | Some e => t' = t ∧ JSONToYAML data = inl e
  end.
Proof.
  intros Hdata. unfold UnmarshalJSON at 1. destruct (UnmarshalString data) as [s|] eqn:Hs.
  - intros [= <- <-]. split; [|done]. intros t0.
    by apply unmarshal_string, (UnmarshalString_valid data).
  - destruct (JSONToYAML data) as [e|y] eqn:Hy; intros [= <- <-]; [done|].
    destruct data as [|c data]; [done|]. split; [|done]. intros t0.
    unfold UnmarshalJSON, MarshalJSON. simpl. by rewrite Hs, Hy.
Qed.

(** The other direction: a template made from valid UTF-8 is written as a JSON
    string and read back. *)
Theorem plain_template_roundtrip t s :
  ValidString s = true →
  UnmarshalString (MarshalJSON (NewRawTemplate s)) = Some s ∧
  UnmarshalJSON t (MarshalJSON (NewRawTemplate s)) = (NewRawTemplate s, None).
Proof. intros Hv. split; [by apply UnmarshalString_Marshal|by apply unmarshal_string]. Qed.

End RawTemplate.

(** ** Concrete data *)

(** A converter for the data of the examples. *)
Definition sampleYAML (data : string) : string + string :=
  if String.eqb data "{ }" then inr ("{}" +:+ String "010" "") else inl "yaml: invalid".

Definition emptyTemplate : RawTemplate := NewRawTemplate "".

(** An object with white space, a string with a surrogate pair escape and a
    broken document. *)
Lemma template_roundtrip_witness :
  let q := String dquote "" in
  let text := q +:+ "a\n\ud83d\ude00<" +:+ q in
  ("{ }" ≠ "" ∧ MarshalJSON (UnmarshalJSON sampleYAML emptyTemplate "{ }").1 = "{ }") ∧
  (∀ t0, UnmarshalJSON sampleYAML t0
           (MarshalJSON (UnmarshalJSON sampleYAML emptyTemplate text).1) =
         ((UnmarshalJSON sampleYAML emptyTemplate text).1, None)) ∧
  (UnmarshalJSON sampleYAML emptyTemplate "{").1 = emptyTemplate.
Proof.
  intros q text. split; [|split].
  - split; [done|].
    by refine (proj1 (proj2 (template_roundtrip sampleYAML emptyTemplate "{ }" _ _ _ eq_refl))).
  - refine (proj1 (template_roundtrip sampleYAML emptyTemplate text _ None _ _));
      [vm_compute; discriminate|vm_compute; reflexivity].
  - by refine (proj1 (template_roundtrip sampleYAML emptyTemplate "{" _ (Some "yaml: invalid") _ eq_refl)).
Defined.
