(* ===== verification/Effects.v ===== *)
(** * Programs that talk to their environment

    The controllers call the Kubernetes API server, the multicluster provider
    and the template engine.  None of that code is in the repository, so a
    handler is modelled as a tree of requests: [Vis e k] issues the request
    [e] and continues with [k r] for whatever response [r] comes back.  The
    trees are inductive, so every handler stops after finitely many requests
    under every environment.

    - [wp P p tr Q]: started after the history [tr], [p] only issues requests
      that [P] permits at that point of the history, and when it returns, [Q]
      holds of the final history and result, for every sequence of responses;
    - [exec p tr a]: [tr] is a history of [p] that ends with the result [a];
    - [run h p w]: execution against an environment [h] with state [w];
    - [M S A]: programs with a local state [S] and Go's control flow: a value,
      an early exit ([continue] or [return]) or a panic. *)

From S2P Require Import Prelude.

(** ** Request trees *)

Section Free.
Context {Req : Type} {Resp : Req → Type}.

Inductive Prog (A : Type) : Type :=
| Ret (a : A)
| Vis (e : Req) (k : Resp e → Prog A).

#[global] Arguments Ret {A} a.
#[global] Arguments Vis {A} e k.

Fixpoint prog_bind {A B} (p : Prog A) (f : A → Prog B) : Prog B :=
  match p with
  | Ret a => f a
  | Vis e k => Vis e (λ r, prog_bind (k r) f)
  end.

Definition trigger (e : Req) : Prog (Resp e) := Vis e Ret.

(** A request together with the response it got. *)
Record Event := Ev { ev_req : Req; ev_resp : Resp ev_req }.

Abbreviation History := (list Event).

Fixpoint wp (P : History → Req → Prop) {A} (p : Prog A) (tr : History)
    (Q : History → A → Prop) : Prop :=
  match p with
  | Ret a => Q tr a
  | Vis e k => P tr e ∧ ∀ r, wp P (k r) (tr ++ [Ev e r]) Q
  end.

(** [p] issues only requests that [P] permits. *)
Definition respects (P : History → Req → Prop) {A} (p : Prog A) : Prop :=
  wp P p [] (λ _ _, True).

(** Every history and result of [p] satisfies [Q]. *)
Definition always {A} (p : Prog A) (Q : History → A → Prop) : Prop :=
  wp (λ _ _, True) p [] Q.

Inductive exec {A} : Prog A → History → A → Prop :=
| exec_ret a : exec (Ret a) [] a
| exec_vis e k r tr a : exec (k r) tr a → exec (Vis e k) (Ev e r :: tr) a.

(** Every request of the history was permitted when it was issued. *)
Definition permitted (P : History → Req → Prop) (tr : History) : Prop :=
  ∀ pre ev post, tr = pre ++ ev :: post → P pre (ev_req ev).

Fixpoint run {W A} (h : ∀ e : Req, W → W * Resp e) (p : Prog A) (w : W) : W * History * A :=
  match p with
  | Ret a => (w, [], a)
  | Vis e k =>
      let '(w1, r) := h e w in
      let '(w2, tr, a) := run h (k r) w1 in
      (w2, Ev e r :: tr, a)
  end.

Lemma wp_bind P {A B} (p : Prog A) (f : A → Prog B) tr Q :
  wp P p tr (λ tr' a, wp P (f a) tr' Q) → wp P (prog_bind p f) tr Q.
Proof.
  revert tr. induction p as [a|e k IH]; intros tr; simpl; [done|].
  intros [HP Hk]. split; [done|]. intros r. by apply IH.
Qed.

Lemma wp_mono P P' {A} (p : Prog A) tr (Q Q' : History → A → Prop) :
  (∀ tr' e, P tr' e → P' tr' e) → (∀ tr' a, Q tr' a → Q' tr' a) →
  wp P p tr Q → wp P' p tr Q'.
Proof.
  intros HP HQ. revert tr. induction p as [a|e k IH]; intros tr; simpl; [auto|].
  intros [H Hk]. split; [auto|]. intros r. by apply IH.
Qed.

Lemma wp_and P {A} (p : Prog A) tr (Q Q' : History → A → Prop) :
  wp P p tr Q → wp P p tr Q' → wp P p tr (λ tr' a, Q tr' a ∧ Q' tr' a).
Proof.
  revert tr. induction p as [a|e k IH]; intros tr; simpl; [done|].
  intros [HP Hk] [_ Hk']. split; [done|]. intros r. by apply IH.
Qed.

(** The history only grows. *)
Lemma wp_prefix P {A} (p : Prog A) tr Q :
  wp P p tr Q → wp P p tr (λ tr' a, Q tr' a ∧ tr `prefix_of` tr').
Proof.
  assert (∀ tr0 tr, tr0 `prefix_of` tr → wp P p tr Q →
            wp P p tr (λ tr' a, Q tr' a ∧ tr0 `prefix_of` tr')) as Hgen.
  { intros tr0. induction p as [a|e k IH]; intros tr1 Hpre; simpl; [done|].
    intros [HP Hk]. split; [done|]. intros r. apply IH; [|done].
    by apply prefix_app_r. }
  by apply Hgen.
Qed.

(** Every request the program adds to the history is a permitted one. *)
Lemma wp_requests P (R : Req → Prop) {A} (p : Prog A) tr Q :
  (∀ tr' e, P tr' e → R e) → wp P p tr Q →
  wp P p tr (λ tr' a, Q tr' a ∧ ∃ k, tr' = tr ++ k ∧ Forall (λ ev, R (ev_req ev)) k).
Proof.
  intros HR. revert tr. induction p as [a|e k IH]; intros tr; simpl.
  - intros HQ. split; [done|]. exists []. by rewrite app_nil_r.
  - intros [HP Hk]. split; [done|]. intros r. eapply wp_mono; [done| |by apply IH].
    intros tr' a [HQ (l & -> & Hl)]. split; [done|]. exists (Ev e r :: l).
    split; [by rewrite <- app_assoc|]. constructor; [by eapply HR|done].
Qed.

(** Requests are issued after histories that extend the initial one. *)
Lemma wp_extends P {A} (p : Prog A) tr Q :
  wp P p tr Q → wp (λ tr' e, P tr' e ∧ tr `prefix_of` tr') p tr Q.
Proof.
  assert (∀ tr0 tr, tr0 `prefix_of` tr → wp P p tr Q →
            wp (λ tr' e, P tr' e ∧ tr0 `prefix_of` tr') p tr Q) as Hgen.
  { intros tr0. induction p as [a|e k IH]; intros tr1 Hpre; simpl; [done|].
    intros [HP Hk]. split; [done|]. intros r. apply IH; [|done].
    by apply prefix_app_r. }
  by apply Hgen.
Qed.

Lemma wp_trivial P {A} (p : Prog A) tr Q :
  (∀ tr' e, P tr' e) → (∀ tr' a, Q tr' a) → wp P p tr Q.
Proof. intros HP HQ. revert tr. induction p as [a|e k IH]; intros tr; simpl; auto. Qed.

Lemma wp_exec P {A} (p : Prog A) tr0 Q :
  wp P p tr0 Q → ∀ tr a, exec p tr a →
  Q (tr0 ++ tr) a ∧ ∀ pre ev post, tr = pre ++ ev :: post → P (tr0 ++ pre) (ev_req ev).
Proof.
  intros Hwp tr a Hex. revert tr0 Hwp.
  induction Hex as [a|e k r tr a Hex IH]; intros tr0; simpl.
  - intros HQ. rewrite app_nil_r. split; [done|]. intros [|? ?] ev post; done.
  - intros [HP Hk]. destruct (IH _ (Hk r)) as [HQ Hperm].
    rewrite <- app_assoc in HQ. split; [done|].
    intros [|ev' pre] ev post [= <- Heq].
    + by rewrite app_nil_r.
    + pose proof (Hperm _ _ _ Heq) as H. by rewrite <- app_assoc in H.
Qed.

Lemma run_exec {W A} (h : ∀ e : Req, W → W * Resp e) (p : Prog A) w :
  exec p (run h p w).1.2 (run h p w).2.
Proof.
  revert w. induction p as [a|e k IH]; intros w; simpl; [constructor|].
  destruct (h e w) as [w1 r]. specialize (IH r w1).
  destruct (run h (k r) w1) as [[w2 tr] a]. by constructor.
Qed.

(** Every program has an execution against every environment. *)
Lemma exec_total {W A} (h : ∀ e : Req, W → W * Resp e) (p : Prog A) (w : W) :
  ∃ tr a, exec p tr a.
Proof. do 2 eexists. apply (run_exec h p w). Qed.

(** Inversion of an execution along its program. *)
Lemma exec_inv {A} (p : Prog A) tr a :
  exec p tr a →
  match p with
  | Ret b => tr = [] ∧ a = b
  | Vis e k => ∃ r tr', tr = Ev e r :: tr' ∧ exec (k r) tr' a
  end.
Proof. intros []; [done|by do 2 eexists]. Qed.

(** An execution of a sequence splits into executions of its parts. *)
Lemma exec_bind {A B} (p : Prog A) (f : A → Prog B) tr b :
  exec (prog_bind p f) tr b →
  ∃ tr1 a tr2, tr = tr1 ++ tr2 ∧ exec p tr1 a ∧ exec (f a) tr2 b.
Proof.
  revert tr. induction p as [a|e k IH]; intros tr; simpl.
  - intros Hex. exists [], a, tr. split; [done|]. split; [constructor|done].
  - intros (r & tr' & -> & Hex)%exec_inv. destruct (IH r tr' Hex) as (tr1 & a & tr2 & -> & H1 & H2).
    exists (Ev e r :: tr1), a, tr2. split; [done|]. split; [by constructor|done].
Qed.

Lemma exec_bind_intro {A B} (p : Prog A) (f : A → Prog B) tr1 a tr2 b :
  exec p tr1 a → exec (f a) tr2 b → exec (prog_bind p f) (tr1 ++ tr2) b.
Proof. induction 1; intros; simpl; [done|constructor; auto]. Qed.

(** The calculus is complete for histories as well: what holds of every
    execution can be established with [wp]. *)
Lemma exec_wp {A} (p : Prog A) tr0 (Q : History → A → Prop) :
  (∀ tr a, exec p tr a → Q (tr0 ++ tr) a) → wp (λ _ _, True) p tr0 Q.
Proof.
  revert tr0. induction p as [a|e k IH]; intros tr0 H; simpl.
  - specialize (H [] a (exec_ret a)). by rewrite app_nil_r in H.
  - split; [done|]. intros r. apply IH. intros tr a Hex.
    rewrite <- app_assoc. apply H. by constructor.
Qed.

Lemma respects_exec P {A} (p : Prog A) :
  respects P p → ∀ tr a, exec p tr a → permitted P tr.
Proof.
  intros H tr a Hex pre ev post Heq.
  destruct (wp_exec _ _ _ _ H tr a Hex) as [_ Hp]. by apply (Hp pre ev post).
Qed.

Lemma always_exec {A} (p : Prog A) Q :
  always p Q → ∀ tr a, exec p tr a → Q tr a.
Proof. intros H tr a Hex. by destruct (wp_exec _ _ _ _ H tr a Hex). Qed.

End Free.

#[global] Arguments Prog {Req} Resp A.
#[global] Arguments Event {Req} Resp.
#[global] Arguments Ev {Req Resp} ev_req ev_resp.
#[global] Arguments ev_req {Req Resp} e.
#[global] Arguments ev_resp {Req Resp} e.
#[global] Arguments exec {Req Resp A} p tr a.

(** ** Local state and Go's control flow *)

(** [Stop] is an early exit: [continue] inside a loop body, [return] inside a
    function whose result is its state. *)
Inductive Flow (A : Type) : Type :=
| Next (a : A)
| Stop
| Panic (reason : string).
#[global] Arguments Next {A} a.
#[global] Arguments Stop {A}.
#[global] Arguments Panic {A} reason.

Section StateFlow.
Context {Req : Type} {Resp : Req → Type} {S : Type}.

Definition M (A : Type) : Type := S → Prog Resp (S * Flow A).

Definition ret {A} (a : A) : M A := λ s, Ret (s, Next a).
Definition stop {A} : M A := λ s, Ret (s, Stop).
Definition panic {A} (reason : string) : M A := λ s, Ret (s, Panic reason).
Definition get : M S := λ s, Ret (s, Next s).
Definition gets {A} (f : S → A) : M A := λ s, Ret (s, Next (f s)).
Definition modify (f : S → S) : M unit := λ s, Ret (f s, Next tt).
Definition call (e : Req) : M (Resp e) := λ s, Vis e (λ r, Ret (s, Next r)).

Definition bind {A B} (m : M A) (f : A → M B) : M B :=
  λ s, prog_bind (m s) (λ '(s', fl),
    match fl with
    | Next a => f a s'
    | Stop => Ret (s', Stop)
    | Panic why => Ret (s', Panic why)
    end).

(** Run a function body: its early [return] ends the body only. *)
Definition scope (m : M unit) : M unit :=
  λ s, prog_bind (m s) (λ '(s', fl),
    match fl with
    | Panic why => Ret (s', Panic why)
    | _ => Ret (s', Next tt)
    end).

(** [for _, x := range l { body }]: [continue] ends one iteration. *)
Fixpoint for_each {X} (l : list X) (body : X → M unit) : M unit :=
  match l with
  | [] => ret tt
  | x :: l' => bind (scope (body x)) (λ _, for_each l' body)
  end.

(** The same loop where an early exit of the body is a [return] of the
    enclosing function. *)
Fixpoint for_each_return {X} (l : list X) (body : X → M unit) : M unit :=
  match l with
  | [] => ret tt
  | x :: l' => bind (body x) (λ _, for_each_return l' body)
  end.

(** Weakest precondition of a stateful program. *)
Definition mwp (P : list (Event Resp) → Req → Prop) {A} (m : M A) (s : S)
    (tr : list (Event Resp)) (Q : list (Event Resp) → S → Flow A → Prop) : Prop :=
  wp P (m s) tr (λ tr' '(s', fl), Q tr' s' fl).

Lemma mwp_permit P P' {A} (m : M A) s tr (Q : list (Event Resp) → S → Flow A → Prop) :
  (∀ tr' e, tr `prefix_of` tr' → P tr' e → P' tr' e) → mwp P m s tr Q → mwp P' m s tr Q.
Proof.
  intros HP H. eapply wp_mono, wp_extends, H; [|done].
  intros tr' e [? ?]. by apply HP.
Qed.

Context (P : list (Event Resp) → Req → Prop).

Lemma mwp_bind {A B} (m : M A) (f : A → M B) s tr Q :
  mwp P m s tr (λ tr' s' fl,
    match fl with
    | Next a => mwp P (f a) s' tr' Q
    | Stop => Q tr' s' Stop
    | Panic why => Q tr' s' (Panic why)
    end) →
  mwp P (bind m f) s tr Q.
Proof.
  intros H. apply wp_bind. eapply wp_mono, H; [done|].
  intros tr' [s' [a| |why]]; done.
Qed.

Lemma mwp_mono {A} (m : M A) s tr (Q Q' : _ → _ → _ → Prop) :
  (∀ tr' s' fl, Q tr' s' fl → Q' tr' s' fl) →
  mwp P m s tr Q → mwp P m s tr Q'.
Proof. intros HQ. apply wp_mono; [done|]. intros tr' [s' fl]. apply HQ. Qed.

Lemma mwp_and {A} (m : M A) s tr (Q Q' : _ → _ → _ → Prop) :
  mwp P m s tr Q → mwp P m s tr Q' →
  mwp P m s tr (λ tr' s' fl, Q tr' s' fl ∧ Q' tr' s' fl).
Proof.
  intros H H'. eapply wp_mono, (wp_and _ _ _ _ _ H H'); [done|].
  intros tr' [s' fl]. done.
Qed.

Lemma mwp_prefix {A} (m : M A) s tr (Q : _ → _ → _ → Prop) :
  mwp P m s tr Q →
  mwp P m s tr (λ tr' s' fl, Q tr' s' fl ∧ tr `prefix_of` tr').
Proof.
  intros H. eapply wp_mono, wp_prefix, H; [done|]. intros tr' [s' fl]. done.
Qed.

Lemma mwp_requests (R : Req → Prop) {A} (m : M A) s tr (Q : _ → _ → _ → Prop) :
  (∀ tr' e, P tr' e → R e) → mwp P m s tr Q →
  mwp P m s tr (λ tr' s' fl, Q tr' s' fl ∧ ∃ k, tr' = tr ++ k ∧ Forall (λ ev, R (ev_req ev)) k).
Proof.
  intros HR H. eapply wp_mono, (wp_requests _ _ _ _ _ HR H); [done|]. intros tr' [s' fl]. done.
Qed.

Lemma mwp_trivial {A} (m : M A) s tr (Q : list (Event Resp) → S → Flow A → Prop) :
  (∀ tr' e, P tr' e) → (∀ tr' s' fl, Q tr' s' fl) → mwp P m s tr Q.
Proof. intros HP HQ. apply wp_trivial; [done|]. intros tr' [s' fl]. apply HQ. Qed.

Lemma mwp_ret {A} (a : A) s tr Q : Q tr s (Next a) → mwp P (ret a) s tr Q.
Proof. done. Qed.
Lemma mwp_stop {A} s tr (Q : _ → _ → Flow A → Prop) : Q tr s Stop → mwp P stop s tr Q.
Proof. done. Qed.
Lemma mwp_panic {A} why s tr (Q : _ → _ → Flow A → Prop) :
  Q tr s (Panic why) → mwp P (panic why) s tr Q.
Proof. done. Qed.
Lemma mwp_get s tr Q : Q tr s (Next s) → mwp P get s tr Q.
Proof. done. Qed.
Lemma mwp_gets {A} (f : S → A) s tr Q : Q tr s (Next (f s)) → mwp P (gets f) s tr Q.
Proof. done. Qed.
Lemma mwp_modify f s tr Q : Q tr (f s) (Next tt) → mwp P (modify f) s tr Q.
Proof. done. Qed.
Lemma mwp_call e s tr Q :
  P tr e → (∀ r, Q (tr ++ [Ev e r]) s (Next r)) → mwp P (call e) s tr Q.
Proof. done. Qed.

Lemma mwp_scope m s tr Q :
  mwp P m s tr (λ tr' s' fl,
    match fl with
    | Panic why => Q tr' s' (Panic why)
    | _ => Q tr' s' (Next tt)
    end) →
  mwp P (scope m) s tr Q.
Proof.
  intros H. apply wp_bind. eapply wp_mono, H; [done|].
  intros tr' [s' [a| |why]]; done.
Qed.

(** Loop rule: [I] is kept by every iteration, whether it ends normally, by
    [continue] or in a panic; with [Safe] the iterations do not panic. *)
Lemma mwp_for_each {X} (l : list X) body s tr
    (I : list (Event Resp) → S → Prop) (Safe : Prop) :
  (∀ x tr' s', x ∈ l → I tr' s' →
     mwp P (body x) s' tr' (λ tr'' s'' fl,
       I tr'' s'' ∧ (Safe → ∀ why, fl ≠ Panic why))) →
  I tr s →
  mwp P (for_each l body) s tr (λ tr' s' fl,
    I tr' s' ∧ (Safe → fl = Next tt) ∧ fl ≠ Stop).
Proof.
  revert s tr. induction l as [|x l IH]; intros s tr Hbody HI; simpl.
  - apply mwp_ret. by split.
  - apply mwp_bind, mwp_scope.
    eapply mwp_mono; [|apply Hbody; [by left|done]].
    intros tr' s' fl [HI' Hsafe]. destruct fl as [[]| |why].
    + apply IH; [|done]. intros y tr'' s'' Hy. apply Hbody. by right.
    + apply IH; [|done]. intros y tr'' s'' Hy. apply Hbody. by right.
    + split; [done|]. split; [|done]. intros HS. by destruct (Hsafe HS why).
Qed.

(** The general rule: a panic of the body is a panic of the loop. *)
Lemma mwp_for_each_panic {X} (l : list X) body s tr (I : list (Event Resp) → S → Prop)
    (B : list (Event Resp) → S → string → Prop) :
  (∀ x tr' s', x ∈ l → I tr' s' →
     mwp P (body x) s' tr' (λ tr'' s'' fl,
       match fl with Panic why => B tr'' s'' why | _ => I tr'' s'' end)) →
  I tr s →
  mwp P (for_each l body) s tr (λ tr' s' fl,
    match fl with Next _ => I tr' s' | Stop => False | Panic why => B tr' s' why end).
Proof.
  revert s tr. induction l as [|x l IH]; intros s tr Hbody HI; simpl.
  - by apply mwp_ret.
  - apply mwp_bind, mwp_scope.
    eapply mwp_mono; [|apply Hbody; [by left|done]].
    intros tr' s' fl HI'. destruct fl as [[]| |why]; [| |done];
      (apply IH; [|done]; intros y tr'' s'' Hy; apply Hbody; by right).
Qed.

(** The rule for safety properties: nothing is claimed of panics, and the body
    knows that the history extends the one at the start of the loop. *)
Lemma mwp_for_each_safe {X} (l : list X) body s tr (I : list (Event Resp) → S → Prop) :
  (∀ x tr' s', x ∈ l → tr `prefix_of` tr' → I tr' s' →
     mwp P (body x) s' tr' (λ tr'' s'' _, I tr'' s'')) →
  I tr s →
  mwp P (for_each l body) s tr (λ tr' s' fl, I tr' s' ∧ tr `prefix_of` tr' ∧ fl ≠ Stop).
Proof.
  intros Hbody HI.
  eapply mwp_mono; [|apply (mwp_for_each l body s tr (λ tr' s', I tr' s' ∧ tr `prefix_of` tr') False)].
  - intros tr' s' fl. cbn. tauto.
  - intros x tr' s' Hx [HI' Hpre].
    eapply mwp_mono; [|apply mwp_prefix, Hbody; done].
    intros tr'' s'' fl [? ?]. split; [|done]. split; [done|]. by etrans.
  - done.
Qed.

(** The same rule with an invariant that follows the traversal: [I done rest]. *)
Lemma mwp_for_each_prefix {X} (l : list X) body s tr
    (I : list X → list (Event Resp) → S → Prop) :
  (∀ pre x post tr' s', l = pre ++ x :: post → I pre tr' s' →
     mwp P (body x) s' tr' (λ tr'' s'' fl,
       I (pre ++ [x]) tr'' s'' ∧ ∀ why, fl ≠ Panic why)) →
  I [] tr s →
  mwp P (for_each l body) s tr (λ tr' s' fl, I l tr' s' ∧ fl = Next tt).
Proof.
  assert (∀ done todo, l = done ++ todo →
    (∀ pre x post tr' s', l = pre ++ x :: post → I pre tr' s' →
     mwp P (body x) s' tr' (λ tr'' s'' fl,
       I (pre ++ [x]) tr'' s'' ∧ ∀ why, fl ≠ Panic why)) →
    ∀ s tr, I done tr s →
    mwp P (for_each todo body) s tr (λ tr' s' fl, I l tr' s' ∧ fl = Next tt)) as Hgen.
  { intros dn todo. revert dn. induction todo as [|x todo IH];
      intros dn -> Hbody s' tr' HI; simpl.
    - apply mwp_ret. by rewrite app_nil_r.
    - apply mwp_bind, mwp_scope.
      eapply mwp_mono; [|by eapply Hbody].
      intros tr'' s'' fl [HI' Hnp].
      assert (dn ++ x :: todo = (dn ++ [x]) ++ todo) as Heq by by rewrite <- app_assoc.
      destruct fl as [[]| |why]; [| |by destruct (Hnp why)];
        exact (IH (dn ++ [x]) Heq Hbody _ _ HI'). }
  intros Hbody HI. by apply (Hgen [] l).
Qed.

(** With an invariant that follows the traversal, and panics. *)
Lemma mwp_for_each_visit {X} (l : list X) body s tr
    (I : list X → list (Event Resp) → S → Prop) (B : list (Event Resp) → S → string → Prop) :
  (∀ pre x tr' s', I pre tr' s' →
     mwp P (body x) s' tr' (λ tr'' s'' fl,
       match fl with Panic why => B tr'' s'' why | _ => I (pre ++ [x]) tr'' s'' end)) →
  I [] tr s →
  mwp P (for_each l body) s tr (λ tr' s' fl,
    match fl with Next _ => I l tr' s' | Stop => False | Panic why => B tr' s' why end).
Proof.
  intros Hbody.
  assert (∀ todo dn s tr, I dn tr s →
    mwp P (for_each todo body) s tr (λ tr' s' fl,
      match fl with Next _ => I (dn ++ todo) tr' s' | Stop => False | Panic why => B tr' s' why end)) as H.
  { intros todo. induction todo as [|x todo IH]; intros dn s' tr' HI; simpl.
    - apply mwp_ret. by rewrite app_nil_r.
    - apply mwp_bind, mwp_scope. eapply mwp_mono; [|by apply Hbody].
      intros tr'' s'' fl HI'. specialize (IH (dn ++ [x]) s'' tr'').
      rewrite <- app_assoc in IH. destruct fl as [[]| |why]; [by apply IH..|done]. }
  by apply (H l []).
Qed.

(** Loop rule for [for_each_return]. *)
Lemma mwp_for_each_return {X} (l : list X) body s tr
    (I : list X → list (Event Resp) → S → Prop) (Q : list (Event Resp) → S → Flow unit → Prop) :
  (∀ pre x post tr' s', l = pre ++ x :: post → I pre tr' s' →
     mwp P (body x) s' tr' (λ tr'' s'' fl,
       match fl with Next _ => I (pre ++ [x]) tr'' s'' | _ => Q tr'' s'' fl end)) →
  (∀ tr' s', I l tr' s' → Q tr' s' (Next tt)) →
  I [] tr s →
  mwp P (for_each_return l body) s tr Q.
Proof.
  intros Hbody HQ.
  assert (∀ todo dn, l = dn ++ todo → ∀ s tr, I dn tr s →
    mwp P (for_each_return todo body) s tr Q) as Hgen.
  { intros todo. induction todo as [|x todo IH]; intros dn Heq s' tr' HI; simpl.
    - apply mwp_ret, HQ. by rewrite Heq, app_nil_r.
    - apply mwp_bind. eapply mwp_mono; [|by eapply Hbody].
      intros tr'' s'' fl. destruct fl as [[]| |why]; [|done|done].
      apply IH. by rewrite <- app_assoc. }
  by apply (Hgen l []).
Qed.

(** What the weakest precondition says about a run from the start. *)
Lemma mwp_exec {A} (m : M A) s Q tr s' fl :
  mwp P m s [] Q → exec (m s) tr (s', fl) → Q tr s' fl ∧ permitted P tr.
Proof.
  intros Hwp Hex. destruct (wp_exec _ _ _ _ Hwp tr (s', fl) Hex) as [HQ HP]. by split.
Qed.

End StateFlow.

(** Run a program with its own local state inside one with another state. *)
Definition local {Req} {Resp : Req → Type} {S S' A}
    (m : S' → Prog Resp (S' * Flow A)) (s' : S') : S → Prog Resp (S * Flow (S' * Flow A)) :=
  λ s, prog_bind (m s') (λ r, Ret (s, Next r)).

Lemma mwp_local {Req} {Resp : Req → Type} {S S' A} P
    (m : S' → Prog Resp (S' * Flow A)) (s' : S') (s : S) tr
    (Q : list (Event Resp) → S → Flow (S' * Flow A) → Prop) :
  mwp P m s' tr (λ tr' s'' fl, Q tr' s (Next (s'', fl))) →
  mwp P (local m s') s tr Q.
Proof.
  intros H. apply wp_bind. eapply wp_mono, H; [done|]. intros tr' [s'' fl]. done.
Qed.

#[global] Arguments M {Req} Resp S A.

Declare Scope prog_scope.
Delimit Scope prog_scope with prog.
Notation "'let!' x := m 'in' k" := (bind m (λ x, k))
  (at level 10, x pattern, m at level 100, k at level 200) : prog_scope.
Notation "m ;;; k" := (bind m (λ _, k))
  (at level 199, right associativity) : prog_scope.

#[global] Opaque mwp.

(** One step of the calculus on the head of a stateful program. *)
Ltac mwp_step :=
  lazymatch goal with
  | |- mwp _ (bind _ _) _ _ _ => apply mwp_bind
  | |- mwp _ (ret _) _ _ _ => apply mwp_ret
  | |- mwp _ stop _ _ _ => apply mwp_stop
  | |- mwp _ (panic _) _ _ _ => apply mwp_panic
  | |- mwp _ get _ _ _ => apply mwp_get
  | |- mwp _ (gets _) _ _ _ => apply mwp_gets
  | |- mwp _ (modify _) _ _ _ => apply mwp_modify
  | |- mwp ?P (call ?e) _ _ _ => refine (mwp_call P e _ _ _ _ _); [|intros ?]
  | |- mwp _ (scope _) _ _ _ => apply mwp_scope
  | |- mwp _ (match ?x with _ => _ end) _ _ _ => destruct x eqn:?
  end; cbv beta iota.
