(* ===== verification/ApiTypes.v ===== *)
(** * The API types of [api/core/v1alpha1]

    The custom resources and their constants: [constants.go], [policies.go],
    [replica_types.go] and [cluster_replica_types.go], together with the
    data shapes of the imported API packages that the code reads or writes
    (object references, conditions, Cluster and Namespace objects,
    [unstructured.Unstructured]).  Imported types carry the fields the
    repository touches; their methods are parameters (file [External]). *)

From S2P Require Import Prelude GoLib.

(** ** Shapes of imported types *)

(** [metav1.GroupVersionKind] / [schema.GroupVersionKind] *)
Record GroupVersionKind := GVK { gvk_Group : string; gvk_Version : string; gvk_Kind : string }.

(** [types.NamespacedName] *)
Record NamespacedName := MkNN { nn_Namespace : string; nn_Name : string }.

(** [commonapi.ObjectReference] *)
Record ObjectReference := MkRef { ref_Namespace : string; ref_Name : string }.

(** [commonapi.TypedObjectReference]: GVK, name and optional namespace. *)
Record TypedObjectReference := MkTRef {
  tref_GVK : GroupVersionKind;
  tref_Namespace : string;
  tref_Name : string }.

#[export] Instance GroupVersionKind_eq_dec : EqDecision GroupVersionKind.
Proof. solve_decision. Defined.
#[export] Instance NamespacedName_eq_dec : EqDecision NamespacedName.
Proof. solve_decision. Defined.
#[export] Instance ObjectReference_eq_dec : EqDecision ObjectReference.
Proof. solve_decision. Defined.
#[export] Instance TypedObjectReference_eq_dec : EqDecision TypedObjectReference.
Proof. solve_decision. Defined.

#[export] Instance GroupVersionKind_countable : Countable GroupVersionKind.
Proof.
  refine (inj_countable' (λ g, (gvk_Group g, gvk_Version g, gvk_Kind g))
                         (λ '(a, b, c), GVK a b c) _). by intros [].
Defined.
#[export] Instance NamespacedName_countable : Countable NamespacedName.
Proof.
  refine (inj_countable' (λ n, (nn_Namespace n, nn_Name n)) (λ '(a, b), MkNN a b) _).
  by intros [].
Defined.
#[export] Instance ObjectReference_countable : Countable ObjectReference.
Proof.
  refine (inj_countable' (λ r, (ref_Namespace r, ref_Name r)) (λ '(a, b), MkRef a b) _).
  by intros [].
Defined.
#[export] Instance TypedObjectReference_countable : Countable TypedObjectReference.
Proof.
  refine (inj_countable' (λ r, (tref_GVK r, tref_Namespace r, tref_Name r))
                         (λ '(a, b, c), MkTRef a b c) _). by intros [].
Defined.

(** The zero value [commonapi.ObjectReference{}]: the hosting platform cluster. *)
Definition zeroRef : ObjectReference := MkRef "" "".

(** Timestamps ([metav1.Time], [time.Time]): nanoseconds after the zero time.
    [IsZero] holds of a nil pointer and of the zero time. *)
Abbreviation Time := Z.
Definition IsZero (t : option Time) : bool :=
  match t with None => true | Some z => Z.eqb z 0 end.

(** [time.Duration] in nanoseconds. *)
Definition Second : Z := 1000000000.
Definition Hour : Z := 3600 * Second.

(** [metav1.ConditionStatus] *)
Inductive ConditionStatus := ConditionTrue | ConditionFalse | ConditionUnknown.
#[export] Instance ConditionStatus_eq_dec : EqDecision ConditionStatus.
Proof. solve_decision. Defined.

(** [metav1.Condition] *)
Record Condition := MkCond {
  con_Type : string;
  con_Status : ConditionStatus;
  con_Reason : string;
  con_Message : string }.

(** Manifest values below the top level, which the code only copies. *)
Inductive Json :=
| JNull | JBool (b : bool) | JNum (n : Z) | JStr (s : string)
| JArr (l : list Json) | JObj (l : list (string * Json)).

(** [unstructured.Unstructured]: the metadata fields the accessors reach, the
    remaining metadata, and the other top-level fields ([data], [spec],
    [status], ...) by name. *)
Record Unstructured := MkU {
  u_GVK : GroupVersionKind;
  u_Namespace : string;
  u_Name : string;
  u_UID : string;
  u_ResourceVersion : string;
  u_Generation : Z;
  u_CreationTimestamp : Time;
  u_DeletionTimestamp : option Time;
  u_Finalizers : list string;
  u_OwnerReferences : list Json;
  u_Labels : StringMap;
  u_Annotations : StringMap;
  u_MetaRest : gmap string Json;
  u_Fields : gmap string Json }.

(** [corev1.Namespace] *)
Record Namespace := MkNs {
  ns_Name : string;
  ns_Labels : StringMap;
  ns_CreationTimestamp : Time;
  ns_DeletionTimestamp : option Time }.

(** [clustersv1alpha1.Cluster] *)
Record Cluster := MkCluster {
  cl_Namespace : string;
  cl_Name : string;
  cl_Labels : StringMap;
  cl_Annotations : StringMap;
  cl_DeletionTimestamp : option Time;
  cl_Generation : Z;
  cl_Purposes : list string }.

(** A cluster selector is known through its [Matches] method only. *)
Abbreviation ClusterSelector := (Cluster → bool).

(** [metav1.LabelSelectorRequirement] and [metav1.LabelSelector] *)
Record LabelSelectorRequirement := MkReq {
  req_Key : string; req_Operator : string; req_Values : list string }.
Record LabelSelector := MkLS {
  MatchLabels : StringMap;
  MatchExpressions : list LabelSelectorRequirement }.

(** ** constants.go and groupversion_info.go *)

Definition GroupName : string := "core.open-control-plane.io".
Definition ReplicaGroupPrefix : string := sprint ["replica."; GroupName].
Definition KindReplica : string := "Replica".
Definition KindClusterReplica : string := "ClusterReplica".
Definition ReplicaFinalizer : string := sprint [ReplicaGroupPrefix; "/finalizer"].
Definition ReplicaSourceKindLabel : string := sprint [ReplicaGroupPrefix; "/kind"].
Definition ReplicaSourceNameLabel : string := sprint [ReplicaGroupPrefix; "/name"].
Definition ReplicaSourceNamespaceLabel : string := sprint [ReplicaGroupPrefix; "/namespace"].
Definition ReplicaSourceGenerationLabel : string := sprint [ReplicaGroupPrefix; "/generation"].
Definition ReplicaDeletionPolicyLabel : string := sprint [ReplicaGroupPrefix; "/deletion-policy"].
Definition ReplicaDeletionPolicyKeep : string := "Keep".
Definition ReasonTargetClusterInteractionProblem : string := "TargetClusterInteractionProblem".
Definition ReasonTargetConflict : string := "TargetConflict".
Definition ReasonMissingNamespace : string := "MissingNamespace".
Definition ReasonNamespaceInDeletion : string := "NamespaceInDeletion".
Definition ConditionTypeSourcePrefix : string := "Source_".
Definition ConditionTypeTargetPrefix : string := "Target_".
Definition ConditionTypeClusterPrefix : string := "Cluster_".
Definition ConditionTypeMeta : string := "Meta".
Definition ConditionReasonSourceRead : string := "SourceRead".
Definition ConditionReasonTargetClusterAccess : string := "TargetClusterAccess".
Definition ConditionReasonTargetSkipped : string := "TargetSkipped".
Definition ConditionReasonTargetSynced : string := "TargetSynced".
Definition ConditionTypeTemplatingError : string := "TemplatingError".
Definition ConditionReasonWaitingForManagedReplicasDeletion : string :=
  "WaitingForManagedReplicasDeletion".
Definition ConditionReasonWaitingForResourceDeletion : string := "WaitingForResourceDeletion".
Definition ConditionReasonIdenticalCopy : string := "IdenticalCopy".

(** ** policies.go

    The policies are Go string types: any other string is a legal value of the
    type, although the CRD validation admits the three named ones only. *)

Inductive TargetConflictPolicy :=
| TargetConflictPolicyOverwrite | TargetConflictPolicySkip | TargetConflictPolicyFail
| TargetConflictPolicyOther (s : string).

Inductive NamespacePolicy :=
| NamespacePolicyCreate | NamespacePolicySkip | NamespacePolicyFail
| NamespacePolicyOther (s : string).

(** ** replica_types.go *)

Inductive ClusterRelativeLocation :=
| OntoCluster | NextToCluster | OtherLocation (s : string).

Definition is_NextTo (l : ClusterRelativeLocation) : bool :=
  match l with NextToCluster => true | _ => false end.

Record ClusterTargetDefinition := MkCTD {
  ctd_Selector : option ClusterSelector;
  ctd_Location : option ClusterRelativeLocation }.

(** [MatchIdentities] distinguishes nil from the empty list. *)
Record NamespaceSelector := MkNsSel {
  MatchIdentities : option (list string);
  nssel_LabelSelector : LabelSelector }.

Record NamespaceTargetDefinition := MkNTD { ntd_Selector : option NamespaceSelector }.

Record TargetDefinition := MkTD {
  td_Cluster : option ClusterTargetDefinition;
  td_Namespace : option NamespaceTargetDefinition;
  td_TargetConflictPolicy : option TargetConflictPolicy;
  td_NamespacePolicy : option NamespacePolicy }.

Definition GetTargetConflictPolicy (td : TargetDefinition) : TargetConflictPolicy :=
  match td_TargetConflictPolicy td with
  | None => TargetConflictPolicyFail
  | Some p => p
  end.

Definition GetNamespacePolicy (td : TargetDefinition) : NamespacePolicy :=
  match td_NamespacePolicy td with
  | None => NamespacePolicyCreate
  | Some p => p
  end.

Record ReferenceWithID := MkSource { src_Ref : TypedObjectReference; src_ID : string }.

Record ReplicaSpec := MkSpec {
  spec_Sources : list ReferenceWithID;
  spec_Template : option string;
  spec_Targets : list TargetDefinition;
  spec_Interval : option Z }.

Record CreatedResource := MkCR {
  cr_Cluster : option ObjectReference;
  cr_Namespace : string;
  cr_Name : string }.

Record CreatedResourcesWithType := MkCRT {
  crt_Type : GroupVersionKind;
  crt_Resources : list CreatedResource }.

(** A nil list and an empty list are the same value here: the code only ever
    ranges over it, takes its length and appends to it. *)
Abbreviation CreatedResourcesWithTypeList := (list CreatedResourcesWithType).

#[export] Instance CreatedResource_eq_dec : EqDecision CreatedResource.
Proof. solve_decision. Defined.
#[export] Instance CreatedResource_countable : Countable CreatedResource.
Proof.
  refine (inj_countable' (λ r, (cr_Cluster r, cr_Namespace r, cr_Name r))
                         (λ '(a, b, c), MkCR a b c) _). by intros [].
Defined.
#[export] Instance CreatedResourcesWithType_eq_dec : EqDecision CreatedResourcesWithType.
Proof. solve_decision. Defined.

Record ReplicaStatus := MkStatus {
  st_ObservedGeneration : Z;
  st_Phase : string;
  st_Conditions : list Condition;
  st_Replicas : CreatedResourcesWithTypeList }.

(** The two implementations of [ReplicaEquivalent]. *)
Inductive ReplicaType := TReplica | TClusterReplica.
#[export] Instance ReplicaType_eq_dec : EqDecision ReplicaType.
Proof. solve_decision. Defined.

(** A [*Replica] or [*ClusterReplica]: the two Go structs have the same
    fields, [rep_Type] is the dynamic type behind the interface. *)
Record Replica := MkReplica {
  rep_Type : ReplicaType;
  rep_Namespace : string;
  rep_Name : string;
  rep_Generation : Z;
  rep_DeletionTimestamp : option Time;
  rep_Labels : StringMap;
  rep_Annotations : StringMap;
  rep_Finalizers : list string;
  rep_Spec : ReplicaSpec;
  rep_Status : ReplicaStatus }.

(** ** The methods of [ReplicaEquivalent] *)

Definition ReplicaKind (r : Replica) : string :=
  match rep_Type r with TReplica => KindReplica | TClusterReplica => KindClusterReplica end.

Definition Replica_NamespacedName (r : Replica) : string :=
  match rep_Type r with
  | TReplica => sprint [rep_Namespace r; "/"; rep_Name r]
  | TClusterReplica => rep_Name r
  end.

(** [ReplicaSpec.GetInterval] (utils.go) *)
Definition GetInterval (s : ReplicaSpec) : Z :=
  match spec_Interval s with None => Hour | Some d => d end.

(** ** Field updates *)

Definition status_set_Replicas (l : CreatedResourcesWithTypeList) (s : ReplicaStatus) :=
  MkStatus (st_ObservedGeneration s) (st_Phase s) (st_Conditions s) l.

Definition rep_set_Status (s : ReplicaStatus) (r : Replica) : Replica :=
  MkReplica (rep_Type r) (rep_Namespace r) (rep_Name r) (rep_Generation r)
    (rep_DeletionTimestamp r) (rep_Labels r) (rep_Annotations r) (rep_Finalizers r)
    (rep_Spec r) s.

Definition rep_Replicas (r : Replica) : CreatedResourcesWithTypeList := st_Replicas (rep_Status r).

Definition rep_set_Replicas (l : CreatedResourcesWithTypeList) (r : Replica) : Replica :=
  rep_set_Status (status_set_Replicas l (rep_Status r)) r.

Lemma rep_Replicas_set l r : rep_Replicas (rep_set_Replicas l r) = l.
Proof. done. Qed.

Definition rep_set_Finalizers (f : list string) (r : Replica) : Replica :=
  MkReplica (rep_Type r) (rep_Namespace r) (rep_Name r) (rep_Generation r)
    (rep_DeletionTimestamp r) (rep_Labels r) (rep_Annotations r) f
    (rep_Spec r) (rep_Status r).

Definition u_set_Namespace (n : string) (u : Unstructured) : Unstructured :=
  MkU (u_GVK u) n (u_Name u) (u_UID u) (u_ResourceVersion u) (u_Generation u)
    (u_CreationTimestamp u) (u_DeletionTimestamp u) (u_Finalizers u) (u_OwnerReferences u)
    (u_Labels u) (u_Annotations u) (u_MetaRest u) (u_Fields u).

Definition u_set_Labels (l : StringMap) (u : Unstructured) : Unstructured :=
  MkU (u_GVK u) (u_Namespace u) (u_Name u) (u_UID u) (u_ResourceVersion u) (u_Generation u)
    (u_CreationTimestamp u) (u_DeletionTimestamp u) (u_Finalizers u) (u_OwnerReferences u)
    l (u_Annotations u) (u_MetaRest u) (u_Fields u).

Definition u_set_Annotations (a : StringMap) (u : Unstructured) : Unstructured :=
  MkU (u_GVK u) (u_Namespace u) (u_Name u) (u_UID u) (u_ResourceVersion u) (u_Generation u)
    (u_CreationTimestamp u) (u_DeletionTimestamp u) (u_Finalizers u) (u_OwnerReferences u)
    (u_Labels u) a (u_MetaRest u) (u_Fields u).

Definition u_set_Fields (f : gmap string Json) (u : Unstructured) : Unstructured :=
  MkU (u_GVK u) (u_Namespace u) (u_Name u) (u_UID u) (u_ResourceVersion u) (u_Generation u)
    (u_CreationTimestamp u) (u_DeletionTimestamp u) (u_Finalizers u) (u_OwnerReferences u)
    (u_Labels u) (u_Annotations u) (u_MetaRest u) f.

(** The reset that the "exact copy" path applies to a source manifest:
    UID, resource version, generation, timestamps, finalizers and owner
    references are cleared. *)
Definition u_clear_server_fields (u : Unstructured) : Unstructured :=
  MkU (u_GVK u) (u_Namespace u) (u_Name u) "" "" 0 0 None [] []
    (u_Labels u) (u_Annotations u) (u_MetaRest u) (u_Fields u).

(** ** The label keys are pairwise different *)

Definition managementLabels : list string :=
  [ReplicaSourceKindLabel; ReplicaSourceNameLabel; ReplicaSourceNamespaceLabel;
   ReplicaSourceGenerationLabel; ReplicaDeletionPolicyLabel].

Lemma managementLabels_NoDup : NoDup managementLabels.
Proof. apply (bool_decide_unpack _). vm_compute. exact I. Qed.
