(* ===== verification/Install.v ===== *)
(** * Registration of the API types

    [api/core/v1alpha1/groupversion_info.go], the [init] functions of
    [replica_types.go] and [cluster_replica_types.go], [api/install/install.go]
    and [api/crds/crds.go]: how the types of the program get into the scheme of
    its clients, and where its custom resource definitions come from.

    Schemes and scheme builders belong to the API machinery; they are the
    fields of the class [ApiMachinery], with their documented behaviour in
    [ApiMachineryLaws].  A function that may panic has an [Outcome]. *)

From S2P Require Import Prelude GoLib ApiTypes.

(** ** Outcomes *)

Inductive Outcome (A : Type) :=
| Returned (a : A)
| Panicked (why : string).
#[global] Arguments Returned {A} a.
#[global] Arguments Panicked {A} why.

Definition outcome_bind {A B} (x : Outcome A) (f : A → Outcome B) : Outcome B :=
  match x with Returned a => f a | Panicked why => Panicked why end.

Declare Scope outcome_scope.
Delimit Scope outcome_scope with outcome.
Notation "'let!' x := m 'in' k" := (outcome_bind m (λ x, k))
  (at level 10, x pattern, m at level 100, k at level 200) : outcome_scope.

(** ** Schemes *)

(** [schema.GroupVersion] *)
Record GroupVersion := MkGV { gv_Group : string; gv_Version : string }.

Definition WithKind (gv : GroupVersion) (kind : string) : GroupVersionKind :=
  GVK (gv_Group gv) (gv_Version gv) kind.

(** The objects this program registers. *)
Inductive RuntimeObject := OReplica | OReplicaList | OClusterReplica | OClusterReplicaList.

Definition typeName (o : RuntimeObject) : string :=
  match o with
  | OReplica => "Replica"
  | OReplicaList => "ReplicaList"
  | OClusterReplica => "ClusterReplica"
  | OClusterReplicaList => "ClusterReplicaList"
  end.

(** The kinds that every group version has, of [metav1]. *)
Definition metaKinds : list string :=
  ["WatchEvent"; "ListOptions"; "GetOptions"; "DeleteOptions"; "CreateOptions"; "UpdateOptions";
   "PatchOptions"].

(** A [*runtime.Scheme] is changed in place by the functions it is passed to:
    they return the changed scheme together with their error. *)
Abbreviation SchemeFunc Scheme := (Scheme → Outcome (Scheme * option string)).

Class ApiMachinery := {
  Scheme : Type;
  GoType : Type;
  typeOf : RuntimeObject → GoType;
  NewScheme : Scheme;
  (** the type registered for a kind *)
  knownType : Scheme → GroupVersionKind → option GoType;
  (** methods of [runtime.Scheme], [metav1.AddToGroupVersion] *)
  AddKnownTypes : GroupVersion → list RuntimeObject → Scheme → Outcome Scheme;
  AddToGroupVersion : GroupVersion → Scheme → Outcome Scheme;
  (** [runtime.SchemeBuilder] *)
  SchemeBuilder : Type;
  NewSchemeBuilder : list (SchemeFunc Scheme) → SchemeBuilder;
  SB_Register : list (SchemeFunc Scheme) → SchemeBuilder → SchemeBuilder;
  AddToScheme : SchemeBuilder → SchemeFunc Scheme;
  (** [AddToScheme] of the packages [client-go/kubernetes/scheme],
      [apiextensions/v1] and [openmcp-operator/api/clusters/v1alpha1] *)
  clientgoscheme_AddToScheme : SchemeFunc Scheme;
  apiextv1_AddToScheme : SchemeFunc Scheme;
  clustersv1alpha1_AddToScheme : SchemeFunc Scheme;
  (** [utilruntime.Must] *)
  Must : option string → Outcome unit;
  (** the label [apiconst.ClusterLabel] *)
  ClusterLabel : string;
  (** [crdutil.CRDsFromFileSystem] and the embedded file system *)
  CRD : Type;
  FileSystem : Type;
  Embed : list string → FileSystem;
  CRDsFromFileSystem : FileSystem → string → string + list CRD }.

Section Install.
Context {AM : ApiMachinery}.
Local Open Scope outcome_scope.

(** ** groupversion_info.go *)

Definition theGroupVersion : GroupVersion := MkGV GroupName "v1alpha1".

(** The package variable [SchemeBuilder] as it is initialised. *)
Definition initialSchemeBuilder : SchemeBuilder :=
  NewSchemeBuilder
    [λ scheme, let! scheme := AddToGroupVersion theGroupVersion scheme in Returned (scheme, None)].

(** The variable is changed by the calls of its method [Register]; its value is passed on
    explicitly. *)
Definition RegisterToSchemeBuilder (types : list RuntimeObject) (builder : SchemeBuilder)
    : SchemeBuilder :=
  SB_Register [λ scheme, let! scheme := AddKnownTypes theGroupVersion types scheme in
                      Returned (scheme, None)] builder.

(** The [init] functions of the package. *)
Definition init_ClusterReplica : SchemeBuilder → SchemeBuilder :=
  RegisterToSchemeBuilder [OClusterReplica; OClusterReplicaList].
Definition init_Replica : SchemeBuilder → SchemeBuilder :=
  RegisterToSchemeBuilder [OReplica; OReplicaList].

(** The variable after the initialisation of the package: Go runs the [init]
    functions after the initialisation of the variables, in the order of the
    files. *)
Definition packageSchemeBuilder : SchemeBuilder :=
  init_Replica (init_ClusterReplica initialSchemeBuilder).

(** The package variable [AddToScheme] is a method value of a method with a
    pointer receiver: it is bound to the variable [SchemeBuilder], not to the
    value that this has when [AddToScheme] is initialised. *)
Definition v1alpha1_AddToScheme (builder : SchemeBuilder) : SchemeFunc Scheme :=
  AddToScheme builder.

(** ** install.go *)

Definition mustAdd (add : SchemeFunc Scheme) (scheme : Scheme) : Outcome Scheme :=
  let! added := add scheme in
  let! _ := Must (added.2) in
  Returned (added.1).

Definition InstallCRDAPIs (scheme : Scheme) : Outcome Scheme :=
  let! scheme := mustAdd clientgoscheme_AddToScheme scheme in
  let! scheme := mustAdd apiextv1_AddToScheme scheme in
  Returned scheme.

Definition InstallOperatorAPIsPlatform (builder : SchemeBuilder) (scheme : Scheme) : Outcome Scheme :=
  let! scheme := mustAdd clientgoscheme_AddToScheme scheme in
  let! scheme := mustAdd clustersv1alpha1_AddToScheme scheme in
  let! scheme := mustAdd (v1alpha1_AddToScheme builder) scheme in
  Returned scheme.

(** The scheme of [SharedOptions.Complete] (app.go). *)
Definition platformScheme : Outcome Scheme :=
  let! scheme := InstallCRDAPIs NewScheme in
  InstallOperatorAPIsPlatform packageSchemeBuilder scheme.

(** ** crds.go *)

(** [go:embed manifests] *)
Definition CRDFS : FileSystem :=
  Embed ["manifests/core.open-control-plane.io_clusterreplicas.yaml";
         "manifests/core.open-control-plane.io_replicas.yaml"].

Definition CRDs : string + list CRD := CRDsFromFileSystem CRDFS "manifests".

(** ** What schemes promise *)

(** The functions of a builder run in order until one fails. *)
Fixpoint applyAll (fs : list (SchemeFunc Scheme)) (scheme : Scheme) : Outcome (Scheme * option string) :=
  match fs with
  | [] => Returned (scheme, None)
  | f :: fs =>
      let! added := f scheme in
      match added.2 with
      | Some err => Returned (added.1, Some err)
      | None => applyAll fs (added.1)
      end
  end.

(** Nobody has registered a type in a group version. *)
Definition unclaimed (gv : GroupVersion) (scheme : Scheme) : Prop :=
  ∀ kind, knownType scheme (WithKind gv kind) = None.

(** A registration of other packages: it leaves other groups alone. *)
Definition keepsGroup (gv : GroupVersion) (add : SchemeFunc Scheme) : Prop :=
  ∀ scheme scheme' err, add scheme = Returned (scheme', err) →
    ∀ kind, knownType scheme' (WithKind gv kind) = knownType scheme (WithKind gv kind).

End Install.

Class ApiMachineryLaws (AM : ApiMachinery) := {
  NewScheme_law k : knownType NewScheme k = None;
  (** registering is possible under a non-empty version unless another type
      has the kind *)
  AddKnownTypes_law gv types scheme :
    gv_Version gv ≠ "" →
    (∀ o, o ∈ types → knownType scheme (WithKind gv (typeName o)) ∈ [None; Some (typeOf o)]) →
    ∃ scheme', AddKnownTypes gv types scheme = Returned scheme' ∧
      (∀ o, o ∈ types → knownType scheme' (WithKind gv (typeName o)) = Some (typeOf o)) ∧
      ∀ k, (∀ o, o ∈ types → k ≠ WithKind gv (typeName o)) → knownType scheme' k = knownType scheme k;
  AddToGroupVersion_law gv scheme :
    gv_Version gv ≠ "" → unclaimed gv scheme →
    ∃ scheme', AddToGroupVersion gv scheme = Returned scheme' ∧
      ∀ kind, kind ∉ metaKinds →
        knownType scheme' (WithKind gv kind) = knownType scheme (WithKind gv kind);
  AddToScheme_New fs scheme : AddToScheme (NewSchemeBuilder fs) scheme = applyAll fs scheme;
  AddToScheme_Register fs gs builder scheme :
    (∀ s, AddToScheme builder s = applyAll fs s) →
    AddToScheme (SB_Register gs builder) scheme = applyAll (fs ++ gs) scheme;
  (** the other packages have their own groups *)
  clientgo_law : keepsGroup theGroupVersion clientgoscheme_AddToScheme;
  apiextv1_law : keepsGroup theGroupVersion apiextv1_AddToScheme;
  clusters_law : keepsGroup theGroupVersion clustersv1alpha1_AddToScheme;
  Must_nil : Must None = Returned tt;
  Must_err err : ∃ why, Must (Some err) = Panicked why }.

(** ** Lemmas *)

Lemma applyAll_app `{AM : ApiMachinery} fs gs scheme :
  applyAll (fs ++ gs) scheme =
  outcome_bind (applyAll fs scheme) (λ added,
    match added.2 with Some err => Returned (added.1, Some err) | None => applyAll gs (added.1) end).
Proof.
  revert scheme. induction fs as [|f fs IH]; intros scheme; simpl; [done|].
  destruct (f scheme) as [[s [err|]]|why]; simpl; [done|apply IH|done].
Qed.

Section Properties.
Context {AM : ApiMachinery} {AML : ApiMachineryLaws AM}.

Lemma mustAdd_returned add scheme scheme' :
  mustAdd add scheme = Returned scheme' → add scheme = Returned (scheme', None).
Proof.
  unfold mustAdd. destruct (add scheme) as [[s [err|]]|why]; simpl; [|rewrite Must_nil; simpl|done].
  - by destruct (Must_err err) as [why ->].
  - by intros [= <-].
Qed.

Lemma mustAdd_unclaimed gv add scheme scheme' :
  keepsGroup gv add → mustAdd add scheme = Returned scheme' →
  unclaimed gv scheme → unclaimed gv scheme'.
Proof.
  intros Hk Hadd%mustAdd_returned Hu kind. rewrite (Hk _ _ _ Hadd). apply Hu.
Qed.

(** What the builder of the package does. *)
Lemma packageSchemeBuilder_applies scheme :
  AddToScheme packageSchemeBuilder scheme =
  applyAll
    [λ s, outcome_bind (AddToGroupVersion theGroupVersion s) (λ s', Returned (s', None));
     λ s, outcome_bind (AddKnownTypes theGroupVersion [OClusterReplica; OClusterReplicaList] s)
            (λ s', Returned (s', None));
     λ s, outcome_bind (AddKnownTypes theGroupVersion [OReplica; OReplicaList] s)
            (λ s', Returned (s', None))] scheme.
Proof.
  unfold packageSchemeBuilder, init_Replica, init_ClusterReplica, RegisterToSchemeBuilder.
  erewrite AddToScheme_Register; [|intros s; apply AddToScheme_Register; intros s'; apply AddToScheme_New].
  done.
Qed.

Lemma WithKind_inj gv k k' : WithKind gv k = WithKind gv k' → k = k'.
Proof. by intros [= ]. Qed.

Definition knowsAll (scheme : Scheme) : Prop :=
  ∀ o, knownType scheme (WithKind theGroupVersion (typeName o)) = Some (typeOf o).

(** In a group version that is still free, the types of the package are
    registered without an error. *)
Lemma package_registers scheme :
  unclaimed theGroupVersion scheme →
  ∃ scheme', AddToScheme packageSchemeBuilder scheme = Returned (scheme', None) ∧ knowsAll scheme'.
Proof.
  intros Hu. rewrite packageSchemeBuilder_applies. simpl.
  destruct (AddToGroupVersion_law theGroupVersion scheme ltac:(done) Hu) as (s1 & -> & H1). simpl.
  assert (∀ o, knownType s1 (WithKind theGroupVersion (typeName o)) = None) as Hu1.
  { intros o. rewrite H1; [apply Hu|]. by destruct o; set_solver. }
  destruct (AddKnownTypes_law theGroupVersion [OClusterReplica; OClusterReplicaList] s1 ltac:(done))
    as (s2 & -> & H2 & F2); [intros o _; rewrite Hu1; set_solver|]. simpl.
  assert (∀ o, o ∈ [OReplica; OReplicaList] →
            knownType s2 (WithKind theGroupVersion (typeName o)) = None) as Hu2.
  { intros o Ho. rewrite F2; [apply Hu1|]. intros o' Ho' Heq%WithKind_inj.
    set_unfold. by destruct_or!; subst. }
  destruct (AddKnownTypes_law theGroupVersion [OReplica; OReplicaList] s2 ltac:(done))
    as (s3 & -> & H3 & F3); [intros o Ho; rewrite Hu2 by done; set_solver|]. simpl.
  exists s3. split; [done|].
  assert (∀ o, o ∈ [OClusterReplica; OClusterReplicaList] →
            knownType s3 (WithKind theGroupVersion (typeName o)) = Some (typeOf o)) as Hk3.
  { intros o Ho. rewrite F3; [by apply H2|]. intros o' Ho' Heq%WithKind_inj.
    set_unfold. by destruct_or!; subst. }
  intros []; [apply H3|apply H3|apply Hk3|apply Hk3]; set_solver.
Qed.

(** When the registrations of the other packages succeed on the way. *)
Definition othersSucceed : Prop :=
  (∀ s, ∃ s', clientgoscheme_AddToScheme s = Returned (s', None)) ∧
  (∀ s, ∃ s', apiextv1_AddToScheme s = Returned (s', None)) ∧
  (∀ s, ∃ s', clustersv1alpha1_AddToScheme s = Returned (s', None)).

Lemma NewScheme_unclaimed gv : unclaimed gv NewScheme.
Proof. intros kind. apply NewScheme_law. Qed.

Lemma mustAdd_succeeds add scheme scheme' :
  add scheme = Returned (scheme', None) → mustAdd add scheme = Returned scheme'.
Proof. intros H. unfold mustAdd. rewrite H. simpl. by rewrite Must_nil. Qed.

(** The scheme before the own types are registered. *)
Lemma platformScheme_before_own :
  platformScheme =
  outcome_bind (InstallCRDAPIs NewScheme) (λ s,
  outcome_bind (mustAdd clientgoscheme_AddToScheme s) (λ s,
  outcome_bind (mustAdd clustersv1alpha1_AddToScheme s) (λ s,
  outcome_bind (mustAdd (AddToScheme packageSchemeBuilder) s) Returned))).
Proof. done. Qed.

Lemma InstallCRDAPIs_unclaimed scheme scheme' :
  InstallCRDAPIs scheme = Returned scheme' →
  unclaimed theGroupVersion scheme → unclaimed theGroupVersion scheme'.
Proof.
  unfold InstallCRDAPIs. destruct (mustAdd clientgoscheme_AddToScheme scheme) as [s1|] eqn:E1; [|done].
  simpl. destruct (mustAdd apiextv1_AddToScheme s1) as [s2|] eqn:E2; [|done]. intros [= <-] Hu.
  eapply mustAdd_unclaimed; [apply apiextv1_law|done|].
  by eapply mustAdd_unclaimed; [apply clientgo_law|done|].
Qed.

(** The other packages leave the group version of the program free. *)
Lemma others_unclaimed s1 s2 s3 :
  InstallCRDAPIs NewScheme = Returned s1 → mustAdd clientgoscheme_AddToScheme s1 = Returned s2 →
  mustAdd clustersv1alpha1_AddToScheme s2 = Returned s3 → unclaimed theGroupVersion s3.
Proof.
  intros E1 E2 E3. eapply mustAdd_unclaimed; [apply clusters_law|done|].
  eapply mustAdd_unclaimed; [apply clientgo_law|done|].
  eapply InstallCRDAPIs_unclaimed; [done|apply NewScheme_unclaimed].
Qed.

Lemma platformScheme_knowsAll scheme : platformScheme = Returned scheme → knowsAll scheme.
Proof.
  rewrite platformScheme_before_own. destruct (InstallCRDAPIs NewScheme) as [s1|] eqn:E1; [|done]. simpl.
  destruct (mustAdd clientgoscheme_AddToScheme s1) as [s2|] eqn:E2; [|done]. simpl.
  destruct (mustAdd clustersv1alpha1_AddToScheme s2) as [s3|] eqn:E3; [|done]. simpl.
  destruct (package_registers s3) as (s4 & H4 & Hk); [by eapply others_unclaimed|].
  rewrite (mustAdd_succeeds _ _ _ H4). by intros [= <-].
Qed.

(** The scheme of the clients: when its installation does not panic, it knows
    the four types of the program under their kinds; it only panics when a
    registration of another package does or fails, so with working packages
    the program gets its scheme. *)
Theorem platform_scheme_knows_all :
  (∀ scheme, platformScheme = Returned scheme → knowsAll scheme) ∧
  (othersSucceed → ∃ scheme, platformScheme = Returned scheme).
Proof.
  split; [apply platformScheme_knowsAll|]. intros (Hc & Ha & Hl). rewrite platformScheme_before_own.
  destruct (Hc NewScheme) as [s1 H1], (Ha s1) as [s2 H2], (Hc s2) as [s3 H3], (Hl s3) as [s4 H4].
  assert (InstallCRDAPIs NewScheme = Returned s2) as E2.
  { unfold InstallCRDAPIs. rewrite (mustAdd_succeeds _ _ _ H1). simpl.
    by rewrite (mustAdd_succeeds _ _ _ H2). }
  rewrite E2. simpl. apply mustAdd_succeeds in H3, H4. rewrite H3. simpl. rewrite H4. simpl.
  destruct (package_registers s4) as (s5 & H5 & _); [by eapply others_unclaimed|].
  rewrite (mustAdd_succeeds _ _ _ H5). by exists s5.
Qed.

End Properties.

(** ** Concrete API machinery *)

Abbreviation mapScheme := (gmap GroupVersionKind (RuntimeObject + string)).

#[export] Instance RuntimeObject_eq_dec : EqDecision RuntimeObject.
Proof. solve_decision. Defined.

Definition addKinds {A} (gv : GroupVersion) (kind : A → string) (type : A → RuntimeObject + string)
    (l : list A) (s : mapScheme) : mapScheme :=
  foldr (λ x, <[WithKind gv (kind x) := type x]>) s l.

Definition addGroup (group kind : string) : SchemeFunc mapScheme :=
  λ s, Returned (<[GVK group "v1" kind := inr kind]> s, None).

Fixpoint applyFuncs {S} (fs : list (SchemeFunc S)) (s : S) : Outcome (S * option string) :=
  match fs with
  | [] => Returned (s, None)
  | f :: fs =>
      match f s with
      | Returned (s, None) => applyFuncs fs s
      | other => other
      end
  end.

#[export] Instance someMachinery : ApiMachinery := {|
  Scheme := mapScheme;
  GoType := RuntimeObject + string;
  typeOf := inl;
  NewScheme := ∅;
  knownType := λ s k, s !! k;
  AddKnownTypes := λ gv types s, Returned (addKinds gv typeName inl types s);
  AddToGroupVersion := λ gv s, Returned (addKinds gv id inr metaKinds s);
  SchemeBuilder := list (SchemeFunc mapScheme);
  NewSchemeBuilder := λ fs, fs;
  SB_Register := λ gs fs, fs ++ gs;
  AddToScheme := applyFuncs;
  clientgoscheme_AddToScheme := addGroup "apps" "Deployment";
  apiextv1_AddToScheme := addGroup "apiextensions.k8s.io" "CustomResourceDefinition";
  clustersv1alpha1_AddToScheme := addGroup "clusters" "Cluster";
  Must := λ err, match err with None => Returned tt | Some err => Panicked err end;
  ClusterLabel := "openmcp.cloud/cluster";
  CRD := string;
  FileSystem := list string;
  Embed := λ files, files;
  CRDsFromFileSystem := λ fs dir, inr fs |}.

Lemma addKinds_frame {A} gv (kind : A → string) type l s k :
  (∀ x, x ∈ l → k ≠ WithKind gv (kind x)) → addKinds gv kind type l s !! k = s !! k.
Proof.
  induction l as [|x l IH]; intros Hk; simpl; [done|].
  rewrite lookup_insert_ne by (symmetry; apply Hk; by left).
  apply IH. intros y Hy. apply Hk. by right.
Qed.

Lemma typeName_inj o o' : typeName o = typeName o' → o = o'.
Proof. by destruct o, o'. Qed.

Lemma addKinds_known gv types s o :
  o ∈ types → addKinds gv typeName inl types s !! WithKind gv (typeName o) = Some (inl o).
Proof.
  induction types as [|x types IH]; simpl; [by intros ?%not_elem_of_nil|].
  destruct (decide (x = o)) as [->|Hne]; [by rewrite lookup_insert_eq|].
  intros [->|Hin]%elem_of_cons; [done|]. rewrite lookup_insert_ne; [by apply IH|].
  intros Heq%WithKind_inj. by apply typeName_inj in Heq.
Qed.

Lemma applyFuncs_applyAll (fs : list (SchemeFunc mapScheme)) s : applyFuncs fs s = applyAll fs s.
Proof.
  revert s. induction fs as [|f fs IH]; intros s; simpl; [done|].
  destruct (f s) as [[s' [err|]]|why]; simpl; [done|apply IH|done].
Qed.

Lemma addGroup_keeps group kind : group ≠ GroupName → keepsGroup theGroupVersion (addGroup group kind).
Proof.
  intros Hne s s' err [= <- <-] kind'. apply lookup_insert_ne. unfold WithKind. simpl. congruence.
Qed.

#[export] Instance someMachinery_laws : ApiMachineryLaws someMachinery.
Proof.
  split; cbn -[addKinds applyAll].
  - done.
  - intros gv types s _ _. eexists. split; [done|]. split; [intros o; apply addKinds_known|].
    intros k. apply addKinds_frame.
  - intros gv s _ _. eexists. split; [done|]. intros kind Hk. apply (addKinds_frame gv id inr).
    intros x Hx Heq%WithKind_inj. unfold id in *. congruence.
  - apply applyFuncs_applyAll.
  - intros fs gs builder s H. etrans; [apply applyFuncs_applyAll|].
    etrans; [apply (applyAll_app (AM := someMachinery) builder)|].
    etrans; [|symmetry; apply (applyAll_app (AM := someMachinery) fs)]. f_equal.
    etrans; [symmetry; apply applyFuncs_applyAll|apply H].
  - by apply addGroup_keeps.
  - by apply addGroup_keeps.
  - by apply addGroup_keeps.
  - done.
  - intros err. by eexists.
Qed.

Lemma platform_scheme_knows_all_witness :
  ∃ scheme, platformScheme = Returned scheme ∧
    scheme !! GVK "core.open-control-plane.io" "v1alpha1" "ClusterReplica" = Some (inl OClusterReplica).
Proof.
  assert (platformScheme = Returned (match platformScheme with Returned s => s | Panicked _ => ∅ end)) as H
    by reflexivity.
  eexists. split; [exact H|].
  exact (proj1 platform_scheme_knows_all _ H OClusterReplica).
Defined.
