(* ===== verification/External.v ===== *)
(** * Code outside the repository

    The repository calls pure helpers of imported modules: [controller-utils],
    [openmcp-operator], [multicluster-provider], [sigs.k8s.io/yaml], the
    Kubernetes API machinery.  Their sources are not part of the repository,
    so they are the fields of the class [Ext], over which every definition is
    parameterised.  [ExtLaws] collects the documented behaviour the theorems
    rely on; each theorem that needs a law says so by assuming the class.
    [wrapTemplateError], which only combines such helpers, is here as well. *)

From S2P Require Import Prelude GoLib ApiTypes.

(** [errutils.ReasonableError]: an error together with a reason. *)
Record ReasonableError := WithReason { re_Error : string; re_Reason : string }.

(** The data handed to a template: [sources], [target.cluster] (empty for the
    hosting cluster), [target.namespace] (absent without a namespace) and
    [replica]. *)
Record TemplateData := MkTmplData {
  tdata_Sources : gmap string Unstructured;
  tdata_Cluster : option (string * string * list string);
  tdata_Namespace : option string;
  tdata_ReplicaName : string;
  tdata_ReplicaNamespace : string;
  tdata_ReplicaLabels : StringMap;
  tdata_ReplicaAnnotations : StringMap }.

Class Ext := {
  (** constants of [openmcpconst], [cconst], [providerutils] and [commonapi] *)
  ManagedByLabel : string;
  OperationAnnotation : string;
  OperationAnnotationValueIgnore : string;
  OperationAnnotationValueReconcile : string;
  ReasonPlatformClusterInteractionProblem : string;
  ReasonConfigurationProblem : string;
  ReasonInternalError : string;
  ReasonClusterAccessError : string;
  HostingPlatformCluster : string;
  StatusPhaseTerminating : string;
  StatusPhaseProgressing : string;
  StatusPhaseReady : string;

  (** [commonapi]: references of objects *)
  ReferenceFromObject : Cluster → ObjectReference;
  TypedReferenceFromObject : Unstructured → TypedObjectReference;
  ObjectReference_NamespacedName : ObjectReference → NamespacedName;
  TypedObjectReference_NamespacedName : TypedObjectReference → NamespacedName;

  (** [providerutils]: names of clusters known to the provider *)
  ClusterName : string → string → string;
  ClusterNameFromCluster : option Cluster → string;
  ClusterNameFromReference : ObjectReference → string;

  (** [ctrlutils] *)
  ShortenToXCharactersUnsafe : string → nat → string;
  HasAnnotationWithValue : StringMap → string → string → bool;
  GenerateCreateCondition :
    list Condition → string → ConditionStatus → string → string → list Condition;

  (** [controllerutil]: the new finalizers and whether they changed *)
  AddFinalizer : list string → string → list string * bool;
  RemoveFinalizer : list string → string → list string * bool;

  (** [errutils]: the error a list of appended (possibly nil) errors amounts
      to, and the builder of template errors, whose methods change it and
      return it; the formatter of [WithInput] is known by its argument *)
  Aggregate : list (option ReasonableError) → option ReasonableError;
  TemplateErrorBuilder : Type;
  NewTemplateErrorBuilder : string → TemplateErrorBuilder;
  WithSource : string → TemplateErrorBuilder → TemplateErrorBuilder;
  WithInput : option TemplateData → bool → TemplateErrorBuilder → TemplateErrorBuilder;
  WithFormattedOutput : string → TemplateErrorBuilder → TemplateErrorBuilder;
  Build : TemplateErrorBuilder → string;

  (** [metav1.LabelSelectorAsSelector] followed by [Matches] *)
  LabelSelectorAsSelector : LabelSelector → string + (StringMap → bool);

  (** [gotmpl.Parse] with the sprig functions, and [sigs.k8s.io/yaml] *)
  TemplateParse : string → option string;
  YamlMarshal : Unstructured → string + string;
  YamlUnmarshal : string → string + Unstructured;

  (** [String] methods used in messages *)
  ObjectKeyString : string → string → string;
  GVKString : GroupVersionKind → string
}.

(** [fmt.Errorf] with a wrapped error, and [errutils.WithReason]: *)
Definition reasoned (reason : string) (pieces : list string) : ReasonableError :=
  WithReason (sprint pieces) reason.

(** [wrapTemplateError] (internal/replica/controller.go): the template and the
    output are shown when there are any, the input always. *)
Definition wrapTemplateError `{Ext} (err template : string) (input : option TemplateData)
    (output : string) : string :=
  let bld := NewTemplateErrorBuilder err in
  let bld := if String.eqb template "" then bld else WithSource template bld in
  let bld := WithInput input true bld in
  let bld := if String.eqb output "" then bld else WithFormattedOutput output bld in
  Build bld.

(** The documented behaviour the proofs may use. *)
Class ExtLaws `(Ext) := {
  ReferenceFromObject_law c : ReferenceFromObject c = MkRef (cl_Namespace c) (cl_Name c);
  TypedReferenceFromObject_law u :
    TypedReferenceFromObject u = MkTRef (u_GVK u) (u_Namespace u) (u_Name u);
  ObjectReference_NamespacedName_law r :
    ObjectReference_NamespacedName r = MkNN (ref_Namespace r) (ref_Name r);
  TypedObjectReference_NamespacedName_law r :
    TypedObjectReference_NamespacedName r = MkNN (tref_Namespace r) (tref_Name r);

  ClusterNameFromCluster_nil : ClusterNameFromCluster None = HostingPlatformCluster;
  ClusterNameFromReference_zero : ClusterNameFromReference zeroRef = HostingPlatformCluster;

  (** strings that already fit are not shortened *)
  Shorten_short s n :
    (String.length s ≤ n)%nat → ShortenToXCharactersUnsafe s n = s;
  HasAnnotationWithValue_law a k v :
    HasAnnotationWithValue a k v = bool_decide (a ≫= (.!! k) = Some v);
  (** the returned closure appends one condition *)
  GenerateCreateCondition_law cs t st r m :
    GenerateCreateCondition cs t st r m = cs ++ [MkCond t st r m];

  AddFinalizer_law fs f :
    AddFinalizer fs f = if decide (f ∈ fs) then (fs, false) else (fs ++ [f], true);
  RemoveFinalizer_gone fs f : f ∉ (RemoveFinalizer fs f).1;
  (** an aggregate is nil exactly when every appended error is nil *)
  Aggregate_nil l : Aggregate l = None ↔ Forall (λ e, e = None) l;

  (** the management label of the platform is not one of the labels of the
      replicator's own group *)
  ManagedByLabel_fresh : ManagedByLabel ∉ managementLabels;
  OperationValues_ne : OperationAnnotationValueIgnore ≠ OperationAnnotationValueReconcile
}.
