(* ===== verification/StatusList.v ===== *)
(** * The list of created resources in the status

    [api/core/v1alpha1/utils.go]: [CreatedResourcesWithType] and
    [CreatedResourcesWithTypeList] with their operations [Add], [AddRaw],
    [Remove], [RemoveRaw], [Contains], [ContainsRaw] and [Cleanup].  The list
    is the controller's only memory of what it created, grouped by type.

    [tracked l] is the set of entries a list stands for; under the
    well-formedness invariant [wf] every operation refines the corresponding
    set operation. *)

From S2P Require Import Prelude GoLib ApiTypes.

Definition clusterRefEqual (a b : option ObjectReference) : bool :=
  match a, b with
  | None, None => true
  | Some a, Some b =>
      String.eqb (ref_Name a) (ref_Name b) && String.eqb (ref_Namespace a) (ref_Namespace b)
  | _, _ => false
  end.

(** The test the loops of [Add], [Remove] and [Contains] perform. *)
Definition sameResource (existing res : CreatedResource) : bool :=
  String.eqb (cr_Name existing) (cr_Name res) &&
  String.eqb (cr_Namespace existing) (cr_Namespace res) &&
  clusterRefEqual (cr_Cluster existing) (cr_Cluster res).

(** "An empty cluster reference is treated as nil." *)
Definition normalizeCluster (cluster : option ObjectReference) : option ObjectReference :=
  match cluster with
  | Some r => if String.eqb (ref_Namespace r) "" && String.eqb (ref_Name r) "" then None else cluster
  | None => None
  end.

(** ** One type *)

Module WithType.

Definition Add (res : CreatedResource) (cr : CreatedResourcesWithType) : CreatedResourcesWithType :=
  if existsb (λ existing, sameResource existing res) (crt_Resources cr) then cr
  else MkCRT (crt_Type cr) (crt_Resources cr ++ [res]).

Definition AddRaw (namespace name : string) (cluster : option ObjectReference)
    (cr : CreatedResourcesWithType) : CreatedResourcesWithType :=
  Add (MkCR (normalizeCluster cluster) namespace name) cr.

Definition Remove (c : CreatedResource) (cr : CreatedResourcesWithType) : CreatedResourcesWithType :=
  MkCRT (crt_Type cr) (remove_first (λ existing, sameResource existing c) (crt_Resources cr)).

Definition RemoveRaw (namespace name : string) (cluster : option ObjectReference)
    (cr : CreatedResourcesWithType) : CreatedResourcesWithType :=
  Remove (MkCR (normalizeCluster cluster) namespace name) cr.

End WithType.

(** ** The whole list *)

Fixpoint Add (gvk : GroupVersionKind) (res : CreatedResource)
    (l : CreatedResourcesWithTypeList) : CreatedResourcesWithTypeList :=
  match l with
  | [] => [MkCRT gvk [res]]
  | x :: l' =>
      if decide (crt_Type x = gvk) then WithType.Add res x :: l' else x :: Add gvk res l'
  end.

Definition AddRaw (gvk : GroupVersionKind) (namespace name : string)
    (cluster : option ObjectReference) (l : CreatedResourcesWithTypeList)
    : CreatedResourcesWithTypeList :=
  Add gvk (MkCR (normalizeCluster cluster) namespace name) l.

Fixpoint Remove (gvk : GroupVersionKind) (res : CreatedResource)
    (l : CreatedResourcesWithTypeList) : CreatedResourcesWithTypeList :=
  match l with
  | [] => []
  | x :: l' =>
      if decide (crt_Type x = gvk) then WithType.Remove res x :: l' else x :: Remove gvk res l'
  end.

Definition RemoveRaw (gvk : GroupVersionKind) (namespace name : string)
    (cluster : option ObjectReference) (l : CreatedResourcesWithTypeList)
    : CreatedResourcesWithTypeList :=
  Remove gvk (MkCR (normalizeCluster cluster) namespace name) l.

Fixpoint Contains (gvk : GroupVersionKind) (res : CreatedResource)
    (l : CreatedResourcesWithTypeList) : bool :=
  match l with
  | [] => false
  | x :: l' =>
      if decide (crt_Type x = gvk)
      then existsb (λ existing, sameResource existing res) (crt_Resources x)
      else Contains gvk res l'
  end.

Definition ContainsRaw (gvk : GroupVersionKind) (namespace name : string)
    (cluster : option ObjectReference) (l : CreatedResourcesWithTypeList) : bool :=
  Contains gvk (MkCR (normalizeCluster cluster) namespace name) l.

(** [Cleanup] compacts the slice in place: [result := ( *l)[:0]] shares the
    backing array with the range variable's slice.  [cleanup_loop] is that
    loop on the backing array [arr]: [n] iterations are left, the read index
    is [i], the write index [w]; [nonempty] is the test of an entry. *)
Fixpoint cleanup_loop {A} (nonempty : A → bool) (n i w : nat) (arr : list A) : list A * nat :=
  match n with
  | O => (arr, w)
  | S n' =>
      match arr !! i with
      | Some entry =>
          if nonempty entry
          then cleanup_loop nonempty n' (S i) (S w) (<[w := entry]> arr)
          else cleanup_loop nonempty n' (S i) w arr
      | None => (arr, w)
      end
  end.

Definition hasResources (x : CreatedResourcesWithType) : bool := Nat.ltb 0 (length (crt_Resources x)).

Definition Cleanup (l : CreatedResourcesWithTypeList) : CreatedResourcesWithTypeList :=
  let '(arr, w) := cleanup_loop hasResources (length l) 0 0 l in take w arr.

(** ** Abstract specification: a set of entries *)

Definition entry := (GroupVersionKind * CreatedResource)%type.

Definition tracked (l : CreatedResourcesWithTypeList) : gset entry :=
  list_to_set (l ≫= λ x, (crt_Type x,.) <$> crt_Resources x).

(** No type occurs twice, no resource occurs twice under its type. *)
Definition wf (l : CreatedResourcesWithTypeList) : Prop :=
  NoDup (crt_Type <$> l) ∧ Forall (λ x, NoDup (crt_Resources x)) l.

(** Lists that track the same entries. *)
#[export] Instance tracked_equiv : Equiv CreatedResourcesWithTypeList :=
  λ l k, tracked l = tracked k.
#[export] Instance tracked_equivalence : Equivalence (≡@{CreatedResourcesWithTypeList}).
Proof. split; [by intros ?|by intros ???|intros ?????; unfold equiv, tracked_equiv in *; congruence]. Qed.

(** ** Lemmas *)

Lemma clusterRefEqual_spec a b : clusterRefEqual a b = bool_decide (a = b).
Proof.
  destruct a as [[an aname]|], b as [[bn bname]|]; simpl; try done.
  destruct (String.eqb_spec aname bname), (String.eqb_spec an bn); simpl;
    symmetry; (apply bool_decide_eq_true || apply bool_decide_eq_false); congruence.
Qed.

Lemma sameResource_spec a b : sameResource a b = bool_decide (a = b).
Proof.
  destruct a as [ac ans an], b as [bc bns bn]. unfold sameResource; simpl.
  rewrite clusterRefEqual_spec.
  destruct (String.eqb_spec an bn), (String.eqb_spec ans bns); simpl; subst;
    [|symmetry; apply bool_decide_eq_false; congruence..].
  apply bool_decide_ext. split; congruence.
Qed.

Lemma existsb_sameResource res l :
  existsb (λ existing, sameResource existing res) l = bool_decide (res ∈ l).
Proof.
  apply eq_bool_prop_intro. rewrite !Is_true_true, existsb_true, bool_decide_eq_true.
  split.
  - intros (x & Hx & Hs). rewrite sameResource_spec, bool_decide_eq_true in Hs. by subst.
  - intros H. exists res. by rewrite sameResource_spec, bool_decide_eq_true.
Qed.

Lemma elem_of_tracked l g r :
  (g, r) ∈ tracked l ↔ ∃ x, x ∈ l ∧ crt_Type x = g ∧ r ∈ crt_Resources x.
Proof.
  unfold tracked. rewrite elem_of_list_to_set, list_elem_of_bind.
  split.
  - intros (x & Hin & Hx). apply list_elem_of_fmap in Hin as (r' & [= -> ->] & Hr). eauto.
  - intros (x & Hx & <- & Hr). exists x. split; [|done]. apply list_elem_of_fmap. eauto.
Qed.

Lemma tracked_cons x l :
  tracked (x :: l) = set_map (crt_Type x,.) (list_to_set (crt_Resources x) : gset CreatedResource)
                     ∪ tracked l.
Proof.
  apply set_eq. intros [g r]. rewrite elem_of_union, !elem_of_tracked, elem_of_map.
  setoid_rewrite elem_of_list_to_set. setoid_rewrite elem_of_cons. naive_solver.
Qed.

Lemma normalizeCluster_idem c : normalizeCluster (normalizeCluster c) = normalizeCluster c.
Proof.
  destruct c as [[ns n]|]; [|done]; simpl.
  destruct (String.eqb ns "" && String.eqb n "") eqn:E; simpl; [done|by rewrite E].
Qed.

Lemma normalizeCluster_zero : normalizeCluster (Some zeroRef) = None.
Proof. done. Qed.

Lemma Add_types_in gvk res l :
  gvk ∈ crt_Type <$> l → crt_Type <$> Add gvk res l = crt_Type <$> l.
Proof.
  induction l as [|x l IH]; simpl; [by intros ?%not_elem_of_nil|].
  destruct (decide (crt_Type x = gvk)) as [<-|Hne]; simpl.
  - intros _. f_equal. unfold WithType.Add. by destruct (existsb _ _).
  - intros [->|Hin]%elem_of_cons; [done|]. f_equal. by apply IH.
Qed.

Lemma Add_new gvk res l :
  gvk ∉ crt_Type <$> l → Add gvk res l = l ++ [MkCRT gvk [res]].
Proof.
  induction l as [|x l IH]; simpl; [done|].
  intros [Hne Hin]%not_elem_of_cons.
  rewrite decide_False by done. f_equal. by apply IH.
Qed.

Lemma Remove_types gvk res l : crt_Type <$> Remove gvk res l = crt_Type <$> l.
Proof.
  induction l as [|x l IH]; simpl; [done|].
  destruct (decide (crt_Type x = gvk)); simpl; [done|]. by f_equal.
Qed.

Lemma WithType_Add_resources res x r :
  r ∈ crt_Resources (WithType.Add res x) ↔ r = res ∨ r ∈ crt_Resources x.
Proof.
  unfold WithType.Add. rewrite existsb_sameResource.
  case_bool_decide; simpl; set_solver.
Qed.

Lemma WithType_Add_type res x : crt_Type (WithType.Add res x) = crt_Type x.
Proof. unfold WithType.Add. by destruct (existsb _ _). Qed.

Lemma WithType_Add_NoDup res x :
  NoDup (crt_Resources x) → NoDup (crt_Resources (WithType.Add res x)).
Proof.
  unfold WithType.Add. rewrite existsb_sameResource.
  case_bool_decide; simpl; [done|]. intros H'. apply NoDup_app.
  split; [done|]. split; [set_solver|]. apply NoDup_singleton.
Qed.

Lemma remove_first_sameResource_NoDup res l r :
  NoDup l → r ∈ remove_first (λ existing, sameResource existing res) l ↔ r ∈ l ∧ r ≠ res.
Proof.
  induction l as [|y l IH]; intros Hnd; simpl; [set_solver|].
  apply NoDup_cons in Hnd as [Hy Hnd]. rewrite sameResource_spec.
  case_bool_decide as Heq; [subst; set_solver|].
  rewrite !elem_of_cons, IH by done. naive_solver.
Qed.

#[export] Hint Rewrite existsb_sameResource elem_of_tracked : replicator.
#[export] Hint Resolve WithType_Add_NoDup : replicator.

(** ** Refinement of the set operations *)

Section Refinement.
Implicit Types (l : CreatedResourcesWithTypeList) (gvk : GroupVersionKind) (res : CreatedResource).

Lemma wf_cons_inv x l :
  wf (x :: l) → crt_Type x ∉ crt_Type <$> l ∧ NoDup (crt_Resources x) ∧ wf l.
Proof.
  intros [[Hx Hnd]%NoDup_cons [Hr Hf]%Forall_cons]. done.
Qed.

Lemma tracked_type l g r : (g, r) ∈ tracked l → g ∈ crt_Type <$> l.
Proof. rewrite elem_of_tracked. intros (x & Hx & <- & _). by apply list_elem_of_fmap_2. Qed.

Lemma elem_of_tracked_cons x l g r :
  (g, r) ∈ tracked (x :: l) ↔ (crt_Type x = g ∧ r ∈ crt_Resources x) ∨ (g, r) ∈ tracked l.
Proof. rewrite !elem_of_tracked. setoid_rewrite elem_of_cons. naive_solver. Qed.

Lemma tracked_Add gvk res l : tracked (Add gvk res l) = {[(gvk, res)]} ∪ tracked l.
Proof.
  apply set_eq. intros [g r]. rewrite elem_of_union, elem_of_singleton.
  induction l as [|x l IH]; simpl.
  - rewrite elem_of_tracked_cons. simpl. set_solver.
  - destruct (decide (crt_Type x = gvk)) as [<-|Hne]; rewrite !elem_of_tracked_cons.
    + rewrite WithType_Add_type, WithType_Add_resources. naive_solver.
    + rewrite IH. naive_solver.
Qed.

Lemma tracked_Remove gvk res l :
  wf l → tracked (Remove gvk res l) = tracked l ∖ {[(gvk, res)]}.
Proof.
  intros Hwf. apply set_eq. intros [g r].
  rewrite elem_of_difference, elem_of_singleton.
  induction l as [|x l IH]; simpl; [set_solver|].
  apply wf_cons_inv in Hwf as (Hx & Hnd & Hwf).
  destruct (decide (crt_Type x = gvk)) as [<-|Hne]; rewrite !elem_of_tracked_cons.
  - simpl. rewrite remove_first_sameResource_NoDup by done.
    pose proof (tracked_type l g r). naive_solver.
  - rewrite IH by done. naive_solver.
Qed.

(** Without the invariant, removal still only concerns the given entry. *)
Lemma tracked_Remove_subseteq gvk res l : tracked (Remove gvk res l) ⊆ tracked l.
Proof.
  intros [g r]. induction l as [|x l IH]; simpl; [done|].
  destruct (decide (crt_Type x = gvk)); rewrite !elem_of_tracked_cons; [|naive_solver].
  simpl. intros [[? ?%elem_of_remove_first]|?]; auto.
Qed.

Lemma tracked_Remove_superset gvk res l :
  tracked l ∖ {[(gvk, res)]} ⊆ tracked (Remove gvk res l).
Proof.
  intros [g r]. rewrite elem_of_difference, elem_of_singleton. intros [Hin Hne].
  induction l as [|x l IH]; simpl; [done|]. rewrite elem_of_tracked_cons in Hin.
  destruct (decide (crt_Type x = gvk)) as [<-|Ht]; rewrite elem_of_tracked_cons.
  - simpl. destruct Hin as [[<- Hr]|?]; [|by right]. left. split; [done|].
    apply elem_of_remove_first_ne; [|done]. rewrite sameResource_spec.
    apply bool_decide_eq_false. congruence.
  - destruct Hin as [?|Hin]; [by left|]. right. by apply IH.
Qed.

Lemma Contains_tracked gvk res l :
  wf l → Contains gvk res l = bool_decide ((gvk, res) ∈ tracked l).
Proof.
  intros Hwf. induction l as [|x l IH]; simpl; [done|].
  apply wf_cons_inv in Hwf as (Hx & Hnd & Hwf).
  destruct (decide (crt_Type x = gvk)) as [<-|Hne].
  - rewrite existsb_sameResource. apply bool_decide_ext.
    rewrite elem_of_tracked_cons. pose proof (tracked_type l (crt_Type x) res). naive_solver.
  - rewrite IH by done. apply bool_decide_ext. rewrite elem_of_tracked_cons. naive_solver.
Qed.

Lemma Contains_Add gvk res l : Contains gvk res (Add gvk res l) = true.
Proof.
  induction l as [|x l IH]; simpl.
  - rewrite decide_True by done. rewrite sameResource_spec. by rewrite bool_decide_true.
  - destruct (decide (crt_Type x = gvk)) as [Heq|Hne]; simpl.
    + rewrite WithType_Add_type, decide_True by done.
      rewrite existsb_sameResource. apply bool_decide_eq_true, WithType_Add_resources. by left.
    + by rewrite decide_False.
Qed.

Lemma Contains_Add_mono gvk res gvk' res' l :
  Contains gvk res l = true → Contains gvk res (Add gvk' res' l) = true.
Proof.
  induction l as [|x l IH]; simpl; [done|].
  destruct (decide (crt_Type x = gvk')) as [<-|Hne]; simpl;
    [rewrite WithType_Add_type|];
    destruct (decide (crt_Type x = gvk)); auto.
  rewrite !existsb_sameResource, !bool_decide_eq_true, WithType_Add_resources. by right.
Qed.

Lemma wf_nil : wf [].
Proof. split; constructor. Qed.

Lemma wf_Add gvk res l : wf l → wf (Add gvk res l).
Proof.
  intros [Hnd Hf]. split.
  - destruct (decide (gvk ∈ crt_Type <$> l)) as [Hin|Hin].
    + by rewrite Add_types_in.
    + rewrite Add_new, fmap_app by done. apply NoDup_app.
      split; [done|]. split; [set_solver|]. apply NoDup_singleton.
  - clear Hnd. induction Hf as [|x l Hx Hf IH]; simpl.
    + constructor; [apply NoDup_singleton|constructor].
    + destruct (decide (crt_Type x = gvk)); constructor; eauto with replicator.
Qed.

Lemma wf_Remove gvk res l : wf l → wf (Remove gvk res l).
Proof.
  intros [Hnd Hf]. split; [by rewrite Remove_types|]. clear Hnd.
  induction Hf as [|x l Hx Hf IH]; simpl; [constructor|].
  destruct (decide (crt_Type x = gvk)); constructor; eauto.
  simpl. eapply sublist_NoDup; [done|]. apply remove_first_sublist.
Qed.

(** The loop of [Cleanup]: the entries already read have been compacted into
    the first [w] cells, the cells from the read index on are untouched. *)
Lemma cleanup_loop_spec {A} (nonempty : A → bool) n i w (arr : list A) :
  w ≤ i → i + n ≤ length arr →
  let '(arr', w') := cleanup_loop nonempty n i w arr in
  take w' arr' = take w arr ++ List.filter nonempty (take n (drop i arr)) ∧
  length arr' = length arr ∧ w' ≤ i + n.
Proof.
  revert i w arr. induction n as [|n IH]; intros i w arr Hw Hlen; simpl.
  - rewrite app_nil_r. split; [done|]. split; [done|lia].
  - destruct (lookup_lt_is_Some_2 arr i) as [x Hx]; [lia|]. rewrite Hx, (drop_S _ _ _ Hx). simpl.
    destruct (nonempty x); specialize (IH (S i)).
    + specialize (IH (S w) (<[w:=x]> arr)). rewrite length_insert in IH.
      destruct (cleanup_loop _ _ _ _ _) as [arr' w']. destruct IH as (Ht & Hl & Hle); [lia..|].
      rewrite Ht, drop_insert_lt by lia.
      rewrite (take_S_r _ _ x), take_insert_ge by (lia || by apply list_lookup_insert_eq; lia).
      rewrite <- app_assoc. split; [done|]. split; [done|lia].
    + specialize (IH w arr). destruct (cleanup_loop _ _ _ _ _) as [arr' w'].
      destruct IH as (Ht & Hl & Hle); [lia..|]. rewrite Ht. split; [done|]. split; [done|lia].
Qed.

Lemma Cleanup_filterb l : Cleanup l = List.filter hasResources l.
Proof.
  unfold Cleanup. pose proof (cleanup_loop_spec hasResources (length l) 0 0 l) as H.
  destruct (cleanup_loop hasResources (length l) 0 0 l) as [arr w].
  destruct H as [-> _]; [lia..|]. by rewrite drop_0, firstn_all.
Qed.

Lemma Cleanup_filter l : Cleanup l = filter (λ x, 0 < length (crt_Resources x)) l.
Proof.
  rewrite Cleanup_filterb. unfold hasResources. induction l as [|x l IH]; simpl; [done|].
  destruct (Nat.ltb_spec 0 (length (crt_Resources x))).
  - rewrite filter_cons_True by done. by f_equal.
  - by rewrite filter_cons_False by lia.
Qed.

Lemma tracked_Cleanup l : tracked (Cleanup l) = tracked l.
Proof.
  apply set_eq. intros [g r]. rewrite Cleanup_filter, !elem_of_tracked.
  setoid_rewrite list_elem_of_filter. split; [naive_solver|].
  intros (x & Hx & <- & Hr). exists x. repeat split; try done.
  destruct (crt_Resources x); [by apply not_elem_of_nil in Hr|simpl; lia].
Qed.

Lemma wf_Cleanup l : wf l → wf (Cleanup l).
Proof.
  intros [Hnd Hf]. rewrite Cleanup_filter. split.
  - eapply sublist_NoDup; [done|]. apply fmap_sublist, sublist_filter.
  - rewrite Forall_forall in Hf |- *. intros x [_ Hx]%list_elem_of_filter. by apply Hf.
Qed.

Lemma Cleanup_nil l : Cleanup l = [] ↔ tracked l = ∅.
Proof.
  rewrite <- tracked_Cleanup. split; [by intros ->|].
  rewrite Cleanup_filter. intros H.
  destruct (filter _ l) as [|x k] eqn:E; [done|exfalso].
  assert (x ∈ filter (λ x, 0 < length (crt_Resources x)) l) as Hx by (rewrite E; by left).
  apply list_elem_of_filter in Hx as [Hpos _].
  destruct (crt_Resources x) as [|r rs] eqn:Er; [simpl in Hpos; lia|].
  assert ((crt_Type x, r) ∈ tracked (x :: k)) as Hin.
  { rewrite elem_of_tracked_cons, Er. left. split; [done|by left]. }
  rewrite H in Hin. set_solver.
Qed.

End Refinement.

(** Lists that track the same entries cannot be told apart by the queries,
    and stay so under the updates. *)
#[export] Instance Add_proper gvk res : Proper ((≡@{CreatedResourcesWithTypeList}) ==> (≡)) (Add gvk res).
Proof.
  intros l k H. unfold equiv, tracked_equiv in *. by rewrite !tracked_Add, H.
Qed.
#[export] Instance Cleanup_proper : Proper ((≡@{CreatedResourcesWithTypeList}) ==> (≡)) Cleanup.
Proof. intros l k H. unfold equiv, tracked_equiv in *. by rewrite !tracked_Cleanup, H. Qed.

#[export] Hint Resolve wf_nil wf_Add wf_Remove wf_Cleanup : replicator.
#[export] Hint Rewrite tracked_Add tracked_Cleanup Contains_tracked : replicator.

(** ** Lists that have grown

    [grown l l']: the list [l'] comes from [l] by adding entries. *)

Definition grown : relation CreatedResourcesWithTypeList :=
  rtc (λ l l', ∃ gvk ns n c, l' = AddRaw gvk ns n c l).

Lemma grown_AddRaw gvk ns n c l : grown l (AddRaw gvk ns n c l).
Proof. apply rtc_once. by exists gvk, ns, n, c. Qed.

(** What the additions keep, a grown list has. *)
Lemma grown_keeps (P : CreatedResourcesWithTypeList → Prop) l l' :
  (∀ gvk ns n c k, P k → P (AddRaw gvk ns n c k)) → grown l l' → P l → P l'.
Proof.
  intros HP. induction 1 as [|l k l' (gvk & ns & n & c & ->) _ IH]; [done|]. intros Hl. by apply IH, HP.
Qed.

(** Adding an entry that is there changes nothing. *)
Lemma Add_contained gvk res l : Contains gvk res l = true → Add gvk res l = l.
Proof.
  induction l as [|x l IH]; simpl; [done|]. destruct (decide (crt_Type x = gvk)).
  - intros Hin. unfold WithType.Add. by rewrite Hin.
  - intros Hin. by rewrite IH.
Qed.

(** No type without resources: [Cleanup] finds nothing to do. *)
Definition compact (l : CreatedResourcesWithTypeList) : Prop := ∀ x, x ∈ l → crt_Resources x ≠ [].

Lemma compact_Add gvk res l : compact l → compact (Add gvk res l).
Proof.
  induction l as [|y l IH]; intros Hl x; simpl; [by intros ->%list_elem_of_singleton|].
  destruct (decide (crt_Type y = gvk)); intros [->|Hx]%elem_of_cons.
  - unfold WithType.Add. case_match; [apply Hl; by left|]. simpl. by destruct (crt_Resources y).
  - apply Hl. by right.
  - apply Hl. by left.
  - apply IH; [|done]. intros z Hz. apply Hl. by right.
Qed.

Lemma Cleanup_compact l : compact l → Cleanup l = l.
Proof.
  rewrite Cleanup_filterb. induction l as [|x l IH]; intros Hl; simpl; [done|].
  assert (hasResources x = true) as ->.
  { unfold hasResources. apply Nat.ltb_lt. specialize (Hl x ltac:(by left)). destruct (crt_Resources x); simpl; [done|lia]. }
  f_equal. apply IH. intros y Hy. apply Hl. by right.
Qed.

#[export] Hint Resolve compact_Add : replicator.

(** ** Properties *)

(** C23: The status list is a finite set of entries: under its invariant, which
    every operation preserves, adding, removing, asking for and compacting
    refine the operations of the set [tracked], an empty cluster reference
    being the same as none; after the compaction the list is empty exactly
    when nothing is tracked. *)
Theorem status_list_refines_set gvk ns n c l :
  wf l →
  let e := (gvk, MkCR (normalizeCluster c) ns n) in
  (wf (AddRaw gvk ns n c l) ∧ tracked (AddRaw gvk ns n c l) = {[e]} ∪ tracked l) ∧
  (wf (RemoveRaw gvk ns n c l) ∧ tracked (RemoveRaw gvk ns n c l) = tracked l ∖ {[e]}) ∧
  ContainsRaw gvk ns n c l = bool_decide (e ∈ tracked l) ∧
  (wf (Cleanup l) ∧ tracked (Cleanup l) = tracked l ∧ (Cleanup l = [] ↔ tracked l = ∅)) ∧
  AddRaw gvk ns n (Some zeroRef) l = AddRaw gvk ns n None l.
Proof.
  intros Hwf e. unfold AddRaw, RemoveRaw, ContainsRaw. subst e.
  split_and!; eauto using tracked_Add, tracked_Remove, Contains_tracked, tracked_Cleanup
    with replicator; apply Cleanup_nil.
Qed.

(** The in-place compaction of [Cleanup], which writes into the array it is
    reading, keeps exactly the types that still have resources, in order. *)
Theorem Cleanup_compacts l :
  Cleanup l = List.filter (λ x, Nat.ltb 0 (length (crt_Resources x))) l.
Proof.
  exact (Cleanup_filterb l).
Qed.
