(* ===== verification/Memory.v ===== *)
(** * Memory

    The heap on which the API objects live: cells for what is referred to by
    pointers, arrays for slices.  Slices and deep copies as Go and the generated
    code use them, what the contents of the heap stand for ([Repr]), the cells
    an operation may write ([writes]), and the specification of the combinators
    for deep copies ([copies]). *)

From S2P Require Import Prelude GoLib ApiTypes.

(** ** The heap *)

Notation loc := positive.

(** A slice that is not nil; all slices of this code start at the beginning of
    their array. *)
Record slice := MkSlice { sl_base : loc; sl_len : nat }.

(** [CreatedResource] and [CreatedResourcesWithType] in memory. *)
Record HResource := MkHR { hr_Cluster : option loc; hr_Namespace : string; hr_Name : string }.
Record HTyped := MkHT { ht_Type : GroupVersionKind; ht_Resources : option slice }.

(** The types of the specification in memory: a pointer is [option loc].  Label
    selectors and cluster selectors are values of other modules. *)
Record HTemplate := MkHTemplate { hrt_value : string; hrt_rawJSON : option slice }.
Record HClusterTarget := MkHCT { hct_Selector : option loc; hct_Location : option loc }.
Record HSelector := MkHS { hsel_MatchIdentities : option slice; hsel_LabelSelector : LabelSelector }.
Record HNamespaceTarget := MkHNT { hnt_Selector : option loc }.
Record HTarget := MkHTarget {
  hta_Cluster : option loc;
  hta_Namespace : option loc;
  hta_TargetConflictPolicy : option loc;
  hta_NamespacePolicy : option loc }.
Record HSpec := MkHSpec {
  hsp_Sources : option slice;
  hsp_Template : option loc;
  hsp_Targets : option slice;
  hsp_Interval : option loc }.

(** [metav1.ObjectMeta], [metav1.TypeMeta] and [common.Status], as far as the
    model reads them. *)
Record ObjectMeta := MkMeta {
  om_Namespace : string;
  om_Name : string;
  om_Generation : Z;
  om_DeletionTimestamp : option Time;
  om_Labels : StringMap;
  om_Annotations : StringMap;
  om_Finalizers : list string }.
Record TypeMeta := MkTypeMeta { tm_Kind : string; tm_APIVersion : string }.
Record CommonStatus := MkCommon {
  cs_ObservedGeneration : Z;
  cs_Phase : string;
  cs_Conditions : list Condition }.

Record HStatus := MkHStatus { hst_Status : CommonStatus; hst_Replicas : option slice }.

(** [Replica] and [ClusterReplica]: the two Go structs have the same fields. *)
Record HReplica := MkHReplica {
  hrp_TypeMeta : TypeMeta;
  hrp_ObjectMeta : ObjectMeta;
  hrp_Spec : HSpec;
  hrp_Status : HStatus }.

(** [ReplicaList] and [ClusterReplicaList], with [metav1.ListMeta]. *)
Record ListMeta := MkListMeta { lm_ResourceVersion : string; lm_Continue : string }.
Record HReplicaList := MkHList {
  hl_TypeMeta : TypeMeta;
  hl_ListMeta : ListMeta;
  hl_Items : option slice }.

(** What a location can contain: what a pointer refers to, or an array. *)
Inductive block :=
| BRef (r : ObjectReference)
| BTemplate (t : HTemplate)
| BInterval (d : Z)
| BClusterTarget (c : HClusterTarget)
| BNamespaceTarget (n : HNamespaceTarget)
| BSelector (s : HSelector)
| BClusterSelector (s : ClusterSelector)
| BLocation (l : ClusterRelativeLocation)
| BConflictPolicy (p : TargetConflictPolicy)
| BNamespacePolicy (p : NamespacePolicy)
| BReplica (r : HReplica)
| BReplicaList (l : HReplicaList)
| BReference (r : ReferenceWithID)
| BTarget (t : HTarget)
| BSpec (s : HSpec)
| BResource (r : HResource)
| BTyped (t : HTyped)
| BStatus (s : HStatus)
| BBytes (a : list ascii)
| BIdentities (a : list string)
| BSources (a : list ReferenceWithID)
| BTargets (a : list HTarget)
| BResources (a : list HResource)
| BTypes (a : list HTyped)
| BReplicas (a : list HReplica).

Notation heap := (gmap positive block).

(** References to clusters: entries of the status may share them, and nobody
    writes to them. *)
Definition isRef (b : block) : Prop := match b with BRef _ => True | _ => False end.

(** A location that is not in use. *)
Definition freshLoc (h : heap) : loc := Pos.succ (foldr Pos.max 1%positive (map_to_list h).*1).

Definition alloc (b : block) (h : heap) : loc * heap := let p := freshLoc h in (p, <[p := b]> h).

(** The types of which there are arrays. *)
Class Cells (A : Type) := {
  block_of : list A → block;
  array_of : block → option (list A);
  zero : A;
  array_block b a : array_of b = Some a ↔ b = block_of a;
  block_not_ref a : ¬ isRef (block_of a) }.

(** The types to which there are pointers. *)
Class Boxed (A : Type) := {
  box : A → block;
  unbox : block → option A;
  unbox_box b x : unbox b = Some x ↔ b = box x }.

Ltac solve_cells := first [by intros [] ?; naive_solver | by intros ? []].

#[export] Instance byte_cells : Cells ascii.
Proof.
  refine {| block_of := BBytes; array_of b := match b with BBytes a => Some a | _ => None end;
            zero := Ascii.zero |}; solve_cells.
Defined.

#[export] Instance identity_cells : Cells string.
Proof.
  refine {| block_of := BIdentities; array_of b := match b with BIdentities a => Some a | _ => None end;
            zero := "" |}; solve_cells.
Defined.

#[export] Instance source_cells : Cells ReferenceWithID.
Proof.
  refine {| block_of := BSources; array_of b := match b with BSources a => Some a | _ => None end;
            zero := MkSource (MkTRef (GVK "" "" "") "" "") "" |}; solve_cells.
Defined.

#[export] Instance target_cells : Cells HTarget.
Proof.
  refine {| block_of := BTargets; array_of b := match b with BTargets a => Some a | _ => None end;
            zero := MkHTarget None None None None |}; solve_cells.
Defined.

#[export] Instance resource_cells : Cells HResource.
Proof.
  refine {| block_of := BResources; array_of b := match b with BResources a => Some a | _ => None end;
            zero := MkHR None "" "" |}; solve_cells.
Defined.

#[export] Instance typed_cells : Cells HTyped.
Proof.
  refine {| block_of := BTypes; array_of b := match b with BTypes a => Some a | _ => None end;
            zero := MkHT (GVK "" "" "") None |}; solve_cells.
Defined.

Definition zeroReplica : HReplica :=
  MkHReplica (MkTypeMeta "" "") (MkMeta "" "" 0 None None None []) (MkHSpec None None None None)
    (MkHStatus (MkCommon 0 "" []) None).

#[export] Instance replica_cells : Cells HReplica.
Proof.
  refine {| block_of := BReplicas; array_of b := match b with BReplicas a => Some a | _ => None end;
            zero := zeroReplica |}; solve_cells.
Defined.

#[export] Instance template_boxed : Boxed HTemplate.
Proof. refine {| box := BTemplate; unbox b := match b with BTemplate x => Some x | _ => None end |}; solve_cells. Defined.
#[export] Instance interval_boxed : Boxed Z.
Proof. refine {| box := BInterval; unbox b := match b with BInterval x => Some x | _ => None end |}; solve_cells. Defined.
#[export] Instance clusterTarget_boxed : Boxed HClusterTarget.
Proof. refine {| box := BClusterTarget; unbox b := match b with BClusterTarget x => Some x | _ => None end |}; solve_cells. Defined.
#[export] Instance namespaceTarget_boxed : Boxed HNamespaceTarget.
Proof. refine {| box := BNamespaceTarget; unbox b := match b with BNamespaceTarget x => Some x | _ => None end |}; solve_cells. Defined.
#[export] Instance selector_boxed : Boxed HSelector.
Proof. refine {| box := BSelector; unbox b := match b with BSelector x => Some x | _ => None end |}; solve_cells. Defined.
#[export] Instance clusterSelector_boxed : Boxed ClusterSelector.
Proof. refine {| box := BClusterSelector; unbox b := match b with BClusterSelector x => Some x | _ => None end |}; solve_cells. Defined.
#[export] Instance location_boxed : Boxed ClusterRelativeLocation.
Proof. refine {| box := BLocation; unbox b := match b with BLocation x => Some x | _ => None end |}; solve_cells. Defined.
#[export] Instance conflictPolicy_boxed : Boxed TargetConflictPolicy.
Proof. refine {| box := BConflictPolicy; unbox b := match b with BConflictPolicy x => Some x | _ => None end |}; solve_cells. Defined.
#[export] Instance namespacePolicy_boxed : Boxed NamespacePolicy.
Proof. refine {| box := BNamespacePolicy; unbox b := match b with BNamespacePolicy x => Some x | _ => None end |}; solve_cells. Defined.
#[export] Instance replica_boxed : Boxed HReplica.
Proof. refine {| box := BReplica; unbox b := match b with BReplica x => Some x | _ => None end |}; solve_cells. Defined.
#[export] Instance replicaList_boxed : Boxed HReplicaList.
Proof. refine {| box := BReplicaList; unbox b := match b with BReplicaList x => Some x | _ => None end |}; solve_cells. Defined.
#[export] Instance reference_boxed : Boxed ReferenceWithID.
Proof. refine {| box := BReference; unbox b := match b with BReference x => Some x | _ => None end |}; solve_cells. Defined.
#[export] Instance target_boxed : Boxed HTarget.
Proof. refine {| box := BTarget; unbox b := match b with BTarget x => Some x | _ => None end |}; solve_cells. Defined.
#[export] Instance spec_boxed : Boxed HSpec.
Proof. refine {| box := BSpec; unbox b := match b with BSpec x => Some x | _ => None end |}; solve_cells. Defined.
#[export] Instance resource_boxed : Boxed HResource.
Proof. refine {| box := BResource; unbox b := match b with BResource x => Some x | _ => None end |}; solve_cells. Defined.
#[export] Instance typed_boxed : Boxed HTyped.
Proof. refine {| box := BTyped; unbox b := match b with BTyped x => Some x | _ => None end |}; solve_cells. Defined.
#[export] Instance status_boxed : Boxed HStatus.
Proof. refine {| box := BStatus; unbox b := match b with BStatus x => Some x | _ => None end |}; solve_cells. Defined.

(** ** Slices *)

Section Slices.
(** The spare capacity that [append] gives a new array: unspecified in Go. *)
Context (grow : nat → nat).
Context {A : Type} `{Cells A}.

Definition arrayAt (h : heap) (p : loc) : option (list A) := h !! p ≫= array_of.

(** The elements that [range] visits; [None] is a broken slice. *)
Definition elems (h : heap) (s : option slice) : option (list A) :=
  match s with
  | None => Some []
  | Some s =>
      match arrayAt h (sl_base s) with
      | Some a => if Nat.leb (sl_len s) (length a) then Some (take (sl_len s) a) else None
      | None => None
      end
  end.

Definition newArray (xs : list A) (spare : nat) (h : heap) : heap * option slice :=
  let '(p, h) := alloc (block_of (xs ++ replicate spare zero)) h in
  (h, Some (MkSlice p (length xs))).

(** [append(s, x)] *)
Definition append1 (h : heap) (s : option slice) (x : A) : option (heap * option slice) :=
  match s with
  | None => Some (newArray [x] (grow 0) h)
  | Some s =>
      match arrayAt h (sl_base s) with
      | None => None
      | Some a =>
          if Nat.ltb (sl_len s) (length a)
          then Some (<[sl_base s := block_of (<[sl_len s := x]> a)]> h,
                     Some (MkSlice (sl_base s) (S (sl_len s))))
          else Some (newArray (take (sl_len s) a ++ [x]) (grow (sl_len s)) h)
      end
  end.

(** [append(s[:i], s[i+1:]...)]: the elements move within the array. *)
Definition removeAt (h : heap) (s : option slice) (i : nat) : option (heap * option slice) :=
  match s with
  | None => None
  | Some s =>
      match arrayAt h (sl_base s) with
      | None => None
      | Some a =>
          let moved := delete i (take (sl_len s) a) in
          Some (<[sl_base s := block_of (moved ++ drop (length moved) a)]> h,
                Some (MkSlice (sl_base s) (sl_len s - 1)))
      end
  end.

(** [s[i] = x] *)
Definition setElem (h : heap) (s : option slice) (i : nat) (x : A) : option heap :=
  match s with
  | None => None
  | Some s =>
      match arrayAt h (sl_base s) with
      | None => None
      | Some a => Some (<[sl_base s := block_of (<[i := x]> a)]> h)
      end
  end.

End Slices.

(** ** Deep copies *)

(** The loop [for i := range *in { ( *in)[i].DeepCopyInto(&( *out)[i]) }]. *)
Fixpoint copyInto {A} `{Cells A} (copy : heap → A → option (heap * A)) (h : heap) (out : loc) (i : nat)
    (xs : list A) : option heap :=
  match xs with
  | [] => Some h
  | x :: xs =>
      match copy h x with
      | None => None
      | Some (h, x) =>
          match arrayAt h out with
          | None => None
          | Some a => copyInto copy (<[out := block_of (<[i := x]> a)]> h) out (S i) xs
          end
      end
  end.

(** [if in.X != nil { *out = make([]T, len( *in)); for ... }] *)
Definition copySlice {A} `{Cells A} (copy : heap → A → option (heap * A)) (h : heap) (s : option slice)
    : option (heap * option slice) :=
  match s with
  | None => Some (h, None)
  | Some s =>
      match elems h (Some s) with
      | None => None
      | Some xs =>
          let '(out, h) := alloc (block_of (replicate (length xs) zero)) h in
          h ← copyInto copy h out 0 xs;
          Some (h, Some (MkSlice out (length xs)))
      end
  end.

(** [*out = new(T)] and the copy of what the pointer refers to; the new cell is
    written once, when its contents are complete. *)
Definition copyPointer {A} `{Boxed A} (copy : heap → A → option (heap * A)) (h : heap) (p : option loc)
    : option (heap * option loc) :=
  match p with
  | None => Some (h, None)
  | Some p =>
      match h !! p ≫= unbox with
      | None => None
      | Some x =>
          '(h, x) ← copy h x;
          let '(q, h) := alloc (box x) h in Some (h, Some q)
      end
  end.

(** [**out = **in], and the elements for which [copy( *out, *in)] is used. *)
Definition copyPlain {A} (h : heap) (x : A) : option (heap * A) := Some (h, x).

(** ** Writes *)

(** [h'] extends [h], except for the arrays of [D]; references to clusters are
    never written. *)
Definition writes (D : gset loc) (h h' : heap) : Prop :=
  ∀ p b, h !! p = Some b → p ∉ D ∨ isRef b → h' !! p = Some b.

(** The cells [X'] of the heap after an operation are old cells of [X] or new. *)
Definition grows (h : heap) (X X' : gset loc) : Prop := ∀ p, p ∈ X' → p ∈ X ∨ p ∉ dom h.

Lemma writes_refl D h : writes D h h.
Proof. by intros p b ? _. Qed.

Lemma writes_weaken D E h h' : D ⊆ E → writes D h h' → writes E h h'.
Proof. intros HD Hw p b Hp Hn. apply Hw; [done|]. set_solver. Qed.

Lemma writes_trans D h h1 h2 E :
  writes D h h1 → writes E h1 h2 → grows h D E → writes D h h2.
Proof.
  intros H1 H2 HE p b Hp Hn. apply H2; [by apply H1|].
  destruct Hn as [Hn|Hr]; [left|by right]. intros HpE.
  destruct (HE p HpE) as [?|Hd]; [done|]. apply Hd. by apply elem_of_dom_2 in Hp.
Qed.

Lemma writes_dom h h' : writes ∅ h h' → dom h ⊆ dom h'.
Proof.
  intros Hw p [b Hp]%elem_of_dom. apply elem_of_dom. exists b. apply Hw; [done|set_solver].
Qed.

Lemma grows_refl h X : grows h X X.
Proof. by left. Qed.

Lemma grows_disjoint h X X' Y : grows h X X' → X ## Y → Y ⊆ dom h → X' ## Y.
Proof. intros Hg Hd HY p Hp Hy. destruct (Hg p Hp); set_solver. Qed.

Lemma freshLoc_fresh h : freshLoc h ∉ dom h.
Proof.
  intros [b Hb]%elem_of_dom. apply elem_of_map_to_list in Hb. unfold freshLoc in *.
  assert (∀ (q : loc) l, q ∈ l → (q ≤ foldr Pos.max 1 l)%positive) as Hmax.
  { intros q l. induction l as [|r l IH]; simpl; [by intros ?%not_elem_of_nil|].
    intros [->|Hq]%elem_of_cons; [|specialize (IH Hq)]; lia. }
  apply (list_elem_of_fmap_2 fst), Hmax in Hb. by apply Pos.le_succ_l, Pos.lt_irrefl in Hb.
Qed.

Lemma alloc_spec b h :
  let '(p, h') := alloc b h in p ∉ dom h ∧ h' !! p = Some b ∧ writes ∅ h h'.
Proof.
  unfold alloc. cbv beta iota zeta. pose proof (freshLoc_fresh h) as Hf. split; [done|]. split; [apply lookup_insert_eq|].
  intros p b' Hp _. rewrite lookup_insert_ne; [done|]. intros Heq.
  apply Hf. rewrite Heq. by apply elem_of_dom_2 in Hp.
Qed.

(** ** Slices *)

Definition base (s : option slice) : gset loc :=
  match s with Some s => {[sl_base s]} | None => ∅ end.

Section SliceLemmas.
Context {A : Type} `{Cells A}.
Implicit Types (xs : list A) (h : heap).

Lemma arrayAt_lookup h p (a : list A) : arrayAt h p = Some a ↔ h !! p = Some (block_of a).
Proof.
  unfold arrayAt. rewrite bind_Some. setoid_rewrite array_block. naive_solver.
Qed.

Lemma elems_some h (s : slice) xs :
  elems h (Some s) = Some xs ↔
  ∃ a, h !! sl_base s = Some (block_of a) ∧ sl_len s ≤ length a ∧ xs = take (sl_len s) a.
Proof.
  simpl. setoid_rewrite <- arrayAt_lookup. destruct (arrayAt h (sl_base s)) as [a|]; [|naive_solver].
  destruct (Nat.leb_spec (sl_len s) (length a)); split; try done; [naive_solver|naive_solver|].
  intros (? & [= <-] & ? & _). lia.
Qed.

(** What a slice holds only depends on its array. *)
Lemma elems_writes D h h' s xs :
  elems h s = Some xs → writes D h h' → base s ## D → elems h' s = Some xs.
Proof.
  destruct s as [s|]; [|done]. rewrite !elems_some. intros (a & Ha & Hl & ->) Hw Hd.
  exists a. split; [|done]. apply Hw; [done|]. left. set_solver.
Qed.

Lemma elems_dom h s xs : elems h s = Some xs → base s ⊆ dom h.
Proof.
  destruct s as [s|]; [|set_solver]. rewrite elems_some. intros (a & Ha & _).
  apply elem_of_dom_2 in Ha. set_solver.
Qed.

Lemma elems_length h s xs :
  elems h s = Some xs → length xs = match s with Some s => sl_len s | None => 0 end.
Proof.
  destruct s as [s|]; [|by intros [= <-]]. rewrite elems_some. intros (a & _ & Hl & ->).
  rewrite length_take. lia.
Qed.

Lemma write_array (a a' : list A) p h :
  h !! p = Some (block_of a) → writes {[p]} h (<[p := block_of a']> h).
Proof.
  intros Hp q b Hq Hn. destruct (decide (q = p)) as [->|Hne]; [|by rewrite lookup_insert_ne].
  simplify_eq. exfalso. destruct Hn as [Hn|Hn]; [set_solver|]. by apply block_not_ref in Hn.
Qed.

Lemma newArray_spec xs spare h :
  let '(h', s) := newArray xs spare h in
  writes ∅ h h' ∧ elems h' s = Some xs ∧ base s ## dom h.
Proof.
  pose proof (alloc_spec (block_of (xs ++ replicate spare zero)) h) as Ha.
  unfold newArray. destruct (alloc _ h) as [p h']. destruct Ha as (Hf & Hp & Hw).
  split; [done|]. split; [|set_solver]. rewrite elems_some. simpl.
  eexists. split; [done|]. rewrite length_app, take_app_length. split; [lia|done].
Qed.

(** [append]: whether the array has room or not. *)
Lemma append1_spec grow h s xs x :
  elems h s = Some xs →
  ∃ h' s', append1 grow h s x = Some (h', s') ∧ elems h' s' = Some (xs ++ [x]) ∧
           writes (base s) h h' ∧ grows h (base s) (base s').
Proof.
  destruct s as [s|].
  - intros (a & Ha & Hl & ->)%elems_some. simpl. rewrite (proj2 (arrayAt_lookup _ _ _) Ha).
    destruct (Nat.ltb_spec (sl_len s) (length a)) as [Hlt|_].
    + eexists _, _. split; [done|]. split; [|split; [by eapply write_array|by left]].
      rewrite elems_some. simpl. eexists. rewrite lookup_insert_eq, length_insert. split; [done|].
      split; [lia|]. by rewrite (take_S_r _ _ x), take_insert_ge by (lia || by apply list_lookup_insert_eq).
    + pose proof (newArray_spec (take (sl_len s) a ++ [x]) (grow (sl_len s)) h) as Hn.
      destruct (newArray _ _ h) as [h' s']. destruct Hn as (Hw & He & Hf).
      eexists _, _. split; [done|]. split; [done|]. split; [by eapply writes_weaken, Hw|].
      intros p Hp. right. set_solver.
  - intros [= <-]. simpl. pose proof (newArray_spec [x] (grow 0) h) as Hn.
    destruct (newArray _ _ h) as [h' s']. destruct Hn as (Hw & He & Hf).
    eexists _, _. split; [done|]. split; [done|]. split; [by eapply writes_weaken, Hw|].
    intros p Hp. right. set_solver.
Qed.

Lemma removeAt_spec h s xs i :
  elems h s = Some xs → i < length xs →
  ∃ h' s', removeAt (A := A) h s i = Some (h', s') ∧ elems h' s' = Some (delete i xs) ∧
           writes (base s) h h' ∧ base s' = base s.
Proof.
  destruct s as [s|]; [|intros [= <-]; simpl; lia].
  intros He Hi. pose proof (elems_length _ _ _ He) as Hlen. simpl in Hlen.
  apply elems_some in He as (a & Ha & Hl & Hx). simpl.
  rewrite (proj2 (arrayAt_lookup _ _ _) Ha). rewrite <- Hx.
  assert (length (delete i xs) = sl_len s - 1) as Hd.
  { rewrite length_delete by (apply lookup_lt_is_Some_2; done). lia. }
  eexists _, _. split; [done|]. split; [|split; [by eapply write_array|done]].
  rewrite elems_some. simpl. eexists. rewrite lookup_insert_eq. split; [done|]. rewrite <- Hd.
  split; [rewrite length_app; lia|]. by rewrite take_app_length.
Qed.

Lemma setElem_spec h s xs i x :
  elems h s = Some xs → i < length xs →
  ∃ h', setElem h s i x = Some h' ∧ elems h' s = Some (<[i := x]> xs) ∧ writes (base s) h h'.
Proof.
  destruct s as [s|]; [|intros [= <-]; simpl; lia].
  intros He Hi. pose proof (elems_length _ _ _ He) as Hlen. simpl in Hlen.
  apply elems_some in He as (a & Ha & Hl & Hx). simpl.
  rewrite (proj2 (arrayAt_lookup _ _ _) Ha).
  eexists. split; [done|]. split; [|by eapply write_array]. rewrite Hx.
  pose proof (elems_some (<[sl_base s:=block_of (<[i:=x]> a)]> h) s) as He. simpl in He.
  rewrite He. exists (<[i := x]> a). rewrite lookup_insert_eq, length_insert. split; [done|].
  split; [done|]. rewrite take_insert_lt; [done|lia].
Qed.

End SliceLemmas.

(** ** What elements and slices stand for *)

(** Elements of arrays as values: [hold] are the arrays an element owns, [reach]
    all the cells it refers to.  Writing elsewhere does not change an element. *)
Class Repr (A B : Type) := {
  repr : heap → A → B → Prop;
  hold : A → gset loc;
  reach : heap → A → gset loc;
  hold_reach h x : hold x ⊆ reach h x;
  reach_dom h x y : repr h x y → reach h x ⊆ dom h;
  repr_frame D h h' x y :
    repr h x y → writes D h h' → reach h x ## D → repr h' x y ∧ reach h' x = reach h x }.

(** Elements that own all they refer to but references to clusters. *)
Class Owning (A B : Type) `{!Repr A B} :=
  repr_writes D h h' (x : A) (y : B) :
    repr h x y → writes D h h' → hold x ## D → repr h' x y ∧ reach h' x = reach h x.

Section Represent.
Context {A B : Type} `{Cells A} `{!Repr A B}.
Implicit Types (xs : list A) (ys : list B) (h : heap) (D E : gset loc).

Definition holds xs : gset loc := ⋃ (hold <$> xs).
Definition reaches h xs : gset loc := ⋃ (reach h <$> xs).

(** No array is owned twice, nor is it in [D]. *)
Fixpoint separate D xs : Prop :=
  match xs with
  | [] => True
  | x :: xs => hold x ## D ∧ separate (D ∪ hold x) xs
  end.

Definition slice_at h (s : option slice) ys : Prop :=
  ∃ xs, elems h s = Some xs ∧ Forall2 (repr h) xs ys ∧ separate (base s) xs.

(** The arrays of a slice and of its elements, and all the cells it refers to. *)
Definition foot h (s : option slice) : gset loc := base s ∪ holds (default [] (elems h s)).
Definition reachS h (s : option slice) : gset loc := base s ∪ reaches h (default [] (elems h s)).

Lemma elem_of_holds p xs : p ∈ holds xs ↔ ∃ x, x ∈ xs ∧ p ∈ hold x.
Proof. unfold holds. rewrite elem_of_union_list. setoid_rewrite list_elem_of_fmap. naive_solver. Qed.

Lemma elem_of_reaches h p xs : p ∈ reaches h xs ↔ ∃ x, x ∈ xs ∧ p ∈ reach h x.
Proof. unfold reaches. rewrite elem_of_union_list. setoid_rewrite list_elem_of_fmap. naive_solver. Qed.

Lemma holds_nil : holds [] = ∅.
Proof. done. Qed.

Lemma holds_cons x xs : holds (x :: xs) = hold x ∪ holds xs.
Proof. done. Qed.

Lemma holds_app xs xs' : holds (xs ++ xs') = holds xs ∪ holds xs'.
Proof. unfold holds. by rewrite fmap_app, union_list_app_L. Qed.

Lemma separate_union D E xs : separate (D ∪ E) xs ↔ separate D xs ∧ holds xs ## E.
Proof.
  revert D. induction xs as [|x xs IH]; intros D; simpl; [rewrite holds_nil; set_solver|].
  replace (D ∪ E ∪ hold x) with ((D ∪ hold x) ∪ E) by set_solver.
  rewrite IH, holds_cons. set_solver.
Qed.

Lemma separate_mono D E xs : E ⊆ D → separate D xs → separate E xs.
Proof. intros HE. replace D with (E ∪ D) by set_solver. rewrite separate_union. by intros []. Qed.

Lemma separate_holds D xs : separate D xs → holds xs ## D.
Proof. replace D with (∅ ∪ D) at 1 by set_solver. rewrite separate_union. by intros []. Qed.

Lemma separate_app D xs xs' : separate D (xs ++ xs') ↔ separate D xs ∧ separate (D ∪ holds xs) xs'.
Proof.
  revert D. induction xs as [|x xs IH]; intros D; simpl.
  - replace (D ∪ holds []) with D by (rewrite holds_nil; set_solver). naive_solver.
  - rewrite IH, holds_cons, union_assoc_L. naive_solver.
Qed.

Lemma separate_middle D xs x xs' :
  separate D (xs ++ x :: xs') ↔ separate D (xs ++ xs') ∧ hold x ## D ∪ holds (xs ++ xs').
Proof. rewrite !separate_app, holds_app. simpl. rewrite separate_union. set_solver. Qed.

Lemma separate_filter D f xs : separate D xs → separate D (List.filter f xs).
Proof.
  revert D. induction xs as [|x xs IH]; intros D; simpl; [done|]. intros [Hx Hs].
  destruct (f x); simpl; [by auto|]. apply IH. eapply separate_mono; [|done]. set_solver.
Qed.

Lemma holds_filter f xs : holds (List.filter f xs) ⊆ holds xs.
Proof.
  intros p. rewrite !elem_of_holds. setoid_rewrite list_elem_of_In. setoid_rewrite filter_In. naive_solver.
Qed.

Lemma holds_reaches h xs : holds xs ⊆ reaches h xs.
Proof.
  intros p. rewrite elem_of_holds, elem_of_reaches. intros (x & Hx & Hp). exists x.
  split; [done|]. by apply hold_reach.
Qed.

Lemma reaches_dom h xs ys : Forall2 (repr h) xs ys → reaches h xs ⊆ dom h.
Proof.
  induction 1 as [|x y xs ys Hx _ IH]; [apply empty_subseteq|].
  apply reach_dom in Hx. change (reaches h (x :: xs)) with (reach h x ∪ reaches h xs). set_solver.
Qed.

Lemma holds_dom h xs ys : Forall2 (repr h) xs ys → holds xs ⊆ dom h.
Proof. intros ?%reaches_dom. etrans; [apply holds_reaches|done]. Qed.

Lemma reaches_cons h x xs : reaches h (x :: xs) = reach h x ∪ reaches h xs.
Proof. done. Qed.

Lemma repr_list_frame D h h' xs ys :
  Forall2 (repr h) xs ys → writes D h h' → reaches h xs ## D →
  Forall2 (repr h') xs ys ∧ reaches h' xs = reaches h xs.
Proof.
  intros Hr Hw. induction Hr as [|x y xs ys Hx _ IH]; [done|].
  rewrite !reaches_cons. intros Hd.
  destruct (repr_frame D h h' x y) as [Hx' Heq]; [done..|set_solver|].
  destruct IH as [IH Heqs]; [set_solver|]. split; [by constructor|]. by rewrite Heq, Heqs.
Qed.

Lemma repr_list_writes `{!Owning A B} D h h' xs ys :
  Forall2 (repr h) xs ys → writes D h h' → holds xs ## D →
  Forall2 (repr h') xs ys ∧ reaches h' xs = reaches h xs.
Proof.
  intros Hr Hw. induction Hr as [|x y xs ys Hx _ IH]; [done|].
  rewrite holds_cons, !reaches_cons. intros Hd.
  destruct (repr_writes D h h' x y) as [Hx' Heq]; [done..|set_solver|].
  destruct IH as [IH Heqs]; [set_solver|]. split; [by constructor|]. by rewrite Heq, Heqs.
Qed.

Lemma foot_elems h s xs : elems h s = Some xs → foot h s = base s ∪ holds xs.
Proof. unfold foot. by intros ->. Qed.

Lemma reachS_elems h s xs : elems h s = Some xs → reachS h s = base s ∪ reaches h xs.
Proof. unfold reachS. by intros ->. Qed.

Lemma slice_dom h s ys : slice_at h s ys → reachS h s ⊆ dom h.
Proof.
  intros (xs & He & Hr & _). rewrite (reachS_elems _ _ _ He).
  apply elems_dom in He. apply reaches_dom in Hr. set_solver.
Qed.

Lemma foot_reachS h s : foot h s ⊆ reachS h s.
Proof. unfold foot, reachS. pose proof (holds_reaches h (default [] (elems h s))). set_solver. Qed.

(** The frame rules: writes outside of the cells of a slice keep its value; if
    its elements are owning, so do writes outside of its arrays. *)
Lemma slice_frame D h h' s ys :
  slice_at h s ys → writes D h h' → reachS h s ## D →
  slice_at h' s ys ∧ reachS h' s = reachS h s.
Proof.
  intros (xs & He & Hr & Hs) Hw. rewrite (reachS_elems _ _ _ He). intros Hd.
  destruct (repr_list_frame D h h' xs ys) as [Hr' Hq]; [done..|set_solver|].
  assert (elems h' s = Some xs) as He' by (eapply elems_writes; [done..|set_solver]).
  split; [by exists xs|]. by rewrite (reachS_elems _ _ _ He'), Hq.
Qed.

Lemma slice_writes `{!Owning A B} D h h' s ys :
  slice_at h s ys → writes D h h' → foot h s ## D →
  slice_at h' s ys ∧ foot h' s = foot h s ∧ reachS h' s = reachS h s.
Proof.
  intros (xs & He & Hr & Hs) Hw. rewrite (foot_elems _ _ _ He). intros Hd.
  destruct (repr_list_writes D h h' xs ys) as [Hr' Hq]; [done..|set_solver|].
  assert (elems h' s = Some xs) as He' by (eapply elems_writes; [done..|set_solver]).
  split; [by exists xs|]. rewrite (foot_elems _ _ _ He'), (reachS_elems _ _ _ He').
  by rewrite (reachS_elems _ _ _ He), Hq.
Qed.

End Represent.

(** ** The combinators for deep copies *)

Section Copies.
Context {A B : Type} `{Cells A} `{!Repr A B}.

(** The copy stands for the same value, consists of new cells only, and no old
    cell changes. *)
Definition copies (copy : heap → A → option (heap * A)) : Prop :=
  ∀ h x y, repr h x y →
  ∃ h' x', copy h x = Some (h', x') ∧ repr h' x' y ∧ writes ∅ h h' ∧ reach h' x' ## dom h.

Context (copy : heap → A → option (heap * A)) (copy_ok : copies copy).

Lemma copyInto_spec h out a i xs ys :
  h !! out = Some (block_of a) → i + length xs ≤ length a →
  Forall2 (repr h) xs ys → out ∉ reaches h xs →
  ∃ h' xs', copyInto copy h out i xs = Some h' ∧
            h' !! out = Some (block_of (take i a ++ xs' ++ drop (i + length xs) a)) ∧
            Forall2 (repr h') xs' ys ∧ writes {[out]} h h' ∧
            reaches h' xs' ## dom h ∧ separate (dom h) xs'.
Proof.
  intros Ha Hlen Hr. revert h a i ys Ha Hlen Hr.
  induction xs as [|x xs IH]; intros h a i ys Ha Hlen Hr Hout; simpl in *.
  - inversion Hr; subst. exists h, []. rewrite Nat.add_0_r. simpl. rewrite take_drop.
    split_and!; try done. apply writes_refl.
  - inversion Hr as [|? y ? ys' Hx Hxs]; subst. rewrite reaches_cons in Hout.
    destruct (copy_ok h x y Hx) as (h1 & x' & -> & Hx' & Hw1 & Hf1).
    assert (h1 !! out = Some (block_of a)) as Ha1 by (apply Hw1; [done|set_solver]).
    rewrite (proj2 (arrayAt_lookup _ _ _) Ha1).
    pose proof (write_array a (<[i:=x']> a) out h1 Ha1) as Hw2.
    set (h2 := <[out := block_of (<[i:=x']> a)]> h1) in *.
    pose proof (elem_of_dom_2 _ _ _ Ha) as Hod. pose proof (hold_reach h1 x') as Hhr.
    pose proof (reach_dom _ _ _ Hx') as Hx'd. pose proof (writes_dom _ _ Hw1) as Hd1.
    assert (dom h1 ⊆ dom h2) as Hd2 by (subst h2; rewrite dom_insert_L; set_solver).
    destruct (repr_list_frame ∅ h h1 _ _ Hxs Hw1) as [Hxs1 Hq1]; [set_solver|].
    destruct (repr_list_frame {[out]} h1 h2 _ _ Hxs1 Hw2) as [Hxs2 Hq4]; [set_solver|].
    destruct (IH h2 (<[i:=x']> a) (S i) ys') as (h' & xs' & Hc & Ha' & Hxs' & Hw' & Hf' & Hs');
      [by subst h2; rewrite lookup_insert_eq|rewrite length_insert; lia|done|set_solver|].
    destruct (repr_frame {[out]} h1 h2 x' y Hx' Hw2) as [Hx2 Hq2]; [set_solver|].
    destruct (repr_frame {[out]} h2 h' x' y Hx2 Hw') as [Hx3 Hq3]; [set_solver|].
    exists h', (x' :: xs'). split_and!; [done|..].
    + rewrite Ha'. do 2 f_equal.
      rewrite (take_S_r _ _ x') by (apply list_lookup_insert_eq; lia).
      rewrite take_insert_ge, drop_insert_lt by lia. rewrite <- app_assoc. simpl.
      by replace (i + S (length xs)) with (S (i + length xs)) by lia.
    + by constructor.
    + apply (writes_trans _ _ h1 _ {[out]}); [by eapply writes_weaken, Hw1| |apply grows_refl].
      by apply (writes_trans _ _ h2 _ {[out]}); [| |apply grows_refl].
    + change (reach h' x' ∪ reaches h' xs' ## dom h). rewrite Hq3, Hq2. set_solver.
    + simpl. split; [set_solver|]. eapply separate_mono; [|done]. set_solver.
Qed.

Lemma copySlice_spec h s ys :
  slice_at h s ys →
  ∃ h' s', copySlice copy h s = Some (h', s') ∧ slice_at h' s' ys ∧ writes ∅ h h' ∧
           reachS (A := A) h' s' ## dom h.
Proof.
  intros (xs & He & Hr & _). destruct s as [s|]; unfold copySlice.
  - rewrite He. pose proof (alloc_spec (block_of (replicate (length xs) zero)) h) as Hal.
    destruct (alloc _ h) as [out h1]. destruct Hal as (Hf & Ho & Hw1).
    pose proof (writes_dom _ _ Hw1) as Hd1. pose proof (reaches_dom _ _ _ Hr) as Hhd.
    destruct (repr_list_frame ∅ h h1 _ _ Hr Hw1) as [Hr1 Hq1]; [set_solver|].
    destruct (copyInto_spec h1 out _ 0 xs ys Ho) as (h' & xs' & -> & Ho' & Hr' & Hw' & Hf' & Hs');
      [by rewrite length_replicate|done|set_solver|].
    simpl in Ho'. rewrite drop_ge, app_nil_r in Ho' by (by rewrite length_replicate).
    assert (length xs' = length xs) as Hlen.
    { by rewrite (Forall2_length _ _ _ Hr), (Forall2_length _ _ _ Hr'). }
    assert (elems h' (Some (MkSlice out (length xs))) = Some xs') as He'.
    { apply elems_some. exists xs'. simpl. split; [done|]. rewrite <- Hlen. by rewrite firstn_all. }
    pose proof (elem_of_dom_2 _ _ _ Ho) as Hod.
    eexists _, _. split; [done|]. split_and!.
    + exists xs'. split_and!; [done..|]. eapply separate_mono; [|done]. simpl. set_solver.
    + intros p b Hp _. apply Hw'; [apply Hw1; [done|set_solver]|].
      left. apply elem_of_dom_2 in Hp. set_solver.
    + rewrite (reachS_elems _ _ _ He'). simpl. set_solver.
  - injection He as <-. inversion Hr; subst. exists h, None. split_and!; [done|by exists []|apply writes_refl|].
    unfold reachS. simpl. change (∅ ∪ ∅ ## dom h). set_solver.
Qed.

End Copies.

(** ** Plain values *)

(** Types without pointers: a value stands for itself. *)
Class Plain (A : Type) := {}.

#[export] Instance plain_repr {A} `{!Plain A} : Repr A A.
Proof. by refine {| repr _ x y := x = y; hold _ := ∅; reach _ _ := ∅ |}. Defined.

Lemma copyPlain_ok {A} `{!Plain A} : copies (A := A) copyPlain.
Proof. intros h x y Hx. exists h, x. split_and!; [done|done|apply writes_refl|by intros ? ?]. Qed.

(** ** Parts of a structure *)

(** A part of an object: what the heap must satisfy, and the cells involved. *)
Record part (P : heap → Prop) (R : heap → gset loc) : Prop := {
  part_dom h : P h → R h ⊆ dom h;
  part_frame D h h' : P h → writes D h h' → R h ## D → P h' ∧ R h' = R h }.

Lemma part_true (P : Prop) : part (λ _, P) (λ _, ∅).
Proof. split; [set_solver|done]. Qed.

Lemma part_and P1 R1 P2 R2 :
  part P1 R1 → part P2 R2 → part (λ h, P1 h ∧ P2 h) (λ h, R1 h ∪ R2 h).
Proof.
  intros [Hd1 Hf1] [Hd2 Hf2]. split.
  - intros h [H1 H2]. specialize (Hd1 h H1). specialize (Hd2 h H2). set_solver.
  - intros D h h' [H1 H2] Hw Hd.
    destruct (Hf1 D h h' H1 Hw) as [H1' E1]; [set_solver|].
    destruct (Hf2 D h h' H2 Hw) as [H2' E2]; [set_solver|]. by rewrite E1, E2.
Qed.

(** A structure whose fields are parts. *)
Definition parts_repr {A B} (P : heap → A → B → Prop) (R : heap → A → gset loc)
    (Hp : ∀ x y, part (λ h, P h x y) (λ h, R h x)) : Repr A B.
Proof.
  refine {| repr := P; hold _ := ∅; reach := R |}.
  - intros; apply empty_subseteq.
  - intros h x y. apply (part_dom _ _ (Hp x y)).
  - intros D h h' x y. apply (part_frame _ _ (Hp x y)).
Defined.

(** [P] has been built from new cells. *)
Definition copied (h h' : heap) (P : heap → Prop) (R : heap → gset loc) : Prop :=
  P h' ∧ writes ∅ h h' ∧ R h' ## dom h.

Lemma copied_seq h h1 h2 P1 R1 P2 R2 :
  part P1 R1 → copied h h1 P1 R1 → copied h1 h2 P2 R2 →
  copied h h2 (λ h, P1 h ∧ P2 h) (λ h, R1 h ∪ R2 h) ∧ R1 h2 ## R2 h2.
Proof.
  intros Hp (H1 & Hw1 & Hd1) (H2 & Hw2 & Hd2).
  destruct (part_frame _ _ Hp ∅ h1 h2 H1 Hw2) as [H1' E1]; [set_solver|].
  pose proof (part_dom _ _ Hp h1 H1) as HR1. pose proof (writes_dom _ _ Hw1) as Hdd.
  unfold copied. rewrite E1. split; [|set_solver]. split_and!; [done|done| |set_solver].
  apply (writes_trans _ _ h1 _ ∅); [done|done|apply grows_refl].
Qed.

Lemma copied_true h P : P → copied h h (λ _, P) (λ _, ∅).
Proof. intros HP. split_and!; [done|apply writes_refl|set_solver]. Qed.

(** ** Pointers *)

Section Pointers.
Context {A B : Type} `{Boxed A} `{!Repr A B}.

Definition pointer_at (h : heap) (p : option loc) (y : option B) : Prop :=
  match p, y with
  | None, None => True
  | Some p, Some y => ∃ x : A, h !! p = Some (box x) ∧ repr h x y
  | _, _ => False
  end.

Definition reachP (h : heap) (p : option loc) : gset loc :=
  match p with
  | None => ∅
  | Some p => {[p]} ∪ match h !! p ≫= unbox with Some x => reach h (x : A) | None => ∅ end
  end.

Lemma unbox_lookup (h : heap) p (x : A) : h !! p ≫= unbox = Some x ↔ h !! p = Some (box x).
Proof. rewrite bind_Some. setoid_rewrite unbox_box. naive_solver. Qed.

Lemma reachP_some (h : heap) p (x : A) : h !! p = Some (box x) → reachP h (Some p) = {[p]} ∪ reach h x.
Proof. intros Hp. simpl. by rewrite (proj2 (unbox_lookup h p x) Hp). Qed.

Lemma part_pointer p y : part (λ h, pointer_at h p y) (λ h, reachP h p).
Proof.
  destruct p as [p|], y as [y|]; [|by split..|]; [|split; [set_solver|done]]. split.
  - intros h (x & Hp & Hx). rewrite (reachP_some _ _ _ Hp).
    apply reach_dom in Hx. apply elem_of_dom_2 in Hp. set_solver.
  - intros D h h' (x & Hp & Hx) Hw. rewrite (reachP_some _ _ _ Hp). intros Hd.
    destruct (repr_frame D h h' x y) as [Hx' Hq]; [done..|set_solver|].
    assert (h' !! p = Some (box x)) as Hp' by (apply Hw; [done|set_solver]).
    split; [by exists x|]. by rewrite (reachP_some _ _ _ Hp'), Hq.
Qed.

Lemma copyPointer_spec copy h p y :
  copies copy → pointer_at h p y →
  ∃ h' p', copyPointer copy h p = Some (h', p') ∧
           copied h h' (λ h, pointer_at h p' y) (λ h, reachP h p').
Proof.
  intros Hc Hp. destruct p as [p|], y as [y|]; try done.
  - destruct Hp as (x & Hp & Hx). destruct (Hc h x y Hx) as (h1 & x1 & Hcx & Hx1 & Hw1 & Hf1).
    unfold copyPointer. rewrite (proj2 (unbox_lookup _ _ _) Hp), Hcx. cbn -[alloc].
    pose proof (alloc_spec (box x1) h1) as Ha. unfold copied.
    destruct (alloc (box x1) h1) as [q h2]. destruct Ha as (Hq & Hl & Hw2).
    pose proof (writes_dom _ _ Hw1) as Hd1.
    destruct (repr_frame ∅ h1 h2 x1 y Hx1 Hw2) as [Hx2 Hq2]; [set_solver|].
    eexists _, _. split; [done|]. split_and!; [by exists x1| |].
    + apply (writes_trans _ _ h1 _ ∅); [done|done|apply grows_refl].
    + rewrite (reachP_some _ _ _ Hl), Hq2. set_solver.
  - exists h, None. split; [done|]. split_and!; [done|apply writes_refl|simpl; set_solver].
Qed.

End Pointers.

(** ** Slices as parts *)

Section SliceParts.
Context {A B : Type} `{Cells A} `{!Repr A B}.

Lemma part_slice s (ys : list B) : part (λ h, slice_at h s ys) (λ h, reachS h s).
Proof.
  split; [intros h; apply slice_dom|]. intros D h h' Hs Hw Hd. by apply (slice_frame D h).
Qed.

Lemma copySlice_copied copy h s (ys : list B) :
  copies copy → slice_at h s ys →
  ∃ h' s', copySlice copy h s = Some (h', s') ∧
           copied h h' (λ h, slice_at h s' ys) (λ h, reachS h s').
Proof.
  intros Hc Hs. destruct (copySlice_spec copy Hc h s ys Hs) as (h' & s' & ? & ? & ? & ?). by exists h', s'.
Qed.

(** Slices for which nil and empty differ. *)
Definition nilable_at (h : heap) (s : option slice) (ys : option (list B)) : Prop :=
  match s, ys with
  | None, None => True
  | Some _, Some ys => slice_at h s ys
  | _, _ => False
  end.

Lemma part_nilable s ys : part (λ h, nilable_at h s ys) (λ h, reachS h s).
Proof.
  destruct s as [s|], ys as [ys|]; [apply part_slice|by split..|].
  split; [|done]. intros h _. apply empty_subseteq.
Qed.

Lemma copySlice_nilable copy h s ys :
  copies copy → nilable_at h s ys →
  ∃ h' s', copySlice copy h s = Some (h', s') ∧
           copied h h' (λ h, nilable_at h s' ys) (λ h, reachS h s').
Proof.
  intros Hc Hs. destruct s as [s|], ys as [ys|]; try done.
  - destruct (copySlice_copied copy h (Some s) ys Hc Hs) as (h' & s' & Hcs & Hs' & Hw & Hd).
    exists h', s'. split; [done|]. split_and!; [|done|done].
    destruct s'; [done|]. unfold copySlice in Hcs.
    destruct (elems h (Some s)); [|done]. destruct (alloc _ _) as [out h1].
    by destruct (copyInto _ _ _ _ _); simplify_eq/=.
  - exists h, None. split; [done|]. split_and!; [done|apply writes_refl|].
    change (∅ ∪ ∅ ## dom h). set_solver.
Qed.

End SliceParts.
