(* ===== verification/StatusHeap.v ===== *)
(** * The status list in memory

    [StatusList] models the operations of [api/core/v1alpha1/utils.go] on
    lists; the code mutates slices in place: [Add] writes behind the end of a
    slice when its array has room, [Remove] moves elements within the array,
    [Cleanup] compacts the array it reads.  Here the operations work on a heap
    of arrays, slices are pairs of an array and a length, and references to
    clusters are pointers that entries may share.

    [StatusHeapProperties] shows that the operations in place compute what
    [StatusList] says.  The deep copies of the list and of its entries are here
    as well; those of the other types are in [DeepCopy]. *)

From S2P Require Import Prelude GoLib ApiTypes StatusList Memory.

(** ** One type *)

Section Operations.
Context (grow : nat → nat).

(** [clusterRefEqual] on pointers *)
Definition clusterRefEqualH (h : heap) (a b : option loc) : option bool :=
  match a, b with
  | None, None => Some true
  | Some p, Some q =>
      match h !! p, h !! q with
      | Some (BRef a), Some (BRef b) => Some (clusterRefEqual (Some a) (Some b))
      | _, _ => None
      end
  | _, _ => Some false
  end.

Definition sameResourceH (h : heap) (existing res : HResource) : option bool :=
  if String.eqb (hr_Name existing) (hr_Name res) && String.eqb (hr_Namespace existing) (hr_Namespace res)
  then clusterRefEqualH h (hr_Cluster existing) (hr_Cluster res)
  else Some false.

(** The search loops: the index of the first equal resource. *)
Fixpoint findResource (h : heap) (res : HResource) (xs : list HResource) : option (option nat) :=
  match xs with
  | [] => Some None
  | x :: xs =>
      match sameResourceH h x res with
      | None => None
      | Some true => Some (Some 0)
      | Some false => option_map (option_map S) (findResource h res xs)
      end
  end.

(** [CreatedResourcesWithType.Add] and [Remove]: the receiver afterwards. *)
Definition typedAdd (h : heap) (t : HTyped) (res : HResource) : option (heap * HTyped) :=
  match elems h (ht_Resources t) ≫= findResource h res with
  | None => None
  | Some (Some _) => Some (h, t)
  | Some None =>
      '(h, s) ← append1 grow h (ht_Resources t) res; Some (h, MkHT (ht_Type t) s)
  end.

Definition typedRemove (h : heap) (t : HTyped) (res : HResource) : option (heap * HTyped) :=
  match elems h (ht_Resources t) ≫= findResource h res with
  | None => None
  | Some (Some i) =>
      '(h, s) ← removeAt (A := HResource) h (ht_Resources t) i; Some (h, MkHT (ht_Type t) s)
  | Some None => Some (h, t)
  end.

(** ** The whole list *)

Fixpoint findType (gvk : GroupVersionKind) (ts : list HTyped) : option nat :=
  match ts with
  | [] => None
  | t :: ts => if decide (ht_Type t = gvk) then Some 0 else S <$> findType gvk ts
  end.

(** The call of a method on [( *l)[i]], which is a pointer into the array. *)
Definition atIndex (h : heap) (l : option slice) (i : nat)
    (method : heap → HTyped → option (heap * HTyped)) : option (heap * option slice) :=
  match elems h l ≫= (.!! i) with
  | None => None
  | Some t =>
      '(h, t) ← method h t;
      h ← setElem h l i t;
      Some (h, l)
  end.

Definition AddH (h : heap) (l : option slice) (gvk : GroupVersionKind) (res : HResource)
    : option (heap * option slice) :=
  match elems h l with
  | None => None
  | Some ts =>
      match findType gvk ts with
      | Some i => atIndex h l i (λ h t, typedAdd h t res)
      | None =>
          let '(h, s) := newArray [res] 0 h in
          append1 grow h l (MkHT gvk s)
      end
  end.

Definition RemoveH (h : heap) (l : option slice) (gvk : GroupVersionKind) (res : HResource)
    : option (heap * option slice) :=
  match elems h l with
  | None => None
  | Some ts =>
      match findType gvk ts with
      | Some i => atIndex h l i (λ h t, typedRemove h t res)
      | None => Some (h, l)
      end
  end.

Definition ContainsH (h : heap) (l : option slice) (gvk : GroupVersionKind) (res : HResource)
    : option bool :=
  match elems h l with
  | None => None
  | Some ts =>
      match findType gvk ts ≫= (ts !!.) with
      | Some t => (λ o, bool_decide (is_Some o)) <$> (elems h (ht_Resources t) ≫= findResource h res)
      | None => Some false
      end
  end.

(** [if cluster != nil && cluster.Namespace == "" && cluster.Name == ""] *)
Definition normalizeH (h : heap) (cluster : option loc) : option (option loc) :=
  match cluster with
  | None => Some None
  | Some p =>
      match h !! p with
      | Some (BRef r) => Some (if normalizeCluster (Some r) then Some p else None)
      | _ => None
      end
  end.

Definition raw (op : heap → option slice → GroupVersionKind → HResource → option (heap * option slice))
    (h : heap) (l : option slice) (gvk : GroupVersionKind) (namespace name : string)
    (cluster : option loc) : option (heap * option slice) :=
  cluster ← normalizeH h cluster; op h l gvk (MkHR cluster namespace name).

Definition AddRawH := raw AddH.
Definition RemoveRawH := raw RemoveH.

Definition ContainsRawH (h : heap) (l : option slice) (gvk : GroupVersionKind) (namespace name : string)
    (cluster : option loc) : option bool :=
  cluster ← normalizeH h cluster; ContainsH h l gvk (MkHR cluster namespace name).

(** [Cleanup]: the loop on the shared array. *)
Definition hasResourcesH (t : HTyped) : bool :=
  match ht_Resources t with Some s => Nat.ltb 0 (sl_len s) | None => false end.

Definition CleanupH (h : heap) (l : option slice) : option (heap * option slice) :=
  match l with
  | None => Some (h, None)
  | Some s =>
      match arrayAt (A := HTyped) h (sl_base s) with
      | None => None
      | Some a =>
          let '(a, w) := cleanup_loop hasResourcesH (sl_len s) 0 0 a in
          Some (<[sl_base s := block_of a]> h, Some (MkSlice (sl_base s) w))
      end
  end.

(** ** Sequences of calls

    The calls by which the controller changes the list; the cluster argument is
    the address of a new variable or nil. *)

Inductive call :=
| CallAdd (gvk : GroupVersionKind) (namespace name : string) (cluster : option ObjectReference)
| CallRemove (gvk : GroupVersionKind) (namespace name : string) (cluster : option ObjectReference)
| CallCleanup.

Definition newRef (h : heap) (cluster : option ObjectReference) : heap * option loc :=
  match cluster with
  | None => (h, None)
  | Some r => let '(p, h) := alloc (BRef r) h in (h, Some p)
  end.

Definition runCall (h : heap) (l : option slice) (c : call) : option (heap * option slice) :=
  match c with
  | CallAdd gvk ns n cluster =>
      let '(h, p) := newRef h cluster in AddRawH h l gvk ns n p
  | CallRemove gvk ns n cluster =>
      let '(h, p) := newRef h cluster in RemoveRawH h l gvk ns n p
  | CallCleanup => CleanupH h l
  end.

Fixpoint runCalls (h : heap) (l : option slice) (cs : list call) : option (heap * option slice) :=
  match cs with
  | [] => Some (h, l)
  | c :: cs =>
      match runCall h l c with
      | Some (h, l) => runCalls h l cs
      | None => None
      end
  end.

(** The same on values. *)
Definition applyCall (L : CreatedResourcesWithTypeList) (c : call) : CreatedResourcesWithTypeList :=
  match c with
  | CallAdd gvk ns n cluster => AddRaw gvk ns n cluster L
  | CallRemove gvk ns n cluster => RemoveRaw gvk ns n cluster L
  | CallCleanup => Cleanup L
  end.

Definition applyCalls : list call → CreatedResourcesWithTypeList → CreatedResourcesWithTypeList :=
  λ cs L, foldl applyCall L cs.

(** ** Reading a list as a value *)

Definition readRef (h : heap) (p : option loc) : option (option ObjectReference) :=
  match p with
  | None => Some None
  | Some p => match h !! p with Some (BRef r) => Some (Some r) | _ => None end
  end.

Definition readResource (h : heap) (r : HResource) : option CreatedResource :=
  c ← readRef h (hr_Cluster r); Some (MkCR c (hr_Namespace r) (hr_Name r)).

Definition readTyped (h : heap) (t : HTyped) : option CreatedResourcesWithType :=
  rs ← elems h (ht_Resources t); xs ← mapM (readResource h) rs; Some (MkCRT (ht_Type t) xs).

Definition readList (h : heap) (l : option slice) : option CreatedResourcesWithTypeList :=
  ts ← elems h l; mapM (readTyped h) ts.

(** ** Deep copies *)

(** [CreatedResource.DeepCopyInto] *)
Definition copyResource (h : heap) (r : HResource) : option (heap * HResource) :=
  match hr_Cluster r with
  | None => Some (h, r)
  | Some p =>
      match h !! p with
      | Some (BRef o) =>
          let '(q, h) := alloc (BRef o) h in Some (h, MkHR (Some q) (hr_Namespace r) (hr_Name r))
      | _ => None
      end
  end.

(** [CreatedResourcesWithType.DeepCopyInto] *)
Definition copyTyped (h : heap) (t : HTyped) : option (heap * HTyped) :=
  '(h, s) ← copySlice copyResource h (ht_Resources t); Some (h, MkHT (ht_Type t) s).

(** The list in [ReplicaStatus.DeepCopyInto] *)
Definition copyList : heap → option slice → option (heap * option slice) := copySlice copyTyped.

End Operations.
