(* ===== verification/StatusHeapProperties.v ===== *)
(** * The status list in memory: correctness

    What the resources and types of the list stand for in memory, and the
    specification of every operation in place: its result, and that it writes
    to the arrays of the list and to new cells only. *)

From S2P Require Import Prelude GoLib ApiTypes StatusList Memory StatusHeap.

(** ** Resources and types *)

Definition ref_at (h : heap) (p : option loc) (r : option ObjectReference) : Prop :=
  match p, r with
  | None, None => True
  | Some p, Some r => h !! p = Some (BRef r)
  | _, _ => False
  end.

Lemma ref_at_writes D h h' p r : ref_at h p r → writes D h h' → ref_at h' p r.
Proof. destruct p, r; simpl; try done. intros Hp Hw. apply Hw; [done|by right]. Qed.

#[export] Instance resource_repr : Repr HResource CreatedResource.
Proof.
  refine {|
    repr h r x := hr_Namespace r = cr_Namespace x ∧ hr_Name r = cr_Name x ∧
                  ref_at h (hr_Cluster r) (cr_Cluster x);
    hold _ := ∅;
    reach _ r := match hr_Cluster r with Some p => {[p]} | None => ∅ end |}.
  - set_solver.
  - intros h [[p|] ns n] [[r|] ns' n'] (_ & _ & Hr); simpl in *; try set_solver.
    apply elem_of_dom_2 in Hr. set_solver.
  - intros D h h' r x (H1 & H2 & Hr) Hw _. split_and!; [done..|by eapply ref_at_writes|done].
Defined.

#[export] Instance resource_owning : Owning HResource CreatedResource.
Proof.
  intros D h h' r x (H1 & H2 & Hr) Hw _. split; [|done].
  split_and!; [done..|by eapply ref_at_writes].
Qed.

Lemma holds_resources (xs : list HResource) : holds xs = ∅.
Proof. induction xs as [|x xs IH]; [done|]. rewrite holds_cons, IH. by apply union_empty_l_L. Qed.

#[export] Instance typed_repr : Repr HTyped CreatedResourcesWithType.
Proof.
  refine {|
    repr h t x := ht_Type t = crt_Type x ∧ slice_at h (ht_Resources t) (crt_Resources x);
    hold t := base (ht_Resources t);
    reach h t := reachS (A := HResource) h (ht_Resources t) |}.
  - unfold reachS. set_solver.
  - intros h t x [_ Hs]. by eapply slice_dom.
  - intros D h h' t x [Ht Hs] Hw Hd.
    by destruct (slice_frame D h h' (ht_Resources t) (crt_Resources x)).
Defined.

#[export] Instance typed_owning : Owning HTyped CreatedResourcesWithType.
Proof.
  intros D h h' t x [Ht Hs] Hw Hd.
  destruct (slice_writes D h h' (ht_Resources t) (crt_Resources x)) as (?&_&?); try done.
  destruct Hs as (xs & He & _). rewrite (foot_elems _ _ _ He), holds_resources.
  simpl in Hd. set_solver.
Qed.

(** The list of the status. *)
Definition list_at (h : heap) (l : option slice) (L : CreatedResourcesWithTypeList) : Prop :=
  slice_at (A := HTyped) h l L.

(** ** The search loops *)

Lemma clusterRefEqualH_spec h p q a b :
  ref_at h p a → ref_at h q b → clusterRefEqualH h p q = Some (clusterRefEqual a b).
Proof. destruct p, q, a, b; simpl; try done. by intros -> ->. Qed.

Lemma sameResourceH_spec h r s x y :
  repr h r x → repr h s y → sameResourceH h r s = Some (sameResource x y).
Proof.
  intros (Hns & Hn & Hc) (Hns' & Hn' & Hc'). unfold sameResourceH, sameResource.
  rewrite Hns, Hn, Hns', Hn', (clusterRefEqualH_spec _ _ _ _ _ Hc Hc').
  by destruct (String.eqb _ _ && String.eqb _ _).
Qed.

Lemma findResource_spec h r x rs xs :
  repr h r x → Forall2 (repr h) rs xs →
  ∃ o, findResource h r rs = Some o ∧
  let same := λ existing, sameResource existing x in
  match o with
  | Some i => i < length rs ∧ existsb same xs = true ∧ remove_first same xs = delete i xs
  | None => existsb same xs = false ∧ remove_first same xs = xs
  end.
Proof.
  intros Hr Hs. induction Hs as [|s y rs xs Hy _ (o & Ho & IH)]; simpl; [by exists None|].
  rewrite (sameResourceH_spec _ _ _ _ _ Hy Hr). destruct (sameResource y x); simpl.
  - exists (Some 0). split; [done|]. split_and!; (done || lia).
  - rewrite Ho. simpl in IH. exists (option_map S o). split; [done|].
    destruct o as [i|]; simpl.
    + destruct IH as (Hi & He & Hd). split_and!; [lia|done|by rewrite Hd].
    + destruct IH as (He & Hd). by rewrite Hd.
Qed.

Lemma findType_spec gvk ts L :
  Forall2 (λ t x, ht_Type t = crt_Type x) ts L →
  match findType gvk ts with
  | Some i => ∃ t x, ts !! i = Some t ∧ L !! i = Some x ∧ ∀ res,
      Add gvk res L = <[i := WithType.Add res x]> L ∧
      Remove gvk res L = <[i := WithType.Remove res x]> L ∧
      Contains gvk res L = existsb (λ existing, sameResource existing res) (crt_Resources x)
  | None => ∀ res,
      Add gvk res L = L ++ [MkCRT gvk [res]] ∧ Remove gvk res L = L ∧ Contains gvk res L = false
  end.
Proof.
  induction 1 as [|t x ts L Ht _ IH]; simpl; [done|]. rewrite Ht.
  destruct (decide (crt_Type x = gvk)); [by exists t, x|].
  destruct (findType gvk ts) as [i|]; simpl.
  - destruct IH as (t' & x' & H1 & H2 & IH). exists t', x'. split_and!; [done..|].
    intros res. destruct (IH res) as (-> & -> & ->). done.
  - intros res. destruct (IH res) as (-> & -> & ->). done.
Qed.

(** ** The operations on one type *)

(** The method turned [t] into an element for [x'], writing only its array. *)
Definition becomes (h : heap) (t : HTyped) (x' : CreatedResourcesWithType) (o : option (heap * HTyped)) : Prop :=
  ∃ h' t', o = Some (h', t') ∧ repr h' t' x' ∧ writes (hold t) h h' ∧ grows h (hold t) (hold t').

Lemma becomes_same h t x : repr h t x → becomes h t x (Some (h, t)).
Proof. intros Ht. exists h, t. split_and!; [done|done|apply writes_refl|apply grows_refl]. Qed.

(** A slice of resources written in place, or anew. *)
Lemma typed_becomes h h' t s gvk rs xs :
  elems h' s = Some rs → Forall2 (repr h) rs xs →
  writes (hold t) h h' → grows h (hold t) (base s) →
  becomes h t (MkCRT gvk xs) (Some (h', MkHT gvk s)).
Proof.
  intros He Hr Hw Hg. exists h', (MkHT gvk s). split; [done|]. split; [|done].
  split; [done|]. exists rs. split; [done|]. split.
  - eapply repr_list_writes; [done..|]. rewrite holds_resources. set_solver.
  - simpl. clear. generalize (base s). induction rs as [|r rs IH]; intros D; simpl; [done|].
    split; [set_solver|]. apply IH.
Qed.

Lemma typedAdd_spec grow h t x hr r :
  repr h t x → repr h hr r → becomes h t (WithType.Add r x) (typedAdd grow h t hr).
Proof.
  intros Hx Hr. pose proof Hx as (Ht & rs & He & Hrs & _).
  destruct (findResource_spec h hr r rs _ Hr Hrs) as (o & Ho & Hf).
  unfold typedAdd, WithType.Add. rewrite He. simpl. rewrite Ho.
  destruct o as [i|]; [destruct Hf as (_ & -> & _); by apply becomes_same|].
  destruct Hf as [-> _]. destruct (append1_spec grow h _ _ hr He) as (h' & s' & Ha & He' & Hw & Hg).
  rewrite Ha. simpl. rewrite <- Ht. eapply typed_becomes; [done| |done..].
  apply Forall2_app; [done|]. by constructor.
Qed.

Lemma typedRemove_spec h t x hr r :
  repr h t x → repr h hr r → becomes h t (WithType.Remove r x) (typedRemove h t hr).
Proof.
  intros Hx Hr. pose proof Hx as (Ht & rs & He & Hrs & _).
  destruct (findResource_spec h hr r rs _ Hr Hrs) as (o & Ho & Hf).
  unfold typedRemove, WithType.Remove. rewrite He. simpl. rewrite Ho.
  destruct o as [i|]; [destruct Hf as (Hi & _ & ->)|destruct Hf as [_ ->]].
  - destruct (removeAt_spec h _ _ i He Hi) as (h' & s' & Ha & He' & Hw & Hb).
    rewrite Ha. simpl. rewrite <- Ht. eapply typed_becomes; [done| |done|].
    + by apply Forall2_delete.
    + rewrite Hb. apply grows_refl.
  - destruct x as [g xs]. by apply becomes_same.
Qed.

(** ** The operations on the list *)

(** The operation turned the list into one for [L'], writing only its arrays. *)
Definition list_becomes (h : heap) (l : option slice) (L' : CreatedResourcesWithTypeList)
    (o : option (heap * option slice)) : Prop :=
  ∃ h' l', o = Some (h', l') ∧ list_at h' l' L' ∧ writes (foot (A := HTyped) h l) h h' ∧
           grows h (foot (A := HTyped) h l) (foot (A := HTyped) h' l').

Lemma list_becomes_same h l L : list_at h l L → list_becomes h l L (Some (h, l)).
Proof. intros Hl. exists h, l. split_and!; [done|done|apply writes_refl|apply grows_refl]. Qed.

Lemma list_becomes_intro h l ts h' l' ts' L' :
  elems h l = Some ts → elems h' l' = Some ts' → Forall2 (repr h') ts' L' → separate (base l') ts' →
  writes (base l ∪ holds ts) h h' → grows h (base l ∪ holds ts) (base l' ∪ holds ts') →
  list_becomes h l L' (Some (h', l')).
Proof.
  intros He He' Hr Hs Hw Hg. exists h', l'. rewrite (foot_elems _ _ _ He), (foot_elems _ _ _ He').
  split_and!; try done. by exists ts'.
Qed.

Lemma list_at_types h ts L :
  Forall2 (repr h) ts L → Forall2 (λ t x, ht_Type t = crt_Type x) ts L.
Proof. intros H. eapply Forall2_impl; [exact H|]. by intros t x []. Qed.

(** A method called on an element of the array. *)
Lemma atIndex_spec h l L ts i t x x' method :
  list_at h l L → elems h l = Some ts → ts !! i = Some t → L !! i = Some x →
  (repr h t x → becomes h t x' (method h t)) →
  list_becomes h l (<[i := x']> L) (atIndex h l i method).
Proof.
  intros (ts0 & He0 & Hr & Hs) He Ht Hx Hm. rewrite He in He0. injection He0 as <-.
  destruct Hm as (h1 & t' & Hm & Ht' & Hw1 & Hg1).
  { eapply Forall2_lookup_lr; eauto. }
  unfold atIndex. rewrite He. simpl. rewrite Ht, Hm. simpl.
  pose proof (take_drop_middle ts i t Ht) as Hts. pose proof (take_drop_middle L i x Hx) as HL.
  set (ts1 := take i ts) in *. set (ts2 := drop (S i) ts) in *.
  assert (separate (base l) (ts1 ++ ts2) ∧ hold t ## base l ∪ holds (ts1 ++ ts2)) as [Hs12 Hd].
  { apply separate_middle. by rewrite Hts. }
  assert (Forall2 (repr h) (ts1 ++ ts2) (take i L ++ drop (S i) L)) as Hr12.
  { apply Forall2_app; [by apply Forall2_take|by apply Forall2_drop]. }
  pose proof (elems_dom _ _ _ He) as Hbase. pose proof (holds_dom _ _ _ Hr12) as Hdom.
  pose proof (separate_holds _ _ Hs12) as Hb12.
  assert (hold t' ## base l ∪ holds (ts1 ++ ts2)) as Hd'.
  { eapply grows_disjoint; [done..|set_solver]. }
  assert (elems h1 l = Some ts) as He1 by (eapply elems_writes; [done..|set_solver]).
  destruct (setElem_spec h1 l ts i t' He1) as (h2 & Hset & He2 & Hw2); [by eapply lookup_lt_Some|].
  rewrite Hset. simpl.
  assert (<[i := t']> ts = ts1 ++ t' :: ts2) as Hins.
  { apply insert_take_drop. by eapply lookup_lt_Some. }
  assert (holds ts = holds (ts1 ++ ts2) ∪ hold t) as Hhts.
  { rewrite <- Hts, !holds_app, holds_cons. set_solver. }
  eapply list_becomes_intro; [exact He|exact He2|..]; rewrite ?Hins, ?Hhts.
  - rewrite (insert_take_drop L i x') by (by eapply lookup_lt_Some).
    destruct (repr_list_writes (hold t) h h1 _ _ Hr12 Hw1) as [Hr1 _]; [set_solver|].
    destruct (repr_list_writes (base l) h1 h2 _ _ Hr1 Hw2) as [Hr2 _]; [set_solver|].
    destruct (repr_writes (base l) h1 h2 t' x') as [Ht2 _]; [done..|set_solver|].
    apply Forall2_app_inv in Hr2 as [??]; [|unfold ts1; by rewrite !length_take, (Forall2_length _ _ _ Hr)].
    apply Forall2_app; [done|by constructor].
  - apply separate_middle. done.
  - eapply (writes_trans _ _ h1 _ (base l)); [eapply writes_weaken; [|done]; set_solver|done|].
    intros p Hp. left. set_solver.
  - rewrite holds_app in *. rewrite holds_app, holds_cons. intros p Hp. specialize (Hg1 p). set_solver.
Qed.

Lemma AddH_spec grow h l L gvk hr r :
  list_at h l L → repr h hr r → list_becomes h l (Add gvk r L) (AddH grow h l gvk hr).
Proof.
  intros Hl Hr. pose proof Hl as (ts & He & Hts & Hs). unfold AddH. rewrite He.
  pose proof (findType_spec gvk ts L (list_at_types _ _ _ Hts)) as Hf.
  destruct (findType gvk ts) as [i|].
  - destruct Hf as (t & x & Ht & Hx & Hf). destruct (Hf r) as (-> & _).
    eapply atIndex_spec; [done..|]. intros Htx. by apply typedAdd_spec.
  - destruct (Hf r) as (-> & _). clear Hf.
    pose proof (newArray_spec [hr] 0 h) as Hn. destruct (newArray [hr] 0 h) as [h1 s].
    destruct Hn as (Hw1 & He1 & Hf1).
    assert (elems h1 l = Some ts) as Hel by (eapply elems_writes; [done..|set_solver]).
    destruct (append1_spec grow h1 l ts (MkHT gvk s) Hel) as (h2 & l' & Ha & He2 & Hw2 & Hg2).
    rewrite Ha.
    pose proof (elems_dom _ _ _ He) as Hbase. pose proof (holds_dom _ _ _ Hts) as Hdom.
    pose proof (separate_holds _ _ Hs) as Hb. pose proof (writes_dom _ _ Hw1) as Hd1.
    pose proof (elems_dom _ _ _ He1) as Hs1.
    assert (base l' ## holds ts ∪ base s) as Hl'.
    { eapply grows_disjoint; [exact Hg2| |]; set_solver. }
    eapply list_becomes_intro; [exact He|exact He2|..].
    + apply Forall2_app.
      * destruct (repr_list_writes ∅ h h1 ts L Hts Hw1) as [Hr1 _]; [set_solver|].
        destruct (repr_list_writes (base l) h1 h2 ts L Hr1 Hw2); [set_solver|done].
      * constructor; [|constructor]. split; [done|].
        destruct (repr_writes ∅ h h1 hr r Hr Hw1) as [Hr1 _]; [set_solver|].
        destruct (repr_writes (base l) h1 h2 hr r Hr1 Hw2) as [Hr2 _]; [set_solver|].
        exists [hr]. split; [|split; [by constructor|simpl; set_solver]].
        eapply elems_writes; [done..|set_solver].
    + apply separate_app. simpl. split; [|set_solver].
      replace (base l') with (∅ ∪ base l') by set_solver. apply separate_union.
      split; [|set_solver]. eapply separate_mono; [|done]. set_solver.
    + eapply (writes_trans _ _ h1 _ (base l)); [eapply writes_weaken; [|done]; set_solver|done|].
      intros p Hp. left. set_solver.
    + rewrite holds_app, holds_cons. intros p Hp. specialize (Hg2 p). simpl in Hp.
      assert (holds (A := HTyped) [] = ∅) as Hnil by done. set_solver.
Qed.

Lemma RemoveH_spec h l L gvk hr r :
  list_at h l L → repr h hr r → list_becomes h l (Remove gvk r L) (RemoveH h l gvk hr).
Proof.
  intros Hl Hr. pose proof Hl as (ts & He & Hts & Hs). unfold RemoveH. rewrite He.
  pose proof (findType_spec gvk ts L (list_at_types _ _ _ Hts)) as Hf.
  destruct (findType gvk ts) as [i|].
  - destruct Hf as (t & x & Ht & Hx & Hf). destruct (Hf r) as (_ & -> & _).
    eapply atIndex_spec; [done..|]. intros Htx. by apply typedRemove_spec.
  - destruct (Hf r) as (_ & -> & _). by apply list_becomes_same.
Qed.

Lemma ContainsH_spec h l L gvk hr r :
  list_at h l L → repr h hr r → ContainsH h l gvk hr = Some (Contains gvk r L).
Proof.
  intros Hl Hr. pose proof Hl as (ts & He & Hts & Hs). unfold ContainsH. rewrite He.
  pose proof (findType_spec gvk ts L (list_at_types _ _ _ Hts)) as Hf.
  destruct (findType gvk ts) as [i|]; simpl; [|by destruct (Hf r) as (_ & _ & ->)].
  destruct Hf as (t & x & Ht & Hx & Hf). destruct (Hf r) as (_ & _ & ->). rewrite Ht.
  destruct (Forall2_lookup_lr _ _ _ _ _ _ Hts Ht Hx) as (_ & rs & Hers & Hrs & _).
  destruct (findResource_spec h hr r rs _ Hr Hrs) as (o & Ho & Hsp).
  rewrite Hers. simpl. rewrite Ho. simpl.
  destruct o as [j|]; [destruct Hsp as (_ & -> & _)|destruct Hsp as [-> _]]; done.
Qed.

Lemma hasResourcesH_spec h t x : repr h t x → hasResourcesH t = hasResources x.
Proof.
  intros (_ & rs & He & Hr & _). unfold hasResourcesH, hasResources.
  rewrite <- (Forall2_length _ _ _ Hr), (elems_length _ _ _ He). by destruct (ht_Resources t).
Qed.

Lemma CleanupH_spec h l L : list_at h l L → list_becomes h l (Cleanup L) (CleanupH h l).
Proof.
  intros (ts & He & Hts & Hs). rewrite Cleanup_filterb.
  assert (Forall2 (repr h) (List.filter hasResourcesH ts) (List.filter hasResources L)) as Hf.
  { clear He Hs. induction Hts as [|t x ts L Ht _ IH]; simpl; [done|].
    rewrite (hasResourcesH_spec _ _ _ Ht). destruct (hasResources x); [by constructor|done]. }
  destruct l as [s|].
  - pose proof He as (a & Ha & Hlen & Htk)%elems_some. unfold CleanupH.
    rewrite (proj2 (arrayAt_lookup _ _ _) Ha).
    pose proof (cleanup_loop_spec hasResourcesH (sl_len s) 0 0 a) as Hc.
    destruct (cleanup_loop _ _ _ _ _) as [a' w]. destruct Hc as (Hc & Hla & Hw); [lia..|].
    simpl in Hc. rewrite drop_0, <- Htk in Hc.
    pose proof (write_array a a' (sl_base s) h Ha) as Hwr.
    eapply (list_becomes_intro _ _ _ _ _ (List.filter hasResourcesH ts)); [exact He|..].
    + rewrite elems_some. simpl. exists a'. rewrite lookup_insert_eq. split; [done|].
      split; [lia|]. by rewrite Hc.
    + destruct (repr_list_writes _ _ _ _ _ Hf Hwr) as [Hr _]; [|done].
      pose proof (separate_holds _ _ (separate_filter _ hasResourcesH _ Hs)). simpl in *. set_solver.
    + by apply separate_filter.
    + eapply writes_weaken; [|done]. simpl. set_solver.
    + intros p Hp. left. pose proof (holds_filter hasResourcesH ts). simpl in *. set_solver.
  - injection He as <-. apply list_becomes_same. inversion Hts; subst. by exists [].
Qed.

(** ** Deep copies *)

Lemma copyResource_ok : copies (B := CreatedResource) copyResource.
Proof.
  intros h [[p|] ns n] [[r|] ns' n'] (Hns & Hn & Hc); simpl in Hns, Hn, Hc; try done;
    unfold copyResource; cbn [hr_Cluster hr_Namespace hr_Name].
  - rewrite Hc. pose proof (alloc_spec (BRef r) h) as Ha. destruct (alloc (BRef r) h) as [q h'].
    destruct Ha as (Hf & Hq & Hw). eexists _, _. split_and!; simpl; try done. set_solver.
  - exists h, (MkHR None ns n). split_and!; simpl; try done. apply writes_refl.
Qed.

Lemma copyTyped_ok : copies (B := CreatedResourcesWithType) copyTyped.
Proof.
  intros h t x [Ht Hs]. destruct (copySlice_spec _ copyResource_ok h _ _ Hs) as (h' & s' & Hc & Hs' & Hw & Hf).
  exists h', (MkHT (ht_Type t) s'). unfold copyTyped. rewrite Hc. split_and!; done.
Qed.

Lemma copyList_spec h l L :
  list_at h l L →
  ∃ h' l', copyList h l = Some (h', l') ∧ list_at h' l' L ∧ writes ∅ h h' ∧
           reachS (A := HTyped) h' l' ## dom h.
Proof. apply copySlice_spec, copyTyped_ok. Qed.

(** ** Sequences of calls *)

Lemma normalizeH_spec h p c :
  ref_at h p c → ∃ q, normalizeH h p = Some q ∧ ref_at h q (normalizeCluster c).
Proof.
  destruct p as [p|], c as [r|]; simpl; try done; [|by exists None]. intros Hp. rewrite Hp.
  eexists. split; [done|]. by destruct (String.eqb _ _ && String.eqb _ _).
Qed.

Lemma raw_spec (op : heap → option slice → GroupVersionKind → HResource → option (heap * option slice))
    pure h l L gvk ns n p c :
  (∀ hr r, repr h hr r → list_becomes h l (pure r) (op h l gvk hr)) → list_at h l L → ref_at h p c →
  list_becomes h l (pure (MkCR (normalizeCluster c) ns n)) (raw op h l gvk ns n p).
Proof.
  intros Hop Hl Hp. destruct (normalizeH_spec h p c Hp) as (q & Hq & Hr). unfold raw. rewrite Hq. simpl.
  by apply Hop.
Qed.

Lemma AddRawH_spec grow h l L gvk ns n p c :
  list_at h l L → ref_at h p c → list_becomes h l (AddRaw gvk ns n c L) (AddRawH grow h l gvk ns n p).
Proof.
  intros Hl Hp. eapply (raw_spec _ (λ r, Add gvk r L)); [|done..]. intros hr r Hr. by apply AddH_spec.
Qed.

Lemma RemoveRawH_spec h l L gvk ns n p c :
  list_at h l L → ref_at h p c → list_becomes h l (RemoveRaw gvk ns n c L) (RemoveRawH h l gvk ns n p).
Proof.
  intros Hl Hp. eapply (raw_spec _ (λ r, Remove gvk r L)); [|done..]. intros hr r Hr. by apply RemoveH_spec.
Qed.

Lemma ContainsRawH_spec h l L gvk ns n p c :
  list_at h l L → ref_at h p c → ContainsRawH h l gvk ns n p = Some (ContainsRaw gvk ns n c L).
Proof.
  intros Hl Hp. destruct (normalizeH_spec h p c Hp) as (q & Hq & Hr). unfold ContainsRawH.
  rewrite Hq. simpl. by eapply ContainsH_spec.
Qed.

Lemma newRef_spec h c :
  let '(h', p) := newRef h c in ref_at h' p c ∧ writes ∅ h h'.
Proof.
  destruct c as [r|]; [|split; [done|apply writes_refl]]. unfold newRef.
  pose proof (alloc_spec (BRef r) h) as Ha. destruct (alloc (BRef r) h) as [p h']. tauto.
Qed.

(** New cells before an operation do not matter. *)
Lemma list_becomes_after h h1 l L L' o :
  list_at h l L → writes ∅ h h1 → (list_at h1 l L → list_becomes h1 l L' o) → list_becomes h l L' o.
Proof.
  intros Hl Hw Ho. destruct (slice_writes (A := HTyped) ∅ h h1 l L Hl Hw) as (Hl1 & Hf & _); [set_solver|].
  destruct (Ho Hl1) as (h2 & l2 & -> & Hl2 & Hw2 & Hg2). exists h2, l2. rewrite Hf in *.
  pose proof (writes_dom _ _ Hw) as Hd. split_and!; [done|done| |].
  - apply (writes_trans _ _ h1 _ _ (writes_weaken _ _ _ _ (empty_subseteq _) Hw) Hw2), grows_refl.
  - intros p Hp. destruct (Hg2 p Hp); [by left|right; set_solver].
Qed.

Lemma runCall_spec grow h l L c :
  list_at h l L → list_becomes h l (applyCall L c) (runCall grow h l c).
Proof.
  intros Hl. destruct c as [gvk ns n c|gvk ns n c|]; simpl; [| |by apply CleanupH_spec];
    pose proof (newRef_spec h c) as Hn; destruct (newRef h c) as [h1 p]; destruct Hn as [Hp Hw];
    eapply list_becomes_after; try done; intros Hl1; [by apply AddRawH_spec|by apply RemoveRawH_spec].
Qed.

Lemma runCalls_becomes grow cs h l L :
  list_at h l L → list_becomes h l (applyCalls cs L) (runCalls grow h l cs).
Proof.
  revert h l L. induction cs as [|c cs IH]; intros h l L Hl; simpl; [by apply list_becomes_same|].
  destruct (runCall_spec grow h l L c Hl) as (h1 & l1 & -> & Hl1 & Hw & Hg).
  destruct (IH h1 l1 _ Hl1) as (h2 & l2 & -> & Hl2 & Hw2 & Hg2).
  exists h2, l2. split_and!; [done|done|by eapply writes_trans|].
  intros p Hp. destruct (Hg2 p Hp) as [Hp1|Hp1]; [by apply Hg|].
  destruct (decide (p ∈ dom h)) as [Hd|]; [|by right]. left.
  destruct (decide (p ∈ foot (A := HTyped) h l)) as [|Hn]; [done|].
  exfalso. apply Hp1. apply elem_of_dom in Hd as [b Hb]. apply elem_of_dom. exists b.
  apply Hw; [done|by left].
Qed.

(** ** Values can be read off the heap *)

Lemma mapM_repr {A B} `{Repr A B} (read : heap → A → option B) h xs ys :
  (∀ x y, repr h x y → read h x = Some y) → Forall2 (repr h) xs ys → mapM (read h) xs = Some ys.
Proof. intros Hr Hf. apply mapM_Some. eapply Forall2_impl; eauto. Qed.

Lemma readResource_spec h r x : repr h r x → readResource h r = Some x.
Proof.
  destruct r as [[p|] ns n], x as [[c|] ns' n']; intros (Hns & Hn & Hc); simpl in Hns, Hn, Hc;
    try done; unfold readResource; simpl; rewrite ?Hc; simpl; by subst.
Qed.

Lemma readTyped_spec h t x : repr h t x → readTyped h t = Some x.
Proof.
  intros (Ht & rs & He & Hr & _). unfold readTyped. rewrite He. simpl.
  rewrite (mapM_repr readResource h rs (crt_Resources x)); [|apply readResource_spec|done].
  simpl. rewrite Ht. by destruct x.
Qed.

Lemma readList_spec h l L : list_at h l L → readList h l = Some L.
Proof.
  intros (ts & He & Hr & _). unfold readList. rewrite He. simpl.
  eapply mapM_repr; [apply readTyped_spec|done].
Qed.

(** ** Properties *)

(** C24: The operations that mutate the slices of the status in place compute
    what the operations on values compute, never fail on a well-formed object,
    whatever capacity [append] gives to new arrays, and write to no cell but
    the arrays of this list and new ones. *)
Theorem in_place_refines_values grow h l L gvk ns n p c :
  list_at h l L → ref_at h p c →
  list_becomes h l (AddRaw gvk ns n c L) (AddRawH grow h l gvk ns n p) ∧
  list_becomes h l (RemoveRaw gvk ns n c L) (RemoveRawH h l gvk ns n p) ∧
  ContainsRawH h l gvk ns n p = Some (ContainsRaw gvk ns n c L) ∧
  list_becomes h l (Cleanup L) (CleanupH h l).
Proof.
  intros Hl Hp. split_and!.
  - by apply AddRawH_spec.
  - by apply RemoveRawH_spec.
  - by apply ContainsRawH_spec.
  - by apply CleanupH_spec.
Qed.

(** ** A list in memory *)

Definition exGVK : GroupVersionKind := GVK "" "v1" "ConfigMap".
Definition exRef : ObjectReference := MkRef "clusters" "one".
Definition exHeap : heap :=
  {[ 1%positive := BRef exRef;
     2%positive := BResources [MkHR (Some 1%positive) "a" "x"; MkHR None "b" "y"];
     3%positive := BTypes [MkHT exGVK (Some (MkSlice 2 2))] ]}.
Definition exSlice : option slice := Some (MkSlice 3 1).
Definition exList : CreatedResourcesWithTypeList :=
  [MkCRT exGVK [MkCR (Some exRef) "a" "x"; MkCR None "b" "y"]].

Lemma exList_at : list_at exHeap exSlice exList.
Proof.
  eexists. split; [reflexivity|]. split.
  - constructor; [|constructor]. split; [done|]. eexists. split; [reflexivity|].
    split; [by repeat constructor|]. simpl. set_solver.
  - simpl. set_solver.
Qed.

(** Removing in place moves the elements of the shared array: a copy of the
    slice alone, as [*out = *in] makes it, would see the removal. *)
Example shallow_copy_not_isolated :
  ∃ h2 l2, runCalls id exHeap exSlice [CallRemove exGVK "a" "x" (Some exRef)] = Some (h2, l2) ∧
           readList h2 exSlice = Some [MkCRT exGVK [MkCR None "b" "y"]] ∧
           readList exHeap exSlice = Some exList.
Proof. eexists _, _. split; [vm_compute; reflexivity|]. split; vm_compute; reflexivity. Qed.

Lemma in_place_refines_values_witness :
  list_becomes exHeap exSlice (RemoveRaw exGVK "b" "y" None exList)
    (RemoveRawH exHeap exSlice exGVK "b" "y" None) ∧
  RemoveRaw exGVK "b" "y" None exList = [MkCRT exGVK [MkCR (Some exRef) "a" "x"]].
Proof.
  split; [|reflexivity].
  exact (proj1 (proj2 (in_place_refines_values id exHeap exSlice exList exGVK "b" "y" None None exList_at I))).
Defined.
