(* ===== verification/DeepCopy.v ===== *)
(** * Deep copies of the API objects

    [api/core/v1alpha1/zz_generated.deepcopy.go]: the generated functions on
    the heap of [Memory].  The controller takes deep copies of the object it
    reconciles as the base of its patches; the copy and the object must not
    share anything the controller writes. *)

From S2P Require Import Prelude GoLib ApiTypes RawTemplate StatusList Memory StatusHeap StatusHeapProperties.

(** The deep copies of types of other modules. *)
Class LibraryCopies := {
  LabelSelectorDeepCopy : LabelSelector → LabelSelector;
  ClusterSelectorDeepCopy : ClusterSelector → ClusterSelector;
  ObjectMetaDeepCopy : ObjectMeta → ObjectMeta;
  ListMetaDeepCopy : ListMeta → ListMeta;
  StatusDeepCopy : CommonStatus → CommonStatus }.

(** A deep copy is equal to the original. *)
Class LibraryCopiesLaws `{!LibraryCopies} := {
  LabelSelectorDeepCopy_eq s : LabelSelectorDeepCopy s = s;
  ClusterSelectorDeepCopy_eq s : ClusterSelectorDeepCopy s = s;
  ObjectMetaDeepCopy_eq m : ObjectMetaDeepCopy m = m;
  ListMetaDeepCopy_eq m : ListMetaDeepCopy m = m;
  StatusDeepCopy_eq s : StatusDeepCopy s = s }.

(** ** The generated functions *)

Section Functions.
Context `{!LibraryCopies}.

(** [RawTemplate.DeepCopyInto] *)
Definition copyTemplate (h : heap) (t : HTemplate) : option (heap * HTemplate) :=
  '(h, rawJSON) ← copySlice (A := ascii) copyPlain h (hrt_rawJSON t);
  Some (h, MkHTemplate (hrt_value t) rawJSON).

(** [ClusterTargetDefinition.DeepCopyInto] *)
Definition copyClusterTarget (h : heap) (c : HClusterTarget) : option (heap * HClusterTarget) :=
  '(h, selector) ← copyPointer (λ h s, Some (h, ClusterSelectorDeepCopy s)) h (hct_Selector c);
  '(h, location) ← copyPointer (A := ClusterRelativeLocation) copyPlain h (hct_Location c);
  Some (h, MkHCT selector location).

(** [NamespaceSelector.DeepCopyInto] *)
Definition copySelector (h : heap) (s : HSelector) : option (heap * HSelector) :=
  '(h, identities) ← copySlice (A := string) copyPlain h (hsel_MatchIdentities s);
  Some (h, MkHS identities (LabelSelectorDeepCopy (hsel_LabelSelector s))).

(** [NamespaceTargetDefinition.DeepCopyInto] *)
Definition copyNamespaceTarget (h : heap) (n : HNamespaceTarget) : option (heap * HNamespaceTarget) :=
  '(h, selector) ← copyPointer copySelector h (hnt_Selector n);
  Some (h, MkHNT selector).

(** [TargetDefinition.DeepCopyInto] *)
Definition copyTarget (h : heap) (t : HTarget) : option (heap * HTarget) :=
  '(h, cluster) ← copyPointer copyClusterTarget h (hta_Cluster t);
  '(h, namespace) ← copyPointer copyNamespaceTarget h (hta_Namespace t);
  '(h, conflict) ← copyPointer (A := TargetConflictPolicy) copyPlain h (hta_TargetConflictPolicy t);
  '(h, policy) ← copyPointer (A := NamespacePolicy) copyPlain h (hta_NamespacePolicy t);
  Some (h, MkHTarget cluster namespace conflict policy).

(** [ReplicaSpec.DeepCopyInto] *)
Definition copySpec (h : heap) (s : HSpec) : option (heap * HSpec) :=
  '(h, sources) ← copySlice (A := ReferenceWithID) copyPlain h (hsp_Sources s);
  '(h, template) ← copyPointer copyTemplate h (hsp_Template s);
  '(h, targets) ← copySlice copyTarget h (hsp_Targets s);
  '(h, interval) ← copyPointer (A := Z) copyPlain h (hsp_Interval s);
  Some (h, MkHSpec sources template targets interval).

(** [ReplicaStatus.DeepCopyInto] *)
Definition copyStatus (h : heap) (s : HStatus) : option (heap * HStatus) :=
  '(h, replicas) ← copyList h (hst_Replicas s);
  Some (h, MkHStatus (StatusDeepCopy (hst_Status s)) replicas).

(** [Replica.DeepCopyInto] *)
Definition copyReplica (h : heap) (r : HReplica) : option (heap * HReplica) :=
  '(h, spec) ← copySpec h (hrp_Spec r);
  '(h, status) ← copyStatus h (hrp_Status r);
  Some (h, MkHReplica (hrp_TypeMeta r) (ObjectMetaDeepCopy (hrp_ObjectMeta r)) spec status).

(** [ClusterReplica.DeepCopyInto]: the same code for the other type. *)
Definition copyClusterReplica (h : heap) (r : HReplica) : option (heap * HReplica) :=
  '(h, spec) ← copySpec h (hrp_Spec r);
  '(h, status) ← copyStatus h (hrp_Status r);
  Some (h, MkHReplica (hrp_TypeMeta r) (ObjectMetaDeepCopy (hrp_ObjectMeta r)) spec status).

(** [Replica.DeepCopy] and [ClusterReplica.DeepCopy] *)
Definition Replica_DeepCopy (h : heap) (p : option loc) : option (heap * option loc) :=
  copyPointer copyReplica h p.
Definition ClusterReplica_DeepCopy (h : heap) (p : option loc) : option (heap * option loc) :=
  copyPointer copyClusterReplica h p.

(** [ReplicaList.DeepCopyInto] and [ClusterReplicaList.DeepCopyInto] *)
Definition copyReplicaList (h : heap) (l : HReplicaList) : option (heap * HReplicaList) :=
  '(h, items) ← copySlice copyReplica h (hl_Items l);
  Some (h, MkHList (hl_TypeMeta l) (ListMetaDeepCopy (hl_ListMeta l)) items).
Definition copyClusterReplicaList (h : heap) (l : HReplicaList) : option (heap * HReplicaList) :=
  '(h, items) ← copySlice copyClusterReplica h (hl_Items l);
  Some (h, MkHList (hl_TypeMeta l) (ListMetaDeepCopy (hl_ListMeta l)) items).

(** The other methods [DeepCopy]; on the list type, a slice, nil stays nil. *)
Definition copyReference (h : heap) (r : ReferenceWithID) : option (heap * ReferenceWithID) := copyPlain h r.
Definition ReplicaList_DeepCopy : heap → option loc → option (heap * option loc) := copyPointer copyReplicaList.
Definition ClusterReplicaList_DeepCopy : heap → option loc → option (heap * option loc) :=
  copyPointer copyClusterReplicaList.
Definition ClusterTargetDefinition_DeepCopy : heap → option loc → option (heap * option loc) :=
  copyPointer copyClusterTarget.
Definition CreatedResource_DeepCopy : heap → option loc → option (heap * option loc) := copyPointer copyResource.
Definition CreatedResourcesWithType_DeepCopy : heap → option loc → option (heap * option loc) :=
  copyPointer copyTyped.
Definition CreatedResourcesWithTypeList_DeepCopy : heap → option slice → option (heap * option slice) :=
  copySlice copyTyped.
Definition NamespaceSelector_DeepCopy : heap → option loc → option (heap * option loc) := copyPointer copySelector.
Definition NamespaceTargetDefinition_DeepCopy : heap → option loc → option (heap * option loc) :=
  copyPointer copyNamespaceTarget.
Definition RawTemplate_DeepCopy : heap → option loc → option (heap * option loc) := copyPointer copyTemplate.
Definition ReferenceWithID_DeepCopy : heap → option loc → option (heap * option loc) := copyPointer copyReference.
Definition ReplicaSpec_DeepCopy : heap → option loc → option (heap * option loc) := copyPointer copySpec.
Definition ReplicaStatus_DeepCopy : heap → option loc → option (heap * option loc) := copyPointer copyStatus.
Definition TargetDefinition_DeepCopy : heap → option loc → option (heap * option loc) := copyPointer copyTarget.

(** [DeepCopyObject]: a nil pointer becomes a nil interface. *)
Definition asObject (r : option (heap * option loc)) : option (heap * option loc) :=
  match r with
  | Some (h, Some c) => Some (h, Some c)
  | Some (h, None) => Some (h, None)
  | None => None
  end.
Definition Replica_DeepCopyObject (h : heap) (p : option loc) := asObject (Replica_DeepCopy h p).
Definition ClusterReplica_DeepCopyObject (h : heap) (p : option loc) := asObject (ClusterReplica_DeepCopy h p).
Definition ReplicaList_DeepCopyObject (h : heap) (p : option loc) := asObject (ReplicaList_DeepCopy h p).
Definition ClusterReplicaList_DeepCopyObject (h : heap) (p : option loc) :=
  asObject (ClusterReplicaList_DeepCopy h p).

(** The method of [ReplicaEquivalent]. *)
Definition DeepCopyReplicaEquivalent (ty : ReplicaType) : heap → option loc → option (heap * option loc) :=
  match ty with
  | TReplica => Replica_DeepCopy
  | TClusterReplica => ClusterReplica_DeepCopy
  end.

End Functions.

(** ** What the objects stand for *)

Record SpecValue := MkSpecValue {
  sv_Sources : list ReferenceWithID;
  sv_Template : option RawTemplate;
  sv_Targets : list TargetDefinition;
  sv_Interval : option Z }.

Record ReplicaValue := MkReplicaValue {
  rv_TypeMeta : TypeMeta;
  rv_ObjectMeta : ObjectMeta;
  rv_Spec : SpecValue;
  rv_Status : CommonStatus;
  rv_Replicas : CreatedResourcesWithTypeList }.

#[export] Instance byte_plain : Plain ascii := {}.
#[export] Instance identity_plain : Plain string := {}.
#[export] Instance source_plain : Plain ReferenceWithID := {}.
#[export] Instance interval_plain : Plain Z := {}.
#[export] Instance location_plain : Plain ClusterRelativeLocation := {}.
#[export] Instance conflictPolicy_plain : Plain TargetConflictPolicy := {}.
#[export] Instance namespacePolicy_plain : Plain NamespacePolicy := {}.
#[export] Instance clusterSelector_plain : Plain ClusterSelector := {}.

#[export] Instance template_repr : Repr HTemplate RawTemplate.
Proof.
  refine (parts_repr
    (λ h t v, nilable_at (A := ascii) h (hrt_rawJSON t) (String.list_ascii_of_string <$> rawJSON v) ∧ hrt_value t = value v)
    (λ h t, reachS (A := ascii) h (hrt_rawJSON t) ∪ ∅) _).
  intros t v. apply part_and; [apply part_nilable|apply part_true].
Defined.

#[export] Instance clusterTarget_repr : Repr HClusterTarget ClusterTargetDefinition.
Proof.
  refine (parts_repr
    (λ h c v, pointer_at (A := ClusterSelector) h (hct_Selector c) (ctd_Selector v) ∧
              pointer_at (A := ClusterRelativeLocation) h (hct_Location c) (ctd_Location v))
    (λ h c, reachP (A := ClusterSelector) h (hct_Selector c) ∪
            reachP (A := ClusterRelativeLocation) h (hct_Location c)) _).
  intros c v. apply part_and; apply part_pointer.
Defined.

#[export] Instance selector_repr : Repr HSelector NamespaceSelector.
Proof.
  refine (parts_repr
    (λ h s v, nilable_at (A := string) h (hsel_MatchIdentities s) (MatchIdentities v) ∧
              hsel_LabelSelector s = nssel_LabelSelector v)
    (λ h s, reachS (A := string) h (hsel_MatchIdentities s) ∪ ∅) _).
  intros s v. apply part_and; [apply part_nilable|apply part_true].
Defined.

#[export] Instance namespaceTarget_repr : Repr HNamespaceTarget NamespaceTargetDefinition.
Proof.
  refine (parts_repr
    (λ h n v, pointer_at (A := HSelector) h (hnt_Selector n) (ntd_Selector v))
    (λ h n, reachP (A := HSelector) h (hnt_Selector n)) _).
  intros n v. apply part_pointer.
Defined.

#[export] Instance target_repr : Repr HTarget TargetDefinition.
Proof.
  refine (parts_repr
    (λ h t v, ((pointer_at (A := HClusterTarget) h (hta_Cluster t) (td_Cluster v) ∧
                pointer_at (A := HNamespaceTarget) h (hta_Namespace t) (td_Namespace v)) ∧
               pointer_at (A := TargetConflictPolicy) h (hta_TargetConflictPolicy t) (td_TargetConflictPolicy v)) ∧
              pointer_at (A := NamespacePolicy) h (hta_NamespacePolicy t) (td_NamespacePolicy v))
    (λ h t, ((reachP (A := HClusterTarget) h (hta_Cluster t) ∪
              reachP (A := HNamespaceTarget) h (hta_Namespace t)) ∪
             reachP (A := TargetConflictPolicy) h (hta_TargetConflictPolicy t)) ∪
            reachP (A := NamespacePolicy) h (hta_NamespacePolicy t)) _).
  intros t v. repeat apply part_and; apply part_pointer.
Defined.

#[export] Instance spec_repr : Repr HSpec SpecValue.
Proof.
  refine (parts_repr
    (λ h s v, ((slice_at (A := ReferenceWithID) h (hsp_Sources s) (sv_Sources v) ∧
                pointer_at (A := HTemplate) h (hsp_Template s) (sv_Template v)) ∧
               slice_at (A := HTarget) h (hsp_Targets s) (sv_Targets v)) ∧
              pointer_at (A := Z) h (hsp_Interval s) (sv_Interval v))
    (λ h s, ((reachS (A := ReferenceWithID) h (hsp_Sources s) ∪
              reachP (A := HTemplate) h (hsp_Template s)) ∪
             reachS (A := HTarget) h (hsp_Targets s)) ∪
            reachP (A := Z) h (hsp_Interval s)) _).
  intros s v. repeat apply part_and; first [apply part_slice|apply part_pointer].
Defined.

(** The specification and the list of the status have no array in common; the
    list changes in place. *)
Definition replica_at (h : heap) (r : HReplica) (v : ReplicaValue) : Prop :=
  (hrp_TypeMeta r = rv_TypeMeta v ∧ hrp_ObjectMeta r = rv_ObjectMeta v ∧
   hst_Status (hrp_Status r) = rv_Status v) ∧
  repr h (hrp_Spec r) (rv_Spec v) ∧ list_at h (hst_Replicas (hrp_Status r)) (rv_Replicas v) ∧
  reach h (hrp_Spec r) ## foot (A := HTyped) h (hst_Replicas (hrp_Status r)).

Definition replica_cells (h : heap) (r : HReplica) : gset loc :=
  reach h (hrp_Spec r) ∪ reachS (A := HTyped) h (hst_Replicas (hrp_Status r)).

Lemma part_replica r v : part (λ h, replica_at h r v) (λ h, replica_cells h r).
Proof.
  unfold replica_cells. split.
  - intros h (_ & Hs & Hl & _). apply reach_dom in Hs. apply slice_dom in Hl. set_solver.
  - intros D h h' (Hp & Hs & Hl & Hd) Hw HD.
    destruct (repr_frame D h h' _ _ Hs Hw) as [Hs' Eq1]; [set_solver|].
    pose proof (foot_reachS (A := HTyped) h (hst_Replicas (hrp_Status r))) as Hfr.
    destruct (slice_writes (A := HTyped) D h h' _ _ Hl Hw) as (Hl' & Eq2 & Eq3); [set_solver|].
    rewrite Eq1, Eq3. split; [|done]. split_and!; try done; try apply Hp. by rewrite Eq1, Eq2.
Qed.

#[export] Instance replica_repr : Repr HReplica ReplicaValue.
Proof. exact (parts_repr replica_at replica_cells part_replica). Defined.

(** ** The copies *)

Lemma copied_frame h h1 P R Q S : copied h h1 P R → part Q S → Q h → Q h1.
Proof.
  intros (_ & Hw & _) Hq HQ. by destruct (part_frame _ _ Hq ∅ h h1 HQ Hw) as [? _]; [set_solver|].
Qed.

Section CopiesOk.
Context `{!LibraryCopies, !LibraryCopiesLaws}.

Lemma copyTemplate_ok : copies (B := RawTemplate) copyTemplate.
Proof.
  intros h t v [H1 H2]. unfold copyTemplate.
  destruct (copySlice_nilable copyPlain h _ _ copyPlain_ok H1) as (h1 & p1 & -> & C1).
  eexists _, _. split; [reflexivity|].
  exact (proj1 (copied_seq _ _ _ _ _ _ _ (part_nilable _ _) C1 (copied_true h1 _ H2))).
Qed.

Lemma copyClusterTarget_ok : copies (B := ClusterTargetDefinition) copyClusterTarget.
Proof.
  intros h c v [H1 H2]. unfold copyClusterTarget.
  assert (copies (B := ClusterSelector) (λ h s, Some (h, ClusterSelectorDeepCopy s))) as Hsel.
  { intros g x y Hx. rewrite ClusterSelectorDeepCopy_eq. by apply copyPlain_ok. }
  destruct (copyPointer_spec _ h _ _ Hsel H1) as (h1 & p1 & -> & C1). cbn [mbind option_bind].
  destruct (copyPointer_spec copyPlain h1 _ _ copyPlain_ok (copied_frame _ _ _ _ _ _ C1 (part_pointer _ _) H2))
    as (h2 & p2 & -> & C2).
  eexists _, _. split; [reflexivity|].
  exact (proj1 (copied_seq _ _ _ _ _ _ _ (part_pointer _ _) C1 C2)).
Qed.

Lemma copySelector_ok : copies (B := NamespaceSelector) copySelector.
Proof.
  intros h s v [H1 H2]. unfold copySelector. rewrite LabelSelectorDeepCopy_eq.
  destruct (copySlice_nilable copyPlain h _ _ copyPlain_ok H1) as (h1 & p1 & -> & C1).
  eexists _, _. split; [reflexivity|].
  exact (proj1 (copied_seq _ _ _ _ _ _ _ (part_nilable _ _) C1 (copied_true h1 _ H2))).
Qed.

Lemma copyNamespaceTarget_ok : copies (B := NamespaceTargetDefinition) copyNamespaceTarget.
Proof.
  intros h n v H1. unfold copyNamespaceTarget.
  destruct (copyPointer_spec copySelector h _ _ copySelector_ok H1) as (h1 & p1 & -> & C1).
  eexists _, _. split; [reflexivity|]. exact C1.
Qed.

Lemma copyTarget_ok : copies (B := TargetDefinition) copyTarget.
Proof.
  intros h t v [[[H1 H2] H3] H4]. unfold copyTarget.
  destruct (copyPointer_spec _ h _ _ copyClusterTarget_ok H1) as (h1 & p1 & -> & C1). cbn [mbind option_bind].
  pose proof (copied_frame _ _ _ _ _ _ C1 (part_pointer _ _) H2) as H2'.
  destruct (copyPointer_spec _ h1 _ _ copyNamespaceTarget_ok H2') as (h2 & p2 & -> & C2). cbn [mbind option_bind].
  destruct (copied_seq _ _ _ _ _ _ _ (part_pointer _ _) C1 C2) as [C12 _].
  pose proof (part_and _ _ _ _ (part_pointer p1 (td_Cluster v)) (part_pointer p2 (td_Namespace v))) as Hp12.
  pose proof (copied_frame _ _ _ _ _ _ C12 (part_pointer _ _) H3) as H3'.
  destruct (copyPointer_spec copyPlain h2 _ _ copyPlain_ok H3') as (h3 & p3 & -> & C3). cbn [mbind option_bind].
  destruct (copied_seq _ _ _ _ _ _ _ Hp12 C12 C3) as [C13 _].
  pose proof (part_and _ _ _ _ Hp12 (part_pointer p3 (td_TargetConflictPolicy v))) as Hp13.
  pose proof (copied_frame _ _ _ _ _ _ C13 (part_pointer _ _) H4) as H4'.
  destruct (copyPointer_spec copyPlain h3 _ _ copyPlain_ok H4') as (h4 & p4 & -> & C4). cbn [mbind option_bind].
  eexists _, _. split; [reflexivity|]. exact (proj1 (copied_seq _ _ _ _ _ _ _ Hp13 C13 C4)).
Qed.

Lemma copySpec_ok : copies (B := SpecValue) copySpec.
Proof.
  intros h s v [[[H1 H2] H3] H4]. unfold copySpec.
  destruct (copySlice_copied copyPlain h _ _ copyPlain_ok H1) as (h1 & p1 & -> & C1). cbn [mbind option_bind].
  pose proof (copied_frame _ _ _ _ _ _ C1 (part_pointer _ _) H2) as H2'.
  destruct (copyPointer_spec _ h1 _ _ copyTemplate_ok H2') as (h2 & p2 & -> & C2). cbn [mbind option_bind].
  destruct (copied_seq _ _ _ _ _ _ _ (part_slice _ _) C1 C2) as [C12 _].
  pose proof (part_and _ _ _ _ (part_slice p1 (sv_Sources v)) (part_pointer p2 (sv_Template v))) as Hp12.
  pose proof (copied_frame _ _ _ _ _ _ C12 (part_slice _ _) H3) as H3'.
  destruct (copySlice_copied _ h2 _ _ copyTarget_ok H3') as (h3 & p3 & -> & C3). cbn [mbind option_bind].
  destruct (copied_seq _ _ _ _ _ _ _ Hp12 C12 C3) as [C13 _].
  pose proof (part_and _ _ _ _ Hp12 (part_slice p3 (sv_Targets v))) as Hp13.
  pose proof (copied_frame _ _ _ _ _ _ C13 (part_pointer _ _) H4) as H4'.
  destruct (copyPointer_spec copyPlain h3 _ _ copyPlain_ok H4') as (h4 & p4 & -> & C4). cbn [mbind option_bind].
  eexists _, _. split; [reflexivity|]. exact (proj1 (copied_seq _ _ _ _ _ _ _ Hp13 C13 C4)).
Qed.

Lemma copyReplica_ok : copies (B := ReplicaValue) copyReplica.
Proof.
  intros h r v ((H1 & H2 & H3) & Hs & Hl & _). unfold copyReplica, copyStatus.
  destruct (copySpec_ok h _ _ Hs) as (h1 & s1 & -> & Hs1 & Hw1 & Hd1). cbn [mbind option_bind].
  destruct (slice_frame (A := HTyped) ∅ h h1 _ _ Hl Hw1) as [Hl1 _]; [set_solver|].
  destruct (copyList_spec h1 _ _ Hl1) as (h2 & l2 & -> & Hl2 & Hw2 & Hd2). cbn [mbind option_bind].
  destruct (repr_frame ∅ h1 h2 _ _ Hs1 Hw2) as [Hs2 Eq]; [set_solver|].
  pose proof (writes_dom _ _ Hw1) as Hdd. pose proof (reach_dom _ _ _ Hs1) as Hsd.
  pose proof (foot_reachS (A := HTyped) h2 l2) as Hfr.
  eexists _, _. split; [reflexivity|]. split; [|split].
  - split_and!; [done|by rewrite ObjectMetaDeepCopy_eq|by simpl; rewrite StatusDeepCopy_eq|done|done|].
    change (reach h2 s1 ## foot (A := HTyped) h2 l2). rewrite Eq. clear - Hsd Hd2 Hfr. set_solver.
  - apply (writes_trans _ _ h1 _ ∅); [done|done|apply grows_refl].
  - change (reach h2 s1 ∪ reachS (A := HTyped) h2 l2 ## dom h). rewrite Eq. clear - Hd1 Hd2 Hdd. set_solver.
Qed.

End CopiesOk.

(** ** An object and its copy *)

(** [obj.GetStatus().Replicas.m(...)] for a sequence of calls: the list in the
    object that [p] points to changes. *)
Definition mutate (grow : nat → nat) (h : heap) (p : loc) (cs : list call) : option heap :=
  match h !! p with
  | Some (BReplica r) =>
      '(h, l) ← runCalls grow h (hst_Replicas (hrp_Status r)) cs;
      Some (<[p := BReplica (MkHReplica (hrp_TypeMeta r) (hrp_ObjectMeta r) (hrp_Spec r)
                              (MkHStatus (hst_Status (hrp_Status r)) l))]> h)
  | _ => None
  end.

Definition applyMutation (cs : list call) (v : ReplicaValue) : ReplicaValue :=
  MkReplicaValue (rv_TypeMeta v) (rv_ObjectMeta v) (rv_Spec v) (rv_Status v) (applyCalls cs (rv_Replicas v)).

(** [p] points to an object that stands for [v]; its other parts do not refer
    to the object itself. *)
Definition object_at (h : heap) (p : loc) (v : ReplicaValue) : Prop :=
  ∃ r, h !! p = Some (BReplica r) ∧ replica_at h r v ∧
       p ∉ reach h (hrp_Spec r) ∪ foot (A := HTyped) h (hst_Replicas (hrp_Status r)).

Definition object_cells (h : heap) (p : loc) : gset loc := reachP (A := HReplica) h (Some p).

Lemma object_cells_eq h p r :
  h !! p = Some (BReplica r) → object_cells h p = {[p]} ∪ replica_cells h r.
Proof. exact (reachP_some (A := HReplica) h p r). Qed.

Lemma replica_cells_parts h r D :
  replica_cells h r ## D →
  reach h (hrp_Spec r) ## D ∧ foot (A := HTyped) h (hst_Replicas (hrp_Status r)) ## D.
Proof.
  unfold replica_cells. pose proof (foot_reachS (A := HTyped) h (hst_Replicas (hrp_Status r))). set_solver.
Qed.

Lemma object_frame D h h' p v :
  object_at h p v → writes D h h' → object_cells h p ## D →
  object_at h' p v ∧ object_cells h' p = object_cells h p.
Proof.
  intros (r & Hp & Hr & Hn) Hw. rewrite (object_cells_eq _ _ _ Hp). intros Hd.
  assert (replica_cells h r ## D) as Hd' by set_solver.
  destruct (replica_cells_parts h r D Hd') as [Hd1 Hd2].
  pose proof Hr as (_ & Hs & Hl & _).
  destruct (part_frame _ _ (part_replica r v) D h h' Hr Hw Hd') as [Hr' Eq].
  destruct (repr_frame D h h' _ _ Hs Hw Hd1) as [_ Eq1].
  destruct (slice_writes (A := HTyped) D h h' _ _ Hl Hw Hd2) as (_ & Eq2 & _).
  assert (p ∉ D) as HpD by (clear - Hd; set_solver).
  assert (h' !! p = Some (BReplica r)) as Hp' by (apply Hw; [done|by left]).
  split; [|by rewrite (object_cells_eq _ _ _ Hp'), Eq].
  exists r. split_and!; [done|done|]. by rewrite Eq1, Eq2.
Qed.

Lemma object_dom h p v : object_at h p v → object_cells h p ⊆ dom h.
Proof.
  intros (r & Hp & Hr & _). rewrite (object_cells_eq _ _ _ Hp).
  apply (part_dom _ _ (part_replica r v)) in Hr. apply elem_of_dom_2 in Hp. set_solver.
Qed.

(** The calls change the list and nothing else of the object. *)
Lemma mutate_spec grow h p v cs :
  object_at h p v →
  ∃ h', mutate grow h p cs = Some h' ∧ object_at h' p (applyMutation cs v) ∧
        writes (object_cells h p) h h'.
Proof.
  intros (r & Hp & ((H1 & H2 & H3) & Hs & Hl & Hd) & Hn).
  unfold mutate. rewrite Hp, (object_cells_eq _ _ _ Hp). unfold replica_cells.
  destruct (runCalls_becomes grow cs h _ _ Hl) as (h1 & l1 & -> & Hl1 & Hw1 & Hg1). cbn [mbind option_bind].
  set (l := hst_Replicas (hrp_Status r)) in *. set (r' := MkHReplica _ _ _ _).
  pose proof (foot_reachS (A := HTyped) h l) as Hfr. pose proof (reach_dom _ _ _ Hs) as Hsd.
  pose proof (elem_of_dom_2 _ _ _ Hp) as Hpd.
  destruct (repr_frame _ h h1 _ _ Hs Hw1) as [Hs1 Eq1]; [done|].
  assert (h1 !! p = Some (BReplica r)) as Hp1 by (apply Hw1; [done|set_solver]).
  assert (p ∉ foot (A := HTyped) h1 l1) as Hn1 by (intros Hx; destruct (Hg1 p Hx); set_solver).
  assert (reach h (hrp_Spec r) ## foot (A := HTyped) h1 l1) as Hd1.
  { symmetry. eapply grows_disjoint; [done|by symmetry|done]. }
  assert (writes {[p]} h1 (<[p := BReplica r']> h1)) as Hw2.
  { intros q b Hq [Hnq|Hb].
    - rewrite lookup_insert_ne; [done|set_solver].
    - rewrite lookup_insert_ne; [done|]. intros ->. by simplify_eq. }
  destruct (repr_frame _ h1 _ _ _ Hs1 Hw2) as [Hs2 Eq2]; [rewrite Eq1; clear - Hn; set_solver|].
  destruct (slice_writes (A := HTyped) _ h1 _ _ _ Hl1 Hw2) as (Hl2 & Eq3 & _); [set_solver|].
  eexists. split; [reflexivity|]. split.
  - exists r'. split; [by rewrite lookup_insert_eq|]. unfold replica_at. cbn [r' hrp_Spec hrp_Status hst_Replicas].
    rewrite Eq2, Eq1, Eq3. split; [|clear - Hn Hn1; set_solver]. by split_and!.
  - eapply (writes_trans _ _ h1 _ {[p]}); [eapply writes_weaken; [|done]; set_solver|done|].
    intros q Hq. left. set_solver.
Qed.

Lemma deepCopy_spec `{!LibraryCopies, !LibraryCopiesLaws} ty h p v :
  object_at h p v →
  ∃ h1 q, DeepCopyReplicaEquivalent ty h (Some p) = Some (h1, Some q) ∧ object_at h1 q v ∧
          writes ∅ h h1 ∧ object_cells h1 q ## dom h.
Proof.
  intros (r & Hp & Hr & _). replace (DeepCopyReplicaEquivalent ty) with Replica_DeepCopy by (by destruct ty).
  unfold Replica_DeepCopy, copyPointer.
  rewrite Hp. cbn [mbind option_bind unbox replica_boxed].
  destruct (copyReplica_ok h r v Hr) as (h1 & r1 & -> & Hr1 & Hw1 & Hd1). cbn [mbind option_bind].
  pose proof (alloc_spec (box r1) h1) as Ha. destruct (alloc (box r1) h1) as [q h2].
  destruct Ha as (Hq & Hl & Hw2). pose proof (writes_dom _ _ Hw1) as Hdd.
  pose proof (part_dom _ _ (part_replica r1 v) h1 Hr1) as Hrd. cbv beta in Hrd.
  destruct (part_frame _ _ (part_replica r1 v) ∅ h1 h2 Hr1 Hw2) as [Hr2 Eq]; [by intros ? ? ?|].
  pose proof (writes_trans _ _ h1 h2 ∅ Hw1 Hw2 (grows_refl _ _)) as Hw.
  eexists _, _. split; [reflexivity|]. split_and!; [|done|].
  - exists r1. split_and!; [done|done|].
    destruct (replica_cells_parts h2 r1 {[q]}) as [H1 H2]; [|clear - H1 H2; set_solver].
    rewrite Eq. clear - Hq Hrd. set_solver.
  - rewrite (object_cells_eq _ _ _ Hl), Eq. change (replica_cells h1 r1 ## dom h) in Hd1.
    clear - Hq Hdd Hd1. set_solver.
Qed.

(** ** All generated functions *)

Record StatusValue := MkStatusValue { stv_Status : CommonStatus; stv_Replicas : CreatedResourcesWithTypeList }.
Record ListValue := MkListValue { lv_TypeMeta : TypeMeta; lv_ListMeta : ListMeta; lv_Items : list ReplicaValue }.

#[export] Instance status_repr : Repr HStatus StatusValue.
Proof.
  refine (parts_repr
    (λ h s v, slice_at (A := HTyped) h (hst_Replicas s) (stv_Replicas v) ∧ hst_Status s = stv_Status v)
    (λ h s, reachS (A := HTyped) h (hst_Replicas s) ∪ ∅) _).
  intros s v. apply part_and; [apply part_slice|apply part_true].
Defined.

#[export] Instance list_repr : Repr HReplicaList ListValue.
Proof.
  refine (parts_repr
    (λ h l v, slice_at (A := HReplica) h (hl_Items l) (lv_Items v) ∧
              (hl_TypeMeta l = lv_TypeMeta v ∧ hl_ListMeta l = lv_ListMeta v))
    (λ h l, reachS (A := HReplica) h (hl_Items l) ∪ ∅) _).
  intros l v. apply part_and; [apply part_slice|apply part_true].
Defined.

(** A method [DeepCopy]: nil for nil, otherwise a pointer to an object that
    stands for the same value and consists of new cells; old cells keep their
    contents. *)
Definition deep {A B} `{Boxed A} `{!Repr A B} (f : heap → option loc → option (heap * option loc)) : Prop :=
  ∀ h p v, pointer_at h p v →
  ∃ h' p', f h p = Some (h', p') ∧ copied h h' (λ h, pointer_at h p' v) (λ h, reachP h p').

Section Generated.
Context `{!LibraryCopies, !LibraryCopiesLaws}.

Lemma copyStatus_ok : copies (B := StatusValue) copyStatus.
Proof.
  intros h s v [H1 H2]. unfold copyStatus. rewrite StatusDeepCopy_eq.
  destruct (copySlice_copied copyTyped h _ _ copyTyped_ok H1) as (h1 & p1 & Hc & C1).
  unfold copyList. rewrite Hc. eexists _, _. split; [reflexivity|].
  exact (proj1 (copied_seq _ _ _ _ _ _ _ (part_slice _ _) C1 (copied_true h1 _ H2))).
Qed.

Lemma copyReplicaList_ok : copies (B := ListValue) copyReplicaList.
Proof.
  intros h l v [H1 H2]. unfold copyReplicaList. rewrite ListMetaDeepCopy_eq.
  destruct (copySlice_copied copyReplica h _ _ copyReplica_ok H1) as (h1 & p1 & -> & C1).
  eexists _, _. split; [reflexivity|].
  exact (proj1 (copied_seq _ _ _ _ _ _ _ (part_slice _ _) C1 (copied_true h1 _ H2))).
Qed.

Lemma deep_pointer {A B} `{Boxed A} `{!Repr A B} copy : copies copy → deep (A := A) (B := B) (copyPointer copy).
Proof. intros Hc h p v. by apply copyPointer_spec. Qed.

(** All generated methods [DeepCopy] copy: the result stands for the same value
    (nil for nil) and consists of new cells only, and no old cell changes. *)
Theorem generated_methods_copy :
  deep (B := ReplicaValue) Replica_DeepCopy ∧ deep (B := ReplicaValue) ClusterReplica_DeepCopy ∧
  deep (B := ListValue) ReplicaList_DeepCopy ∧ deep (B := ListValue) ClusterReplicaList_DeepCopy ∧
  deep (B := SpecValue) ReplicaSpec_DeepCopy ∧ deep (B := StatusValue) ReplicaStatus_DeepCopy ∧
  deep (B := RawTemplate) RawTemplate_DeepCopy ∧ deep (A := ReferenceWithID) ReferenceWithID_DeepCopy ∧
  deep (B := TargetDefinition) TargetDefinition_DeepCopy ∧
  deep (B := ClusterTargetDefinition) ClusterTargetDefinition_DeepCopy ∧
  deep (B := NamespaceTargetDefinition) NamespaceTargetDefinition_DeepCopy ∧
  deep (B := NamespaceSelector) NamespaceSelector_DeepCopy ∧
  deep (B := CreatedResource) CreatedResource_DeepCopy ∧
  deep (B := CreatedResourcesWithType) CreatedResourcesWithType_DeepCopy.
Proof.
  split_and!; apply deep_pointer;
    eauto using copyReplica_ok, copyReplicaList_ok, copySpec_ok, copyStatus_ok, copyTemplate_ok,
      copyPlain_ok, copyTarget_ok, copyClusterTarget_ok, copyNamespaceTarget_ok, copySelector_ok,
      copyResource_ok, copyTyped_ok.
Qed.

End Generated.

(** ** Properties *)

Section Isolation.
Context `{!LibraryCopies, !LibraryCopiesLaws} (grow : nat → nat).

(** C25: The deep copy of a (Cluster)Replica stands for the same object and has
    no cell in common with anything that existed before.  Afterwards whatever
    is written outside of the cells of one of the two leaves it as it is; in
    particular any sequence of additions, removals and compactions of the
    status of one succeeds, changes nothing else of it, has the effect it has
    on values, and does not change the other.  So the base of a patch is the
    object as it was when the copy was taken. *)
Theorem deep_copy_isolated ty h p v :
  object_at h p v →
  ∃ h1 q, DeepCopyReplicaEquivalent ty h (Some p) = Some (h1, Some q) ∧
    object_at h1 p v ∧ object_at h1 q v ∧ object_cells h1 q ## dom h ∧
    (∀ D h2, writes D h1 h2 → object_cells h1 q ## D → object_at h2 q v) ∧
    ∀ cs,
      (∃ h2, mutate grow h1 p cs = Some h2 ∧ object_at h2 p (applyMutation cs v) ∧ object_at h2 q v) ∧
      (∃ h2, mutate grow h1 q cs = Some h2 ∧ object_at h2 q (applyMutation cs v) ∧ object_at h2 p v).
Proof.
  intros Hp. destruct (deepCopy_spec ty h p v Hp) as (h1 & q & Hc & Hq & Hw & Hd).
  destruct (object_frame ∅ h h1 p v Hp Hw) as [Hp1 Eq]; [by intros ? ? ?|].
  assert (object_cells h1 q ## object_cells h1 p) as Hpq.
  { rewrite Eq. pose proof (object_dom h p v Hp) as Hpd. clear - Hd Hpd. set_solver. }
  exists h1, q. split_and!; [done..| |].
  - intros D h2 Hw2 HD. by apply (object_frame D h1).
  - intros cs. split.
    + destruct (mutate_spec grow h1 p v cs Hp1) as (h2 & Hm & Hp2 & Hw2). exists h2.
      split_and!; [done|done|]. by apply (object_frame _ h1 _ _ _ Hq Hw2).
    + destruct (mutate_spec grow h1 q v cs Hq) as (h2 & Hm & Hq2 & Hw2). exists h2.
      split_and!; [done|done|]. by apply (object_frame _ h1 _ _ _ Hp1 Hw2).
Qed.

End Isolation.

(** ** An object in memory *)

#[local] Instance sharedCopies : LibraryCopies :=
  {| LabelSelectorDeepCopy := id; ClusterSelectorDeepCopy := id; ObjectMetaDeepCopy := id;
     ListMetaDeepCopy := id; StatusDeepCopy := id |}.
#[local] Instance sharedCopiesLaws : LibraryCopiesLaws.
Proof. by split. Qed.

Definition exSource : ReferenceWithID := MkSource (MkTRef exGVK "a" "x") "one".
Definition exReplica : HReplica :=
  MkHReplica (MkTypeMeta "Replica" "v1") (MkMeta "a" "rep" 1 None None None [])
    (MkHSpec (Some (MkSlice 5 1)) (Some 6%positive) (Some (MkSlice 8 1)) None)
    (MkHStatus (MkCommon 1 "Ready" []) exSlice).
Definition exObjectHeap : heap :=
  <[4%positive := BReplica exReplica]>
  (<[5%positive := BSources [exSource]]>
  (<[6%positive := BTemplate (MkHTemplate "a: b" (Some (MkSlice 7 3)))]>
  (<[7%positive := BBytes (String.list_ascii_of_string "{}  ")]>
  (<[8%positive := BTargets [MkHTarget None None (Some 9%positive) None]]>
  (<[9%positive := BConflictPolicy TargetConflictPolicySkip]> exHeap))))).
Definition exValue : ReplicaValue :=
  MkReplicaValue (MkTypeMeta "Replica" "v1") (MkMeta "a" "rep" 1 None None None [])
    (MkSpecValue [exSource] (Some (MkRawTemplate "a: b" (Some "{} ")))
       [MkTD None None (Some TargetConflictPolicySkip) None] None)
    (MkCommon 1 "Ready" []) exList.

Lemma exObject_at : object_at exObjectHeap 4 exValue.
Proof.
  exists exReplica. split; [reflexivity|]. split; [split; [done|]; split; [|split]|].
  - split; [split; [split|]|done].
    + exists [exSource]. split; [reflexivity|]. split; [by repeat constructor|]. simpl. set_solver.
    + eexists. split; [reflexivity|]. split; [|done].
      eexists. split; [reflexivity|]. split; [by repeat constructor|]. simpl. set_solver.
    + eexists. split; [reflexivity|]. split; [|simpl; set_solver].
      constructor; [|constructor]. split; [split; [by split|]|done]. by eexists.
  - eexists. split; [reflexivity|]. split; [|simpl; set_solver].
    constructor; [|constructor]. split; [done|]. eexists. split; [reflexivity|].
    split; [by repeat constructor|]. simpl. set_solver.
  - apply (bool_decide_unpack _). vm_compute. exact I.
  - apply (bool_decide_unpack _). vm_compute. exact I.
Qed.

Lemma deep_copy_isolated_witness :
  ∃ h1 q, DeepCopyReplicaEquivalent TReplica exObjectHeap (Some 4%positive) = Some (h1, Some q) ∧ object_at h1 q exValue ∧
    ∃ h2, mutate id h1 4 [CallRemove exGVK "a" "x" (Some exRef); CallAdd exGVK "c" "z" None] = Some h2 ∧
          object_at h2 4 (MkReplicaValue (rv_TypeMeta exValue) (rv_ObjectMeta exValue) (rv_Spec exValue)
                            (rv_Status exValue) [MkCRT exGVK [MkCR None "b" "y"; MkCR None "c" "z"]]) ∧
          object_at h2 q exValue.
Proof.
  destruct (deep_copy_isolated id TReplica exObjectHeap 4 exValue exObject_at)
    as (h1 & q & Hc & _ & Hq & _ & _ & Hcs).
  exists h1, q. split; [exact Hc|]. split; [exact Hq|].
  exact (proj1 (Hcs [CallRemove exGVK "a" "x" (Some exRef); CallAdd exGVK "c" "z" None])).
Defined.
