(* ===== verification/NamespaceSelection.v ===== *)
(** * Namespace selectors

    [NamespaceSelector.Matches] and [NamespaceSelector.Empty] of
    [api/core/v1alpha1/utils.go]. *)

From S2P Require Import Prelude GoLib ApiTypes External.

Section Selector.
Context `{X : Ext}.

(** The receiver is a pointer: [None] is the nil selector. *)
Definition Empty (s : option NamespaceSelector) : bool :=
  match s with
  | None => true
  | Some s =>
      match MatchIdentities s, MatchLabels (nssel_LabelSelector s),
            MatchExpressions (nssel_LabelSelector s) with
      | None, None, [] => true
      | _, _, _ => false
      end
  end.

Definition Matches (s : option NamespaceSelector) (ns : Namespace) : string + bool :=
  if Empty s then inr true
  else
    match s with
    | None => inr true
    | Some s =>
        match MatchIdentities s with
        | Some ids => inr (existsb (λ id, String.eqb id (ns_Name ns)) ids)
        | None =>
            match LabelSelectorAsSelector (nssel_LabelSelector s) with
            | inl err => inl err
            | inr sel => inr (sel (ns_Labels ns))
            end
        end
    end.

(** The documented contract of a namespace selector. *)
Definition selects (s : option NamespaceSelector) (ns : Namespace) : Prop :=
  match s with
  | None => True
  | Some s =>
      match MatchIdentities s with
      | Some ids => ns_Name ns ∈ ids
      | None =>
          (MatchLabels (nssel_LabelSelector s) = None ∧
           MatchExpressions (nssel_LabelSelector s) = []) ∨
          (∃ sel, LabelSelectorAsSelector (nssel_LabelSelector s) = inr sel ∧
                  sel (ns_Labels ns) = true)
      end
  end.

Lemma existsb_eqb_name (ids : list string) n :
  existsb (λ id, String.eqb id n) ids = true ↔ n ∈ ids.
Proof.
  rewrite existsb_true. split.
  - by intros (x & Hx & <-%String.eqb_eq).
  - intros H. exists n. by rewrite String.eqb_refl.
Qed.

Lemma Empty_matches s ns : Empty s = true → selects s ns.
Proof.
  destruct s as [[ids [ml me]]|]; [|done]; simpl.
  destruct ids, ml, me; try done. intros _. by left.
Qed.

(** [NamespaceSelector.Matches] decides the documented contract of the
    selector: a nil or empty selector matches every namespace; a non-nil
    [matchIdentities] (the empty list included) matches exactly the listed
    names and silences the label selector; otherwise the label selector
    decides. *)
Theorem Matches_selects s ns :
  match Matches s ns with
  | inr b => b = true ↔ selects s ns
  | inl err =>
      ∃ sel, s = Some sel ∧ MatchIdentities sel = None ∧
             LabelSelectorAsSelector (nssel_LabelSelector sel) = inl err
  end.
Proof.
  unfold Matches. destruct (Empty s) eqn:HE.
  - split; [by intros _; apply Empty_matches|done].
  - destruct s as [[ids ls]|]; [|done]. simpl in *.
    destruct ids as [ids|]; simpl.
    + apply existsb_eqb_name.
    + destruct (LabelSelectorAsSelector ls) as [err|sel] eqn:Hls.
      * eexists. by split.
      * split; [intros Hs; right; eauto|].
        intros [[Hml Hme]|(sel' & [= <-] & ?)]; [|done].
        by rewrite Hml, Hme in HE.
Qed.

End Selector.
