(* ===== verification/ConditionNames.v ===== *)
(** * Names of condition types

    [internal/replica/utils.go]: the type of a condition identifies a source,
    a target cluster or a target resource.  The garbage collection of the
    replica controller recognises "its" conditions by these strings only, so
    they must not collide. *)

From S2P Require Import Prelude GoLib ApiTypes External.

Section Names.
Context `{X : Ext}.

Definition gvkForConType (gvk : GroupVersionKind) : string :=
  TrimSuffix (sprint [gvk_Kind gvk; "."; gvk_Version gvk; "."; gvk_Group gvk]) ".".

Definition namespacedNameForConType (nn : NamespacedName) : string :=
  TrimPrefix (sprint [nn_Namespace nn; "."; nn_Name nn]) ".".

(** [namespacedName(obj)]: [namespace/name], or the name alone. *)
Definition namespacedName (namespace name : string) : string :=
  TrimPrefix (sprint [namespace; "/"; name]) "/".

Definition SourceCondition (ref : TypedObjectReference) : string :=
  ShortenToXCharactersUnsafe
    (sprint [ConditionTypeSourcePrefix;
             namespacedNameForConType (TypedObjectReference_NamespacedName ref); "_";
             gvkForConType (tref_GVK ref)]) 300.

Definition isHostingRef (clusterRef : ObjectReference) : bool :=
  String.eqb (ref_Name clusterRef) "" && String.eqb (ref_Namespace clusterRef) "".

Definition TargetCondition (clusterRef : ObjectReference) (ref : TypedObjectReference) : string :=
  let clusterRefString :=
    if isHostingRef clusterRef then "HostingPlatformCluster"
    else namespacedNameForConType (ObjectReference_NamespacedName clusterRef) in
  ShortenToXCharactersUnsafe
    (sprint [ConditionTypeTargetPrefix; clusterRefString; "_";
             namespacedNameForConType (TypedObjectReference_NamespacedName ref); "_";
             gvkForConType (tref_GVK ref)]) 300.

Definition ClusterCondition (clusterRef : ObjectReference) : string :=
  if isHostingRef clusterRef
  then sprint [ConditionTypeClusterPrefix; "HostingPlatformCluster"]
  else ShortenToXCharactersUnsafe
         (sprint [ConditionTypeClusterPrefix;
                  namespacedNameForConType (ObjectReference_NamespacedName clusterRef)]) 300.

End Names.

(** ** Splitting strings at a separator *)

Fixpoint no_char (c : Ascii.ascii) (s : string) : bool :=
  match s with
  | EmptyString => true
  | String d s' => negb (Ascii.eqb d c) && no_char c s'
  end.

Lemma no_char_app c a b : no_char c (a +:+ b) = no_char c a && no_char c b.
Proof.
  induction a as [|d a IH]; [done|].
  change (negb (Ascii.eqb d c) && no_char c (a +:+ b) =
          negb (Ascii.eqb d c) && no_char c a && no_char c b).
  by rewrite IH, andb_assoc.
Qed.

Lemma split_at_char_inj c (a b a' b' : string) :
  no_char c a = true → no_char c a' = true →
  a +:+ String c b = a' +:+ String c b' → a = a' ∧ b = b'.
Proof.
  revert a'. induction a as [|d a IH]; intros [|d' a'] Ha Ha' Heq.
  - by injection Heq.
  - exfalso. injection Heq as <- _. simpl in Ha'. by rewrite Ascii.eqb_refl in Ha'.
  - exfalso. injection Heq as -> _. simpl in Ha. by rewrite Ascii.eqb_refl in Ha.
  - simpl in Ha, Ha'. apply andb_true_iff in Ha as [_ Ha], Ha' as [_ Ha'].
    injection Heq as -> Heq. destruct (IH a' Ha Ha' Heq) as [-> ->]. done.
Qed.

(** A separator occurs on one side only. *)
Lemma split_at_char_absent c (a b s : string) :
  no_char c s = true → a +:+ String c b ≠ s.
Proof.
  intros Hs <-. rewrite no_char_app in Hs. apply andb_true_iff in Hs as [_ Hs].
  simpl in Hs. by rewrite Ascii.eqb_refl in Hs.
Qed.

Definition dot : Ascii.ascii := "."%char.
Definition underscore : Ascii.ascii := "_"%char.

(** ** Well-formed names

    What the API server guarantees of the strings: namespaces are DNS labels
    (no dot), names contain no underscore, kinds and versions contain neither,
    a group does not end in a dot. *)

Definition ok_namespace (s : string) : bool := no_char dot s && no_char underscore s.
Definition ok_name (s : string) : bool := no_char underscore s && negb (String.eqb s "").
Definition ok_gvk (g : GroupVersionKind) : bool :=
  no_char dot (gvk_Kind g) && no_char dot (gvk_Version g) &&
  no_char underscore (gvk_Kind g) && negb (HasSuffix (gvk_Group g) ".").

(** A cluster reference is the hosting cluster or a Cluster object (namespaced). *)
Definition ok_clusterRef (r : ObjectReference) : bool :=
  bool_decide (r = zeroRef) ||
  (ok_namespace (ref_Namespace r) && negb (String.eqb (ref_Namespace r) "") && ok_name (ref_Name r)).

Definition ok_target (r : TypedObjectReference) : bool :=
  ok_namespace (tref_Namespace r) && ok_name (tref_Name r) && ok_gvk (tref_GVK r).

(** ** The pieces of a condition type *)

Lemma sprint_snoc2 a b : sprint [a; b] = a +:+ b.
Proof. unfold sprint. simpl. by rewrite string_app_nil_r. Qed.

Lemma TrimPrefix_id s c :
  (∀ s', s ≠ String c s') → TrimPrefix s (String c "") = s.
Proof.
  intros H. unfold TrimPrefix. destruct (HasPrefix s (String c "")) eqn:E; [|done].
  apply HasPrefix_inv in E as [r ->]. by destruct (H r).
Qed.

(** The namespaced-name piece: the name alone for a cluster-scoped object,
    [namespace.name] otherwise. *)
Lemma nnForConType_cluster_scoped n :
  namespacedNameForConType (MkNN "" n) = n.
Proof.
  unfold namespacedNameForConType. simpl.
  change (sprint [""; "."; n]) with ("." +:+ (n +:+ "")).
  by rewrite TrimPrefix_append, string_app_nil_r.
Qed.

Lemma nnForConType_namespaced ns n :
  ns ≠ "" → ok_namespace ns = true →
  namespacedNameForConType (MkNN ns n) = ns +:+ String dot n.
Proof.
  intros Hne [Hdot _]%andb_true_iff. unfold namespacedNameForConType. simpl.
  change (sprint [ns; "."; n]) with (ns +:+ String dot (n +:+ "")).
  rewrite string_app_nil_r. apply TrimPrefix_id. intros s' Heq.
  destruct ns as [|d ns]; [done|]. injection Heq as -> _. done.
Qed.

Lemma nnForConType_no_underscore ns n :
  ok_namespace ns = true → ok_name n = true →
  no_char underscore (namespacedNameForConType (MkNN ns n)) = true.
Proof.
  intros Hns Hn. apply andb_true_iff in Hn as [Hn _].
  destruct (String.eqb_spec ns "") as [->|Hne].
  - by rewrite nnForConType_cluster_scoped.
  - rewrite nnForConType_namespaced by done. apply andb_true_iff in Hns as [_ Hns].
    rewrite no_char_app, Hns. done.
Qed.

(** Within one scope the piece determines namespace and name. *)
Lemma nnForConType_inj ns n ns' n' :
  ok_namespace ns = true → ok_namespace ns' = true →
  (ns = "" ↔ ns' = "") →
  namespacedNameForConType (MkNN ns n) = namespacedNameForConType (MkNN ns' n') →
  ns = ns' ∧ n = n'.
Proof.
  intros Hns Hns' Hscope.
  destruct (String.eqb_spec ns "") as [->|Hne], (String.eqb_spec ns' "") as [->|Hne'];
    [|naive_solver..|].
  - by rewrite !nnForConType_cluster_scoped.
  - rewrite !nnForConType_namespaced by done. intros Heq.
    apply andb_true_iff in Hns as [Hns _], Hns' as [Hns' _].
    by apply split_at_char_inj in Heq.
Qed.

Lemma gvkForConType_spec g :
  ok_gvk g = true →
  gvkForConType g =
    gvk_Kind g +:+ String dot
      (if String.eqb (gvk_Group g) "" then gvk_Version g
       else gvk_Version g +:+ String dot (gvk_Group g)).
Proof.
  destruct g as [gr v k]. unfold ok_gvk, gvkForConType. simpl.
  intros [_ Hgr]%andb_true_iff. apply negb_true_iff in Hgr.
  change (sprint [k; "."; v; "."; gr]) with (k +:+ String dot (v +:+ String dot (gr +:+ ""))).
  rewrite string_app_nil_r.
  destruct (String.eqb_spec gr "") as [->|Hne].
  - replace (k +:+ String dot (v +:+ String dot "")) with ((k +:+ String dot v) +:+ ".")
      by (rewrite string_app_assoc; done).
    by rewrite TrimSuffix_append.
  - replace (k +:+ String dot (v +:+ String dot gr)) with ((k +:+ String dot (v +:+ ".")) +:+ gr).
    + apply TrimSuffix_no_suffix. by rewrite HasSuffix_char_app.
    + rewrite string_app_assoc. f_equal.
      change (String dot (v +:+ ".") +:+ gr) with (String dot ((v +:+ ".") +:+ gr)).
      by rewrite string_app_assoc.
Qed.

Lemma gvkForConType_inj g g' :
  ok_gvk g = true → ok_gvk g' = true → gvkForConType g = gvkForConType g' → g = g'.
Proof.
  intros Hg Hg'. rewrite !gvkForConType_spec by done.
  destruct g as [gr v k], g' as [gr' v' k']. unfold ok_gvk in *. simpl in *.
  repeat match goal with H : _ && _ = true |- _ => apply andb_true_iff in H as [H ?] end.
  intros Heq. apply split_at_char_inj in Heq as [-> Heq]; [|done..].
  destruct (String.eqb_spec gr "") as [->|], (String.eqb_spec gr' "") as [->|].
  - by rewrite Heq.
  - exfalso. symmetry in Heq. revert Heq. by apply split_at_char_absent.
  - exfalso. revert Heq. by apply split_at_char_absent.
  - by apply split_at_char_inj in Heq as [-> ->].
Qed.

(** ** The condition types are injective *)

Section Injectivity.
Context `{X : Ext} `{!ExtLaws X}.

(** The cluster piece of a target condition. *)
Definition clusterPiece (c : ObjectReference) : string :=
  if isHostingRef c then "HostingPlatformCluster"
  else namespacedNameForConType (MkNN (ref_Namespace c) (ref_Name c)).

(** The text before shortening. *)
Definition TargetConditionLong (c : ObjectReference) (r : TypedObjectReference) : string :=
  sprint [ConditionTypeTargetPrefix; clusterPiece c; "_";
          namespacedNameForConType (MkNN (tref_Namespace r) (tref_Name r)); "_";
          gvkForConType (tref_GVK r)].

Lemma isHostingRef_spec c : isHostingRef c = bool_decide (c = zeroRef).
Proof.
  destruct c as [ns n]. unfold isHostingRef. simpl.
  destruct (String.eqb_spec n ""), (String.eqb_spec ns ""); simpl; subst;
    symmetry; (apply bool_decide_eq_true || apply bool_decide_eq_false); unfold zeroRef; congruence.
Qed.

Lemma TargetCondition_long c r :
  (String.length (TargetConditionLong c r) ≤ 300)%nat →
  TargetCondition c r = TargetConditionLong c r.
Proof.
  intros H. unfold TargetCondition.
  rewrite ObjectReference_NamespacedName_law, TypedObjectReference_NamespacedName_law.
  by apply Shorten_short.
Qed.

Lemma ok_clusterRef_cases c :
  ok_clusterRef c = true →
  c = zeroRef ∨ (c ≠ zeroRef ∧ ok_namespace (ref_Namespace c) = true ∧
                 ref_Namespace c ≠ "" ∧ ok_name (ref_Name c) = true).
Proof.
  unfold ok_clusterRef. intros [H|H]%orb_true_iff.
  - apply bool_decide_eq_true in H. by left.
  - apply andb_true_iff in H as [[Hns Hne]%andb_true_iff Hn]. right.
    apply negb_true_iff, String.eqb_neq in Hne. split; [|done]. by intros ->.
Qed.

Lemma clusterPiece_namespaced c :
  c ≠ zeroRef → ok_namespace (ref_Namespace c) = true → ref_Namespace c ≠ "" →
  clusterPiece c = ref_Namespace c +:+ String dot (ref_Name c).
Proof.
  intros Hc Hns Hne. unfold clusterPiece.
  rewrite isHostingRef_spec, bool_decide_eq_false_2 by done.
  by apply nnForConType_namespaced.
Qed.

Lemma clusterPiece_no_underscore c :
  ok_clusterRef c = true → no_char underscore (clusterPiece c) = true.
Proof.
  intros [->|(Hc & Hns & Hne & Hn)]%ok_clusterRef_cases; [done|].
  unfold clusterPiece. rewrite isHostingRef_spec, bool_decide_eq_false_2 by done.
  by apply nnForConType_no_underscore.
Qed.

Lemma clusterPiece_inj c c' :
  ok_clusterRef c = true → ok_clusterRef c' = true → clusterPiece c = clusterPiece c' → c = c'.
Proof.
  intros [->|(Hc & Hns & Hne & Hn)]%ok_clusterRef_cases
         [->|(Hc' & Hns' & Hne' & Hn')]%ok_clusterRef_cases; [done|..].
  - rewrite (clusterPiece_namespaced c') by done. intros Heq. exfalso.
    symmetry in Heq. revert Heq. by apply split_at_char_absent.
  - rewrite (clusterPiece_namespaced c) by done. intros Heq. exfalso.
    revert Heq. by apply split_at_char_absent.
  - rewrite !clusterPiece_namespaced by done. intros Heq.
    apply andb_true_iff in Hns as [Hns _], Hns' as [Hns' _].
    apply split_at_char_inj in Heq as [? ?]; [|done..].
    destruct c, c'; simpl in *; congruence.
Qed.

Lemma TargetConditionLong_inj c r c' r' :
  ok_clusterRef c = true → ok_clusterRef c' = true →
  ok_target r = true → ok_target r' = true →
  (tref_GVK r = tref_GVK r' → tref_Namespace r = "" ↔ tref_Namespace r' = "") →
  TargetConditionLong c r = TargetConditionLong c' r' → c = c' ∧ r = r'.
Proof.
  intros Hc Hc' Hr Hr' Hscope. unfold TargetConditionLong. intros Heq.
  unfold ok_target in Hr, Hr'.
  apply andb_true_iff in Hr as [[Hns Hn]%andb_true_iff Hg].
  apply andb_true_iff in Hr' as [[Hns' Hn']%andb_true_iff Hg'].
  rewrite !sprint_cons in Heq. apply (f_equal (string_drop 7)) in Heq.
  change (string_drop 7 (ConditionTypeTargetPrefix +:+ ?x)) with x in Heq.
  apply split_at_char_inj in Heq as [Hcp Heq]; [|by apply clusterPiece_no_underscore..].
  apply clusterPiece_inj in Hcp as ->; [|done..].
  change ("" +:+ ?x) with x in Heq.
  apply split_at_char_inj in Heq as [Hnn Heq]; [|by apply nnForConType_no_underscore..].
  change ("" +:+ ?x) with x in Heq.
  change (sprint [?x]) with (x +:+ "") in Heq. rewrite !string_app_nil_r in Heq.
  apply gvkForConType_inj in Heq; [|done..].
  apply nnForConType_inj in Hnn as [? ?]; [|by auto..].
  destruct r, r'; simpl in *. by subst.
Qed.


End Injectivity.
