(* ===== verification/Shared.v ===== *)
(** * Information shared between the controllers

    [internal/shared/shared.go]: the notification channel for (Cluster)Replicas
    and the set of pending keys that suppresses duplicate requests.

    [EnqueueReplica] is not atomic: it takes the lock to test and set the
    pending key, releases it, tries to send, and takes the lock again when the
    channel is full.  The file gives both the sequential function and the
    interleaving semantics of any number of concurrent callers, receivers and
    reconciles, and proves what deduplication guarantees under all
    interleavings. *)

From S2P Require Import Prelude GoLib ApiTypes.

Definition DeduplicateReplicaEnqueues : bool := true.

(** Capacity of the buffered channel. *)
Definition channelCapacity : nat := 1000.

Record sharedInformation := MkShared {
  replicaNotificationChannel : list Replica;
  pendingReplicas : gset string }.

(** [Reset] / the state [SharedInformation()] starts from. *)
Definition Reset : sharedInformation := MkShared [] ∅.

Definition replicaKeyFromNamespacedName (nn : NamespacedName) : string :=
  sprint [nn_Namespace nn; "/"; nn_Name nn].

Definition replicaKeyFromObject (obj : Replica) : string :=
  replicaKeyFromNamespacedName (MkNN (rep_Namespace obj) (rep_Name obj)).

(** ** The critical sections *)

(** First lock: test and set; the flag is [alreadyPending]. *)
Definition check_and_insert (obj : Replica) (si : sharedInformation) : sharedInformation * bool :=
  if DeduplicateReplicaEnqueues then
    let key := replicaKeyFromObject obj in
    if bool_decide (key ∈ pendingReplicas si) then (si, true)
    else (MkShared (replicaNotificationChannel si) ({[key]} ∪ pendingReplicas si), false)
  else (si, false).

(** The [select]: a send that succeeds when the buffer has room. *)
Definition try_send (obj : Replica) (si : sharedInformation) : option sharedInformation :=
  if Nat.ltb (length (replicaNotificationChannel si)) channelCapacity
  then Some (MkShared (replicaNotificationChannel si ++ [obj]) (pendingReplicas si))
  else None.

(** The default case: the request is dropped and its pending mark removed. *)
Definition drop_request (obj : Replica) (si : sharedInformation) : sharedInformation :=
  if DeduplicateReplicaEnqueues
  then MkShared (replicaNotificationChannel si) (pendingReplicas si ∖ {[replicaKeyFromObject obj]})
  else si.

(** [EnqueueReplica] without interference. *)
Definition EnqueueReplica (obj : Replica) (si : sharedInformation) : sharedInformation :=
  let '(si1, alreadyPending) := check_and_insert obj si in
  if alreadyPending then si1
  else
    match try_send obj si1 with
    | Some si2 => si2
    | None => drop_request obj si1
    end.

Definition ClearPending (nn : NamespacedName) (si : sharedInformation) : sharedInformation :=
  if negb DeduplicateReplicaEnqueues then si
  else MkShared (replicaNotificationChannel si)
         (pendingReplicas si ∖ {[replicaKeyFromNamespacedName nn]}).

(** The consumer of the channel. *)
Definition receive (si : sharedInformation) : option (Replica * sharedInformation) :=
  match replicaNotificationChannel si with
  | [] => None
  | x :: ch => Some (x, MkShared ch (pendingReplicas si))
  end.

(** ** Interleaving semantics *)

(** Where a goroutine inside [EnqueueReplica] is. *)
Inductive pc :=
| AtCheck (obj : Replica)   (** about to take the lock and test *)
| AtSend (obj : Replica)    (** about to execute the [select] *)
| AtDrop (obj : Replica).   (** the channel was full, about to take the lock again *)

Record state := MkState { info : sharedInformation; threads : gmap nat pc }.

Inductive label :=
| LSpawn (obj : Replica)
| LInsert (key : string) | LSuppress (key : string)
| LSend (key : string) | LFull (key : string) | LDrop (key : string)
| LReceive (key : string) | LClear (key : string).

Inductive step : state → label → state → Prop :=
| step_spawn si T t obj :
    T !! t = None →
    step (MkState si T) (LSpawn obj) (MkState si (<[t:=AtCheck obj]> T))
| step_insert si si' T t obj :
    T !! t = Some (AtCheck obj) → check_and_insert obj si = (si', false) →
    step (MkState si T) (LInsert (replicaKeyFromObject obj)) (MkState si' (<[t:=AtSend obj]> T))
| step_suppress si si' T t obj :
    T !! t = Some (AtCheck obj) → check_and_insert obj si = (si', true) →
    step (MkState si T) (LSuppress (replicaKeyFromObject obj)) (MkState si' (delete t T))
| step_send si si' T t obj :
    T !! t = Some (AtSend obj) → try_send obj si = Some si' →
    step (MkState si T) (LSend (replicaKeyFromObject obj)) (MkState si' (delete t T))
| step_full si T t obj :
    T !! t = Some (AtSend obj) → try_send obj si = None →
    step (MkState si T) (LFull (replicaKeyFromObject obj)) (MkState si (<[t:=AtDrop obj]> T))
| step_drop si T t obj :
    T !! t = Some (AtDrop obj) →
    step (MkState si T) (LDrop (replicaKeyFromObject obj))
         (MkState (drop_request obj si) (delete t T))
| step_receive si si' T obj :
    receive si = Some (obj, si') →
    step (MkState si T) (LReceive (replicaKeyFromObject obj)) (MkState si' T)
| step_clear si T nn :
    step (MkState si T) (LClear (replicaKeyFromNamespacedName nn))
         (MkState (ClearPending nn si) T).

(** Runs, with the labels in order. *)
Inductive steps : state → list label → state → Prop :=
| steps_nil s : steps s [] s
| steps_snoc s ls s' l s'' : steps s ls s' → step s' l s'' → steps s (ls ++ [l]) s''.

Definition initial : state := MkState Reset ∅.

Definition reachable (ls : list label) (s : state) : Prop := steps initial ls s.

(** ** Counting labels *)

Definition count (f : label → bool) (ls : list label) : nat := length (List.filter f ls).

Definition isInsert (k : string) (l : label) : bool :=
  match l with LInsert k' => String.eqb k' k | _ => false end.
Definition isSend (k : string) (l : label) : bool :=
  match l with LSend k' => String.eqb k' k | _ => false end.
Definition isDrop (k : string) (l : label) : bool :=
  match l with LDrop k' => String.eqb k' k | _ => false end.
Definition isClear (k : string) (l : label) : bool :=
  match l with LClear k' => String.eqb k' k | _ => false end.

(** Notifications sent and received for any key, in order. *)
Definition sentKeys (ls : list label) : list string :=
  omap (λ l, match l with LSend k => Some k | _ => None end) ls.
Definition receivedKeys (ls : list label) : list string :=
  omap (λ l, match l with LReceive k => Some k | _ => None end) ls.

(** Goroutines that inserted the key and have neither sent nor dropped yet. *)
Definition weight (k : string) (p : pc) : nat :=
  match p with
  | AtCheck _ => 0
  | AtSend o | AtDrop o => if String.eqb (replicaKeyFromObject o) k then 1 else 0
  end.

Definition inflight (k : string) (T : gmap nat pc) : nat :=
  map_fold (λ _ p n, weight k p + n) 0 T.

(** A notification for the key was sent and no reconcile of it has started
    since. *)
Definition covered (k : string) (ls : list label) : Prop :=
  ∃ pre post, ls = pre ++ LSend k :: post ∧ LClear k ∉ post.

Lemma count_snoc f ls l : count f (ls ++ [l]) = count f ls + (if f l then 1 else 0).
Proof. unfold count. rewrite List.filter_app, length_app. simpl. by destruct (f l). Qed.

Lemma inflight_empty k : inflight k ∅ = 0.
Proof. apply map_fold_empty. Qed.

Lemma inflight_insert k T t p :
  T !! t = None → inflight k (<[t:=p]> T) = weight k p + inflight k T.
Proof. intros H. unfold inflight. rewrite map_fold_insert_L; [done| |done]. intros. lia. Qed.

Lemma inflight_delete k T t p :
  T !! t = Some p → inflight k T = weight k p + inflight k (delete t T).
Proof.
  intros H. rewrite <- (insert_delete_id T t p H) at 1.
  by rewrite inflight_insert by apply lookup_delete_eq.
Qed.

Lemma inflight_update k T t p q :
  T !! t = Some q →
  weight k q + inflight k (<[t:=p]> T) = weight k p + inflight k T.
Proof.
  intros H. rewrite <- insert_delete_eq, inflight_insert by apply lookup_delete_eq.
  rewrite (inflight_delete k T t q H). lia.
Qed.

Lemma inflight_pos k T t p : T !! t = Some p → weight k p = 1 → 0 < inflight k T.
Proof. intros H Hw. rewrite (inflight_delete k T t p H). lia. Qed.

Lemma covered_snoc k ls l : covered k ls → l ≠ LClear k → covered k (ls ++ [l]).
Proof.
  intros (pre & post & -> & Hpost) Hl. exists pre, (post ++ [l]).
  split; [by rewrite <- app_assoc|]. set_solver.
Qed.

Lemma covered_send k ls : covered k (ls ++ [LSend k]).
Proof. exists ls, []. split; [done|apply not_elem_of_nil]. Qed.

(** The effect of the critical sections on the pending set. *)
Lemma check_and_insert_false obj si si' :
  check_and_insert obj si = (si', false) →
  replicaKeyFromObject obj ∉ pendingReplicas si ∧
  replicaNotificationChannel si' = replicaNotificationChannel si ∧
  pendingReplicas si' = {[replicaKeyFromObject obj]} ∪ pendingReplicas si.
Proof.
  unfold check_and_insert. simpl. case_bool_decide; [done|]. by intros [= <-].
Qed.

Lemma check_and_insert_true obj si si' :
  check_and_insert obj si = (si', true) →
  replicaKeyFromObject obj ∈ pendingReplicas si ∧ si' = si.
Proof.
  unfold check_and_insert. simpl. case_bool_decide; [|done]. by intros [= <-].
Qed.

Lemma try_send_Some obj si si' :
  try_send obj si = Some si' →
  length (replicaNotificationChannel si) < channelCapacity ∧
  replicaNotificationChannel si' = replicaNotificationChannel si ++ [obj] ∧
  pendingReplicas si' = pendingReplicas si.
Proof.
  unfold try_send. destruct (Nat.ltb_spec (length (replicaNotificationChannel si)) channelCapacity);
    [|done]. by intros [= <-].
Qed.

Lemma receive_Some obj si si' :
  receive si = Some (obj, si') →
  replicaNotificationChannel si = obj :: replicaNotificationChannel si' ∧
  pendingReplicas si' = pendingReplicas si.
Proof. unfold receive. destruct (replicaNotificationChannel si); [done|]. by intros [= -> <-]. Qed.

(** Membership of the key as a number, and its arithmetic. *)
Definition bit (k : string) (P : gset string) : nat :=
  if bool_decide (k ∈ P) then 1 else 0.

Lemma bit_insert k a P : bit k ({[a]} ∪ P) = if String.eqb a k then 1 else bit k P.
Proof.
  unfold bit. destruct (String.eqb_spec a k) as [->|Hne].
  - by rewrite bool_decide_eq_true_2 by set_solver.
  - erewrite bool_decide_ext; [done|]. set_solver.
Qed.

Lemma bit_remove k a P : bit k (P ∖ {[a]}) = if String.eqb a k then 0 else bit k P.
Proof.
  unfold bit. destruct (String.eqb_spec a k) as [->|Hne].
  - by rewrite bool_decide_eq_false_2 by set_solver.
  - erewrite bool_decide_ext; [done|]. set_solver.
Qed.

Lemma bit_pos k P : 0 < bit k P ↔ k ∈ P.
Proof. unfold bit. case_bool_decide; split; intros; try done; lia. Qed.

Lemma bit_zero k P : k ∉ P → bit k P = 0.
Proof. intros H. unfold bit. by rewrite bool_decide_eq_false_2. Qed.

Lemma bit_le k P : bit k P ≤ 1.
Proof. unfold bit. case_bool_decide; lia. Qed.

(** ** The invariant of a key, by induction on runs *)

Record key_inv (k : string) (ls : list label) (s : state) : Prop := {
  inv_balance :
    count (isInsert k) ls = count (isSend k) ls + count (isDrop k) ls + inflight k (threads s);
  inv_inserts :
    count (isInsert k) ls ≤
      count (isClear k) ls + count (isDrop k) ls + bit k (pendingReplicas (info s));
  inv_covered :
    0 < bit k (pendingReplicas (info s)) → 0 < inflight k (threads s) ∨ covered k ls }.

Lemma key_inv_initial k : key_inv k [] initial.
Proof.
  split; unfold count; simpl; [by rewrite inflight_empty|lia|].
  rewrite bit_zero by set_solver. lia.
Qed.

(** What a step does to the numbers of the invariant: the goroutine's weight,
    the pending bit and the label. *)
Ltac step_numbers k :=
  match goal with
  | Ht : ?T !! ?t = Some _ |- context [inflight k (<[?t:=?p]> ?T)] =>
      pose proof (inflight_update k T t p _ Ht)
  | Ht : ?T !! ?t = Some _ |- context [inflight k (delete ?t ?T)] =>
      pose proof (inflight_delete k T t _ Ht)
  | Ht : ?T !! ?t = None |- context [inflight k (<[?t:=?p]> ?T)] =>
      rewrite (inflight_insert k T t p Ht)
  | _ => idtac
  end;
  repeat match goal with
  | H : check_and_insert _ _ = (_, false) |- _ =>
      apply check_and_insert_false in H as (?Hnp & _ & ->)
  | H : check_and_insert _ _ = (_, true) |- _ => apply check_and_insert_true in H as [?Hp ->]
  | H : try_send _ _ = Some _ |- _ => apply try_send_Some in H as (_ & _ & ->)
  | H : receive _ = Some _ |- _ => apply receive_Some in H as (_ & ->)
  end;
  simpl in *; rewrite ?bit_insert, ?bit_remove;
  repeat match goal with
  | |- context [String.eqb ?a k] => destruct (String.eqb_spec a k); subst; simpl in *
  | _ : context [String.eqb ?a k] |- _ => destruct (String.eqb_spec a k); subst; simpl in *
  end.

Section KeyInvariant.
Variables (k : string) (ls : list label) (s s' : state) (l : label).
Hypothesis Hinv : key_inv k ls s.
Hypothesis Hstep : step s l s'.

Lemma key_inv_balance_step :
  count (isInsert k) (ls ++ [l]) =
  count (isSend k) (ls ++ [l]) + count (isDrop k) (ls ++ [l]) + inflight k (threads s').
Proof.
  destruct Hinv as [Hb _ _]. rewrite !count_snoc. clear Hinv.
  destruct Hstep; simpl in *; step_numbers k; lia.
Qed.

Lemma key_inv_inserts_step :
  count (isInsert k) (ls ++ [l]) ≤
  count (isClear k) (ls ++ [l]) + count (isDrop k) (ls ++ [l]) +
  bit k (pendingReplicas (info s')).
Proof.
  destruct Hinv as [_ Hi _]. rewrite !count_snoc. clear Hinv.
  destruct Hstep; simpl in *; step_numbers k; try lia.
  all: match goal with
       | H : ?a ∉ ?P |- _ => rewrite (bit_zero a P H) in Hi; lia
       | _ : context [bit ?a ?P] |- _ => pose proof (bit_le a P); lia
       end.
Qed.

Lemma key_inv_covered_step :
  0 < bit k (pendingReplicas (info s')) →
  0 < inflight k (threads s') ∨ covered k (ls ++ [l]).
Proof.
  destruct Hinv as [_ _ Hc]. clear Hinv.
  destruct Hstep; simpl in *; step_numbers k; try (intros; lia); intros Hbit;
    first [by right; apply covered_send
          |destruct (Hc Hbit) as [?|?]; [left; lia|right; apply covered_snoc; [done|congruence]]].
Qed.

Lemma key_inv_step : key_inv k (ls ++ [l]) s'.
Proof.
  split; [apply key_inv_balance_step|apply key_inv_inserts_step|apply key_inv_covered_step].
Qed.

End KeyInvariant.

Lemma key_inv_reachable k ls s : reachable ls s → key_inv k ls s.
Proof.
  unfold reachable. remember initial as s0 eqn:Heq. intros Hs.
  induction Hs; subst; [apply key_inv_initial|]. eauto using key_inv_step.
Qed.

#[export] Hint Resolve key_inv_reachable : replicator.

(** ** The channel is a bounded FIFO *)

Definition channelKeys (s : state) : list string :=
  replicaKeyFromObject <$> replicaNotificationChannel (info s).

Definition channel_inv (ls : list label) (s : state) : Prop :=
  sentKeys ls = receivedKeys ls ++ channelKeys s ∧
  length (replicaNotificationChannel (info s)) ≤ channelCapacity.

Lemma check_and_insert_channel obj si :
  replicaNotificationChannel (check_and_insert obj si).1 = replicaNotificationChannel si.
Proof. unfold check_and_insert. simpl. by case_bool_decide. Qed.

Lemma channel_inv_step ls s l s' :
  channel_inv ls s → step s l s' → channel_inv (ls ++ [l]) s'.
Proof.
  unfold channel_inv, channelKeys, sentKeys, receivedKeys. rewrite !omap_app.
  intros [Hf Hl] Hstep. rewrite Hf. clear Hf.
  destruct Hstep as [| si si' T t obj _ Hck | si si' T t obj _ Hck
    | si si' T t obj _ Hs | | | si si' T obj Hr |]; simpl in *; rewrite ?app_nil_r;
    try (pose proof (check_and_insert_channel obj si) as Hch; rewrite Hck in Hch;
         simpl in Hch; by rewrite Hch); try done.
  - apply try_send_Some in Hs as (Hlt & -> & _).
    rewrite fmap_app, length_app. simpl. rewrite app_assoc. split; [done|lia].
  - apply receive_Some in Hr as (Hch & _). rewrite Hch in *. simpl in *.
    split; [by rewrite <- app_assoc|lia].
Qed.

Lemma channel_inv_reachable ls s : reachable ls s → channel_inv ls s.
Proof.
  unfold reachable. remember initial as s0 eqn:Heq. intros Hs.
  induction Hs; subst; [split; [done|simpl; lia]|]. eauto using channel_inv_step.
Qed.

(** ** Runs and their prefixes *)

Lemma steps_app s ls s' ls' s'' : steps s ls s' → steps s' ls' s'' → steps s (ls ++ ls') s''.
Proof.
  intros H H'. induction H'; [by rewrite app_nil_r|]. rewrite app_assoc. by eapply steps_snoc; [eauto|].
Qed.

Lemma steps_cut s ls s' : steps s ls s' → ∀ pre l post, ls = pre ++ l :: post →
  ∃ s1 s2, steps s pre s1 ∧ step s1 l s2 ∧ steps s2 post s'.
Proof.
  induction 1 as [|s ls s' l' s'' Hs IH Hstep]; intros pre l post Heq.
  - by destruct pre.
  - destruct post as [|x post _] using rev_ind.
    + apply app_inj_tail in Heq as [-> ->]. exists s', s''. split; [done|]. split; [done|constructor].
    + change (pre ++ l :: post ++ [x]) with (pre ++ (l :: post) ++ [x]) in Heq.
      rewrite app_assoc in Heq. apply app_inj_tail in Heq as [-> ->].
      destruct (IH pre l post eq_refl) as (s1 & s2 & ? & ? & ?).
      exists s1, s2. split; [done|]. split; [done|by eapply steps_snoc].
Qed.

Lemma reachable_cut pre l post s :
  reachable (pre ++ l :: post) s → ∃ s1 s2, reachable pre s1 ∧ step s1 l s2 ∧ steps s2 post s.
Proof. intros H. by eapply steps_cut. Qed.

(** ** What the pending set means *)

(** The key was inserted and has neither been cleared nor dropped since. *)
Definition heldSince (k : string) (ls : list label) : Prop :=
  ∃ pre post, ls = pre ++ LInsert k :: post ∧ LClear k ∉ post ∧ LDrop k ∉ post.

Lemma heldSince_snoc k ls l :
  heldSince k (ls ++ [l]) ↔ l = LInsert k ∨ heldSince k ls ∧ l ≠ LClear k ∧ l ≠ LDrop k.
Proof.
  split.
  - intros (pre & post & Heq & Hc & Hd). destruct post as [|x post _] using rev_ind.
    + apply app_inj_tail in Heq as [_ ->]. by left.
    + change (pre ++ LInsert k :: post ++ [x]) with (pre ++ (LInsert k :: post) ++ [x]) in Heq.
      rewrite app_assoc in Heq. apply app_inj_tail in Heq as [-> ->]. right.
      rewrite elem_of_app, list_elem_of_singleton in Hc, Hd.
      split; [exists pre, post; tauto|]. split; intros ->; tauto.
  - intros [->|[(pre & post & -> & Hc & Hd) [Hnc Hnd]]]; [exists ls, []; set_solver|].
    exists pre, (post ++ [l]). split; [by rewrite <- app_assoc|].
    rewrite !elem_of_app, !list_elem_of_singleton. split; intros [?|?]; by subst.
Qed.

(** The pending set after a step. *)
Lemma pending_step s l s' k :
  step s l s' →
  k ∈ pendingReplicas (info s') ↔
  l = LInsert k ∨ k ∈ pendingReplicas (info s) ∧ l ≠ LClear k ∧ l ≠ LDrop k.
Proof.
  destruct 1; simpl;
    repeat match goal with
    | H : check_and_insert _ _ = (_, false) |- _ => apply check_and_insert_false in H as (_ & _ & ->)
    | H : check_and_insert _ _ = (_, true) |- _ => apply check_and_insert_true in H as [_ ->]
    | H : try_send _ _ = Some _ |- _ => apply try_send_Some in H as (_ & _ & ->)
    | H : receive _ = Some _ |- _ => apply receive_Some in H as (_ & ->)
    end; try (split; [intros; right; split; [done|split; congruence]|by intros [|[? _]]]).
  - rewrite elem_of_union, elem_of_singleton. split.
    + intros [->|?]; [by left|right]. split; [done|split; congruence].
    + intros [[= ->]|[? _]]; [by left|by right].
  - rewrite elem_of_difference, elem_of_singleton. split.
    + intros [? Hne]. right. split; [done|]. split; congruence.
    + intros [|(? & _ & Hne)]; [done|]. split; [done|]. by intros ->.
  - rewrite elem_of_difference, elem_of_singleton. split.
    + intros [? Hne]. right. split; [done|]. split; congruence.
    + intros [|(? & Hne & _)]; [done|]. split; [done|]. by intros ->.
Qed.

Lemma pending_reachable k ls s : reachable ls s → k ∈ pendingReplicas (info s) ↔ heldSince k ls.
Proof.
  unfold reachable. remember initial as s0 eqn:Heq. intros Hs. induction Hs as [|s ls s' l s'' Hs IH Hst].
  - subst. split; [set_solver|]. intros ([|] & ? & ? & _); done.
  - rewrite heldSince_snoc, (pending_step _ _ _ _ Hst), IH; [done|done].
Qed.

(** Labels of a key are recognised, although objects cannot be compared. *)
Lemma label_dec (f : label → bool) (l : label) (ls : list label) :
  (∀ l', f l' = true ↔ l' = l) → Decision (l ∈ ls).
Proof.
  intros Hf. destruct (existsb f ls) eqn:He; [left|right].
  - apply existsb_exists in He as (l' & Hin & ->%Hf). by apply list_elem_of_In.
  - intros Hin%list_elem_of_In. assert (existsb f ls = true); [|congruence].
    apply existsb_exists. exists l. split; [done|by apply Hf].
Defined.

#[export] Instance clear_dec k (ls : list label) : Decision (LClear k ∈ ls).
Proof.
  apply (label_dec (isClear k)). intros []; simpl; try done. rewrite String.eqb_eq. naive_solver.
Defined.

#[export] Instance drop_dec k (ls : list label) : Decision (LDrop k ∈ ls).
Proof.
  apply (label_dec (isDrop k)). intros []; simpl; try done. rewrite String.eqb_eq. naive_solver.
Defined.

(** ** A full channel *)

(** A caller for the key found the buffer full: 1000 notifications had been
    sent and not yet received. *)
Definition foundFull (k : string) (ls : list label) : Prop :=
  ∃ pre post, ls = pre ++ LFull k :: post ∧
    length (sentKeys pre) = length (receivedKeys pre) + 1000.

Lemma foundFull_app k ls ls' : foundFull k ls → foundFull k (ls ++ ls').
Proof. intros (pre & post & -> & H). exists pre, (post ++ ls'). by rewrite <- app_assoc. Qed.

Lemma full_step ls s k s' :
  reachable ls s → step s (LFull k) s' → length (sentKeys ls) = length (receivedKeys ls) + 1000.
Proof.
  intros [Heq Hlen]%channel_inv_reachable Hst. rewrite Heq, length_app. unfold channelKeys in *.
  rewrite length_fmap. inversion Hst as [| | | |si T t obj _ Hs| | |]; subst. simpl in *.
  unfold try_send in Hs. destruct (Nat.ltb_spec (length (replicaNotificationChannel si)) channelCapacity) as [|Hge];
    [done|]. unfold channelCapacity in *. lia.
Qed.

(** Who is about to drop, and who has dropped, found the channel full. *)
Definition drop_inv (ls : list label) (s : state) : Prop :=
  (∀ t obj, threads s !! t = Some (AtDrop obj) → foundFull (replicaKeyFromObject obj) ls) ∧
  ∀ k, LDrop k ∈ ls → foundFull k ls.

Lemma drop_inv_step ls s l s' :
  reachable ls s → drop_inv ls s → step s l s' → drop_inv (ls ++ [l]) s'.
Proof.
  intros Hr [Ht Hd] Hst.
  split.
  - intros t obj. destruct Hst; simpl in *;
      rewrite ?lookup_insert_Some, ?lookup_delete_Some;
      intros; destruct_or?; destruct_and?; simplify_eq;
      try (by apply foundFull_app; eauto).
    eexists _, []. split; [done|]. eapply full_step; [done|by econstructor].
  - intros k [?|Hl]%elem_of_app; apply foundFull_app; [by apply Hd|].
    apply list_elem_of_singleton in Hl as <-. inversion Hst; subst. by eapply Ht.
Qed.

Lemma drop_inv_reachable ls s : reachable ls s → drop_inv ls s.
Proof.
  unfold reachable. remember initial as s0 eqn:Heq. intros Hs. induction Hs as [|s ls s' l s'' Hs IH Hst].
  - subst. split; [done|set_solver].
  - subst. eapply drop_inv_step; [|by apply IH|done]. done.
Qed.

(** Goroutines that hold the key. *)
Lemma inflight_holder k T : 0 < inflight k T → ∃ t p, T !! t = Some p ∧ weight k p = 1.
Proof.
  induction T as [|t p T Ht _ IH] using map_first_key_ind; [rewrite inflight_empty; lia|].
  rewrite inflight_insert by done. intros H. destruct (weight k p) as [|w] eqn:Hw.
  - destruct IH as (t' & p' & ? & ?); [lia|]. exists t', p'. split; [|done].
    by rewrite lookup_insert_ne by congruence.
  - exists t, p. split; [by rewrite lookup_insert_eq|]. destruct p; simpl in *; try lia;
      destruct (String.eqb _ _); simpl in *; lia.
Qed.

(** ** One goroutine's steps, its own entry of the thread map updated *)

Section OneThread.
Variables (obj : Replica) (T : gmap nat pc) (t : nat).
Hypothesis Ht : T !! t = None.

Abbreviation at_pc p := (<[t:=p]> T).

Lemma own_insert si si' :
  check_and_insert obj si = (si', false) →
  step (MkState si (at_pc (AtCheck obj))) (LInsert (replicaKeyFromObject obj))
       (MkState si' (at_pc (AtSend obj))).
Proof.
  intros H. pose proof (step_insert _ _ _ t obj (lookup_insert_eq T t (AtCheck obj)) H) as Hs.
  by rewrite insert_insert_eq in Hs.
Qed.

Lemma own_suppress si si' :
  check_and_insert obj si = (si', true) →
  step (MkState si (at_pc (AtCheck obj))) (LSuppress (replicaKeyFromObject obj)) (MkState si' T).
Proof.
  intros H. pose proof (step_suppress _ _ _ t obj (lookup_insert_eq T t (AtCheck obj)) H) as Hs.
  by rewrite delete_insert_id in Hs.
Qed.

Lemma own_send si si' :
  try_send obj si = Some si' →
  step (MkState si (at_pc (AtSend obj))) (LSend (replicaKeyFromObject obj)) (MkState si' T).
Proof.
  intros H. pose proof (step_send _ _ _ t obj (lookup_insert_eq T t (AtSend obj)) H) as Hs.
  by rewrite delete_insert_id in Hs.
Qed.

Lemma own_full si :
  try_send obj si = None →
  step (MkState si (at_pc (AtSend obj))) (LFull (replicaKeyFromObject obj))
       (MkState si (at_pc (AtDrop obj))).
Proof.
  intros H. pose proof (step_full _ _ t obj (lookup_insert_eq T t (AtSend obj)) H) as Hs.
  by rewrite insert_insert_eq in Hs.
Qed.

Lemma own_drop si :
  step (MkState si (at_pc (AtDrop obj))) (LDrop (replicaKeyFromObject obj))
       (MkState (drop_request obj si) T).
Proof.
  pose proof (step_drop si _ t obj (lookup_insert_eq T t (AtDrop obj))) as Hs.
  by rewrite delete_insert_id in Hs.
Qed.

(** The uninterrupted run of a caller is the sequential function. *)
Lemma own_run si :
  ∃ ls, steps (MkState si (at_pc (AtCheck obj))) ls (MkState (EnqueueReplica obj si) T).
Proof.
  unfold EnqueueReplica. destruct (check_and_insert obj si) as [si1 [|]] eqn:Hck.
  - eexists. eapply steps_snoc; [constructor|]. by apply own_suppress.
  - destruct (try_send obj si1) as [si2|] eqn:Hs; eexists.
    + eapply steps_snoc, own_send, Hs. eapply steps_snoc, own_insert, Hck. constructor.
    + eapply steps_snoc, own_drop. eapply steps_snoc, own_full, Hs.
      eapply steps_snoc, own_insert, Hck. constructor.
Qed.

End OneThread.

Lemma EnqueueReplica_unfold obj si :
  let key := replicaKeyFromObject obj in
  EnqueueReplica obj si =
    if bool_decide (key ∈ pendingReplicas si) then si
    else if Nat.ltb (length (replicaNotificationChannel si)) channelCapacity
    then MkShared (replicaNotificationChannel si ++ [obj]) ({[key]} ∪ pendingReplicas si)
    else si.
Proof.
  unfold EnqueueReplica, check_and_insert, try_send, drop_request. simpl.
  case_bool_decide as Hk; [done|]. simpl.
  destruct (Nat.ltb _ _); [done|]. destruct si as [ch P]. simpl in *. f_equal. set_solver.
Qed.

(** ** Properties *)

(** C26: Deduplication, under every interleaving of concurrent callers: the
    number of notifications ever sent for a (Cluster)Replica exceeds the number
    of its reconciles that have started by at most one.  ("A replica that is
    already pending reconciliation will not be enqueued a second time until its
    current reconcile starts.") *)
Theorem dedup_bound k ls s :
  reachable ls s → count (isSend k) ls ≤ 1 + count (isClear k) ls.
Proof.
  intros [Hb Hi _]%(key_inv_reachable k).
  pose proof (bit_le k (pendingReplicas (info s))). lia.
Qed.

(** C27: What becomes of a suppressed request, under every interleaving.  When
    it is suppressed, then another caller is about to send for the key, or a
    notification has been sent and no reconcile of the key has started since,
    or another caller has found the channel full and is about to drop.  Once no
    caller holds the key any more, a reconcile of the key has started after the
    request, or a notification that no reconcile has taken up since is there,
    or a caller dropped the key after it had found 1000 notifications waiting:
    only in this last case are the suppressed request and the one that
    suppressed it both lost. *)
Theorem suppressed_is_covered k ls s s' ls' s'' :
  reachable ls s → step s (LSuppress k) s' → steps s' ls' s'' →
  ((∃ t obj, threads s !! t = Some (AtSend obj) ∧ replicaKeyFromObject obj = k) ∨
   covered k ls ∨
   (∃ t obj, threads s !! t = Some (AtDrop obj) ∧ replicaKeyFromObject obj = k) ∧ foundFull k ls) ∧
  (inflight k (threads s'') = 0 →
   LClear k ∈ ls' ∨ covered k (ls ++ LSuppress k :: ls') ∨
   LDrop k ∈ ls' ∧ foundFull k (ls ++ LSuppress k :: ls')).
Proof.
  intros Hr Hst Hs.
  assert (k ∈ pendingReplicas (info s)) as Hk.
  { inversion Hst; subst. simpl. by edestruct check_and_insert_true. }
  assert (reachable (ls ++ LSuppress k :: ls') s'') as Hr'.
  { change (LSuppress k :: ls') with ([LSuppress k] ++ ls'). rewrite app_assoc.
    eapply steps_app, Hs. by eapply steps_snoc. }
  split.
  - destruct (key_inv_reachable k _ _ Hr) as [_ _ Hc].
    destruct (Hc (proj2 (bit_pos _ _) Hk)) as [(t & p & Ht & Hw)%inflight_holder|?]; [|by right; left].
    assert (∀ o, (if String.eqb (replicaKeyFromObject o) k then 1 else 0) = 1 →
              replicaKeyFromObject o = k) as Hkey.
    { intros o. by destruct (String.eqb_spec (replicaKeyFromObject o) k). }
    destruct p as [o|o|o]; simpl in Hw; [done| |]; apply Hkey in Hw; [by left; exists t, o|].
    right; right. split; [by exists t, o|]. rewrite <- Hw.
    by apply (proj1 (drop_inv_reachable _ _ Hr) t).
  - intros Hz. destruct (decide (LClear k ∈ ls')) as [|Hnc]; [by left|right].
    destruct (decide (LDrop k ∈ ls')) as [Hd|Hnd].
    + right. split; [done|]. apply (proj2 (drop_inv_reachable _ _ Hr')).
      apply elem_of_app. right. by right.
    + left. destruct (key_inv_reachable k _ _ Hr') as [_ _ Hc]. destruct Hc as [?|?]; [|lia|done].
      apply bit_pos, (pending_reachable _ _ _ Hr').
      apply (pending_reachable _ _ _ Hr) in Hk as (pre & post & -> & Hc' & Hd').
      exists pre, (post ++ LSuppress k :: ls'). split; [by rewrite <- app_assoc|].
      split; rewrite elem_of_app, elem_of_cons; intros [|[|]]; done.
Qed.

(** C28: The shared information accounts for every notification, under every
    interleaving.  A key is pending exactly when it was inserted and neither
    cleared nor dropped since; hence between two insertions of a key there is
    a start of its reconcile or a drop.  Every insertion has led to one
    notification, to one drop, or its caller is still under way.  What was
    received followed by what is buffered is what was sent, in order, and the
    buffer holds at most 1000 notifications; a caller drops a key only after it
    found exactly that many. *)
Theorem notifications_accounted k ls s :
  reachable ls s →
  (k ∈ pendingReplicas (info s) ↔ heldSince k ls) ∧
  (∀ pre mid post, ls = pre ++ LInsert k :: mid ++ LInsert k :: post →
     LClear k ∈ mid ∨ LDrop k ∈ mid) ∧
  count (isInsert k) ls = count (isSend k) ls + count (isDrop k) ls + inflight k (threads s) ∧
  sentKeys ls = receivedKeys ls ++ channelKeys s ∧
  length (replicaNotificationChannel (info s)) ≤ 1000 ∧
  (LDrop k ∈ ls → foundFull k ls).
Proof.
  intros Hr. split; [by apply pending_reachable|]. split.
  { intros pre mid post Heq. rewrite Heq in Hr.
    change (LInsert k :: mid ++ LInsert k :: post) with ((LInsert k :: mid) ++ LInsert k :: post) in Hr.
    rewrite app_assoc in Hr. apply reachable_cut in Hr as (s1 & s2 & Hr1 & Hst & _).
    destruct (decide (LClear k ∈ mid)); [by left|]. destruct (decide (LDrop k ∈ mid)); [by right|].
    assert (k ∈ pendingReplicas (info s1)) as Hk by (apply (pending_reachable _ _ _ Hr1); by exists pre, mid).
    inversion Hst as [|? ? ? ? ? ? Hck| | | | | |]; subst. simpl in Hk.
    by apply check_and_insert_false in Hck as [? _]. }
  split; [by apply key_inv_reachable|]. destruct (channel_inv_reachable _ _ Hr) as [? ?].
  split; [done|]. split; [done|]. apply drop_inv_reachable in Hr as [_ Hd]. apply Hd.
Qed.

(** C29: A single caller that is not interrupted performs exactly
    [EnqueueReplica]: a pending key changes nothing, a fresh key is marked and
    its object appended to the channel, and a full channel leaves the shared
    state as it was. *)
Theorem EnqueueReplica_spec obj si T t :
  T !! t = None →
  (∃ ls, steps (MkState si (<[t:=AtCheck obj]> T)) ls (MkState (EnqueueReplica obj si) T)) ∧
  let key := replicaKeyFromObject obj in
  EnqueueReplica obj si =
    if bool_decide (key ∈ pendingReplicas si) then si
    else if Nat.ltb (length (replicaNotificationChannel si)) 1000
    then MkShared (replicaNotificationChannel si ++ [obj]) ({[key]} ∪ pendingReplicas si)
    else si.
Proof.
  intros Ht. split; [by apply own_run|apply EnqueueReplica_unfold].
Qed.
