(* ===== verification/ClusterHandler.v ===== *)
(** * The cluster handler

    [internal/cluster/handler.go]: reacts to events of Cluster resources by
    enqueueing the (Cluster)Replicas associated with the cluster.

    The two [List] calls on the platform client are arguments (the error or
    the items); [shared.SharedInformation()] is threaded as a state.  The
    handler's own state is the map [clusterStates]. *)

From S2P Require Import Prelude GoLib ApiTypes External Shared.

Record clusterState := MkClusterState {
  cs_annotations : StringMap;
  cs_labels : StringMap;
  cs_inDeletion : bool;
  cs_generation : Z }.

#[export] Instance clusterState_eq_dec : EqDecision clusterState.
Proof. solve_decision. Defined.

Section Handler.
Context `{X : Ext}.

(** [New]: the selector is fixed, the map starts empty. *)
Record ClusterHandler := MkHandler {
  h_selector : option ClusterSelector;
  h_clusterStates : gmap ObjectReference clusterState }.

Definition New (selector : option ClusterSelector) : ClusterHandler := MkHandler selector ∅.

Definition stateOf (cluster : Cluster) : clusterState :=
  MkClusterState (cl_Annotations cluster) (cl_Labels cluster)
    (negb (IsZero (cl_DeletionTimestamp cluster))) (cl_Generation cluster).

(** [clusterStateChanged]; the result carries the updated handler. *)
Definition clusterStateChanged (c : ClusterHandler) (cluster : option Cluster)
    : ClusterHandler * bool :=
  match cluster with
  | None => (c, true)
  | Some cluster =>
      let ref := ReferenceFromObject cluster in
      match h_clusterStates c !! ref with
      | None => (c, true)
      | Some old =>
          let newState := stateOf cluster in
          if negb (bool_decide (old = newState))
          then (MkHandler (h_selector c) (<[ref := newState]> (h_clusterStates c)), true)
          else (c, false)
      end
  end.

Definition IsResponsibleFor (c : ClusterHandler) (cluster : option Cluster) : bool :=
  match cluster, h_selector c with
  | Some cluster, Some sel => sel cluster
  | _, _ => true
  end.

(** ** enqueueAllReplicasForCluster *)

Definition hasIgnoreAnnotation (rep : Replica) : bool :=
  HasAnnotationWithValue (rep_Annotations rep) OperationAnnotation OperationAnnotationValueIgnore.

(** The test on one status entry. *)
Definition copyCausesEnqueue (cluster : Cluster) (copy : CreatedResource) : bool :=
  let clusterMatch :=
    match cr_Cluster copy with
    | Some r => String.eqb (ref_Namespace r) (cl_Namespace cluster) &&
                String.eqb (ref_Name r) (cl_Name cluster)
    | None => false
    end in
  let nextToMatch :=
    match cr_Cluster copy with
    | None => String.eqb (cr_Namespace copy) (cl_Namespace cluster)
    | Some _ => false
    end in
  let isClusterScoped := String.eqb (cr_Namespace copy) "" in
  isClusterScoped && clusterMatch || nextToMatch.

(** The loop over the copies of one type; the flag is [enqueued]. *)
Fixpoint scanCopies (cluster : Cluster) (rep : Replica) (copies : list CreatedResource)
    (si : sharedInformation) : sharedInformation * bool :=
  match copies with
  | [] => (si, false)
  | copy :: rest =>
      if copyCausesEnqueue cluster copy then (EnqueueReplica rep si, true)
      else scanCopies cluster rep rest si
  end.

Fixpoint scanStatus (cluster : Cluster) (rep : Replica) (l : CreatedResourcesWithTypeList)
    (si : sharedInformation) : sharedInformation * bool :=
  match l with
  | [] => (si, false)
  | copyWithType :: rest =>
      let '(si', enqueued) := scanCopies cluster rep (crt_Resources copyWithType) si in
      if enqueued then (si', true) else scanStatus cluster rep rest si'
  end.

Definition targetSelectsCluster (cluster : Cluster) (targetDef : TargetDefinition) : bool :=
  match td_Cluster targetDef with
  | None => false
  | Some ctd => match ctd_Selector ctd with None => true | Some sel => sel cluster end
  end.

Fixpoint scanTargets (cluster : Cluster) (rep : Replica) (targets : list TargetDefinition)
    (si : sharedInformation) : sharedInformation :=
  match targets with
  | [] => si
  | targetDef :: rest =>
      if targetSelectsCluster cluster targetDef then EnqueueReplica rep si
      else scanTargets cluster rep rest si
  end.

Definition enqueueIfAssociated (cluster : Cluster) (rep : Replica) (si : sharedInformation)
    : sharedInformation :=
  let '(si', enqueued) := scanStatus cluster rep (rep_Replicas rep) si in
  if enqueued then si' else scanTargets cluster rep (spec_Targets (rep_Spec rep)) si'.

Definition enqueueAllReplicasForCluster
    (namespacedReplicas clusterReplicas : string + list Replica) (cluster : Cluster)
    (si : sharedInformation) : sharedInformation * option string :=
  match namespacedReplicas with
  | inl err => (si, Some (sprint ["failed to list Replica resources: "; err]))
  | inr namespacedReplicas =>
      match clusterReplicas with
      | inl err => (si, Some (sprint ["failed to list ClusterReplica resources: "; err]))
      | inr clusterReplicas =>
          let replicas :=
            List.filter (λ r, negb (hasIgnoreAnnotation r)) namespacedReplicas ++
            List.filter (λ r, negb (hasIgnoreAnnotation r)) clusterReplicas in
          (foldl (λ si rep, enqueueIfAssociated cluster rep si) si replicas, None)
      end
  end.

(** ** The handler methods *)

Definition HandleCreateOrUpdate (lr lcr : string + list Replica) (cluster : Cluster)
    (c : ClusterHandler) (si : sharedInformation)
    : ClusterHandler * sharedInformation * option string :=
  let '(c', changed) := clusterStateChanged c (Some cluster) in
  if changed then
    let '(si', err) := enqueueAllReplicasForCluster lr lcr cluster si in (c', si', err)
  else (c', si, None).

Definition HandleDelete (lr lcr : string + list Replica) (cluster : Cluster)
    (c : ClusterHandler) (si : sharedInformation)
    : ClusterHandler * sharedInformation * option string :=
  let '(si', err) := enqueueAllReplicasForCluster lr lcr cluster si in (c, si', err).

Definition AfterDeletion (req : NamespacedName) (c : ClusterHandler) : ClusterHandler :=
  MkHandler (h_selector c) (delete (MkRef (nn_Namespace req) (nn_Name req)) (h_clusterStates c)).

(** Handler states that occur. *)
Inductive handler_reachable (sel : option ClusterSelector) : ClusterHandler → Prop :=
| hr_new : handler_reachable sel (New sel)
| hr_createOrUpdate lr lcr cluster c si :
    handler_reachable sel c →
    handler_reachable sel (HandleCreateOrUpdate lr lcr cluster c si).1.1
| hr_delete lr lcr cluster c si :
    handler_reachable sel c →
    handler_reachable sel (HandleDelete lr lcr cluster c si).1.1
| hr_afterDeletion req c :
    handler_reachable sel c → handler_reachable sel (AfterDeletion req c).

(** ** Specification of the association *)

(** The copies that tie a (Cluster)Replica to a cluster: the cluster-scoped ones
    on the cluster itself, and those that live on the platform cluster in the
    namespace of the Cluster resource ("next to" it). *)
Definition tiesTo (cluster : Cluster) (copy : CreatedResource) : Prop :=
  cr_Cluster copy = Some (MkRef (cl_Namespace cluster) (cl_Name cluster)) ∧ cr_Namespace copy = "" ∨
  cr_Cluster copy = None ∧ cr_Namespace copy = cl_Namespace cluster.

(** A target definition with a cluster part that has no selector or one that
    accepts the cluster. *)
Definition selects (cluster : Cluster) (td : TargetDefinition) : Prop :=
  ∃ ctd, td_Cluster td = Some ctd ∧ ∀ sel, ctd_Selector ctd = Some sel → sel cluster = true.

Definition associated (cluster : Cluster) (rep : Replica) : Prop :=
  (∃ x copy, x ∈ rep_Replicas rep ∧ copy ∈ crt_Resources x ∧ tiesTo cluster copy) ∨
  (∃ td, td ∈ spec_Targets (rep_Spec rep) ∧ selects cluster td).

(** The operation annotation asks to leave the (Cluster)Replica alone. *)
Definition ignored (rep : Replica) : Prop :=
  rep_Annotations rep ≫= (.!! OperationAnnotation) = Some OperationAnnotationValueIgnore.

(** ** The code decides it *)

Definition causesEnqueue (cluster : Cluster) (rep : Replica) : bool :=
  existsb (λ x, existsb (copyCausesEnqueue cluster) (crt_Resources x)) (rep_Replicas rep) ||
  existsb (targetSelectsCluster cluster) (spec_Targets (rep_Spec rep)).

Lemma copyCausesEnqueue_spec cluster copy : copyCausesEnqueue cluster copy = true ↔ tiesTo cluster copy.
Proof.
  unfold copyCausesEnqueue, tiesTo. destruct (cr_Cluster copy) as [[ns n]|]; simpl;
    rewrite ?orb_false_r, ?andb_false_r, ?andb_true_iff, ?String.eqb_eq; simpl;
    rewrite ?String.eqb_eq; naive_solver.
Qed.

Lemma targetSelectsCluster_spec cluster td : targetSelectsCluster cluster td = true ↔ selects cluster td.
Proof.
  unfold targetSelectsCluster, selects. destruct (td_Cluster td) as [ctd|]; [|naive_solver].
  destruct (ctd_Selector ctd) as [sel|] eqn:Hs; split.
  - intros H. exists ctd. split; [done|]. congruence.
  - intros (ctd' & [= <-] & H). by apply H.
  - intros _. exists ctd. split; [done|]. congruence.
  - done.
Qed.

Lemma existsb_iff {A} (f : A → bool) (P : A → Prop) l :
  (∀ x, f x = true ↔ P x) → existsb f l = true ↔ ∃ x, x ∈ l ∧ P x.
Proof.
  intros Hf. rewrite existsb_true. apply exist_proper. intros x. by rewrite Hf.
Qed.

Lemma causesEnqueue_spec cluster rep : causesEnqueue cluster rep = true ↔ associated cluster rep.
Proof.
  unfold causesEnqueue, associated. rewrite orb_true_iff.
  rewrite (existsb_iff _ _ _ (targetSelectsCluster_spec cluster)).
  rewrite (existsb_iff _ (λ x, ∃ copy, copy ∈ crt_Resources x ∧ tiesTo cluster copy)).
  - split; (intros [H|?]; [left|by right]); naive_solver.
  - intros x. apply existsb_iff, copyCausesEnqueue_spec.
Qed.

#[export] Instance associated_dec cluster rep : Decision (associated cluster rep).
Proof.
  refine (cast_if (decide (causesEnqueue cluster rep = true))); by rewrite <- causesEnqueue_spec.
Defined.

#[export] Instance ignored_dec rep : Decision (ignored rep).
Proof. unfold ignored. apply _. Defined.

Lemma scanCopies_spec cluster rep copies si :
  scanCopies cluster rep copies si =
  if existsb (copyCausesEnqueue cluster) copies then (EnqueueReplica rep si, true) else (si, false).
Proof. induction copies as [|c copies IH]; simpl; [done|]. by destruct (copyCausesEnqueue _ _). Qed.

Lemma scanStatus_spec cluster rep l si :
  scanStatus cluster rep l si =
  if existsb (λ x, existsb (copyCausesEnqueue cluster) (crt_Resources x)) l
  then (EnqueueReplica rep si, true) else (si, false).
Proof.
  induction l as [|x l IH]; simpl; [done|].
  rewrite scanCopies_spec. by destruct (existsb _ (crt_Resources x)).
Qed.

Lemma scanTargets_spec cluster rep targets si :
  scanTargets cluster rep targets si =
  if existsb (targetSelectsCluster cluster) targets then EnqueueReplica rep si else si.
Proof. induction targets as [|t l IH]; simpl; [done|]. by destruct (targetSelectsCluster _ _). Qed.

Lemma enqueueIfAssociated_spec cluster rep si :
  enqueueIfAssociated cluster rep si = if causesEnqueue cluster rep then EnqueueReplica rep si else si.
Proof.
  unfold enqueueIfAssociated, causesEnqueue. rewrite scanStatus_spec.
  destruct (existsb _ (rep_Replicas rep)); simpl; [done|]. apply scanTargets_spec.
Qed.

(** The loop over the listed (Cluster)Replicas. *)
Lemma enqueue_foldl_filter {XL : ExtLaws X} cluster (l : list Replica) si :
  foldl (λ si rep, enqueueIfAssociated cluster rep si) si
    (List.filter (λ r, negb (hasIgnoreAnnotation r)) l) =
  foldl (λ si rep, EnqueueReplica rep si) si (filter (λ r, ¬ ignored r ∧ associated cluster r) l).
Proof.
  revert si. induction l as [|r l IH]; intros si; [done|]. simpl. unfold hasIgnoreAnnotation at 1.
  rewrite HasAnnotationWithValue_law, filter_cons. fold (ignored r).
  case_bool_decide as Hig; simpl; [rewrite decide_False by tauto; apply IH|].
  rewrite enqueueIfAssociated_spec. destruct (causesEnqueue cluster r) eqn:Hc.
  - apply causesEnqueue_spec in Hc. rewrite decide_True by done. apply IH.
  - rewrite decide_False; [apply IH|]. rewrite <- causesEnqueue_spec. intros [_ ?]. congruence.
Qed.

Lemma handler_states_empty sel c : handler_reachable sel c → h_clusterStates c = ∅.
Proof.
  induction 1 as [|lr lcr cluster c si _ IH|lr lcr cluster c si _ IH|req c _ IH].
  - done.
  - unfold HandleCreateOrUpdate, clusterStateChanged.
    rewrite IH, lookup_empty. by destruct (enqueueAllReplicasForCluster _ _ _ _).
  - unfold HandleDelete. by destruct (enqueueAllReplicasForCluster _ _ _ _).
  - simpl. by rewrite IH, delete_empty.
Qed.

(** C33: On a cluster event exactly the associated (Cluster)Replicas without
    the ignore annotation are enqueued, the namespaced ones first, each in list
    order and at most once per listing; when one of the two listings fails,
    nothing is enqueued and the error is returned.  Associated are those with a
    cluster-scoped copy on the cluster, with a copy next to the Cluster
    resource, or with a target definition that selects the cluster; namespaced
    copies on the cluster do not count. *)
Theorem enqueueAllReplicasForCluster_spec {XL : ExtLaws X} lr lcr cluster si :
  enqueueAllReplicasForCluster lr lcr cluster si =
  match lr, lcr with
  | inr nr, inr cr =>
      (foldl (λ si rep, EnqueueReplica rep si) si
         (filter (λ r, ¬ ignored r ∧ associated cluster r) (nr ++ cr)), None)
  | inl err, _ => (si, Some (sprint ["failed to list Replica resources: "; err]))
  | inr _, inl err => (si, Some (sprint ["failed to list ClusterReplica resources: "; err]))
  end.
Proof.
  unfold enqueueAllReplicasForCluster. destruct lr as [e|nr]; [done|]. destruct lcr as [e|cr]; [done|].
  by rewrite <- List.filter_app, enqueue_foldl_filter.
Qed.

(** [clusterStates] is never filled: an entry is only written when one is
    already there, so in every reachable state of the handler the map is empty
    and every [HandleCreateOrUpdate] re-enqueues, whether the cluster changed
    or not.  (The map is documented to avoid exactly these re-enqueues.) *)
Theorem cluster_dedup_never_happens sel c lr lcr cluster si :
  handler_reachable sel c →
  h_clusterStates c = ∅ ∧
  HandleCreateOrUpdate lr lcr cluster c si =
    let '(si', err) := enqueueAllReplicasForCluster lr lcr cluster si in (c, si', err).
Proof.
  intros Hc. pose proof (handler_states_empty sel c Hc) as Hempty. split; [done|].
  unfold HandleCreateOrUpdate, clusterStateChanged. by rewrite Hempty, lookup_empty.
Qed.

(** A namespaced copy on a cluster does not associate its (Cluster)Replica
    with that cluster: among the status entries that live on another cluster
    only the cluster-scoped ones cause an enqueue.  (The doc comment says: "the
    status has a copy entry for the cluster".) *)
Theorem namespaced_copy_not_associated cluster copy r :
  cr_Cluster copy = Some r → cr_Namespace copy ≠ "" → copyCausesEnqueue cluster copy = false.
Proof.
  intros Hc Hns. unfold copyCausesEnqueue. rewrite Hc.
  apply String.eqb_neq in Hns. by rewrite Hns.
Qed.

End Handler.
