(* ===== verification/Kube.v ===== *)
(** * The requests the controllers issue

    Every call of the controllers that leaves the process (the Kubernetes
    client, the multicluster provider, the template engine, the status updater
    of [controller-utils]) is a request of the effect signature [Req] with the
    response type [Resp].  Nothing is assumed of the responses: other actors
    may change the API server between any two requests, every call may fail,
    and the objects that come back are arbitrary.

    Calls that fill or update an object in place ([Get], [Patch],
    [CreateOrUpdate]) return the object's new contents. *)

From S2P Require Import Prelude GoLib ApiTypes External Effects.

(** A [cluster.Cluster] obtained from the provider: only its identity matters. *)
Record Access := MkAccess { access_id : string }.

#[export] Instance Access_eq_dec : EqDecision Access.
Proof. solve_decision. Defined.

(** Outcome of a [Get]: [apierrors.IsNotFound] tells the two failures apart. *)
Inductive GetResult (A : Type) :=
| Found (a : A)
| NotFound (err : string)
| Failed (err : string).
#[global] Arguments Found {A} a.
#[global] Arguments NotFound {A} err.
#[global] Arguments Failed {A} err.

(** Outcome of a [Delete]. *)
Inductive DeleteResult := Deleted | DeleteNotFound (err : string) | DeleteFailed (err : string).

(** [controllerutil.CreateOrUpdate(ctx, c, obj, f)] first reads the object and
    runs the callback [f] on the contents it obtained (those of the server, or
    those passed in when the object does not exist), then writes the result.
    [CouCallback seen] is the invocation of [f] with [obj] holding [seen]. *)
Inductive CouRead := CouError (err : string) | CouCallback (seen : Unstructured).

(** [ctrlutils.SmartRequeueAction] *)
Inductive SmartRequeueAction := SR_RESET | SR_BACKOFF | SR_NO_REQUEUE.

(** [ctrlutils.ReconcileResult[ReplicaEquivalent]]; the result's requeue
    interval is in nanoseconds. *)
Record ReconcileResult := MkRR {
  rr_Object : option Replica;
  rr_OldObject : option Replica;
  rr_Conditions : list Condition;
  rr_ConditionsToRemove : list string;
  rr_RequeueAfter : Z;
  rr_ReconcileError : option ReasonableError }.

Inductive Req : Type :=
(** [provider.Get] *)
| ProviderGet (clusterName : string)
(** client calls on typed objects *)
| GetReplica (acc : Access) (kind : ReplicaType) (nn : NamespacedName)
| ListReplicas (acc : Access)
| ListClusterReplicas (acc : Access)
| ListClusters (acc : Access)
| ListNamespaces (acc : Access)
| GetNamespace (acc : Access) (name : string)
| CreateNamespace (acc : Access) (name : string)
| DeleteOperationAnnotation (acc : Access) (rep : Replica)
| PatchReplica (acc : Access) (obj old : Replica)
| PatchReplicaStatus (acc : Access) (obj old : Replica)
(** client calls on unstructured objects *)
| GetObject (acc : Access) (gvk : GroupVersionKind) (namespace name : string)
| CouReadTarget (acc : Access) (target : Unstructured)
| CouWriteTarget (acc : Access) (target : Unstructured)
| PatchObject (acc : Access) (obj old : Unstructured)
| DeleteObject (acc : Access) (obj : Unstructured)
(** [tmpl.Execute]: the sprig functions include random and clock functions,
    and can write into the source manifests they are given *)
| TemplateExecute (text : string) (data : TemplateData)
(** the order in which [range] visits the keys of a Go map *)
| RangeOrder (keys : list ObjectReference)
(** [StatusUpdater.UpdateStatus] with its phase and requeue callbacks *)
| UpdateStatus (acc : Access) (rr : ReconcileResult)
    (phase : ReconcileResult → string) (requeue : ReconcileResult → SmartRequeueAction).

(** An error, or the new contents of the object. *)
Abbreviation Fallible A := (string + A)%type.

Definition Resp (e : Req) : Type :=
  match e with
  | ProviderGet _ => Fallible Access
  | GetReplica _ _ _ => GetResult Replica
  | ListReplicas _ => Fallible (list Replica)
  | ListClusterReplicas _ => Fallible (list Replica)
  | ListClusters _ => Fallible (list Cluster)
  | ListNamespaces _ => Fallible (list Namespace)
  | GetNamespace _ _ => GetResult Namespace
  | CreateNamespace _ _ => option string
  | DeleteOperationAnnotation _ _ => Replica * option string
  | PatchReplica _ _ _ => Replica * option string
  | PatchReplicaStatus _ _ _ => Replica * option string
  | GetObject _ _ _ _ => GetResult Unstructured
  | CouReadTarget _ _ => CouRead
  | CouWriteTarget _ _ => Fallible Unstructured
  | PatchObject _ _ _ => option string
  | DeleteObject _ _ => DeleteResult
  | TemplateExecute _ _ => Fallible string * gmap string Unstructured
  | RangeOrder _ => list ObjectReference
  | UpdateStatus _ _ _ _ => Replica * Z * option string
  end%type.

(** The call of [CreateOrUpdate]. *)
Definition isCreateOrUpdate (e : Req) : bool :=
  match e with CouReadTarget _ _ => true | _ => false end.

(** The event and program types of the controllers. *)
Abbreviation KEvent := (Event Resp).
Abbreviation KHistory := (list (Event Resp)).
Abbreviation KM S := (M Resp S).

(** [for k := range m]: the runtime picks some order of the keys.  The answer
    of the environment is used when it is a permutation of the keys. *)
Definition range_keys {S} {A} (m : gmap ObjectReference A) : KM S (list ObjectReference) :=
  let keys := (map_to_list m).*1 in
  bind (call (RangeOrder keys))
    (λ order, ret (if decide (order ≡ₚ keys) then order else keys)).

(** [for _, k := range order { body }] *)
Definition range_map {S A} (m : gmap ObjectReference A) (body : ObjectReference → A → KM S unit)
    : KM S unit :=
  bind (range_keys m)
    (λ order, for_each order
       (λ k, match m !! k with Some a => body k a | None => ret tt end)).

Lemma range_order_perm (m : list ObjectReference) (order : list ObjectReference) :
  (if decide (order ≡ₚ m) then order else m) ≡ₚ m.
Proof. by case_decide. Qed.

(** ** The rules for [range] over a map *)

Section RangeRules.
Context {S : Type} (P : KHistory → Req → Prop).

Lemma mwp_range_map {A} (m : gmap ObjectReference A) (body : ObjectReference → A → KM S unit) s tr
    (I : KHistory → S → Prop) (Safe : Prop) :
  (∀ k a tr' s', m !! k = Some a → I tr' s' →
     mwp P (body k a) s' tr' (λ tr'' s'' fl, I tr'' s'' ∧ (Safe → ∀ why, fl ≠ Panic why))) →
  P tr (RangeOrder (map_to_list m).*1) →
  (∀ order, I (tr ++ [Ev (RangeOrder (map_to_list m).*1) order]) s) →
  mwp P (range_map m body) s tr (λ tr' s' fl, I tr' s' ∧ (Safe → fl = Next tt) ∧ fl ≠ Stop).
Proof.
  intros Hbody HP HI. unfold range_map, range_keys.
  mwp_step. mwp_step. mwp_step; [done|]. mwp_step.
  apply (mwp_for_each P _ _ _ _ I Safe); [|apply HI].
  intros k tr' s' _ HI'. destruct (m !! k) as [a|] eqn:Hk; [by apply Hbody|].
  by mwp_step.
Qed.

(** The rule with the visited keys: they are a permutation of the map's keys. *)
Lemma mwp_range_map_visit {A} (m : gmap ObjectReference A) (body : ObjectReference → A → KM S unit)
    s tr (I : list ObjectReference → KHistory → S → Prop) :
  (∀ pre k a tr' s', k ∉ pre → m !! k = Some a → I pre tr' s' →
     mwp P (body k a) s' tr' (λ tr'' s'' fl, I (pre ++ [k]) tr'' s'' ∧ ∀ why, fl ≠ Panic why)) →
  P tr (RangeOrder (map_to_list m).*1) →
  (∀ ev, I [] (tr ++ [ev]) s) →
  mwp P (range_map m body) s tr (λ tr' s' fl,
    fl = Next tt ∧ ∃ order, order ≡ₚ (map_to_list m).*1 ∧ I order tr' s').
Proof.
  intros Hbody HP HI. unfold range_map, range_keys.
  mwp_step. mwp_step. mwp_step; [done|]. mwp_step.
  set (order := if decide _ then _ else _).
  assert (order ≡ₚ (map_to_list m).*1) as Hperm by apply range_order_perm.
  eapply mwp_mono; [|apply (mwp_for_each_prefix P order _ s _ I); [|apply HI]].
  - intros tr' s' fl [HI' ->]. split; [done|]. by exists order.
  - intros pre k post tr' s' Heq HI'.
    assert (NoDup order) as Hnd by (rewrite Hperm; apply NoDup_fst_map_to_list).
    assert (k ∉ pre) as Hk.
    { rewrite Heq in Hnd. apply NoDup_app in Hnd as (_ & Hd & _). intros Hin.
      apply (Hd k Hin). by left. }
    assert (k ∈ (map_to_list m).*1) as Hin.
    { rewrite <- Hperm, Heq. apply elem_of_app. right. by left. }
    apply list_elem_of_fmap in Hin as ([k' a] & -> & Ha%elem_of_map_to_list). simpl.
    rewrite Ha. by apply Hbody.
Qed.

Lemma range_order_complete {A} (m : gmap ObjectReference A) order k a :
  order ≡ₚ (map_to_list m).*1 → m !! k = Some a → k ∈ order.
Proof.
  intros -> Hk. apply list_elem_of_fmap. exists (k, a). split; [done|].
  by apply elem_of_map_to_list.
Qed.

Lemma mwp_range_map_safe {A} (m : gmap ObjectReference A) (body : ObjectReference → A → KM S unit)
    s tr (I : KHistory → S → Prop) :
  (∀ k a tr' s', m !! k = Some a → tr `prefix_of` tr' → I tr' s' →
     mwp P (body k a) s' tr' (λ tr'' s'' _, I tr'' s'')) →
  P tr (RangeOrder (map_to_list m).*1) →
  (∀ ev, I (tr ++ [ev]) s) →
  mwp P (range_map m body) s tr (λ tr' s' fl, I tr' s' ∧ tr `prefix_of` tr' ∧ fl ≠ Stop).
Proof.
  intros Hbody HP HI.
  eapply mwp_mono; [|apply (mwp_range_map m body s tr
                             (λ tr' s', I tr' s' ∧ tr `prefix_of` tr') False)].
  - intros tr' s' fl. cbn. tauto.
  - intros k a tr' s' Hk [HI' Hpre].
    eapply mwp_mono; [|apply mwp_prefix, Hbody; done].
    intros tr'' s'' fl [? ?]. split; [|done]. split; [done|]. by etrans.
  - done.
  - intros order. split; [apply HI|]. by apply prefix_app_r.
Qed.

End RangeRules.
