(* ===== verification/NamespaceController.v ===== *)
(** * The namespace controller

    [internal/namespace/controller.go]: on a namespace event, enqueue the
    (Cluster)Replicas that target the namespace or have a copy in it.

    The program's state is the shared information; its result is the error of
    [Reconcile]. *)

From S2P Require Import Prelude GoLib ApiTypes External NamespaceSelection Effects.
From S2P Require Import Kube Shared ClusterHandler.

Section Controller.
Context `{X : Ext}.
Local Open Scope prog_scope.

(** One status entry against the namespace event. *)
Definition copyInNamespace (ns : Namespace) (clusterName : string) (copy : CreatedResource) : bool :=
  if negb (String.eqb (cr_Namespace copy) (ns_Name ns)) then false
  else
    match cr_Cluster copy with
    | None => String.eqb clusterName HostingPlatformCluster
    | Some r => String.eqb (ClusterName (ref_Namespace r) (ref_Name r)) clusterName
    end.

Fixpoint scanNamespaceTargets (ns : Namespace) (targets : list TargetDefinition) : bool :=
  match targets with
  | [] => false
  | targetDef :: rest =>
      match td_Namespace targetDef with
      | None => scanNamespaceTargets ns rest
      | Some ntd =>
          match ntd_Selector ntd with
          | None => scanNamespaceTargets ns rest
          | Some sel =>
              match Matches (Some sel) ns with
              | inl err => scanNamespaceTargets ns rest
              | inr matches => if matches then true else scanNamespaceTargets ns rest
              end
          end
      end
  end.

Definition replicaIsRelevantForNamespaceEvent (rep : Replica) (ns : Namespace)
    (clusterName : string) : bool :=
  if scanNamespaceTargets ns (spec_Targets (rep_Spec rep)) then true
  else existsb (λ x, existsb (copyInNamespace ns clusterName) (crt_Resources x)) (rep_Replicas rep).

Definition enqueueMatchingReplicas (ns : Namespace) (clusterName : string) (platform : Access)
    : KM sharedInformation (option string) :=
  let! namespacedReplicas := call (ListReplicas platform) in
  match namespacedReplicas with
  | inl err => ret (Some (sprint ["failed to list Replica resources: "; err]))
  | inr namespacedReplicas =>
      let! clusterReplicas := call (ListClusterReplicas platform) in
      match clusterReplicas with
      | inl err => ret (Some (sprint ["failed to list ClusterReplica resources: "; err]))
      | inr clusterReplicas =>
          let replicas :=
            List.filter (λ r, negb (hasIgnoreAnnotation r)) namespacedReplicas ++
            List.filter (λ r, negb (hasIgnoreAnnotation r)) clusterReplicas in
          for_each replicas (λ rep,
            if replicaIsRelevantForNamespaceEvent rep ns clusterName
            then modify (EnqueueReplica rep)
            else ret tt) ;;;
          ret None
      end
  end.

Definition reconcile (reqCluster reqName : string) : KM sharedInformation (option string) :=
  let! clusterAccess := call (ProviderGet reqCluster) in
  match clusterAccess with
  | inl err => ret (Some (sprint ["unable to get access to cluster '"; reqCluster; "': "; err]))
  | inr clusterAccess =>
      let! r := call (GetNamespace clusterAccess reqName) in
      match r with
      | NotFound _ => ret None
      | Failed err => ret (Some (sprint ["unable to get Namespace '"; reqName; "': "; err]))
      | Found ns =>
          let! platformCluster := call (ProviderGet HostingPlatformCluster) in
          match platformCluster with
          | inl err => ret (Some (sprint ["unable to get access to platform cluster: "; err]))
          | inr platformCluster => enqueueMatchingReplicas ns reqCluster platformCluster
          end
      end
  end.

(** ** Specification *)

(** The namespace selector of a target definition, if it has one. *)
Definition targetSelector (td : TargetDefinition) : option NamespaceSelector :=
  td_Namespace td ≫= ntd_Selector.

(** The documented relevance: some selector matches the namespace (selectors
    that cannot be evaluated do not count), or a copy lives in it. *)
Definition relevant (rep : Replica) (ns : Namespace) (clusterName : string) : Prop :=
  (∃ td sel, td ∈ spec_Targets (rep_Spec rep) ∧ targetSelector td = Some sel ∧
             Matches (Some sel) ns = inr true) ∨
  (∃ x copy, x ∈ rep_Replicas rep ∧ copy ∈ crt_Resources x ∧
             cr_Namespace copy = ns_Name ns ∧
             match cr_Cluster copy with
             | None => clusterName = HostingPlatformCluster
             | Some r => clusterName = ClusterName (ref_Namespace r) (ref_Name r)
             end).

Lemma scanNamespaceTargets_spec ns targets :
  scanNamespaceTargets ns targets = true ↔
  ∃ td sel, td ∈ targets ∧ targetSelector td = Some sel ∧ Matches (Some sel) ns = inr true.
Proof.
  induction targets as [|td targets IH]; simpl; [set_solver|].
  setoid_rewrite elem_of_cons.
  destruct (targetSelector td) as [sel|] eqn:Hsel; unfold targetSelector in Hsel.
  - destruct (td_Namespace td) as [[[sel'|]]|] eqn:Htd; simpl in Hsel; simplify_eq. simpl.
    destruct (Matches (Some sel) ns) as [err|[|]] eqn:Hm.
    + rewrite IH. split; [naive_solver|].
      intros (td' & sel' & [->|?] & Hs & ?); [|eauto].
      unfold targetSelector in Hs. rewrite Htd in Hs. simpl in Hs. congruence.
    + split; [|done]. intros _. exists td, sel. unfold targetSelector. rewrite Htd. auto.
    + rewrite IH. split; [naive_solver|].
      intros (td' & sel' & [->|?] & Hs & ?); [|eauto].
      unfold targetSelector in Hs. rewrite Htd in Hs. simpl in Hs. congruence.
  - destruct (td_Namespace td) as [[[sel'|]]|] eqn:Htd; simpl in Hsel; simplify_eq; simpl;
      rewrite IH; (split; [naive_solver|]);
      (intros (td' & sel' & [->|?] & Hs & ?); [|eauto]);
      unfold targetSelector in Hs; by rewrite Htd in Hs.
Qed.

Lemma copyInNamespace_spec ns clusterName copy :
  copyInNamespace ns clusterName copy = true ↔
  cr_Namespace copy = ns_Name ns ∧
  match cr_Cluster copy with
  | None => clusterName = HostingPlatformCluster
  | Some r => clusterName = ClusterName (ref_Namespace r) (ref_Name r)
  end.
Proof.
  unfold copyInNamespace. destruct (String.eqb_spec (cr_Namespace copy) (ns_Name ns)); simpl.
  - destruct (cr_Cluster copy); rewrite String.eqb_eq; naive_solver.
  - naive_solver.
Qed.

(** C31: [replicaIsRelevantForNamespaceEvent] decides the documented relevance:
    some target definition's namespace selector matches the namespace, whatever
    clusters this target definition selects, or some status entry lives in that
    namespace on that cluster (the hosting cluster for entries without a
    cluster). *)
Theorem relevance_decided rep ns clusterName :
  replicaIsRelevantForNamespaceEvent rep ns clusterName = true ↔ relevant rep ns clusterName.
Proof.
  unfold replicaIsRelevantForNamespaceEvent, relevant. rewrite <- scanNamespaceTargets_spec.
  destruct (scanNamespaceTargets _ _); [naive_solver|].
  rewrite existsb_true. split.
  - intros (x & Hx & (copy & Hc & Hs)%existsb_true). right.
    apply copyInNamespace_spec in Hs as [? ?]. by exists x, copy.
  - intros [?|(x & copy & Hx & Hc & ? & ?)]; [done|]. exists x. split; [done|].
    apply existsb_true. exists copy. split; [done|]. by apply copyInNamespace_spec.
Qed.

(** The shared state after a reconcile whose requests were all answered. *)
Definition enqueued (ns : Namespace) (clusterName : string) (lr lcr : list Replica)
    (si : sharedInformation) : sharedInformation :=
  foldl (λ si rep, EnqueueReplica rep si) si
    (List.filter (λ r, negb (hasIgnoreAnnotation r) &&
                       replicaIsRelevantForNamespaceEvent r ns clusterName) (lr ++ lcr)).

(** What the history of a reconcile says about its outcome. *)
Inductive ns_outcome (reqCluster reqName : string) (si : sharedInformation)
    : KHistory → sharedInformation → option string → Prop :=
| out_no_access err :
    ns_outcome reqCluster reqName si [@Ev _ Resp (ProviderGet reqCluster) (inl err)] si
      (Some (sprint ["unable to get access to cluster '"; reqCluster; "': "; err]))
| out_gone acc err :
    ns_outcome reqCluster reqName si
      [@Ev _ Resp (ProviderGet reqCluster) (inr acc);
       @Ev _ Resp (GetNamespace acc reqName) (NotFound err)] si None
| out_get_failed acc err :
    ns_outcome reqCluster reqName si
      [@Ev _ Resp (ProviderGet reqCluster) (inr acc);
       @Ev _ Resp (GetNamespace acc reqName) (Failed err)] si
      (Some (sprint ["unable to get Namespace '"; reqName; "': "; err]))
| out_no_platform acc ns err :
    ns_outcome reqCluster reqName si
      [@Ev _ Resp (ProviderGet reqCluster) (inr acc);
       @Ev _ Resp (GetNamespace acc reqName) (Found ns);
       @Ev _ Resp (ProviderGet HostingPlatformCluster) (inl err)] si
      (Some (sprint ["unable to get access to platform cluster: "; err]))
| out_list_failed acc ns pacc err :
    ns_outcome reqCluster reqName si
      [@Ev _ Resp (ProviderGet reqCluster) (inr acc);
       @Ev _ Resp (GetNamespace acc reqName) (Found ns);
       @Ev _ Resp (ProviderGet HostingPlatformCluster) (inr pacc);
       @Ev _ Resp (ListReplicas pacc) (inl err)] si
      (Some (sprint ["failed to list Replica resources: "; err]))
| out_list2_failed acc ns pacc lr err :
    ns_outcome reqCluster reqName si
      [@Ev _ Resp (ProviderGet reqCluster) (inr acc);
       @Ev _ Resp (GetNamespace acc reqName) (Found ns);
       @Ev _ Resp (ProviderGet HostingPlatformCluster) (inr pacc);
       @Ev _ Resp (ListReplicas pacc) (inr lr);
       @Ev _ Resp (ListClusterReplicas pacc) (inl err)] si
      (Some (sprint ["failed to list ClusterReplica resources: "; err]))
| out_done acc ns pacc lr lcr :
    ns_outcome reqCluster reqName si
      [@Ev _ Resp (ProviderGet reqCluster) (inr acc);
       @Ev _ Resp (GetNamespace acc reqName) (Found ns);
       @Ev _ Resp (ProviderGet HostingPlatformCluster) (inr pacc);
       @Ev _ Resp (ListReplicas pacc) (inr lr);
       @Ev _ Resp (ListClusterReplicas pacc) (inr lcr)]
      (enqueued ns reqCluster lr lcr si) None.

Lemma enqueue_loop_spec ns clusterName (l : list Replica) si (tr : KHistory) :
  mwp (λ _ (_ : Req), True)
    (for_each l (λ rep,
       if replicaIsRelevantForNamespaceEvent rep ns clusterName
       then modify (EnqueueReplica rep) else ret tt)) si tr
    (λ tr' si' fl, (tr' = tr ∧
       si' = foldl (λ si rep, EnqueueReplica rep si) si
               (List.filter (λ r, replicaIsRelevantForNamespaceEvent r ns clusterName) l)) ∧
       fl = Next tt).
Proof.
  apply (mwp_for_each_prefix _ l _ si tr (λ (pre : list Replica) tr' si', tr' = tr ∧
    si' = foldl (λ si rep, EnqueueReplica rep si) si
            (List.filter (λ r, replicaIsRelevantForNamespaceEvent r ns clusterName) pre))); [|done].
  intros pre x post tr' si' _ [-> ->].
  rewrite List.filter_app, foldl_app. simpl.
  destruct (replicaIsRelevantForNamespaceEvent x ns clusterName); mwp_step; done.
Qed.

(** C32: The outcome of a namespace reconcile is determined by the responses it
    got, on every path: a missing namespace is not an error and enqueues
    nothing, every failed call is reported and enqueues nothing, and when all
    calls succeed exactly the relevant (Cluster)Replicas without the ignore
    annotation are enqueued, in list order. *)
Theorem reconcile_outcome reqCluster reqName si :
  always (reconcile reqCluster reqName si) (λ tr '(si', fl),
    ∃ err, fl = Next err ∧ ns_outcome reqCluster reqName si tr si' err).
Proof.
  change (mwp (λ _ _, True) (reconcile reqCluster reqName) si [] (λ tr si' fl,
    ∃ err, fl = Next err ∧ ns_outcome reqCluster reqName si tr si' err)).
  unfold reconcile, enqueueMatchingReplicas.
  repeat (mwp_step; try done);
    try (eexists; split; [done|constructor]).
  eapply mwp_mono; [|apply enqueue_loop_spec].
  intros tr' si' fl [[-> ->] ->]. mwp_step. eexists. split; [done|].
  rewrite <- List.filter_app.
  rewrite filter_filter. apply out_done.
Qed.

End Controller.
