(* ===== verification/ReplicaState.v ===== *)
(** * The working state of a replica reconcile

    [internal/replica/controller.go] threads a [ReconcileResult] and several
    local variables through its functions.  [rstate] collects them while the
    (Cluster)Replica object is present: the fields of [rr], the [errs] list of
    the running function, and the maps of [handleCreateOrUpdate] and
    [deleteObsoleteResources]. *)

From S2P Require Import Prelude GoLib ApiTypes External Effects Kube.

Definition HostingPlatformClusterNameForLogging : string := "<hosting-platform-cluster>".

Record rstate := MkRS {
  (** [rr] *)
  s_Object : Replica;
  s_OldObject : Replica;
  s_Conditions : list Condition;
  s_ConditionsToRemove : list string;
  s_RequeueAfter : Z;
  s_ReconcileError : option ReasonableError;
  (** locals; [s_managed = None] is the nil map *)
  s_errs : list (option ReasonableError);
  s_sources : gmap string Unstructured;
  s_managed : option (gmap ObjectReference (list Unstructured));
  s_conflicts : gmap ObjectReference (gmap TypedObjectReference string);
  s_templatingErrorSet : bool;
  s_toDelete : gmap ObjectReference (list TypedObjectReference) }.

(** [rr.Object = rep; rr.OldObject = rep.DeepCopy(); rr.Conditions = []] *)
Definition rstate_init (rep : Replica) : rstate :=
  MkRS rep rep [] [] 0 None [] ∅ None ∅ false ∅.

Section Setters.
Variable s : rstate.

Definition set_Object (o : Replica) : rstate :=
  MkRS o (s_OldObject s) (s_Conditions s) (s_ConditionsToRemove s) (s_RequeueAfter s)
    (s_ReconcileError s) (s_errs s) (s_sources s) (s_managed s) (s_conflicts s)
    (s_templatingErrorSet s) (s_toDelete s).
Definition set_OldObject (o : Replica) : rstate :=
  MkRS (s_Object s) o (s_Conditions s) (s_ConditionsToRemove s) (s_RequeueAfter s)
    (s_ReconcileError s) (s_errs s) (s_sources s) (s_managed s) (s_conflicts s)
    (s_templatingErrorSet s) (s_toDelete s).
Definition set_Conditions (c : list Condition) : rstate :=
  MkRS (s_Object s) (s_OldObject s) c (s_ConditionsToRemove s) (s_RequeueAfter s)
    (s_ReconcileError s) (s_errs s) (s_sources s) (s_managed s) (s_conflicts s)
    (s_templatingErrorSet s) (s_toDelete s).
Definition set_ConditionsToRemove (c : list string) : rstate :=
  MkRS (s_Object s) (s_OldObject s) (s_Conditions s) c (s_RequeueAfter s)
    (s_ReconcileError s) (s_errs s) (s_sources s) (s_managed s) (s_conflicts s)
    (s_templatingErrorSet s) (s_toDelete s).
Definition set_RequeueAfter (z : Z) : rstate :=
  MkRS (s_Object s) (s_OldObject s) (s_Conditions s) (s_ConditionsToRemove s) z
    (s_ReconcileError s) (s_errs s) (s_sources s) (s_managed s) (s_conflicts s)
    (s_templatingErrorSet s) (s_toDelete s).
Definition set_ReconcileError (e : option ReasonableError) : rstate :=
  MkRS (s_Object s) (s_OldObject s) (s_Conditions s) (s_ConditionsToRemove s) (s_RequeueAfter s)
    e (s_errs s) (s_sources s) (s_managed s) (s_conflicts s)
    (s_templatingErrorSet s) (s_toDelete s).
Definition set_errs (e : list (option ReasonableError)) : rstate :=
  MkRS (s_Object s) (s_OldObject s) (s_Conditions s) (s_ConditionsToRemove s) (s_RequeueAfter s)
    (s_ReconcileError s) e (s_sources s) (s_managed s) (s_conflicts s)
    (s_templatingErrorSet s) (s_toDelete s).
Definition set_sources (m : gmap string Unstructured) : rstate :=
  MkRS (s_Object s) (s_OldObject s) (s_Conditions s) (s_ConditionsToRemove s) (s_RequeueAfter s)
    (s_ReconcileError s) (s_errs s) m (s_managed s) (s_conflicts s)
    (s_templatingErrorSet s) (s_toDelete s).
Definition set_managed (m : option (gmap ObjectReference (list Unstructured))) : rstate :=
  MkRS (s_Object s) (s_OldObject s) (s_Conditions s) (s_ConditionsToRemove s) (s_RequeueAfter s)
    (s_ReconcileError s) (s_errs s) (s_sources s) m (s_conflicts s)
    (s_templatingErrorSet s) (s_toDelete s).
Definition set_conflicts (m : gmap ObjectReference (gmap TypedObjectReference string)) : rstate :=
  MkRS (s_Object s) (s_OldObject s) (s_Conditions s) (s_ConditionsToRemove s) (s_RequeueAfter s)
    (s_ReconcileError s) (s_errs s) (s_sources s) (s_managed s) m
    (s_templatingErrorSet s) (s_toDelete s).
Definition set_templatingErrorSet (b : bool) : rstate :=
  MkRS (s_Object s) (s_OldObject s) (s_Conditions s) (s_ConditionsToRemove s) (s_RequeueAfter s)
    (s_ReconcileError s) (s_errs s) (s_sources s) (s_managed s) (s_conflicts s)
    b (s_toDelete s).
Definition set_toDelete (m : gmap ObjectReference (list TypedObjectReference)) : rstate :=
  MkRS (s_Object s) (s_OldObject s) (s_Conditions s) (s_ConditionsToRemove s) (s_RequeueAfter s)
    (s_ReconcileError s) (s_errs s) (s_sources s) (s_managed s) (s_conflicts s)
    (s_templatingErrorSet s) m.
End Setters.

(** ** The records of the conflict detection *)

(** The manifest an earlier target rendered for the same cluster and identity. *)
Definition recordedFor (s : rstate) (ref : ObjectReference) (k : TypedObjectReference) : option string :=
  s_conflicts s !! ref ≫= (.!! k).

Definition extends (s s' : rstate) : Prop :=
  ∀ ref k raw, recordedFor s ref k = Some raw → recordedFor s' ref k = Some raw.

Lemma recordedFor_insert (c : gmap ObjectReference (gmap TypedObjectReference string)) ref k raw ref' k' :
  <[ref := <[k := raw]> (default ∅ (c !! ref))]> c !! ref' ≫= (.!! k') =
  if decide (ref' = ref ∧ k' = k) then Some raw else c !! ref' ≫= (.!! k').
Proof.
  destruct (decide (ref' = ref)) as [->|Hr].
  - rewrite lookup_insert_eq. simpl. destruct (decide (k' = k)) as [->|Hk].
    + by rewrite lookup_insert_eq, decide_True.
    + rewrite lookup_insert_ne, decide_False by naive_solver. by destruct (c !! ref).
  - by rewrite lookup_insert_ne, decide_False by naive_solver.
Qed.

(** The [ReconcileResult] a function returns while the object is present. *)
Definition to_rr (s : rstate) : ReconcileResult :=
  MkRR (Some (s_Object s)) (Some (s_OldObject s)) (s_Conditions s) (s_ConditionsToRemove s)
    (s_RequeueAfter s) (s_ReconcileError s).

(** The result once [rr.Object] and [rr.OldObject] have been unset. *)
Definition to_rr_gone (s : rstate) : ReconcileResult :=
  MkRR None None (s_Conditions s) (s_ConditionsToRemove s) (s_RequeueAfter s) (s_ReconcileError s).

(** ** The recurring steps of the controller *)

Section Steps.
Context `{X : Ext}.
Local Open Scope prog_scope.

(** [logClusterName] *)
Definition logNameOf (clusterName : string) : string :=
  if String.eqb clusterName HostingPlatformCluster
  then HostingPlatformClusterNameForLogging else clusterName.

(** [createCon(type, status, reason, message)] *)
Definition createCon (t : string) (st : ConditionStatus) (reason message : string) : KM rstate unit :=
  modify (λ s, set_Conditions s (GenerateCreateCondition (s_Conditions s) t st reason message)).

(** [errs.Append(err)] *)
Definition errsAppend (e : option ReasonableError) : KM rstate unit :=
  modify (λ s, set_errs s (s_errs s ++ [e])).

(** [errs.Append(rerr); createCon(con, False, rerr.Reason(), rerr.Error()); continue] *)
Definition failWith {A} (con : string) (rerr : ReasonableError) : KM rstate A :=
  errsAppend (Some rerr) ;;;
  createCon con ConditionFalse (re_Reason rerr) (re_Error rerr) ;;;
  stop.

(** [rr.ReconcileError = rerr; createCon(con, False, ...); return rr, nil] *)
Definition returnWith {A} (con : string) (rerr : ReasonableError) : KM rstate A :=
  modify (λ s, set_ReconcileError s (Some rerr)) ;;;
  createCon con ConditionFalse (re_Reason rerr) (re_Error rerr) ;;;
  stop.

(** ** Their rules *)

Section Rules.
Context (P : KHistory → Req → Prop).
Implicit Types (s : rstate) (tr : KHistory).

(** The state after a condition, and after a reported error. *)
Definition withCondition (t : string) (st : ConditionStatus) (reason message : string)
    (s : rstate) : rstate :=
  set_Conditions s (GenerateCreateCondition (s_Conditions s) t st reason message).

Definition withError (con : string) (rerr : ReasonableError) (s : rstate) : rstate :=
  withCondition con ConditionFalse (re_Reason rerr) (re_Error rerr)
    (set_errs s (s_errs s ++ [Some rerr])).

Lemma mwp_createCon t st reason message s tr Q :
  Q tr (withCondition t st reason message s) (Next tt) →
  mwp P (createCon t st reason message) s tr Q.
Proof. intros H. unfold createCon. by mwp_step. Qed.

Lemma mwp_errsAppend e s tr Q :
  Q tr (set_errs s (s_errs s ++ [e])) (Next tt) → mwp P (errsAppend e) s tr Q.
Proof. intros H. unfold errsAppend. by mwp_step. Qed.

Lemma mwp_failWith {A} con rerr s tr (Q : _ → _ → Flow A → Prop) :
  Q tr (withError con rerr s) Stop → mwp P (failWith con rerr) s tr Q.
Proof.
  intros H. unfold failWith. mwp_step. apply mwp_errsAppend. mwp_step.
  apply mwp_createCon. by mwp_step.
Qed.

Lemma mwp_returnWith {A} con rerr s tr (Q : _ → _ → Flow A → Prop) :
  Q tr (withCondition con ConditionFalse (re_Reason rerr) (re_Error rerr)
          (set_ReconcileError s (Some rerr))) Stop →
  mwp P (returnWith con rerr) s tr Q.
Proof.
  intros H. unfold returnWith. mwp_step. mwp_step. mwp_step.
  apply mwp_createCon. by mwp_step.
Qed.

End Rules.

End Steps.

(** A step of the calculus that knows the recurring steps of the controller. *)
Ltac rstep :=
  lazymatch goal with
  | |- mwp _ (createCon _ _ _ _) _ _ _ => apply mwp_createCon
  | |- mwp _ (errsAppend _) _ _ _ => apply mwp_errsAppend
  | |- mwp _ (failWith _ _) _ _ _ => apply mwp_failWith
  | |- mwp _ (returnWith _ _) _ _ _ => apply mwp_returnWith
  | _ => mwp_step
  end; cbv beta iota.
