(* ===== verification/ReplicaTarget.v ===== *)
(** * One target resource of a replica reconcile

    The body of the innermost loop of [handleCreateOrUpdate]
    ([internal/replica/controller.go]), which handles one target namespace of
    one target cluster: render the manifest, detect conflicts with earlier
    targets, check what already exists, ensure the namespace, record the
    resource in the status, create or update it. *)

From S2P Require Import Prelude GoLib ApiTypes External Effects Kube.
From S2P Require Import StatusList ConditionNames ReplicaState.

(** What the enclosing loops have determined. *)
Record targetEnv := MkTarget {
  t_def : TargetDefinition;
  t_cluster : option Cluster;
  t_clusterRef : ObjectReference;
  t_logClusterName : string;
  t_isNextTo : bool;
  t_access : Access }.

(** ** The callback of [CreateOrUpdate] *)

(** Top-level keys the callback leaves alone. *)
Definition skippedKey (k : string) : bool :=
  String.eqb k "metadata" || String.eqb k "status" ||
  String.eqb k "apiVersion" || String.eqb k "kind".

(** First loop: copy the fields of [rendered]; second loop: delete the fields
    of [target] that [rendered] does not have. *)
Definition syncFields (target rendered : gmap string Json) : gmap string Json :=
  let copied := filter (λ '(k, _), skippedKey k = false) rendered ∪ target in
  filter (λ '(k, _), skippedKey k = true ∨ is_Some (rendered !! k)) copied.

(** The labels both objects end up with; [None] stands for the panic of an
    assignment to a nil map. *)
Definition syncLabels (target rendered : StringMap) : option StringMap :=
  if map_has target ReplicaDeletionPolicyLabel && negb (map_has rendered ReplicaDeletionPolicyLabel)
  then
    match rendered with
    | None => None
    | Some m => Some (Some (<[ReplicaDeletionPolicyLabel := map_get target ReplicaDeletionPolicyLabel]> m))
    end
  else Some rendered.

(** The callback on the contents [target]: the new contents of [target]. *)
Definition mutateTarget (rendered target : Unstructured) : option Unstructured :=
  match syncLabels (u_Labels target) (u_Labels rendered) with
  | None => None
  | Some labels =>
      Some (u_set_Annotations (u_Annotations rendered)
             (u_set_Labels labels
               (u_set_Fields (syncFields (u_Fields target) (u_Fields rendered)) target)))
  end.

Section Target.
Context `{X : Ext}.
Local Open Scope prog_scope.

(** The field [providerName] of the controller, the access to the platform
    cluster, and the text of the parsed template ([None] without template). *)
Variables (providerName : string) (platformCluster : Access) (tmpl : option string).

Definition gvkString (u : Unstructured) : string := GVKString (u_GVK u).
Definition keyString (u : Unstructured) : string := ObjectKeyString (u_Namespace u) (u_Name u).
Definition nameOf (u : Unstructured) : string := namespacedName (u_Namespace u) (u_Name u).

Definition targetCon (t : targetEnv) (rendered : Unstructured) : string :=
  TargetCondition (t_clusterRef t) (TypedReferenceFromObject rendered).

(** ** Rendering *)

Definition setTargetNamespace (targetNamespace : string) (u : Unstructured) : Unstructured :=
  if String.eqb targetNamespace "" then u else u_set_Namespace targetNamespace u.

(** No template: exact copy of the single source. *)
Definition exactCopy (targetNamespace : string) (src : Unstructured) : Unstructured :=
  let rendered := u_clear_server_fields src in
  setTargetNamespace targetNamespace
    (u_set_Fields (delete "status" (u_Fields rendered)) rendered).

Definition renderExactCopy (t : targetEnv) (targetNamespace : string)
    : KM rstate (Unstructured * string) :=
  let! s := get in
  match spec_Sources (rep_Spec (s_Object s)) with
  | [] => panic "index out of range"
  | src0 :: _ =>
      match s_sources s !! src_ID src0 with
      | None => panic "nil pointer dereference"
      | Some src =>
          let rendered := exactCopy targetNamespace src in
          match YamlMarshal rendered with
          | inl err =>
              failWith (targetCon t rendered)
                (reasoned ReasonInternalError
                   ["unable to marshal source resource '"; nameOf src; "' (id: "; src_ID src0;
                    ") to yaml: "; err])
          | inr raw => ret (rendered, raw)
          end
      end
  end.

(** An error of the template: only the first one gets a condition. *)
Definition failTemplating {A} (rerr : ReasonableError) : KM rstate A :=
  errsAppend (Some rerr) ;;;
  let! s := get in
  (if s_templatingErrorSet s then ret tt
   else
     createCon ConditionTypeTemplatingError ConditionTrue (re_Reason rerr) (re_Error rerr) ;;;
     modify (λ s, set_templatingErrorSet s true)) ;;;
  stop.

Definition templateData (t : targetEnv) (targetNamespace : string) (s : rstate) : TemplateData :=
  MkTmplData (s_sources s)
    (match t_cluster t with
     | Some c => Some (cl_Name c, cl_Namespace c, cl_Purposes c)
     | None => None
     end)
    (if String.eqb targetNamespace "" then None else Some targetNamespace)
    (rep_Name (s_Object s)) (rep_Namespace (s_Object s))
    (rep_Labels (s_Object s)) (rep_Annotations (s_Object s)).

Definition renderTemplate (rawTemplate : string) (t : targetEnv) (targetNamespace : string)
    : KM rstate (Unstructured * string) :=
  let! s := get in
  let tmplData := templateData t targetNamespace s in
  let! r := call (TemplateExecute rawTemplate tmplData) in
  (* the manifests were handed out by reference *)
  modify (λ s, set_sources s r.2) ;;;
  match r.1 with
  | inl err =>
      failTemplating (reasoned ReasonConfigurationProblem
        ["unable to execute template: "; wrapTemplateError err rawTemplate (Some tmplData) ""])
  | inr renderedRaw =>
      match YamlUnmarshal renderedRaw with
      | inl err =>
          failTemplating (reasoned ReasonConfigurationProblem
            ["unable to unmarshal rendered template: ";
             wrapTemplateError err rawTemplate (Some tmplData) renderedRaw])
      | inr rendered => ret (setTargetNamespace targetNamespace rendered, renderedRaw)
      end
  end.

Definition renderTarget (t : targetEnv) (targetNamespace : string)
    : KM rstate (Unstructured * string) :=
  match tmpl with
  | None => renderExactCopy t targetNamespace
  | Some rawTemplate => renderTemplate rawTemplate t targetNamespace
  end.

(** ** Conflict detection *)

Definition identicalCopyMessage : string :=
  "Skipped creating/updating target resource, as it is an identical copy of an already created/updated target resource. This can happen if the same namespace on the same cluster is selected multiple times by one or more target definitions.".

Definition recordRendered (t : targetEnv) (rendered : Unstructured) (raw : string)
    (known : gmap TypedObjectReference string) : KM rstate unit :=
  modify (λ s, set_conflicts s
    (<[t_clusterRef t := <[TypedReferenceFromObject rendered := raw]> known]> (s_conflicts s))).

Definition detectConflict (t : targetEnv) (rendered : Unstructured) (renderedRaw : string)
    : KM rstate unit :=
  let! s := get in
  match s_conflicts s !! t_clusterRef t with
  | None => recordRendered t rendered renderedRaw ∅
  | Some known =>
      match known !! TypedReferenceFromObject rendered with
      | Some existing =>
          if negb (String.eqb existing renderedRaw) then
            failWith (targetCon t rendered)
              (reasoned ReasonTargetConflict
                 ["target resource '"; keyString rendered; "' ("; gvkString rendered;
                  ") in cluster '"; t_logClusterName t;
                  "' is rendered multiple times with differences (probably due to overlapping target definitions), this is not allowed"])
          else
            createCon (targetCon t rendered) ConditionTrue ConditionReasonIdenticalCopy
              identicalCopyMessage ;;;
            stop
      | None => recordRendered t rendered renderedRaw known
      end
  end.

(** ** Management labels *)

Definition managementLabelsOf (obj : Replica) (labels : gmap string string) : gmap string string :=
  let labels := <[ManagedByLabel := providerName]> labels in
  let labels := <[ReplicaSourceKindLabel := ToLower (ReplicaKind obj)]> labels in
  let labels := <[ReplicaSourceGenerationLabel := format_int (rep_Generation obj)]> labels in
  let labels := <[ReplicaSourceNameLabel := rep_Name obj]> labels in
  if String.eqb (ReplicaKind obj) KindReplica
  then <[ReplicaSourceNamespaceLabel := rep_Namespace obj]> labels
  else labels.

Definition setManagementLabels (obj : Replica) (rendered : Unstructured) : Unstructured :=
  u_set_Labels (Some (managementLabelsOf obj (default ∅ (u_Labels rendered)))) rendered.

(** ** What is already there *)

Definition fetchExisting (t : targetEnv) (rendered : Unstructured) : KM rstate (option Unstructured) :=
  let! r := call (GetObject (t_access t) (u_GVK rendered) (u_Namespace rendered) (u_Name rendered)) in
  match r with
  | Found existing => ret (Some existing)
  | NotFound _ => ret None
  | Failed err =>
      failWith (targetCon t rendered)
        (reasoned ReasonTargetClusterInteractionProblem
           ["unable to check existence of target resource '"; keyString rendered; "' (";
            gvkString rendered; ") in cluster '"; t_logClusterName t; "': "; err])
  end.

(** Ownership according to the labels of the existing resource. *)
Definition ownedByThis (obj : Replica) (existing : Unstructured) : bool :=
  String.eqb (map_get (u_Labels existing) ReplicaSourceKindLabel) (ToLower (ReplicaKind obj)) &&
  String.eqb (map_get (u_Labels existing) ReplicaSourceNameLabel) (rep_Name obj) &&
  String.eqb (map_get (u_Labels existing) ReplicaSourceNamespaceLabel) (rep_Namespace obj).

Definition ownedByOther (obj : Replica) (existing : Unstructured) : bool :=
  negb (ownedByThis obj existing) &&
  negb (String.eqb (map_get (u_Labels existing) ReplicaSourceKindLabel) "").

(** The other owner in the error message. *)
Definition ownerString (existing : Unstructured) : string :=
  let kind := map_get (u_Labels existing) ReplicaSourceKindLabel in
  let name := map_get (u_Labels existing) ReplicaSourceNameLabel in
  let namespace := map_get (u_Labels existing) ReplicaSourceNamespaceLabel in
  sprint
    ((if String.eqb kind (ToLower KindReplica) then [KindReplica; " '"; namespace; "/"]
      else if String.eqb kind (ToLower KindClusterReplica) then [KindClusterReplica; " '"]
      else ["(Cluster)Replica"; " '"; namespace; "/"]) ++ [name; "'"]).

Definition existsMessage (t : targetEnv) (existing : Unstructured) (tail : list string) : list string :=
  ["target resource '"; keyString existing; "' ("; gvkString existing; ") in cluster '";
   t_logClusterName t; "' already exists"] ++ tail.

Definition failExists {A} (t : targetEnv) (rendered existing : Unstructured) : KM rstate A :=
  failWith (targetCon t rendered)
    (reasoned ReasonConfigurationProblem
       (existsMessage t existing [" and is not owned by this (Cluster)Replica"])).

Definition checkOwnership (t : targetEnv) (rendered existing : Unstructured) : KM rstate unit :=
  let! s := get in
  if ownedByThis (s_Object s) existing then ret tt
  else
    match GetTargetConflictPolicy (t_def t) with
    | TargetConflictPolicyOverwrite =>
        if negb (IsZero (u_DeletionTimestamp existing)) then
          failWith (targetCon t rendered)
            (reasoned ReasonTargetConflict
               (existsMessage t existing
                  [", is not owned by this (Cluster)Replica, and is in deletion"]))
        else if ownedByOther (s_Object s) existing then
          failWith (targetCon t rendered)
            (reasoned ReasonTargetConflict
               (existsMessage t existing
                  [" and is owned by other "; ownerString existing; ", cannot overwrite"]))
        else ret tt
    | TargetConflictPolicySkip =>
        createCon (targetCon t rendered) ConditionTrue ConditionReasonTargetSkipped
          (sprint ["Target resource '"; keyString existing; "' ("; gvkString existing;
                   ") in cluster '"; t_logClusterName t;
                   "' already exists and is not owned by this (Cluster)Replica, skipping"]) ;;;
        stop
    | TargetConflictPolicyFail => failExists t rendered existing
    | TargetConflictPolicyOther _ => failExists t rendered existing
    end.

(** The namespace of a resource that does not exist yet. *)
Definition skipNamespace (t : targetEnv) (rendered : Unstructured) (what : string) : KM rstate unit :=
  createCon (targetCon t rendered) ConditionTrue ConditionReasonTargetSkipped
    (sprint ["Target namespace '"; u_Namespace rendered; "' in cluster '"; t_logClusterName t;
             what; ", skipping"]) ;;;
  stop.

Definition failNamespaceDeleting (t : targetEnv) (rendered : Unstructured) : KM rstate unit :=
  failWith (targetCon t rendered)
    (reasoned ReasonNamespaceInDeletion
       ["target namespace '"; u_Namespace rendered; "' in cluster '"; t_logClusterName t;
        "' is being deleted"]).

Definition ensureNamespace (t : targetEnv) (rendered : Unstructured) : KM rstate unit :=
  if String.eqb (u_Namespace rendered) "" then ret tt
  else
    let! r := call (GetNamespace (t_access t) (u_Namespace rendered)) in
    match r with
    | Failed err =>
        failWith (targetCon t rendered)
          (reasoned ReasonTargetClusterInteractionProblem
             ["unable to check existence of namespace '"; u_Namespace rendered; "' in cluster '";
              t_logClusterName t; "': "; err])
    | NotFound _ =>
        match GetNamespacePolicy (t_def t) with
        | NamespacePolicyCreate =>
            let! e := call (CreateNamespace (t_access t) (u_Namespace rendered)) in
            match e with
            | Some err =>
                failWith (targetCon t rendered)
                  (reasoned ReasonTargetClusterInteractionProblem
                     ["unable to create namespace '"; u_Namespace rendered; "' in cluster '";
                      t_logClusterName t; "': "; err])
            | None => ret tt
            end
        | NamespacePolicySkip => skipNamespace t rendered "' does not exist"
        | NamespacePolicyFail =>
            failWith (targetCon t rendered)
              (reasoned ReasonMissingNamespace
                 ["target namespace '"; u_Namespace rendered; "' in cluster '";
                  t_logClusterName t; "' does not exist"])
        | NamespacePolicyOther _ => ret tt
        end
    | Found ns =>
        if IsZero (ns_DeletionTimestamp ns) then ret tt
        else
          match GetNamespacePolicy (t_def t) with
          | NamespacePolicyCreate => failNamespaceDeleting t rendered
          | NamespacePolicyFail => failNamespaceDeleting t rendered
          | NamespacePolicySkip => skipNamespace t rendered "' is being deleted"
          | NamespacePolicyOther _ => ret tt
          end
    end.

Definition checkExisting (t : targetEnv) (rendered : Unstructured) : KM rstate unit :=
  let! existing := fetchExisting t rendered in
  match existing with
  | Some existing => checkOwnership t rendered existing
  | None => ensureNamespace t rendered
  end.

(** ** Tracking in the status *)

Definition clusterStatusRef (t : targetEnv) : option ObjectReference :=
  match t_cluster t with
  | Some _ => if t_isNextTo t then None else Some (t_clusterRef t)
  | None => None
  end.

Definition trackInStatus (t : targetEnv) (rendered : Unstructured) : KM rstate unit :=
  let! s := get in
  let gvk := u_GVK rendered in
  if ContainsRaw gvk (u_Namespace rendered) (u_Name rendered) (clusterStatusRef t)
       (rep_Replicas (s_Object s))
  then ret tt
  else
    let obj := rep_set_Replicas
      (AddRaw gvk (u_Namespace rendered) (u_Name rendered) (clusterStatusRef t)
         (rep_Replicas (s_Object s))) (s_Object s) in
    let! r := call (PatchReplicaStatus platformCluster obj (s_OldObject s)) in
    modify (λ s, set_Object s r.1) ;;;
    match r.2 with
    | Some err =>
        failWith (targetCon t rendered)
          (reasoned ReasonPlatformClusterInteractionProblem
             ["unable to update status of (Cluster)Replica '"; Replica_NamespacedName r.1;
              "' before creating target resource: "; err])
    | None => modify (λ s, set_OldObject s (s_Object s))
    end.

(** ** Creating or updating *)

Definition failSync {A} (t : targetEnv) (rendered : Unstructured) (err : string) : KM rstate A :=
  failWith (targetCon t rendered)
    (reasoned ReasonTargetClusterInteractionProblem
       ["unable to create/update target resource '"; nameOf rendered; "' ("; gvkString rendered;
        ") in cluster '"; t_logClusterName t; "': "; err]).

Definition managedResourcesKey (t : targetEnv) : ObjectReference :=
  if t_isNextTo t then zeroRef else t_clusterRef t.

Definition recordManaged (t : targetEnv) (target : Unstructured) : KM rstate unit :=
  modify (λ s,
    let m := default ∅ (s_managed s) in
    let k := managedResourcesKey t in
    set_managed s (Some (<[k := default [] (m !! k) ++ [target]]> m))).

Definition syncTarget (t : targetEnv) (rendered : Unstructured) : KM rstate unit :=
  let! r := call (CouReadTarget (t_access t) rendered) in
  match r with
  | CouError err => failSync t rendered err
  | CouCallback seen =>
      match mutateTarget rendered seen with
      | None => panic "assignment to entry in nil map"
      | Some target =>
          let! w := call (CouWriteTarget (t_access t) target) in
          match w with
          | inl err => failSync t rendered err
          | inr target =>
              recordManaged t target ;;;
              createCon (targetCon t rendered) ConditionTrue ConditionReasonTargetSynced
                (sprint ["Target resource '"; nameOf rendered; "' ("; gvkString rendered;
                         ") successfully synced to cluster '"; t_logClusterName t; "'"])
          end
      end
  end.

(** The body of the loop over the target namespaces. *)
Definition handleTarget (t : targetEnv) (targetNamespace : string) : KM rstate unit :=
  let! (rendered, renderedRaw) := renderTarget t targetNamespace in
  detectConflict t rendered renderedRaw ;;;
  let! s := get in
  let rendered := setManagementLabels (s_Object s) rendered in
  checkExisting t rendered ;;;
  trackInStatus t rendered ;;;
  syncTarget t rendered.

End Target.
