(* ===== verification/ReplicaCreateOrUpdate.v ===== *)
(** * handleCreateOrUpdate

    [internal/replica/controller.go], lines 227-701: finalizer, template,
    sources, and the loops over target definitions, clusters and namespaces
    around [ReplicaTarget.handleTarget]. *)

From S2P Require Import Prelude GoLib ApiTypes External Effects Kube.
From S2P Require Import NamespaceSelection ConditionNames ReplicaState ReplicaTarget.

Section CreateOrUpdate.
Context `{X : Ext}.
Local Open Scope prog_scope.

Variables (providerName : string) (platformCluster : Access) (clusterList : list Cluster).

(** ** Finalizer *)

Definition ensureFinalizer : KM rstate unit :=
  let! s := get in
  let '(finalizers, added) := AddFinalizer (rep_Finalizers (s_Object s)) ReplicaFinalizer in
  modify (λ s, set_Object s (rep_set_Finalizers finalizers (s_Object s))) ;;;
  if added then
    let! s := get in
    let! r := call (PatchReplica platformCluster (s_Object s) (s_OldObject s)) in
    modify (λ s, set_Object s r.1) ;;;
    match r.2 with
    | Some err =>
        returnWith ConditionTypeMeta
          (reasoned ReasonPlatformClusterInteractionProblem
             ["unable to add finalizer to (Cluster)Replica '"; Replica_NamespacedName r.1; "': "; err])
    | None => modify (λ s, set_OldObject s (s_Object s))
    end
  else ret tt.

(** ** Template: the text of the parsed template, if there is one *)

Definition parseTemplate : KM rstate (option string) :=
  let! s := get in
  match spec_Template (rep_Spec (s_Object s)) with
  | Some rawTemplate =>
      match TemplateParse rawTemplate with
      | Some err =>
          returnWith ConditionTypeMeta
            (reasoned ReasonConfigurationProblem
               ["unable to parse template: "; wrapTemplateError err rawTemplate None ""])
      | None => ret (Some rawTemplate)
      end
  | None =>
      if Nat.ltb 1 (length (spec_Sources (rep_Spec (s_Object s)))) then
        returnWith ConditionTypeMeta
          (reasoned ReasonConfigurationProblem
             ["template is required when more than one source is defined"])
      else ret None
  end.

(** ** Sources *)

Definition fetchSource (src : ReferenceWithID) : KM rstate unit :=
  let ref := src_Ref src in
  let! r := call (GetObject platformCluster (tref_GVK ref) (tref_Namespace ref) (tref_Name ref)) in
  let failed err :=
    returnWith (SourceCondition ref)
      (reasoned ReasonPlatformClusterInteractionProblem
         ["unable to fetch source resource '"; namespacedName (tref_Namespace ref) (tref_Name ref);
          "' (id: "; src_ID src; "): "; err]) in
  match r with
  | NotFound err => failed err
  | Failed err => failed err
  | Found obj =>
      modify (λ s, set_sources s (<[src_ID src := obj]> (s_sources s))) ;;;
      createCon (SourceCondition ref) ConditionTrue ConditionReasonSourceRead
        (sprint ["Source resource '"; namespacedName (u_Namespace obj) (u_Name obj); "' (id: ";
                 src_ID src; ") successfully read"])
  end.

Definition fetchSources : KM rstate unit :=
  let! s := get in
  for_each_return (spec_Sources (rep_Spec (s_Object s))) fetchSource.

(** ** Target clusters *)

Definition matchedClusters (targetDef : TargetDefinition) : list (option Cluster) :=
  match td_Cluster targetDef with
  | Some ctd =>
      Some <$> List.filter
        (λ c, match ctd_Selector ctd with None => true | Some sel => sel c end) clusterList
  | None => [None]
  end.

Definition clusterRefOf (targetCluster : option Cluster) : ObjectReference :=
  match targetCluster with Some c => ReferenceFromObject c | None => zeroRef end.

Definition isNextTo (targetDef : TargetDefinition) : bool :=
  match td_Cluster targetDef with
  | Some ctd => match ctd_Location ctd with Some l => is_NextTo l | None => false end
  | None => false
  end.

(** ** Target namespaces *)

(** The loop over the listed namespaces. *)
Fixpoint selectNamespaces (sel : NamespaceSelector) (logClusterName : string)
    (items : list Namespace) : KM rstate (list string) :=
  match items with
  | [] => ret []
  | ns :: rest =>
      match Matches (Some sel) ns with
      | inl err =>
          errsAppend (Some (reasoned ReasonConfigurationProblem
            ["unable to match namespace selector against namespace '"; ns_Name ns;
             "' in cluster '"; logClusterName; "': "; err])) ;;;
          selectNamespaces sel logClusterName rest
      | inr ok =>
          let! names := selectNamespaces sel logClusterName rest in
          ret (if ok then ns_Name ns :: names else names)
      end
  end.

(** Access to the cluster and the target namespaces; the empty name stands for
    "no namespace selector, the template must specify the namespace". *)
Definition resolveTarget (targetDef : TargetDefinition) (targetCluster : option Cluster)
    (clusterName : string) : KM rstate (Access * list string) :=
  let logClusterName := logNameOf clusterName in
  let clusterRef := clusterRefOf targetCluster in
  if isNextTo targetDef then
    match targetCluster with
    | None => panic "nil pointer dereference"
    | Some c => ret (platformCluster, [cl_Namespace c])
    end
  else
    let! r := call (ProviderGet clusterName) in
    match r with
    | inl err =>
        failWith (ClusterCondition clusterRef)
          (reasoned ReasonClusterAccessError
             ["unable to get access to target cluster '"; logClusterName; "': "; err])
    | inr access =>
        match td_Namespace targetDef ≫= ntd_Selector with
        | Some sel =>
            match MatchIdentities sel with
            | Some ids => ret (access, ids)
            | None =>
                let! nsList := call (ListNamespaces access) in
                match nsList with
                | inl err =>
                    failWith (ClusterCondition clusterRef)
                      (reasoned ReasonTargetClusterInteractionProblem
                         ["unable to list namespaces in cluster '"; logClusterName; "': "; err])
                | inr items =>
                    let! names := selectNamespaces sel logClusterName items in
                    ret (access, names)
                end
            end
        | None => ret (access, [""])
        end
    end.

Definition clusterInDeletion (targetCluster : option Cluster) : bool :=
  match targetCluster with
  | Some c => negb (IsZero (cl_DeletionTimestamp c))
  | None => false
  end.

(** The body of the loop over the matched clusters. *)
Definition handleCluster (tmpl : option string) (targetDef : TargetDefinition)
    (targetCluster : option Cluster) : KM rstate unit :=
  let clusterName := ClusterNameFromCluster targetCluster in
  let clusterRef := clusterRefOf targetCluster in
  if clusterInDeletion targetCluster then stop
  else
    let! (access, targetNamespaces) := resolveTarget targetDef targetCluster clusterName in
    let t := MkTarget targetDef targetCluster clusterRef (logNameOf clusterName)
               (isNextTo targetDef) access in
    for_each targetNamespaces (handleTarget providerName platformCluster tmpl t) ;;;
    createCon (ClusterCondition clusterRef) ConditionTrue ConditionReasonTargetClusterAccess
      (sprint ["Successfully accessed cluster '"; logNameOf clusterName; "'"]).

Definition handleTargetDef (tmpl : option string) (targetDef : TargetDefinition) : KM rstate unit :=
  for_each (matchedClusters targetDef) (handleCluster tmpl targetDef).

(** ** The whole function *)

Definition finishCreateOrUpdate : KM rstate unit :=
  modify (λ s,
    let s := if s_templatingErrorSet s then s
             else set_ConditionsToRemove s (s_ConditionsToRemove s ++ [ConditionTypeTemplatingError]) in
    set_ReconcileError s (Aggregate (s_errs s))).

Definition handleCreateOrUpdate : KM rstate unit :=
  ensureFinalizer ;;;
  let! tmpl := parseTemplate in
  fetchSources ;;;
  createCon ConditionTypeMeta ConditionTrue "" "" ;;;
  modify (λ s, set_managed s (Some ∅)) ;;;
  let! s := get in
  for_each (spec_Targets (rep_Spec (s_Object s))) (handleTargetDef tmpl) ;;;
  finishCreateOrUpdate.

End CreateOrUpdate.
