(* ===== verification/ReplicaDelete.v ===== *)
(** * handleDelete and deleteObsoleteResources

    [internal/replica/controller.go], lines 703-942: the removal of the
    finalizer, and the deletion of copies the (Cluster)Replica no longer
    manages. *)

From S2P Require Import Prelude GoLib ApiTypes External Effects Kube.
From S2P Require Import StatusList ConditionNames ReplicaState ReplicaTarget.

Section Delete.
Context `{X : Ext}.
Local Open Scope prog_scope.

Variables (providerName : string) (platformCluster : Access) (clusterList : list Cluster).

(** ** handleDelete; the result tells whether [rr.Object] has been unset *)

Definition handleDelete : KM rstate bool :=
  let! s := get in
  if Nat.ltb 0 (length (rep_Replicas (s_Object s))) then
    createCon ConditionTypeMeta ConditionFalse ConditionReasonWaitingForManagedReplicasDeletion
      "Waiting for managed replicas to be deleted" ;;;
    ret false
  else
    let '(finalizers, removed) := RemoveFinalizer (rep_Finalizers (s_Object s)) ReplicaFinalizer in
    modify (λ s, set_Object s (rep_set_Finalizers finalizers (s_Object s))) ;;;
    if removed then
      let! s := get in
      let! r := call (PatchReplica platformCluster (s_Object s) (s_OldObject s)) in
      modify (λ s, set_Object s r.1) ;;;
      match r.2 with
      | Some err =>
          let rerr := reasoned ReasonPlatformClusterInteractionProblem
            ["unable to remove finalizer from (Cluster)Replica '"; Replica_NamespacedName r.1;
             "': "; err] in
          modify (λ s, set_ReconcileError s (Some rerr)) ;;;
          createCon ConditionTypeMeta ConditionFalse (re_Reason rerr) (re_Error rerr) ;;;
          ret false
      | None => ret true
      end
    else ret true.

(** ** Which resources are obsolete *)

Definition existingClusters : gset ObjectReference :=
  list_to_set ((λ c, MkRef (cl_Namespace c) (cl_Name c)) <$> clusterList).

Definition refOfCopy (copy : CreatedResource) : ObjectReference :=
  match cr_Cluster copy with Some r => r | None => zeroRef end.

Definition trefOfCopy (gvk : GroupVersionKind) (copy : CreatedResource) : TypedObjectReference :=
  MkTRef gvk (cr_Namespace copy) (cr_Name copy).

(** All resources of the status, by cluster. *)
Definition statusEntries (l : CreatedResourcesWithTypeList)
    : list (ObjectReference * TypedObjectReference) :=
  l ≫= λ x, (λ copy, (refOfCopy copy, trefOfCopy (crt_Type x) copy)) <$> crt_Resources x.

Definition addToDelete (m : gmap ObjectReference (list TypedObjectReference))
    (e : ObjectReference * TypedObjectReference) : gmap ObjectReference (list TypedObjectReference) :=
  <[e.1 := default [] (m !! e.1) ++ [e.2]]> m.

Definition resourcesInStatus (l : CreatedResourcesWithTypeList)
    : gmap ObjectReference (list TypedObjectReference) :=
  foldl addToDelete ∅ (statusEntries l).

(** Keep the first of equal references. *)
Fixpoint uniqueResources (seen : gset TypedObjectReference) (l : list TypedObjectReference)
    : list TypedObjectReference :=
  match l with
  | [] => []
  | res :: rest =>
      if bool_decide (res ∈ seen) then uniqueResources seen rest
      else res :: uniqueResources ({[res]} ∪ seen) rest
  end.

(** The comparison with a managed object, field by field. *)
Definition refersTo (obj : Unstructured) (res : TypedObjectReference) : bool :=
  String.eqb (tref_Name res) (u_Name obj) &&
  String.eqb (tref_Namespace res) (u_Namespace obj) &&
  String.eqb (gvk_Group (tref_GVK res)) (gvk_Group (u_GVK obj)) &&
  String.eqb (gvk_Version (tref_GVK res)) (gvk_Version (u_GVK obj)) &&
  String.eqb (gvk_Kind (tref_GVK res)) (gvk_Kind (u_GVK obj)).

(** Every managed object removes its entry; the clusters are independent. *)
Definition removeManaged (managed : gmap ObjectReference (list Unstructured))
    (m : gmap ObjectReference (list TypedObjectReference))
    : gmap ObjectReference (list TypedObjectReference) :=
  map_imap (λ clusterRef resources,
    Some (foldl (λ l obj, remove_first (refersTo obj) l) resources
            (default [] (managed !! clusterRef)))) m.

(** ** Pruning entries of clusters that are gone *)

Definition removeRawFromStatus (clusterRef : ObjectReference) (res : TypedObjectReference)
    : KM rstate unit :=
  modify (λ s, set_Object s (rep_set_Replicas
    (RemoveRaw (tref_GVK res) (tref_Namespace res) (tref_Name res) (Some clusterRef)
       (rep_Replicas (s_Object s))) (s_Object s))).

Definition removeCondition (con : string) : KM rstate unit :=
  modify (λ s, set_ConditionsToRemove s (s_ConditionsToRemove s ++ [con])).

Definition pruneCluster (clusterRef : ObjectReference) (resources : list TypedObjectReference)
    : KM rstate unit :=
  if bool_decide (clusterRef = zeroRef) then ret tt
  else if bool_decide (clusterRef ∈ existingClusters) then ret tt
  else
    for_each resources (λ res,
      removeCondition (TargetCondition clusterRef res) ;;;
      removeRawFromStatus clusterRef res) ;;;
    removeCondition (ClusterCondition clusterRef) ;;;
    modify (λ s, set_toDelete s (delete clusterRef (s_toDelete s))).

(** ** Protecting what this reconcile reported on *)

(** The last status reported per condition type with the given prefix. *)
Definition seenConditions (isSeen : string → bool) (conditions : list Condition)
    : gmap string ConditionStatus :=
  foldl (λ m c, if isSeen (con_Type c) then <[con_Type c := con_Status c]> m else m) ∅ conditions.

Definition seenClusterConditions : list Condition → gmap string ConditionStatus :=
  seenConditions (λ t, HasPrefix t ConditionTypeClusterPrefix).

Definition seenTargetConditions : list Condition → gmap string ConditionStatus :=
  seenConditions (λ t, negb (HasPrefix t ConditionTypeClusterPrefix) &&
                       HasPrefix t ConditionTypeTargetPrefix).

Definition protectClusters (inDeletion : bool) (conditions : list Condition)
    (m : gmap ObjectReference (list TypedObjectReference))
    : gmap ObjectReference (list TypedObjectReference) :=
  if inDeletion then m
  else filter (λ '(clusterRef, _),
         seenClusterConditions conditions !! ClusterCondition clusterRef ≠ Some ConditionFalse) m.

Definition protectTargets (conditions : list Condition)
    (m : gmap ObjectReference (list TypedObjectReference))
    : gmap ObjectReference (list TypedObjectReference) :=
  map_imap (λ clusterRef resources,
    Some (List.filter (λ res,
      negb (bool_decide (is_Some (seenTargetConditions conditions !! TargetCondition clusterRef res))))
      resources)) m.

(** ** Deleting one resource *)

Definition isManaged (obj : Replica) (labels : StringMap) : bool :=
  String.eqb (map_get labels ManagedByLabel) providerName &&
  String.eqb (map_get labels ReplicaSourceNameLabel) (rep_Name obj) &&
  String.eqb (map_get labels ReplicaSourceKindLabel) (ToLower (ReplicaKind obj)).

(** [delete(labels, ...)] for the six labels of the controller. *)
Definition stripLabels (labels : StringMap) : StringMap :=
  (λ m, delete ReplicaDeletionPolicyLabel
          (delete ReplicaSourceGenerationLabel
            (delete ReplicaSourceNamespaceLabel
              (delete ReplicaSourceNameLabel
                (delete ReplicaSourceKindLabel
                  (delete ManagedByLabel m)))))) <$> labels.

Definition failDelete {A} (clusterRef : ObjectReference) (res : TypedObjectReference)
    (what logClusterName err : string) (ns name gvk tail : string) : KM rstate A :=
  failWith (TargetCondition clusterRef res)
    (reasoned ReasonTargetClusterInteractionProblem
       ["unable to "; what; " '"; namespacedName ns name; "' ("; gvk; ") in cluster '";
        logClusterName; "'"; tail; ": "; err]).

(** The tail of an iteration: condition and status entry go. *)
Definition forget (clusterRef : ObjectReference) (res : TypedObjectReference) : KM rstate unit :=
  removeCondition (TargetCondition clusterRef res) ;;;
  removeRawFromStatus clusterRef res.

Definition awaitDeletion (clusterRef : ObjectReference) (res : TypedObjectReference)
    (logClusterName : string) (rtd : Unstructured) : KM rstate unit :=
  createCon (TargetCondition clusterRef res) ConditionFalse ConditionReasonWaitingForResourceDeletion
    (sprint ["Waiting for target resource '"; nameOf rtd; "' ("; gvkString rtd;
             ") in cluster '"; logClusterName; "' to be deleted"]) ;;;
  stop.

Definition deleteResource (clusterRef : ObjectReference) (logClusterName : string) (access : Access)
    (res : TypedObjectReference) : KM rstate unit :=
  let! r := call (GetObject access (tref_GVK res) (tref_Namespace res) (tref_Name res)) in
  match r with
  | Failed err =>
      failDelete clusterRef res "get target resource" logClusterName err
        (tref_Namespace res) (tref_Name res) (GVKString (tref_GVK res)) " for deletion"
  | NotFound _ => forget clusterRef res
  | Found rtd =>
      let! s := get in
      let labels := u_Labels rtd in
      if negb (isManaged (s_Object s) labels) then forget clusterRef res
      else if String.eqb (map_get labels ReplicaDeletionPolicyLabel) ReplicaDeletionPolicyKeep then
        let! e := call (PatchObject access (u_set_Labels (stripLabels labels) rtd) rtd) in
        match e with
        | Some err =>
            failDelete clusterRef res "remove labels from retained target resource" logClusterName err
              (u_Namespace rtd) (u_Name rtd) (gvkString rtd) ""
        | None => forget clusterRef res
        end
      else if IsZero (u_DeletionTimestamp rtd) then
        let! d := call (DeleteObject access rtd) in
        match d with
        | DeleteFailed err =>
            failDelete clusterRef res "delete target resource" logClusterName err
              (u_Namespace rtd) (u_Name rtd) (gvkString rtd) ""
        | Deleted => awaitDeletion clusterRef res logClusterName rtd
        | DeleteNotFound _ => awaitDeletion clusterRef res logClusterName rtd
        end
      else awaitDeletion clusterRef res logClusterName rtd
  end.

Definition deleteInCluster (clusterRef : ObjectReference) (resources : list TypedObjectReference)
    : KM rstate unit :=
  let clusterName := ClusterNameFromReference clusterRef in
  let logClusterName := logNameOf clusterName in
  let! r := call (ProviderGet clusterName) in
  match r with
  | inl err =>
      let rerr := reasoned ReasonClusterAccessError
        ["unable to get access to target cluster '"; logClusterName; "' to delete resources: "; err] in
      errsAppend (Some rerr) ;;;
      for_each resources (λ res,
        createCon (TargetCondition clusterRef res) ConditionFalse (re_Reason rerr) (re_Error rerr)) ;;;
      stop
  | inr access => for_each resources (deleteResource clusterRef logClusterName access)
  end.

(** ** The whole function

    [managed = None] is the nil map; the caller passes whether the object has
    been unset.  The list [errs] is the function's own. *)

Definition deleteObsoleteResources (objectUnset : bool) : KM rstate unit :=
  if objectUnset then ret tt
  else
    let! s := get in
    match s_managed s with
    | None => ret tt
    | Some managed =>
        let inDeletion := negb (IsZero (rep_DeletionTimestamp (s_Object s))) in
        let inStatus := uniqueResources ∅ <$> resourcesInStatus (rep_Replicas (s_Object s)) in
        modify (λ s, set_errs (set_toDelete s (removeManaged managed inStatus)) []) ;;;
        let! s := get in
        range_map (s_toDelete s) pruneCluster ;;;
        modify (λ s, set_toDelete s
          (protectTargets (s_Conditions s)
             (protectClusters inDeletion (s_Conditions s) (s_toDelete s)))) ;;;
        let! s := get in
        range_map (s_toDelete s) deleteInCluster ;;;
        modify (λ s, set_Object s
          (rep_set_Replicas (Cleanup (rep_Replicas (s_Object s))) (s_Object s))) ;;;
        modify (λ s, set_ReconcileError s (Aggregate (s_errs s ++ [s_ReconcileError s])))
    end.

End Delete.
