(* ===== verification/DeleteSelection.v ===== *)
(** * Which resources deleteObsoleteResources selects

    The maps that [ReplicaDelete.deleteObsoleteResources] computes, against
    the set they stand for: [obsolete]. *)

From S2P Require Import Prelude GoLib ApiTypes External Effects Kube.
From S2P Require Import StatusList ConditionNames ReplicaState ReplicaTarget ReplicaDelete.

Abbreviation toDeleteMap := (gmap ObjectReference (list TypedObjectReference)).

(** ** The pieces *)

Lemma elem_of_uniqueResources seen l x :
  x ∈ uniqueResources seen l ↔ x ∈ l ∧ x ∉ seen.
Proof.
  revert seen. induction l as [|y l IH]; intros seen; simpl; [set_solver|].
  case_bool_decide; [rewrite IH; set_solver|].
  rewrite elem_of_cons, IH. destruct (decide (x = y)); set_solver.
Qed.

Lemma NoDup_uniqueResources seen l : NoDup (uniqueResources seen l).
Proof.
  revert seen. induction l as [|y l IH]; intros seen; simpl; [constructor|].
  case_bool_decide; [done|]. constructor; [|done].
  rewrite elem_of_uniqueResources. set_solver.
Qed.

Lemma addToDelete_foldl (es : list (ObjectReference * TypedObjectReference)) (m : toDeleteMap) ref :
  foldl addToDelete m es !! ref =
  match (filter (λ e, e.1 = ref) es).*2, m !! ref with
  | [], o => o
  | l, o => Some (default [] o ++ l)
  end.
Proof.
  revert m. induction es as [|[ref' res] es IH]; intros m; simpl; [done|].
  rewrite IH. unfold addToDelete. simpl.
  destruct (decide (ref' = ref)) as [->|Hne].
  - rewrite filter_cons_True by done. rewrite lookup_insert_eq, fmap_cons.
    destruct ((filter _ es).*2); simpl; [done|]. by rewrite <- app_assoc.
  - rewrite filter_cons_False by done. by rewrite lookup_insert_ne.
Qed.

(** The entries of the status by cluster. *)
Lemma resourcesInStatus_lookup l ref :
  match resourcesInStatus l !! ref with
  | Some L => ∀ res, res ∈ L ↔ (ref, res) ∈ statusEntries l
  | None => ∀ res, (ref, res) ∉ statusEntries l
  end.
Proof.
  unfold resourcesInStatus. rewrite addToDelete_foldl, lookup_empty.
  assert (∀ res, res ∈ (filter (λ e, e.1 = ref) (statusEntries l)).*2 ↔ (ref, res) ∈ statusEntries l) as H.
  { intros res. rewrite list_elem_of_fmap. setoid_rewrite list_elem_of_filter. split.
    - intros ([ref' res'] & -> & Heq & Hin). simpl in *. by subst.
    - intros Hin. by exists (ref, res). }
  destruct ((filter _ (statusEntries l)).*2) as [|x k]; [|exact H].
  intros res Hin. apply H in Hin. by apply not_elem_of_nil in Hin.
Qed.

Definition referenceOf (obj : Unstructured) : TypedObjectReference :=
  MkTRef (u_GVK obj) (u_Namespace obj) (u_Name obj).

Lemma refersTo_spec obj res : refersTo obj res = bool_decide (res = referenceOf obj).
Proof.
  unfold refersTo, referenceOf. destruct res as [[g v k] ns n]. simpl.
  symmetry. apply eq_bool_prop_intro. rewrite !Is_true_true, bool_decide_eq_true, !andb_true_iff,
    !String.eqb_eq. destruct (u_GVK obj); simpl. naive_solver.
Qed.

Lemma remove_first_refersTo obj l x :
  NoDup l → x ∈ remove_first (refersTo obj) l ↔ x ∈ l ∧ x ≠ referenceOf obj.
Proof.
  induction l as [|y l IH]; intros Hnd; simpl; [set_solver|].
  apply NoDup_cons in Hnd as [Hy Hnd]. rewrite refersTo_spec.
  case_bool_decide as Heq; [subst; set_solver|].
  rewrite !elem_of_cons, IH by done. naive_solver.
Qed.

Lemma remove_managed_list (objs : list Unstructured) l :
  NoDup l →
  let l' := foldl (λ l obj, remove_first (refersTo obj) l) l objs in
  NoDup l' ∧ ∀ x, x ∈ l' ↔ x ∈ l ∧ x ∉ referenceOf <$> objs.
Proof.
  revert l. induction objs as [|o objs IH]; intros l Hnd; simpl; [set_solver|].
  destruct (IH (remove_first (refersTo o) l)) as [Hnd' Hx].
  { by eapply sublist_NoDup, remove_first_sublist. }
  split; [done|]. intros x. rewrite Hx, remove_first_refersTo by done. set_solver.
Qed.

Section Selection.
Context `{X : Ext}.
Variables (clusterList : list Cluster).

(** ** The selected resources *)

(** The cluster still exists (the platform cluster always does). *)
Definition present (ref : ObjectReference) : Prop :=
  ref = zeroRef ∨ ref ∈ existingClusters clusterList.

#[export] Instance present_dec ref : Decision (present ref).
Proof. unfold present. apply _. Defined.

(** The resource is in the status and none of the managed ones. *)
Definition unmanaged (s : rstate) (ref : ObjectReference) (res : TypedObjectReference) : Prop :=
  (ref, res) ∈ statusEntries (rep_Replicas (s_Object s)) ∧
  res ∉ referenceOf <$> default [] (s_managed s ≫= (.!! ref)).

(** Nothing this reconcile reported speaks against deleting it. *)
Definition unprotected (s : rstate) (ref : ObjectReference) (res : TypedObjectReference) : Prop :=
  (IsZero (rep_DeletionTimestamp (s_Object s)) = true →
     seenClusterConditions (s_Conditions s) !! ClusterCondition ref ≠ Some ConditionFalse) ∧
  seenTargetConditions (s_Conditions s) !! TargetCondition ref res = None.

Definition obsolete (s : rstate) (ref : ObjectReference) (res : TypedObjectReference) : Prop :=
  unmanaged s ref res ∧ present ref ∧ unprotected s ref res.

(** [resourcesToDelete] after the removal of the managed resources. *)
Definition candidates (s : rstate) (managed : gmap ObjectReference (list Unstructured)) : toDeleteMap :=
  removeManaged managed (uniqueResources ∅ <$> resourcesInStatus (rep_Replicas (s_Object s))).

Lemma candidates_lookup s managed ref :
  s_managed s = Some managed →
  match candidates s managed !! ref with
  | Some L => NoDup L ∧ ∀ res, res ∈ L ↔ unmanaged s ref res
  | None => ∀ res, ¬ unmanaged s ref res
  end.
Proof.
  intros Hm. unfold candidates, removeManaged, unmanaged. rewrite Hm. simpl.
  rewrite map_lookup_imap, lookup_fmap.
  pose proof (resourcesInStatus_lookup (rep_Replicas (s_Object s)) ref) as Hl.
  destruct (resourcesInStatus _ !! ref) as [L|]; simpl; [|by intros res [? _]; apply (Hl res)].
  destruct (remove_managed_list (default [] (managed !! ref)) _ (NoDup_uniqueResources ∅ L))
    as [Hnd Hx].
  split; [done|]. intros res. rewrite Hx, elem_of_uniqueResources, Hl. set_solver.
Qed.

(** [resourcesToDelete] as the deletion loop finds it. *)
Definition selected (s : rstate) (managed : gmap ObjectReference (list Unstructured)) : toDeleteMap :=
  protectTargets (s_Conditions s)
    (protectClusters (negb (IsZero (rep_DeletionTimestamp (s_Object s)))) (s_Conditions s)
       (filter (λ '(ref, _), present ref) (candidates s managed))).

Lemma selected_lookup s managed ref :
  s_managed s = Some managed →
  match selected s managed !! ref with
  | Some L => present ref ∧ NoDup L ∧ ∀ res, res ∈ L ↔ obsolete s ref res
  | None => ∀ res, ¬ obsolete s ref res
  end.
Proof.
  intros Hm. unfold selected, protectTargets. rewrite map_lookup_imap.
  pose proof (candidates_lookup s managed ref Hm) as Hc.
  set (inDel := negb _).
  assert (protectClusters inDel (s_Conditions s)
            (filter (λ '(ref, _), present ref) (candidates s managed)) !! ref =
          if decide (present ref ∧ (inDel = false →
               seenClusterConditions (s_Conditions s) !! ClusterCondition ref ≠ Some ConditionFalse))
          then candidates s managed !! ref else None) as ->.
  { unfold protectClusters. apply option_eq. intros L.
    destruct inDel; [|rewrite map_lookup_filter_Some]; rewrite map_lookup_filter_Some;
      case_decide; naive_solver. }
  unfold obsolete, unprotected, inDel. case_decide as Hd.
  - destruct Hd as [Hp Hcl]. destruct (candidates s managed !! ref) as [L|]; simpl.
    + destruct Hc as [Hnd HL]. split; [done|]. split; [by apply NoDup_filterb|].
      intros res. rewrite elem_of_filterb, HL, negb_true_iff, bool_decide_eq_false, <- eq_None_not_Some.
      split; [|tauto]. intros [Hu Ht]. split; [done|]. split; [done|]. split; [|done].
      intros Hz. apply Hcl. by rewrite Hz.
    + intros res [? _]. by apply (Hc res).
  - simpl. intros res (_ & Hp & Hcl & _). apply Hd. split; [done|].
    intros Hz. apply Hcl. by apply negb_false_iff in Hz.
Qed.

End Selection.
