(* ===== verification/ReplicaReconcile.v ===== *)
(** * Reconcile

    [internal/replica/controller.go], lines 77-225: fetching the (Cluster)Replica,
    the operation annotation, the dispatch between creation and deletion, the
    status bookkeeping, and [Reconcile] with the status updater's callbacks and
    the periodic requeue. *)

From S2P Require Import Prelude GoLib ApiTypes External Effects Kube.
From S2P Require Import Shared StatusList ConditionNames ReplicaState ReplicaTarget ReplicaCreateOrUpdate.
From S2P Require Import ReplicaDelete.

(** [mcreconcile.Request] *)
Record Request := MkRequest { req_Cluster : string; req_Namespace : string; req_Name : string }.

Definition req_NamespacedName (req : Request) : NamespacedName :=
  MkNN (req_Namespace req) (req_Name req).

Definition emptyResult : ReconcileResult := MkRR None None [] [] 0 None.

Definition rr_set_error (e : option ReasonableError) (rr : ReconcileResult) : ReconcileResult :=
  MkRR (rr_Object rr) (rr_OldObject rr) (rr_Conditions rr) (rr_ConditionsToRemove rr)
    (rr_RequeueAfter rr) e.

Section Reconcile.
Context `{X : Ext}.
Local Open Scope prog_scope.

Variable providerName : string.

(** ** reconcile *)

(** "ensure that all managed resources are in the (Cluster)Replica's status" *)
Definition addManagedToStatus : KM rstate unit :=
  let! s := get in
  match s_managed s with
  | None => ret tt
  | Some managed =>
      range_map managed (λ clusterRef resources,
        for_each resources (λ res,
          modify (λ s, set_Object s (rep_set_Replicas
            (AddRaw (u_GVK res) (u_Namespace res) (u_Name res) (Some clusterRef)
               (rep_Replicas (s_Object s))) (s_Object s)))))
  end.

(** "if we know that all are gone, we can skip the waiting time" *)
Definition skipWaiting (objectUnset : bool) : KM rstate unit :=
  let! s := get in
  if Z.ltb 0 (s_RequeueAfter s) then
    if objectUnset then panic "nil pointer dereference"
    else if Nat.eqb (length (rep_Replicas (s_Object s))) 0
    then modify (λ s, set_RequeueAfter s 1)
    else ret tt
  else ret tt.

(** After the clusters have been listed; the result tells whether [rr.Object]
    has been unset. *)
Definition reconcileListed (platformCluster : Access) (clusterList : list Cluster) : KM rstate bool :=
  let! s := get in
  let! objectUnset :=
    (if IsZero (rep_DeletionTimestamp (s_Object s)) then
       scope (handleCreateOrUpdate providerName platformCluster clusterList) ;;;
       ret false
     else
       let! unset := handleDelete platformCluster in
       let! s := get in
       match s_ReconcileError s with
       | None => modify (λ s, set_managed s (Some ∅)) ;;; ret unset
       | Some _ => ret unset
       end) in
  deleteObsoleteResources providerName clusterList objectUnset ;;;
  (if objectUnset then ret tt else addManagedToStatus) ;;;
  skipWaiting objectUnset ;;;
  ret objectUnset.

(** After the (Cluster)Replica has been fetched and not ignored. *)
Definition reconcileFetched (platformCluster : Access) : KM rstate bool :=
  let! clusterList := call (ListClusters platformCluster) in
  match clusterList with
  | inl err =>
      let rerr := reasoned ReasonPlatformClusterInteractionProblem
        ["unable to list Cluster resources: "; err] in
      modify (λ s, set_ReconcileError s (Some rerr)) ;;;
      createCon ConditionTypeMeta ConditionFalse (re_Reason rerr) (re_Error rerr) ;;;
      ret false
  | inr clusterList => reconcileListed platformCluster clusterList
  end.

(** What the operation annotation asks for. *)
Inductive Operation := OpNone | OpIgnore | OpReconcile.

Definition operationOf (rep : Replica) : Operation :=
  match rep_Annotations rep ≫= (.!! OperationAnnotation) with
  | None => OpNone
  | Some op =>
      if String.eqb op OperationAnnotationValueIgnore then OpIgnore
      else if String.eqb op OperationAnnotationValueReconcile then OpReconcile
      else OpNone
  end.

Definition kindOfRequest (req : Request) : ReplicaType :=
  if negb (String.eqb (req_Namespace req) "") then TReplica else TClusterReplica.

(** [reconcileFetched] with its own state; its result is the [ReconcileResult]. *)
Definition runFetched (platformCluster : Access) (rep : Replica)
    : KM sharedInformation ReconcileResult :=
  let! (s, fl) := local (reconcileFetched platformCluster) (rstate_init rep) in
  match fl with
  | Panic why => panic why
  | Stop => ret (to_rr s)
  | Next objectUnset => ret (if objectUnset then to_rr_gone s else to_rr s)
  end.

Definition reconcile (req : Request) (platformCluster : Access)
    : KM sharedInformation ReconcileResult :=
  let! r := call (GetReplica platformCluster (kindOfRequest req) (req_NamespacedName req)) in
  match r with
  | Failed err =>
      ret (rr_set_error (Some (reasoned ReasonPlatformClusterInteractionProblem
             ["error fetching resource: "; err])) emptyResult)
  | NotFound _ => ret emptyResult
  | Found rep =>
      match operationOf rep with
      | OpIgnore => ret emptyResult
      | OpNone => runFetched platformCluster rep
      | OpReconcile =>
          let! p := call (DeleteOperationAnnotation platformCluster rep) in
          match p.2 with
          | Some err =>
              ret (rr_set_error (Some (reasoned ReasonPlatformClusterInteractionProblem
                     ["error removing operation annotation: "; err])) emptyResult)
          | None => runFetched platformCluster p.1
          end
      end
  end.

(** ** The callbacks of the status updater *)

Definition deref {A} (o : option A) (default : A) : A :=
  match o with Some a => a | None => default end.

(** [WithPhaseUpdateFunc]: only called with an object. *)
Definition phaseOf (rep : Replica) : string :=
  if negb (IsZero (rep_DeletionTimestamp rep)) then StatusPhaseTerminating
  else if existsb (λ con, negb (bool_decide (con_Status con = ConditionTrue)))
            (st_Conditions (rep_Status rep))
  then StatusPhaseProgressing
  else StatusPhaseReady.

Definition waitsForDeletion (con : Condition) : bool :=
  String.eqb (con_Reason con) ConditionReasonWaitingForResourceDeletion ||
  String.eqb (con_Reason con) ConditionReasonWaitingForManagedReplicasDeletion.

Definition requeueOf (generationChanged : bool) (rep : Replica) : SmartRequeueAction :=
  if existsb waitsForDeletion (st_Conditions (rep_Status rep))
  then if generationChanged then SR_RESET else SR_BACKOFF
  else SR_NO_REQUEUE.

Definition phaseFunc (rr : ReconcileResult) : string :=
  match rr_Object rr with Some rep => phaseOf rep | None => "" end.

Definition requeueFunc (generationChanged : bool) (rr : ReconcileResult) : SmartRequeueAction :=
  match rr_Object rr with
  | Some rep => requeueOf generationChanged rep
  | None => SR_NO_REQUEUE
  end.

(** ** Reconcile: the requeue interval (nanoseconds) and the error *)

Definition capInterval (interval requeueAfter : Z) : Z :=
  if Z.ltb 0 interval && (Z.eqb requeueAfter 0 || Z.ltb interval requeueAfter)
  then interval else requeueAfter.

Definition Reconcile (req : Request) : KM sharedInformation (Z * option string) :=
  modify (ClearPending (req_NamespacedName req)) ;;;
  let! r := call (ProviderGet (req_Cluster req)) in
  match r with
  | inl err =>
      ret (0%Z, Some (sprint ["unable to get access to platform cluster '"; req_Cluster req;
                            "': "; err]))
  | inr platformCluster =>
      let! rr := reconcile req platformCluster in
      let generationChanged :=
        match rr_Object rr with
        | Some rep => negb (Z.eqb (rep_Generation rep) (st_ObservedGeneration (rep_Status rep)))
        | None => false
        end in
      let! (updated, requeueAfter, err) :=
        call (UpdateStatus platformCluster rr phaseFunc (requeueFunc generationChanged)) in
      match err, rr_Object rr with
      | None, Some _ => ret (capInterval (GetInterval (rep_Spec updated)) requeueAfter, None)
      | _, _ => ret (requeueAfter, err)
      end
  end.

End Reconcile.
