(* ===== verification/ReplicaPolicy.v ===== *)
(** * What a reconcile may ask of the API servers

    Vocabulary for statements about histories of [ReplicaReconcile.Reconcile]:

    - [honest]: the documented behaviour of the API servers that the safety
      theorems rely on (an answer concerns the object it was asked for);
    - [delivered], [acknowledged]: the versions of the (Cluster)Replica that
      the platform cluster sent, and those whose status it is known to store;
    - [safeRequest]: the policy: which request may follow which history. *)

From S2P Require Import Prelude GoLib ApiTypes External Effects Kube.
From S2P Require Import StatusList ReplicaState ReplicaTarget ReplicaCreateOrUpdate ReplicaDelete ReplicaReconcile.

Section Policy.
Context `{X : Ext}.
Variables (providerName : string) (req : Request).

(** The (Cluster)Replica the request is about. *)
Definition isRequested (rep : Replica) : Prop :=
  rep_Type rep = kindOfRequest req ∧ rep_Namespace rep = req_Namespace req ∧
  rep_Name rep = req_Name req.

Definition sameIdentity (a b : Replica) : Prop :=
  rep_Type a = rep_Type b ∧ rep_Namespace a = rep_Namespace b ∧ rep_Name a = rep_Name b.

(** ** Documented behaviour of the API servers

    [Get] returns the object asked for.  A patch returns an object with the
    same identity; the status patch returns the list that was sent, whether it
    is stored (a merge patch replaces lists as a whole) or fails (the object is
    left alone). *)
Definition honestResponse (e : Req) : Resp e → Prop :=
  match e with
  | GetReplica _ kind nn => λ r,
      match r with
      | Found rep => rep_Type rep = kind ∧ rep_Namespace rep = nn_Namespace nn ∧
                     rep_Name rep = nn_Name nn
      | _ => True
      end
  | DeleteOperationAnnotation _ rep => λ r, sameIdentity r.1 rep
  | PatchReplica _ obj _ => λ r, sameIdentity r.1 obj
  | PatchReplicaStatus _ obj _ => λ r,
      sameIdentity r.1 obj ∧ rep_Replicas r.1 = rep_Replicas obj
  | GetObject _ gvk ns n => λ r,
      match r with
      | Found u => u_GVK u = gvk ∧ u_Namespace u = ns ∧ u_Name u = n
      | _ => True
      end
  | _ => λ _, True
  end.

Definition honest (tr : KHistory) : Prop :=
  Forall (λ ev, honestResponse (ev_req ev) (ev_resp ev)) tr.

#[export] Instance honestResponse_dec e r : Decision (honestResponse e r).
Proof.
  destruct e; simpl in *; try apply _;
    match goal with x : GetResult _ |- _ => destruct x; apply _ end.
Defined.

#[export] Instance honest_dec tr : Decision (honest tr).
Proof. unfold honest. apply _. Defined.

(** No status patch failed. *)
Definition statusPatched (tr : KHistory) : Prop :=
  Forall (λ ev : KEvent,
    match ev with
    | Ev e r =>
        match e return Resp e → Prop with
        | PatchReplicaStatus _ _ _ => λ r, r.2 = None
        | _ => λ _, True
        end r
    end) tr.

#[export] Instance statusPatched_dec tr : Decision (statusPatched tr).
Proof.
  apply Forall_dec. intros [e r]. destruct e; try (left; exact I).
  destruct r as [o [err|]]; [right; discriminate|left; reflexivity].
Defined.

(** ** Versions of the (Cluster)Replica *)

Definition deliveredBy (ev : KEvent) : option Replica :=
  match ev with
  | Ev e r =>
      match e return Resp e → option Replica with
      | GetReplica _ _ _ => λ r, match r with Found rep => Some rep | _ => None end
      | DeleteOperationAnnotation _ _ => λ r, Some r.1
      | PatchReplica _ _ _ => λ r, Some r.1
      | PatchReplicaStatus _ _ _ => λ r, Some r.1
      | _ => λ _, None
      end r
  end.

Definition delivered (tr : KHistory) (rep : Replica) : Prop :=
  ∃ ev, ev ∈ tr ∧ deliveredBy ev = Some rep.

(** A version delivered by a call without error: the server stores its status. *)
Definition acknowledgedBy (ev : KEvent) : option Replica :=
  match ev with
  | Ev e r =>
      match e return Resp e → option Replica with
      | PatchReplicaStatus _ _ _ => λ r,
          match r.2 with None => Some r.1 | Some _ => None end
      | PatchReplica _ _ _ => λ r,
          match r.2 with None => Some r.1 | Some _ => None end
      | GetReplica _ _ _ => λ r, match r with Found rep => Some rep | _ => None end
      | DeleteOperationAnnotation _ _ => λ r,
          match r.2 with None => Some r.1 | Some _ => None end
      | _ => λ _, None
      end r
  end.

Definition acknowledged (tr : KHistory) (rep : Replica) : Prop :=
  ∃ ev, ev ∈ tr ∧ acknowledgedBy ev = Some rep.

(** A target definition of some delivered version. *)
Definition targetDelivered (tr : KHistory) (td : TargetDefinition) : Prop :=
  ∃ rep, delivered tr rep ∧ td ∈ spec_Targets (rep_Spec rep).

(** The access leads to the cluster a status entry names. *)
Definition leadsTo (platformCluster : Access) (tr : KHistory) (acc : Access)
    (cl : option ObjectReference) : Prop :=
  match cl with
  | None => acc = platformCluster ∨
            @Ev _ Resp (ProviderGet (ClusterNameFromCluster None)) (inr acc) ∈ tr
  | Some ref => ∃ c, ReferenceFromObject c = ref ∧
                @Ev _ Resp (ProviderGet (ClusterNameFromCluster (Some c))) (inr acc) ∈ tr
  end.

(** ** The policy *)

(** Deleting: the object was read in the step before, it carries the marks of
    this (Cluster)Replica, has no "Keep" label and is not in deletion yet. *)
Definition mayDelete (tr : KHistory) (acc : Access) (obj : Unstructured) : Prop :=
  ∃ tr0 gvk ns n rep,
    tr = tr0 ++ [@Ev _ Resp (GetObject acc gvk ns n) (Found obj)] ∧
    isRequested rep ∧ isManaged providerName rep (u_Labels obj) = true ∧
    map_get (u_Labels obj) ReplicaDeletionPolicyLabel ≠ ReplicaDeletionPolicyKeep ∧
    IsZero (u_DeletionTimestamp obj) = true.

(** The labels of the controller are gone, all others are kept. *)
Definition releasedLabels (old new : StringMap) : Prop :=
  ∀ k, new ≫= (.!! k) = if decide (k ∈ ManagedByLabel :: managementLabels) then None else old ≫= (.!! k).

(** Releasing: as for deletion, but the object has the "Keep" label; exactly
    the labels of the controller are removed. *)
Definition mayStrip (tr : KHistory) (acc : Access) (new old : Unstructured) : Prop :=
  ∃ tr0 gvk ns n rep,
    tr = tr0 ++ [@Ev _ Resp (GetObject acc gvk ns n) (Found old)] ∧
    isRequested rep ∧ isManaged providerName rep (u_Labels old) = true ∧
    map_get (u_Labels old) ReplicaDeletionPolicyLabel = ReplicaDeletionPolicyKeep ∧
    new = u_set_Labels (u_Labels new) old ∧ releasedLabels (u_Labels old) (u_Labels new).

(** Requests that do not read or write target resources. *)
Definition quiet (ev : KEvent) : bool :=
  match ev_req ev with
  | GetNamespace _ _ | CreateNamespace _ _ | PatchReplicaStatus _ _ _ => true
  | _ => false
  end.

(** What the existence check found allows the resource to be written. *)
Definition writable (tr : KHistory) (r : GetResult Unstructured) : Prop :=
  match r with
  | NotFound _ => True
  | Failed _ => False
  | Found existing =>
      (∃ rep, isRequested rep ∧ ownedByThis rep existing = true) ∨
      (∃ td, targetDelivered tr td ∧
         GetTargetConflictPolicy td = TargetConflictPolicyOverwrite ∧
         IsZero (u_DeletionTimestamp existing) = true ∧
         map_get (u_Labels existing) ReplicaSourceKindLabel = "")
  end.

(** Writing: the resource was looked up through the same access, with no other
    access to target resources in between, and the outcome allows it. *)
Definition mayOverwrite (tr : KHistory) (acc : Access) (rendered : Unstructured) : Prop :=
  ∃ tr0 r mid,
    tr = tr0 ++ @Ev _ Resp (GetObject acc (u_GVK rendered) (u_Namespace rendered) (u_Name rendered)) r
           :: mid ∧
    Forall (λ ev, quiet ev = true) mid ∧ writable tr r.

(** The rendered manifest carries the marks of this (Cluster)Replica. *)
Definition marked (rendered : Unstructured) : Prop :=
  ∃ rep raw, isRequested rep ∧ rendered = setManagementLabels providerName rep raw.

(** The resource is in a status the platform cluster stores. *)
Definition trackedBefore (platformCluster : Access) (tr : KHistory) (acc : Access)
    (rendered : Unstructured) : Prop :=
  ∃ rep cl, acknowledged tr rep ∧ leadsTo platformCluster tr acc cl ∧
    ContainsRaw (u_GVK rendered) (u_Namespace rendered) (u_Name rendered) cl (rep_Replicas rep) = true.

Definition mayWrite (tr : KHistory) (acc : Access) (target : Unstructured) : Prop :=
  ∃ tr0 rendered seen,
    tr = tr0 ++ [@Ev _ Resp (CouReadTarget acc rendered) (CouCallback seen)] ∧
    mutateTarget rendered seen = Some target.

Definition mayCreateNamespace (tr : KHistory) (acc : Access) (n : string) : Prop :=
  ∃ tr0 gvk name err err' td,
    tr = tr0 ++ [@Ev _ Resp (GetObject acc gvk n name) (NotFound err);
                 @Ev _ Resp (GetNamespace acc n) (NotFound err')] ∧
    n ≠ "" ∧ targetDelivered tr td ∧ GetNamespacePolicy td = NamespacePolicyCreate.

(** The metadata of the (Cluster)Replica is patched relative to a version the
    server delivered, and only its finalizers: the finalizer of the controller
    is appended unless the object is in deletion, and it is only taken off one
    in deletion whose status is empty. *)
Definition mayPatch (tr : KHistory) (obj old : Replica) : Prop :=
  delivered tr old ∧ obj = rep_set_Finalizers (rep_Finalizers obj) old ∧
  if IsZero (rep_DeletionTimestamp old)
  then ReplicaFinalizer ∉ rep_Finalizers old ∧
       rep_Finalizers obj = rep_Finalizers old ++ [ReplicaFinalizer]
  else rep_Replicas old = [] ∧
       RemoveFinalizer (rep_Finalizers old) ReplicaFinalizer = (rep_Finalizers obj, true).

(** The operation annotation is removed from the version that has just been
    read, when it asks for a reconcile. *)
Definition mayDropAnnotation (platformCluster : Access) (tr : KHistory) (rep : Replica) : Prop :=
  ∃ tr0,
    tr = tr0 ++ [@Ev _ Resp (GetReplica platformCluster (kindOfRequest req) (req_NamespacedName req))
                   (Found rep)] ∧
    rep_Annotations rep ≫= (.!! OperationAnnotation) = Some OperationAnnotationValueReconcile.

Definition isStatusUpdate (e : Req) : bool :=
  match e with UpdateStatus _ _ _ _ => true | _ => false end.

(** No status update has been requested. *)
Definition notConcluded (tr : KHistory) : Prop :=
  Forall (λ ev, isStatusUpdate (ev_req ev) = false) tr.

Definition safeRequest (platformCluster : Access) (tr : KHistory) (e : Req) : Prop :=
  match e with
  | DeleteObject acc obj => honest tr → mayDelete tr acc obj
  | PatchObject acc new old => honest tr → mayStrip tr acc new old
  | CouReadTarget acc rendered =>
      honest tr →
      mayOverwrite tr acc rendered ∧ marked rendered ∧
      (statusPatched tr → trackedBefore platformCluster tr acc rendered)
  | CouWriteTarget acc target => mayWrite tr acc target
  | CreateNamespace acc n => mayCreateNamespace tr acc n
  | PatchReplica acc obj old => acc = platformCluster ∧ mayPatch tr obj old
  | DeleteOperationAnnotation acc rep =>
      acc = platformCluster ∧ mayDropAnnotation platformCluster tr rep
  | PatchReplicaStatus acc _ _ => acc = platformCluster
  | UpdateStatus _ _ _ _ => False
  | _ => True
  end.

(** [Reconcile] obtains the access to the platform cluster first. *)
Definition platformOf (tr : KHistory) : option Access :=
  match tr with
  | Ev e r :: _ =>
      match e return Resp e → option Access with
      | ProviderGet _ => λ r, match r with inr pc => Some pc | inl _ => None end
      | _ => λ _, None
      end r
  | [] => None
  end.

(** The status update is the business of [Reconcile] alone, which issues it
    once. *)
Definition safeReconcile (tr : KHistory) (e : Req) : Prop :=
  tr = [] ∧ e = ProviderGet (req_Cluster req) ∨
  ∃ pc, platformOf tr = Some pc ∧
    (safeRequest pc tr e ∨ isStatusUpdate e = true ∧ notConcluded tr).

(** ** Monotonicity *)

Lemma delivered_app tr tr' rep : delivered tr rep → delivered (tr ++ tr') rep.
Proof. intros (ev & ? & ?). exists ev. split; [apply elem_of_app; by left|done]. Qed.

Lemma delivered_snoc tr ev rep : deliveredBy ev = Some rep → delivered (tr ++ [ev]) rep.
Proof. intros. exists ev. split; [|done]. apply elem_of_app. right. by left. Qed.

Lemma acknowledged_app tr tr' rep : acknowledged tr rep → acknowledged (tr ++ tr') rep.
Proof. intros (ev & ? & ?). exists ev. split; [apply elem_of_app; by left|done]. Qed.

Lemma acknowledged_snoc tr ev rep : acknowledgedBy ev = Some rep → acknowledged (tr ++ [ev]) rep.
Proof. intros. exists ev. split; [|done]. apply elem_of_app. right. by left. Qed.

Lemma targetDelivered_app tr tr' td : targetDelivered tr td → targetDelivered (tr ++ tr') td.
Proof. intros (rep & ? & ?). exists rep. split; [by apply delivered_app|done]. Qed.

Lemma leadsTo_app pc tr tr' acc cl : leadsTo pc tr acc cl → leadsTo pc (tr ++ tr') acc cl.
Proof.
  unfold leadsTo. destruct cl as [ref|].
  - intros (c & ? & ?). exists c. split; [done|]. apply elem_of_app. by left.
  - intros [?|?]; [by left|]. right. apply elem_of_app. by left.
Qed.

Lemma honest_app tr tr' : honest (tr ++ tr') ↔ honest tr ∧ honest tr'.
Proof. apply Forall_app. Qed.

Lemma statusPatched_app tr tr' : statusPatched (tr ++ tr') ↔ statusPatched tr ∧ statusPatched tr'.
Proof. apply Forall_app. Qed.

Lemma sameIdentity_requested a b : sameIdentity a b → isRequested b → isRequested a.
Proof. unfold sameIdentity, isRequested. intuition congruence. Qed.

End Policy.
