(* ===== verification/ReplicaSafety.v ===== *)
(** * A reconcile keeps to the policy

    The lemmas follow the layers of the controller bottom-up and establish
    [ReplicaPolicy.safeRequest] for every request of [Reconcile]; the
    properties at the end read the policy off the histories. *)

From S2P Require Import Prelude GoLib ApiTypes External Effects Kube.
From S2P Require Import StatusList ReplicaState ReplicaTarget ReplicaCreateOrUpdate ReplicaDelete ReplicaReconcile.
From S2P Require Import ReplicaPolicy.

Section Safety.
Context `{X : Ext} {XL : ExtLaws X}.
Variables (providerName : string) (req : Request) (platformCluster : Access).

#[local] Abbreviation P := (safeRequest providerName req platformCluster).

(** ** The invariant on the object in memory *)

Record inv (tr : KHistory) (o : Replica) : Prop := {
  inv_identity : honest tr → isRequested req o;
  inv_spec : ∃ rep, delivered tr rep ∧ rep_Spec rep = rep_Spec o;
  inv_status : honest tr → statusPatched tr →
               ∃ rep, acknowledged tr rep ∧ rep_Replicas rep = rep_Replicas o }.

Lemma inv_app tr tr' o : inv tr o → inv (tr ++ tr') o.
Proof.
  intros [Hi (rep & ? & ?) Hst]. split.
  - rewrite honest_app. tauto.
  - exists rep. split; [by apply delivered_app|done].
  - rewrite honest_app, statusPatched_app. intros [? _] [? _].
    destruct Hst as (rep' & ? & ?); [done..|]. exists rep'. split; [by apply acknowledged_app|done].
Qed.

Lemma inv_prefix tr tr' o : tr `prefix_of` tr' → inv tr o → inv tr' o.
Proof. intros [k ->]. apply inv_app. Qed.

Lemma inv_same tr o o' :
  sameIdentity o' o → rep_Spec o' = rep_Spec o → rep_Replicas o' = rep_Replicas o →
  inv tr o → inv tr o'.
Proof.
  intros Hid Hsp Hst [Hi Hs Ht]. split; [|by rewrite Hsp|by rewrite Hst].
  intros Hh. by eapply sameIdentity_requested, Hi.
Qed.

(** An acknowledged version. *)
Lemma inv_delivered tr ev o :
  acknowledgedBy ev = Some o → deliveredBy ev = Some o →
  (honest (tr ++ [ev]) → isRequested req o) → inv (tr ++ [ev]) o.
Proof.
  intros Ha Hd Hi. split; [done| |].
  - exists o. split; [by apply delivered_snoc|done].
  - intros _ _. exists o. split; [by apply acknowledged_snoc|done].
Qed.

Lemma honest_snoc tr ev : honest (tr ++ [ev]) → honest tr ∧ honestResponse (ev_req ev) (ev_resp ev).
Proof. intros [? H]%honest_app. split; [done|]. by inversion H. Qed.

#[local] Hint Resolve inv_app : core.

(** ** One target *)

Section Target.
Variables (tmpl : option string) (t : targetEnv).

Definition targetOk (tr : KHistory) : Prop :=
  targetDelivered tr (t_def t) ∧
  leadsTo platformCluster tr (t_access t) (clusterStatusRef t).

Lemma targetOk_prefix tr tr' : tr `prefix_of` tr' → targetOk tr → targetOk tr'.
Proof. intros [k ->] [? ?]. split; [by apply targetDelivered_app|by apply leadsTo_app]. Qed.

Lemma renderTarget_inv tn s tr :
  inv tr (s_Object s) →
  mwp P (renderTarget tmpl t tn) s tr (λ tr' s' _, inv tr' (s_Object s')).
Proof.
  intros HI. unfold renderTarget, renderExactCopy, renderTemplate, failTemplating.
  repeat (rstep; simpl); eauto.
Qed.

Lemma detectConflict_inv rendered raw s tr :
  inv tr (s_Object s) →
  mwp P (detectConflict t rendered raw) s tr (λ tr' s' _, inv tr' (s_Object s')).
Proof.
  intros HI. unfold detectConflict, recordRendered. repeat (rstep; simpl); eauto.
Qed.

Lemma mayOverwrite_quiet tr ev acc u :
  quiet ev = true → mayOverwrite req tr acc u → mayOverwrite req (tr ++ [ev]) acc u.
Proof.
  intros Hq (tr0 & r & mid & -> & Hmid & Hw).
  exists tr0, r, (mid ++ [ev]). split; [by rewrite <- app_assoc|].
  split; [by apply Forall_app_2, Forall_singleton|].
  destruct r as [ex| |]; simpl in *; try done.
  destruct Hw as [?|(td & ? & ?)]; [by left|]. right. exists td.
  split; [by apply targetDelivered_app|done].
Qed.

Lemma mayOverwrite_now tr acc u r :
  writable req (tr ++ [Ev (GetObject acc (u_GVK u) (u_Namespace u) (u_Name u)) r]) r →
  mayOverwrite req (tr ++ [Ev (GetObject acc (u_GVK u) (u_Namespace u) (u_Name u)) r]) acc u.
Proof. intros Hw. exists tr, r, []. by repeat split. Qed.

(** The existence check: when it lets the target pass, writing is allowed. *)
Lemma checkOwnership_ok rendered existing s tr :
  inv tr (s_Object s) → targetOk tr →
  mwp P (checkOwnership t rendered existing) s tr (λ tr' s' fl,
    inv tr' (s_Object s') ∧ (fl = Next tt → tr' = tr ∧ (honest tr → writable req tr (Found existing)))).
Proof.
  intros HI [Htd _]. unfold checkOwnership, failExists.
  rstep. rstep. rstep.
  { rstep. split; [done|]. intros _. split; [done|]. intros Hh. left.
    exists (s_Object s). split; [by apply HI|done]. }
  destruct (GetTargetConflictPolicy (t_def t)) eqn:Hpol;
    repeat (rstep; simpl); try (split; [done|]; intros ?; done).
  split; [done|]. intros _. split; [done|]. intros _. right. exists (t_def t).
  split; [done|]. split; [done|].
  match goal with H : negb _ = false |- _ => apply negb_false_iff in H; rename H into Hdel end.
  split; [done|].
  match goal with H : ownedByOther _ _ = false |- _ => revert H end.
  unfold ownedByOther.
  match goal with H : ownedByThis _ _ = false |- _ => rewrite H end. simpl.
  by intros ->%negb_false_iff%String.eqb_eq.
Qed.

Lemma ensureNamespace_ok rendered s tr tr0 err :
  tr = tr0 ++ [@Ev _ Resp (GetObject (t_access t) (u_GVK rendered) (u_Namespace rendered)
                             (u_Name rendered)) (NotFound err)] →
  inv tr (s_Object s) → targetOk tr →
  mwp P (ensureNamespace t rendered) s tr (λ tr' s' fl,
    inv tr' (s_Object s') ∧ mayOverwrite req tr' (t_access t) rendered).
Proof.
  intros Htr HI [Htd _]. unfold ensureNamespace, failNamespaceDeleting, skipNamespace.
  assert (mayOverwrite req tr (t_access t) rendered) as Hmay.
  { rewrite Htr. by apply mayOverwrite_now. }
  assert (∀ tr' ev, quiet ev = true → mayOverwrite req tr' (t_access t) rendered →
            mayOverwrite req (tr' ++ [ev]) (t_access t) rendered) as Hq.
  { intros. by apply mayOverwrite_quiet. }
  repeat (rstep; simpl); eauto 10.
  lazymatch goal with
  | |- mayCreateNamespace (?a ++ ?b) _ _ => pose proof (targetDelivered_app a b _ Htd) as Htd'
  end.
  rewrite Htr, <- app_assoc in Htd' |- *. do 6 eexists. split; [by subst|].
  split; [by apply String.eqb_neq|]. by split.
Qed.

Lemma checkExisting_ok rendered s tr :
  inv tr (s_Object s) → targetOk tr →
  mwp P (checkExisting t rendered) s tr (λ tr' s' fl,
    inv tr' (s_Object s') ∧
    (fl = Next tt → honest tr' → mayOverwrite req tr' (t_access t) rendered)).
Proof.
  intros HI Hok. unfold checkExisting, fetchExisting.
  assert (∀ ev, targetOk (tr ++ [ev])) as Hok'.
  { intros ev. eapply targetOk_prefix, Hok. by apply prefix_app_r. }
  rstep. rstep. rstep; [done|]. rstep; repeat rstep; [| |split; [by eauto|done]].
  - eapply mwp_mono; [|apply checkOwnership_ok; eauto].
    intros tr' s' fl [HI' Hw]. split; [done|]. intros ->. destruct (Hw eq_refl) as [-> Hw'].
    intros Hh. apply mayOverwrite_now, Hw', Hh.
  - eapply mwp_mono; [|eapply ensureNamespace_ok; eauto].
    intros tr' s' fl [HI' Hw]. by split.
Qed.

(** Tracking in the status: when it lets the target pass, the list in memory
    has the entry. *)
Lemma trackInStatus_ok rendered s tr :
  inv tr (s_Object s) →
  (honest tr → mayOverwrite req tr (t_access t) rendered) →
  mwp P (trackInStatus platformCluster t rendered) s tr (λ tr' s' fl,
    inv tr' (s_Object s') ∧
    (fl = Next tt → honest tr' →
       mayOverwrite req tr' (t_access t) rendered ∧
       ContainsRaw (u_GVK rendered) (u_Namespace rendered) (u_Name rendered) (clusterStatusRef t)
         (rep_Replicas (s_Object s')) = true)).
Proof.
  intros HI Hmay. unfold trackInStatus. rstep. rstep. rstep.
  { rstep. split; [done|]. intros _ Hh. by split; [apply Hmay|]. }
  rstep. rstep; [done|]. destruct r as [o err].
  assert (honest (tr ++ [@Ev _ Resp (PatchReplicaStatus platformCluster
            (rep_set_Replicas (AddRaw (u_GVK rendered) (u_Namespace rendered) (u_Name rendered)
               (clusterStatusRef t) (rep_Replicas (s_Object s))) (s_Object s)) (s_OldObject s))
            (o, err)]) →
          isRequested req o ∧ rep_Replicas o =
            AddRaw (u_GVK rendered) (u_Namespace rendered) (u_Name rendered)
               (clusterStatusRef t) (rep_Replicas (s_Object s))) as Hho.
  { intros [Hh [Hid Hst]]%honest_snoc. split; [|exact Hst].
    eapply sameIdentity_requested; [exact Hid|]. by apply (inv_identity _ _ HI). }
  rstep. rstep. simpl. destruct err as [e|]; rstep; simpl.
  - split; [|done]. split; [by intros []%Hho| |].
    + exists o. split; [by apply delivered_snoc|done].
    + intros _ [_ Hst]%statusPatched_app. by inversion Hst.
  - split; [apply inv_delivered; [done|done|by intros []%Hho]|].
    intros _ Hh. destruct (Hho Hh) as [_ ->]. split; [|apply Contains_Add].
    apply mayOverwrite_quiet; [done|]. apply Hmay. by apply honest_snoc in Hh as [? _].
Qed.

Lemma syncTarget_ok rendered s tr :
  inv tr (s_Object s) → targetOk tr → (honest tr → marked providerName req rendered) →
  (honest tr →
     mayOverwrite req tr (t_access t) rendered ∧
     ContainsRaw (u_GVK rendered) (u_Namespace rendered) (u_Name rendered) (clusterStatusRef t)
         (rep_Replicas (s_Object s)) = true) →
  mwp P (syncTarget t rendered) s tr (λ tr' s' _, inv tr' (s_Object s')).
Proof.
  intros HI [_ Hacc] Hmk Hpre. unfold syncTarget, recordManaged, failSync.
  rstep. rstep.
  { intros Hh. destruct (Hpre Hh) as [? Hc]. split; [done|]. split; [by apply Hmk|].
    intros Hsp. destruct (inv_status _ _ HI Hh Hsp) as (rep & ? & Heq).
    exists rep, (clusterStatusRef t). by rewrite Heq. }
  repeat (rstep; simpl); eauto. eexists _, _, _. by split.
Qed.

Lemma handleTarget_ok tn s tr :
  inv tr (s_Object s) → targetOk tr →
  mwp P (handleTarget providerName platformCluster tmpl t tn) s tr
    (λ tr' s' _, inv tr' (s_Object s')).
Proof.
  intros HI Hok. unfold handleTarget.
  rstep. eapply mwp_mono; [|apply mwp_prefix, renderTarget_inv, HI].
  intros tr1 s1 [[rendered raw]| |why] [HI1 Hp1]; [|done|done].
  rstep. eapply mwp_mono; [|apply mwp_prefix, detectConflict_inv, HI1].
  intros tr2 s2 [[]| |why] [HI2 Hp2]; [|done|done]. rstep. rstep.
  assert (targetOk tr2) as Hok2 by (eapply targetOk_prefix, Hok; by etrans).
  set (u := setManagementLabels _ _ _).
  assert (honest tr2 → marked providerName req u) as Hmk.
  { intros Hh. exists (s_Object s2), rendered. split; [by apply (inv_identity _ _ HI2)|done]. }
  rstep. eapply mwp_mono; [|apply mwp_prefix, checkExisting_ok; done].
  intros tr3 s3 [[]| |why] [[HI3 Hm3] Hp3]; [|done|done].
  rstep. eapply mwp_mono; [|apply mwp_prefix, trackInStatus_ok; [done|by apply Hm3]].
  intros tr4 s4 [[]| |why] [[HI4 Hm4] Hp4]; [|done|done].
  assert (tr2 `prefix_of` tr4) as Hp24 by by etrans.
  apply syncTarget_ok; [done|by eapply targetOk_prefix| |by apply Hm4].
  intros Hh. apply Hmk. destruct Hp24 as [k ->]. by apply honest_app in Hh as [? _].
Qed.

End Target.

(** ** handleCreateOrUpdate *)

Section CreateOrUpdate.
Variable clusterList : list Cluster.

(** What is left of the invariant after an early return. *)
Definition identified (tr : KHistory) (s : rstate) : Prop := honest tr → isRequested req (s_Object s).

Lemma inv_identified tr s : inv tr (s_Object s) → identified tr s.
Proof. intros [? _ _]. done. Qed.

#[local] Hint Resolve inv_identified : core.

(** The object in memory is the version the server delivered last. *)
Definition pristine (tr : KHistory) (s : rstate) : Prop :=
  s_OldObject s = s_Object s ∧ delivered tr (s_Object s).

Lemma ensureFinalizer_ok s tr :
  inv tr (s_Object s) → pristine tr s → IsZero (rep_DeletionTimestamp (s_Object s)) = true →
  mwp P (ensureFinalizer platformCluster) s tr (λ tr' s' fl,
    identified tr' s' ∧ (fl = Next tt → inv tr' (s_Object s'))).
Proof.
  intros HI [Hold Hdel] Hz. unfold ensureFinalizer. rstep. rstep.
  pose proof (AddFinalizer_law (rep_Finalizers (s_Object s)) ReplicaFinalizer) as Hadd.
  destruct (AddFinalizer (rep_Finalizers (s_Object s)) ReplicaFinalizer) as [fs added].
  assert (inv tr (rep_set_Finalizers fs (s_Object s))) as HI' by by apply (inv_same _ (s_Object s)).
  rstep. rstep. destruct added; [|rstep; simpl; by split; [apply inv_identified|]].
  rstep. rstep. rstep. rstep.
  { case_decide as Hin; [done|]. injection Hadd as ->. simpl. rewrite Hold.
    split; [done|]. unfold mayPatch. rewrite Hz. by repeat split. }
  destruct r as [o err]. rstep. rstep. simpl.
  assert (honest (tr ++ [@Ev _ Resp (PatchReplica platformCluster
            (rep_set_Finalizers fs (s_Object s)) (s_OldObject s)) (o, err)]) →
          isRequested req o) as Hid.
  { intros [Hh Ho]%honest_snoc. eapply sameIdentity_requested; [exact Ho|].
    by apply (inv_identity _ _ HI'). }
  destruct err as [e|]; rstep; [by split|].
  split; [done|]. intros _. by apply inv_delivered.
Qed.

Lemma parseTemplate_ok s tr :
  inv tr (s_Object s) →
  mwp P parseTemplate s tr (λ tr' s' _, inv tr' (s_Object s')).
Proof. intros HI. unfold parseTemplate. repeat (rstep; simpl); done. Qed.

Lemma fetchSource_ok src s tr :
  inv tr (s_Object s) →
  mwp P (fetchSource platformCluster src) s tr (λ tr' s' _, inv tr' (s_Object s')).
Proof. intros HI. unfold fetchSource. repeat (rstep; simpl); eauto. Qed.

Lemma fetchSources_ok s tr :
  inv tr (s_Object s) →
  mwp P (fetchSources platformCluster) s tr (λ tr' s' _, inv tr' (s_Object s')).
Proof.
  intros HI. unfold fetchSources. rstep. rstep.
  apply (mwp_for_each_return _ _ _ _ _ (λ _ tr' s', inv tr' (s_Object s'))); [|done|done].
  intros pre x post tr' s' _ HI'. eapply mwp_mono; [|by apply fetchSource_ok].
  intros tr'' s'' [] ?; done.
Qed.

Lemma selectNamespaces_ok sel logName items s tr :
  inv tr (s_Object s) →
  mwp P (selectNamespaces sel logName items) s tr (λ tr' s' fl, inv tr' (s_Object s') ∧ tr' = tr).
Proof.
  revert s. induction items as [|ns items IH]; intros s HI; simpl; [by rstep|].
  rstep.
  - rstep. rstep. by apply IH.
  - rstep. eapply mwp_mono; [|by apply IH]. intros tr' s' [names| |why] [? ->]; [|done|done].
    by rstep.
Qed.

(** The access that [resolveTarget] returns leads to the cluster. *)
Definition statusRefOf (td : TargetDefinition) (tc : option Cluster) : option ObjectReference :=
  match tc with
  | Some _ => if isNextTo td then None else Some (clusterRefOf tc)
  | None => None
  end.

Lemma resolveTarget_ok td tc s tr :
  inv tr (s_Object s) →
  mwp P (resolveTarget platformCluster td tc (ClusterNameFromCluster tc)) s tr
    (λ tr' s' fl, inv tr' (s_Object s') ∧
       ∀ acc names, fl = Next (acc, names) → leadsTo platformCluster tr' acc (statusRefOf td tc)).
Proof.
  intros HI. unfold resolveTarget.
  assert (∀ r : Resp (ProviderGet (ClusterNameFromCluster tc)), ∀ acc, r = inr acc →
          isNextTo td = false →
          leadsTo platformCluster (tr ++ [Ev (ProviderGet (ClusterNameFromCluster tc)) r]) acc
            (statusRefOf td tc)) as Hlead.
  { intros r acc -> Hnt. unfold statusRefOf. rewrite Hnt.
    destruct tc as [c|]; [exists c; split; [done|]|right]; apply elem_of_app; right; by left. }
  repeat (rstep; simpl); try done; try (split; [by eauto|congruence]).
  - split; [done|]. intros acc names [= <- <-].
    unfold statusRefOf. simpl. rewrite Heqb. by left.
  - split; [by eauto|]. intros acc names [= <- <-]. eauto.
  - eapply mwp_mono; [|apply selectNamespaces_ok; by eauto].
    intros tr' s' [names| |why] [? ->]; [|done|done]. rstep. split; [done|].
    intros acc names' [= <- <-]. apply leadsTo_app. eauto.
  - split; [by eauto|]. intros acc names [= <- <-]. eauto.
Qed.

Lemma handleCluster_ok tmpl td tc s tr :
  inv tr (s_Object s) → targetDelivered tr td →
  mwp P (handleCluster providerName platformCluster tmpl td tc) s tr
    (λ tr' s' _, inv tr' (s_Object s')).
Proof.
  intros HI Htd. unfold handleCluster. rstep; [by rstep|].
  rstep. eapply mwp_mono; [|apply mwp_prefix, resolveTarget_ok, HI].
  intros tr1 s1 [[acc names]| |why] [[HI1 Hacc] [k ->]]; [|done|done].
  rstep. eapply mwp_mono.
  2: { apply (mwp_for_each_safe _ _ _ _ _ (λ tr' s', inv tr' (s_Object s'))); [|done].
       intros tn tr' s' _ Hp HI'. apply handleTarget_ok; [done|].
       eapply targetOk_prefix; [done|]. split; simpl.
       - by apply targetDelivered_app.
       - by apply (Hacc acc names). }
  intros tr2 s2 [[]| |why] (? & ? & ?); [|done|done]. by rstep.
Qed.

Lemma handleCreateOrUpdate_ok s tr :
  inv tr (s_Object s) → pristine tr s → IsZero (rep_DeletionTimestamp (s_Object s)) = true →
  mwp P (handleCreateOrUpdate providerName platformCluster clusterList) s tr
    (λ tr' s' _, identified tr' s').
Proof.
  intros HI Hpr Hz. unfold handleCreateOrUpdate.
  rstep. eapply mwp_mono; [|by apply ensureFinalizer_ok].
  intros tr1 s1 [[]| |why] [Hid1 HI1]; [|done|done]. specialize (HI1 eq_refl).
  rstep. eapply mwp_mono; [|by apply parseTemplate_ok].
  intros tr2 s2 [tmpl| |why] HI2; [|by eauto|by eauto].
  rstep. eapply mwp_mono; [|by apply fetchSources_ok].
  intros tr3 s3 [[]| |why] HI3; [|by eauto|by eauto].
  rstep. rstep. rstep. rstep. rstep. rstep. rstep.
  destruct (inv_spec _ _ HI3) as (rep & Hrep & Hspec).
  eapply mwp_mono.
  2: { apply (mwp_for_each_safe _ _ _ _ _ (λ tr' s', inv tr' (s_Object s'))); [|done].
       intros td tr' s' Htd Hp HI'. simpl in Htd. unfold handleTargetDef.
       eapply mwp_mono; [|apply (mwp_for_each_safe _ _ _ _ _ (λ tr' s', inv tr' (s_Object s'))); [|done]].
       - intros ??? [? _]. done.
       - intros tc tr'' s'' _ Hp' HI''. apply handleCluster_ok; [done|].
         destruct Hp as [k ->], Hp' as [k' ->]. do 2 apply targetDelivered_app.
         exists rep. split; [done|]. by rewrite Hspec. }
  intros tr4 s4 [[]| |why] (HI4 & _ & _); [|by eauto|by eauto].
  unfold finishCreateOrUpdate. rstep. simpl. destruct (s_templatingErrorSet s4); by apply inv_identified.
Qed.

End CreateOrUpdate.

(** ** Deletion *)

Section Delete.
Variable clusterList : list Cluster.

Lemma identified_app tr tr' s s' :
  sameIdentity (s_Object s') (s_Object s) → identified tr s → identified (tr ++ tr') s'.
Proof.
  intros Hid H [Hh _]%honest_app. eapply sameIdentity_requested; [done|]. by apply H.
Qed.

Lemma identified_same tr s s' :
  sameIdentity (s_Object s') (s_Object s) → identified tr s → identified tr s'.
Proof. intros Hid H Hh. eapply sameIdentity_requested; [done|]. by apply H. Qed.

#[local] Ltac keep_identity :=
  first [done
        | eapply identified_app; [|solve [eauto]]; by repeat split
        | eapply identified_same; [|solve [eauto]]; by repeat split].

Lemma forget_ok ref res s tr :
  identified tr s → mwp P (forget ref res) s tr (λ tr' s' _, identified tr' s').
Proof. intros HI. unfold forget, removeCondition, removeRawFromStatus. repeat rstep. keep_identity. Qed.

Lemma stripLabels_released labels : releasedLabels labels (stripLabels labels).
Proof.
  intros k. unfold stripLabels, managementLabels. destruct labels as [m|]; simpl; [|by case_decide].
  rewrite !lookup_delete. repeat case_decide; subst; set_solver.
Qed.

Lemma deleteResource_ok ref logName acc res s tr :
  identified tr s →
  mwp P (deleteResource providerName ref logName acc res) s tr (λ tr' s' _, identified tr' s').
Proof.
  intros HI. unfold deleteResource, failDelete, awaitDeletion.
  rstep. rstep; [done|].
  assert (∀ ev, identified (tr ++ [ev]) s) as HI' by (intros; keep_identity).
  rstep; [|by apply forget_ok|rstep; keep_identity].
  rstep. rstep. rstep; [by apply forget_ok|].
  match goal with H : negb (isManaged _ _ _) = false |- _ => apply negb_false_iff in H end.
  rstep; [|rstep].
  - rstep. rstep.
    { intros Hh. eexists tr, _, _, _, (s_Object s). split; [done|].
      split; [exact (HI' _ Hh)|]. split; [done|]. split; [by apply String.eqb_eq|].
      split; [done|apply stripLabels_released]. }
    rstep; [rstep; keep_identity|]. apply forget_ok. keep_identity.
  - rstep. rstep.
    { intros Hh. eexists tr, _, _, _, (s_Object s). split; [done|].
      split; [exact (HI' _ Hh)|]. split; [done|]. split; [by apply String.eqb_neq|done]. }
    repeat rstep; keep_identity.
  - repeat rstep. keep_identity.
Qed.

Lemma deleteInCluster_ok ref resources s tr :
  identified tr s →
  mwp P (deleteInCluster providerName ref resources) s tr (λ tr' s' _, identified tr' s').
Proof.
  intros HI. unfold deleteInCluster. rstep. rstep; [done|]. rstep.
  - rstep. rstep. rstep. eapply mwp_mono.
    2: { apply (mwp_for_each_safe _ _ _ _ _ identified); [|keep_identity].
         intros res tr' s' _ _ HI'. rstep. keep_identity. }
    intros tr' s' [[]| |why] [? _]; [|done|done]. by rstep.
  - eapply mwp_mono.
    2: { apply (mwp_for_each_safe _ _ _ _ _ identified); [|keep_identity].
         intros res tr' s' _ _ HI'. by apply deleteResource_ok. }
    intros tr' s' fl [? _]. done.
Qed.

Lemma pruneCluster_ok ref resources s tr :
  identified tr s →
  mwp P (pruneCluster clusterList ref resources) s tr (λ tr' s' _, identified tr' s').
Proof.
  intros HI. unfold pruneCluster, removeCondition, removeRawFromStatus.
  rstep; [by rstep|]. rstep; [by rstep|]. rstep. eapply mwp_mono.
  2: { apply (mwp_for_each_safe _ _ _ _ _ identified); [|done].
       intros res tr' s' _ _ HI'. repeat rstep. keep_identity. }
  intros tr' s' [[]| |why] [? _]; [|done|done]. repeat rstep. keep_identity.
Qed.

Lemma deleteObsoleteResources_ok unset s tr :
  identified tr s →
  mwp P (deleteObsoleteResources providerName clusterList unset) s tr
    (λ tr' s' _, identified tr' s').
Proof.
  intros HI. unfold deleteObsoleteResources. rstep; [by rstep|]. rstep. rstep. rstep; [|by rstep].
  rstep. rstep. rstep. rstep. rstep. eapply mwp_mono.
  2: { apply (mwp_range_map_safe _ _ _ _ _ identified); [|done|intros; keep_identity].
       intros k resources tr' s' _ _ HI'. by apply pruneCluster_ok. }
  intros tr1 s1 [[]| |why] [HI1 _]; [|done|done]. rstep. rstep. rstep. rstep. rstep.
  eapply mwp_mono.
  2: { apply (mwp_range_map_safe _ _ _ _ _ identified); [|done|intros; keep_identity].
       intros k resources tr' s' _ _ HI'. by apply deleteInCluster_ok. }
  intros tr2 s2 [[]| |why] [HI2 _]; [|done|done]. rstep. rstep. rstep. keep_identity.
Qed.

Lemma handleDelete_ok s tr :
  inv tr (s_Object s) → pristine tr s → IsZero (rep_DeletionTimestamp (s_Object s)) = false →
  mwp P (handleDelete platformCluster) s tr (λ tr' s' _, identified tr' s').
Proof.
  intros HI [Hold Hdel] Hz. unfold handleDelete. rstep. rstep. rstep; [rstep; rstep; rstep; by apply inv_identified|].
  destruct (RemoveFinalizer (rep_Finalizers (s_Object s)) ReplicaFinalizer) as [fs removed] eqn:Hrm.
  rstep. rstep. rstep; [|rstep; eapply identified_same; [|by apply inv_identified]; done].
  rstep. rstep. rstep. rstep.
  { simpl. rewrite Hold. split; [done|]. unfold mayPatch. rewrite Hz. repeat split; [done| |].
    - match goal with H : Nat.ltb _ _ = false |- _ => apply Nat.ltb_ge in H; revert H end.
      destruct (rep_Replicas _); simpl; [done|lia].
    - simpl. rewrite Hrm. by subst. }
  destruct r as [o err]. rstep. rstep.
  assert (∀ s', s_Object s' = o → identified (tr ++ [@Ev _ Resp (PatchReplica platformCluster
            (rep_set_Finalizers fs (s_Object s)) (s_OldObject s)) (o, err)]) s') as Hid.
  { intros s' Ho [Hh Hr]%honest_snoc. rewrite Ho.
    eapply sameIdentity_requested; [exact Hr|]. by apply (inv_identity _ _ HI). }
  simpl. destruct err as [e|]; [|rstep; by apply Hid].
  rstep. rstep. rstep. rstep. rstep. by apply Hid.
Qed.

End Delete.

(** ** Reconcile *)

Section Reconcile.
#[local] Abbreviation yes := (λ _ _ _, True).

(** Requests that are always permitted keep the policy. *)
Lemma addManagedToStatus_ok s tr : mwp P addManagedToStatus s tr yes.
Proof.
  unfold addManagedToStatus. rstep. rstep. rstep; [|by rstep].
  eapply mwp_mono; [|apply (mwp_range_map_safe _ _ _ _ _ (λ _ _, True)); [|done|done]]; [done|].
  intros k l tr' s' _ _ _.
  eapply mwp_mono; [|apply (mwp_for_each_safe _ _ _ _ _ (λ _ _, True)); [|done]]; [done|].
  intros. by rstep.
Qed.

Lemma skipWaiting_ok unset s tr : mwp P (skipWaiting unset) s tr yes.
Proof. unfold skipWaiting. repeat rstep; done. Qed.

Lemma reconcileListed_ok clusterList s tr :
  inv tr (s_Object s) → pristine tr s →
  mwp P (reconcileListed providerName platformCluster clusterList) s tr yes.
Proof.
  intros HI Hpr. unfold reconcileListed. rstep. rstep. rstep.
  assert (∀ unset s' tr', identified tr' s' →
    mwp P (deleteObsoleteResources providerName clusterList unset ;;;
           (if unset then ret tt else addManagedToStatus) ;;;
           skipWaiting unset ;;; ret unset)%prog s' tr' yes) as Hrest.
  { intros unset s' tr' HI'. rstep.
    eapply mwp_mono; [|by apply deleteObsoleteResources_ok].
    intros tr1 s1 [[]| |why] _; [|done|done]. rstep.
    assert (mwp P (skipWaiting unset ;;; ret unset)%prog s1 tr1 yes) as Hskip.
    { rstep. eapply mwp_mono; [|apply skipWaiting_ok].
      intros ? ? [[]| |why] _; [|done|done]. by rstep. }
    destruct unset.
    - rstep. exact Hskip.
    - eapply mwp_mono; [|apply addManagedToStatus_ok].
      intros ? ? [[]| |why] _; [|done|done].
      rstep. eapply mwp_mono; [|apply skipWaiting_ok].
      intros ? ? [[]| |why] _; [|done|done]. by rstep. }
  destruct (IsZero (rep_DeletionTimestamp (s_Object s))) eqn:Hz.
  - rstep. rstep. eapply mwp_mono; [|by apply handleCreateOrUpdate_ok].
    intros tr1 s1 [[]| |why] HI1; [rstep; by apply Hrest|rstep; by apply Hrest|done].
  - rstep. eapply mwp_mono; [|by apply handleDelete_ok].
    intros tr1 s1 [unset| |why] HI1; [|done|done]. rstep. rstep. rstep.
    + rstep. by apply Hrest.
    + rstep. rstep. rstep. by apply Hrest.
Qed.

Lemma reconcileFetched_ok s tr :
  inv tr (s_Object s) → pristine tr s →
  mwp P (reconcileFetched providerName platformCluster) s tr yes.
Proof.
  intros HI [Hold Hdel]. unfold reconcileFetched. rstep. rstep; [done|]. rstep.
  - rstep. rstep. rstep. rstep. by rstep.
  - apply reconcileListed_ok; [by apply inv_app|]. split; [done|by apply delivered_app].
Qed.

Lemma runFetched_ok rep si tr :
  inv tr rep → delivered tr rep → mwp P (runFetched providerName platformCluster rep) si tr yes.
Proof.
  intros HI Hdel. unfold runFetched. rstep. apply mwp_local.
  eapply mwp_mono; [|by apply reconcileFetched_ok].
  intros tr' s' fl _. repeat rstep; done.
Qed.

Lemma operationOf_reconcile rep :
  operationOf rep = OpReconcile →
  rep_Annotations rep ≫= (.!! OperationAnnotation) = Some OperationAnnotationValueReconcile.
Proof.
  unfold operationOf. destruct (rep_Annotations rep ≫= _) as [op|]; [|done].
  destruct (String.eqb op OperationAnnotationValueIgnore); [done|].
  destruct (String.eqb_spec op OperationAnnotationValueReconcile); [by subst|done].
Qed.

Lemma reconcile_ok si tr : mwp P (reconcile providerName req platformCluster) si tr yes.
Proof.
  unfold reconcile. rstep. rstep; [done|]. rstep; [|by rstep|by rstep].
  assert (∀ tr', honest (tr' ++ [@Ev _ Resp (GetReplica platformCluster (kindOfRequest req)
            (req_NamespacedName req)) (Found a)]) → isRequested req a) as Hid.
  { intros tr' [_ (? & ? & ?)]%honest_snoc. done. }
  rstep; [| |].
  - apply runFetched_ok; [by apply inv_delivered; [| |apply Hid]|by apply delivered_snoc].
  - by rstep.
  - rstep. rstep.
    { split; [done|]. exists tr. split; [done|]. by apply operationOf_reconcile. }
    rstep; [by rstep|]. destruct r0 as [o err]. simpl in *. subst.
    apply runFetched_ok; [|by apply delivered_snoc]. apply inv_delivered; [done|done|].
    intros [Hh Ho]%honest_snoc. eapply sameIdentity_requested; [exact Ho|]. by apply (Hid tr).
Qed.

End Reconcile.
End Safety.

(** The reconcile below [Reconcile] leaves the status update to it. *)
Lemma reconcile_silent `{X : Ext} {XL : ExtLaws X} providerName req platformCluster si tr :
  mwp (safeRequest providerName req platformCluster) (reconcile providerName req platformCluster)
    si tr (λ tr' _ _, ∃ k, tr' = tr ++ k ∧ notConcluded k).
Proof.
  eapply mwp_mono; [|apply (mwp_requests _ (λ e, isStatusUpdate e = false)); [|apply reconcile_ok]].
  - intros tr' s' fl [_ H]. exact H.
  - intros tr' e H. by destruct e.
Qed.

Lemma Reconcile_ok `{X : Ext} {XL : ExtLaws X} providerName req si :
  mwp (safeReconcile providerName req) (Reconcile providerName req) si [] (λ _ _ _, True).
Proof.
  unfold Reconcile. rstep. rstep. rstep. rstep; [by left|]. rstep; [by rstep|].
  simpl. match goal with |- mwp _ _ ?s ?tr _ => 
    assert (∀ tr', tr `prefix_of` tr' → platformOf tr' = Some a) as Hpl by (by intros tr' [k ->]) end.
  rstep. eapply mwp_mono; [|apply mwp_prefix; eapply mwp_permit; [|by apply (reconcile_silent _ _ a)]].
  - intros tr1 s1 [rr| |why] [(k & -> & Hk) Hp]; [|done|done].
    rstep. rstep.
    { right. exists a. split; [by apply Hpl|]. right. split; [done|]. by constructor. }
    destruct r0 as [[updated z] err]. destruct err; [by rstep|]. rstep; by rstep.
  - intros tr' e Hp HP. right. exists a. split; [by apply Hpl|by left].
Qed.
