(* ===== verification/FakeServer.v ===== *)
(** * A concrete environment

    Instances of the classes [Ext] and [ExtLaws], and a small API server that
    answers the requests of [Kube]: the requests of a reconcile can be run
    against it.  The theorems do not depend on this file; it shows that their
    hypotheses can hold and evaluates the definitions on concrete inputs.

    - [fakeExt] picks simple functions for the imported helpers; [fakeLaws]
      proves the documented behaviour of them;
    - [world] is the state of the server: the (Cluster)Replica, the Cluster
      resources, the objects and namespaces by access, and the names of
      objects for which writes are rejected;
    - [serve] answers one request; [runReconcile] runs a whole reconcile. *)

From S2P Require Import Prelude GoLib ApiTypes External Effects Kube.
From S2P Require Import Shared StatusList ReplicaState ReplicaTarget ReplicaReconcile.

(** ** The imported helpers *)

Definition nul : string := String (Ascii.ascii_of_nat 0) "".

Definition fakeMatchLabels (want : StringMap) (have : StringMap) : bool :=
  bool_decide (map_Forall (λ k v, have ≫= (.!! k) = Some v) (default ∅ want)).

Definition dataOf (u : Unstructured) : string :=
  match u_Fields u !! "data" with Some (JStr s) => s | _ => "" end.

(** A rendered text is the data of a ConfigMap with the name "cm". *)
#[export] Instance fakeExt : Ext := {|
  ManagedByLabel := "openmcp.cloud/managed-by";
  OperationAnnotation := "openmcp.cloud/operation";
  OperationAnnotationValueIgnore := "ignore";
  OperationAnnotationValueReconcile := "reconcile";
  ReasonPlatformClusterInteractionProblem := "PlatformClusterInteractionProblem";
  ReasonConfigurationProblem := "ConfigurationProblem";
  ReasonInternalError := "InternalError";
  ReasonClusterAccessError := "ClusterAccessError";
  HostingPlatformCluster := "";
  StatusPhaseTerminating := "Terminating";
  StatusPhaseProgressing := "Progressing";
  StatusPhaseReady := "Ready";
  ReferenceFromObject c := MkRef (cl_Namespace c) (cl_Name c);
  TypedReferenceFromObject u := MkTRef (u_GVK u) (u_Namespace u) (u_Name u);
  ObjectReference_NamespacedName r := MkNN (ref_Namespace r) (ref_Name r);
  TypedObjectReference_NamespacedName r := MkNN (tref_Namespace r) (tref_Name r);
  ClusterName ns n := sprint [ns; "/"; n];
  ClusterNameFromCluster o :=
    match o with Some c => sprint [cl_Namespace c; "/"; cl_Name c] | None => "" end;
  ClusterNameFromReference r :=
    if decide (r = zeroRef) then "" else sprint [ref_Namespace r; "/"; ref_Name r];
  ShortenToXCharactersUnsafe s n := String.substring 0 n s;
  HasAnnotationWithValue a k v := bool_decide (a ≫= (.!! k) = Some v);
  GenerateCreateCondition cs t st r m := cs ++ [MkCond t st r m];
  AddFinalizer fs f := if decide (f ∈ fs) then (fs, false) else (fs ++ [f], true);
  RemoveFinalizer fs f := (filter (.≠ f) fs, bool_decide (f ∈ fs));
  Aggregate l := match omap id l : list ReasonableError with [] => None | e :: _ => Some e end;
  TemplateErrorBuilder := string;
  NewTemplateErrorBuilder err := err;
  WithSource _ bld := bld;
  WithInput _ _ bld := bld;
  WithFormattedOutput _ bld := bld;
  Build bld := bld;
  LabelSelectorAsSelector ls := inr (fakeMatchLabels (MatchLabels ls));
  TemplateParse s := if String.eqb s "!" then Some "unexpected !" else None;
  YamlMarshal u := inr (sprint [u_Name u; "|"; dataOf u]);
  YamlUnmarshal s :=
    if String.eqb s "" then inl "empty document"
    else inr (MkU (GVK "" "v1" "ConfigMap") "" "cm" "" "" 0 0 None [] [] None None ∅
                  {["data" := JStr s]});
  ObjectKeyString ns n := sprint [ns; "/"; n];
  GVKString g := sprint [gvk_Group g; "/"; gvk_Version g; ", Kind="; gvk_Kind g] |}.

Lemma substring_all s n : String.length s ≤ n → String.substring 0 n s = s.
Proof.
  revert n. induction s as [|c s IH]; intros [|n] Hn; simpl in *; [done|done|lia|].
  f_equal. apply IH. lia.
Qed.

#[export] Instance fakeLaws : ExtLaws fakeExt.
Proof.
  split; try done.
  - intros s n Hn. by apply substring_all.
  - intros fs f. simpl. intros [Hne _]%list_elem_of_filter. done.
  - intros l. simpl. induction l as [|[e|] l IH]; simpl.
    + split; [constructor|done].
    + split; [done|]. by intros [? _]%Forall_cons.
    + rewrite Forall_cons, IH. naive_solver.
  - apply (bool_decide_unpack _). vm_compute. exact I.
Qed.

(** ** The server *)

Definition objectKey := (string * TypedObjectReference)%type.

Record world := MkWorld {
  w_replica : option Replica;
  w_clusters : list Cluster;
  w_objects : gmap objectKey Unstructured;
  w_namespaces : gmap (string * string) Namespace;
  (** objects whose writes, and clusters whose accesses fail *)
  w_rejected : list string;
  w_unreachable : list string }.

Definition keyOf (acc : Access) (u : Unstructured) : objectKey :=
  (access_id acc, MkTRef (u_GVK u) (u_Namespace u) (u_Name u)).

Definition w_set_replica (r : Replica) (w : world) : world :=
  MkWorld (Some r) (w_clusters w) (w_objects w) (w_namespaces w) (w_rejected w) (w_unreachable w).
Definition w_set_objects (o : gmap objectKey Unstructured) (w : world) : world :=
  MkWorld (w_replica w) (w_clusters w) o (w_namespaces w) (w_rejected w) (w_unreachable w).
Definition w_set_namespaces (n : gmap (string * string) Namespace) (w : world) : world :=
  MkWorld (w_replica w) (w_clusters w) (w_objects w) n (w_rejected w) (w_unreachable w).

Fixpoint Json_eq_dec (x y : Json) {struct x} : Decision (x = y).
Proof.
  assert (EqDecision string) by apply _.
  unfold Decision. destruct x, y; try (right; congruence); [by left| | | | |].
  - destruct (decide (b = b0)) as [->|]; [by left|right; congruence].
  - destruct (decide (n = n0)) as [->|]; [by left|right; congruence].
  - destruct (decide (s = s0)) as [->|]; [by left|right; congruence].
  - destruct (@list_eq_dec _ Json_eq_dec l l0) as [->|]; [by left|right; congruence].
  - destruct (@list_eq_dec _ (@prod_eq_dec string _ _ Json_eq_dec) l l0) as [->|];
      [by left|right; congruence].
Defined.
#[export] Instance Json_eq_decision : EqDecision Json := Json_eq_dec.
#[export] Instance Unstructured_eq_dec : EqDecision Unstructured.
Proof. solve_decision. Defined.

Definition rejects (w : world) (name : string) : bool := bool_decide (name ∈ w_rejected w).

Definition lookupResult {A} (o : option A) : GetResult A :=
  match o with Some a => Found a | None => NotFound "not found" end.

Definition namespacesOf (w : world) (acc : Access) : list Namespace :=
  omap (λ '((a, _), ns), if String.eqb a (access_id acc) then Some ns else None)
       (map_to_list (w_namespaces w)).

(** Deleting an object with finalizers only marks it. *)
Definition deleteFrom (w : world) (acc : Access) (u : Unstructured) : gmap objectKey Unstructured :=
  match w_objects w !! keyOf acc u with
  | None => w_objects w
  | Some old =>
      match u_Finalizers old with
      | [] => delete (keyOf acc u) (w_objects w)
      | fs => <[keyOf acc u :=
                MkU (u_GVK old) (u_Namespace old) (u_Name old) (u_UID old) (u_ResourceVersion old)
                  (u_Generation old) (u_CreationTimestamp old) (Some 1%Z) fs
                  (u_OwnerReferences old) (u_Labels old) (u_Annotations old) (u_MetaRest old)
                  (u_Fields old)]> (w_objects w)
      end
  end.

(** The status the updater writes: conditions with the same type are replaced. *)
Definition mergeConditions (old new : list Condition) (remove : list string) : list Condition :=
  List.filter (λ c, negb (bool_decide (con_Type c ∈ (con_Type <$> new) ++ remove))) old ++ new.

Definition writtenStatus (rep : Replica) (rr : ReconcileResult) : Replica :=
  let st := rep_Status rep in
  rep_set_Status (MkStatus (rep_Generation rep) (st_Phase st)
    (mergeConditions (st_Conditions st) (rr_Conditions rr) (rr_ConditionsToRemove rr))
    (st_Replicas st)) rep.

Definition someReplica (w : world) (o : Replica) : Replica := default o (w_replica w).

(** Three templates: one that fails, one that prints the cluster's name, and
    plain text. *)
Definition renderText (text : string) (d : TemplateData) : string + string :=
  if String.eqb text "fail" then inl "nil pointer"
  else if String.eqb text "cluster" then
    inr (match tdata_Cluster d with Some (name, _, _) => name | None => "platform" end)
  else inr text.

Definition serve (e : Req) (w : world) : world * Resp e :=
  match e with
  | ProviderGet n =>
      (w, if bool_decide (n ∈ w_unreachable w) then inl "unreachable" else inr (MkAccess n))
  | GetReplica _ _ _ => (w, lookupResult (w_replica w))
  | ListReplicas _ => (w, inr (option_list (w_replica w)))
  | ListClusterReplicas _ => (w, inr [])
  | ListClusters _ => (w, inr (w_clusters w))
  | ListNamespaces acc => (w, inr (namespacesOf w acc))
  | GetNamespace acc n => (w, lookupResult (w_namespaces w !! (access_id acc, n)))
  | CreateNamespace acc n =>
      (w_set_namespaces (<[(access_id acc, n) := MkNs n None 1 None]> (w_namespaces w)) w, None)
  | DeleteOperationAnnotation _ rep => (w, (rep, None))
  | PatchReplica _ obj _ => (w_set_replica obj w, (obj, None))
  | PatchReplicaStatus _ obj _ =>
      if rejects w (rep_Name obj) then (w, (obj, Some "rejected"))
      else (w_set_replica obj w, (obj, None))
  | GetObject acc g ns n => (w, lookupResult (w_objects w !! (access_id acc, MkTRef g ns n)))
  | CouReadTarget acc u => (w, CouCallback (default u (w_objects w !! keyOf acc u)))
  | CouWriteTarget acc u =>
      if bool_decide (w_objects w !! keyOf acc u = Some u) then (w, inr u)
      else if rejects w (u_Name u) then (w, inl "rejected")
      else (w_set_objects (<[keyOf acc u := u]> (w_objects w)) w, inr u)
  | PatchObject acc u _ =>
      if rejects w (u_Name u) then (w, Some "rejected")
      else (w_set_objects (<[keyOf acc u := u]> (w_objects w)) w, None)
  | DeleteObject acc u => (w_set_objects (deleteFrom w acc u) w, Deleted)
  | TemplateExecute text d => (w, (renderText text d, tdata_Sources d))
  | RangeOrder keys => (w, keys)
  | UpdateStatus _ rr phase requeue =>
      match rr_Object rr with
      | None => (w, (someReplica w (MkReplica TReplica "" "" 0 None None None []
                       (MkSpec [] None [] None) (MkStatus 0 "" [] [])),
                     0%Z, re_Error <$> rr_ReconcileError rr))
      | Some rep =>
          let rep := writtenStatus rep rr in
          (w_set_replica rep w, (rep, 0%Z, re_Error <$> rr_ReconcileError rr))
      end
  end.

(** A reconcile against the server: the final world, the history, and the
    final state and result. *)
Definition runReconcile (providerName : string) (req : Request) (w : world) :=
  run serve (Reconcile providerName req Reset) w.
