(* ===== verification/Scenarios.v ===== *)
(** * Concrete reconciles

    Worlds of [FakeServer] and the reconciles run on them: the inputs on which
    the theorems are instantiated and the definitions evaluated. *)

From S2P Require Import Prelude GoLib ApiTypes External Effects Kube.
From S2P Require Import Shared StatusList ReplicaState ReplicaTarget ReplicaReconcile FakeServer.

Definition provider : string := "replicator".
Definition platform : Access := MkAccess "".
Definition configMap : GroupVersionKind := GVK "" "v1" "ConfigMap".

Definition anyLabels : LabelSelector := MkLS None [].
Definition inNamespaces (ids : list string) : option NamespaceTargetDefinition :=
  Some (MkNTD (Some (MkNsSel (Some ids) anyLabels))).

(** A target on the platform cluster, in the given namespaces. *)
Definition hostTarget (ids : list string) (p : option TargetConflictPolicy)
    (n : option NamespacePolicy) : TargetDefinition := MkTD None (inNamespaces ids) p n.
(** A target on every cluster, or next to every cluster. *)
Definition ontoTarget (ids : list string) : TargetDefinition :=
  MkTD (Some (MkCTD None None)) (inNamespaces ids) None None.
Definition nextToTarget : TargetDefinition :=
  MkTD (Some (MkCTD None (Some NextToCluster))) None None None.

Definition source (id name : string) : ReferenceWithID :=
  MkSource (MkTRef configMap "src" name) id.

Definition mkReplica (kind : ReplicaType) (ns name : string) (deleted : option Time)
    (sources : list ReferenceWithID) (tmpl : option string) (targets : list TargetDefinition)
    (status : CreatedResourcesWithTypeList) : Replica :=
  MkReplica kind ns name 1 deleted None None [ReplicaFinalizer]
    (MkSpec sources tmpl targets None) (MkStatus 1 "" [] status).

Definition obj (ns name content : string) (labels : list (string * string)) : Unstructured :=
  MkU configMap ns name "uid" "7" 1 5 None [] []
    (match labels with [] => None | _ => Some (list_to_map labels) end) None ∅
    {["data" := JStr content]}.

(** The labels of a copy of the (Cluster)Replica [ns/name]. *)
Definition copyLabels (kind ns name : string) : list (string * string) :=
  [(ManagedByLabel, provider); (ReplicaSourceKindLabel, kind); (ReplicaSourceNameLabel, name);
   (ReplicaSourceNamespaceLabel, ns)].

Definition objects (l : list (string * Unstructured)) : gmap objectKey Unstructured :=
  list_to_map ((λ '(a, u), (keyOf (MkAccess a) u, u)) <$> l).

Definition namespaces (l : list (string * string)) : gmap (string * string) Namespace :=
  list_to_map ((λ '(a, n), ((a, n), MkNs n None 1 None)) <$> l).

Definition mkCluster (ns name : string) : Cluster := MkCluster ns name None None None 1 [].

Definition src1 : string * Unstructured := ("", obj "src" "cm" "v1" []).

Definition request : Request := MkRequest "" "app" "r1".

Definition tracks (cl : option ObjectReference) (ns name : string) : CreatedResourcesWithTypeList :=
  [MkCRT configMap [MkCR cl ns name]].

(** ** A first reconcile: the copy and its namespace are created *)

Definition w_create : world :=
  MkWorld (Some (mkReplica TReplica "app" "r1" None [source "a" "cm"] None
                   [hostTarget ["t1"] None None] []))
    [] (objects [src1]) (namespaces [("", "src")]) [] [].
Definition run_create := runReconcile provider request w_create.

(** ** The target namespace is no longer selected: the copy is deleted *)

Definition w_obsolete (labels : list (string * string)) : world :=
  MkWorld (Some (mkReplica TReplica "app" "r1" None [source "a" "cm"] None
                   [hostTarget ["t1"] None None] (tracks None "old" "cm")))
    [] (objects [src1; ("", obj "old" "cm" "v0" labels)])
    (namespaces [("", "src"); ("", "old"); ("", "t1")]) [] [].
Definition run_obsolete := runReconcile provider request (w_obsolete (copyLabels "replica" "app" "r1")).
Definition run_keep := runReconcile provider request
  (w_obsolete ((ReplicaDeletionPolicyLabel, ReplicaDeletionPolicyKeep) :: copyLabels "replica" "app" "r1")).

(** ** A foreign object of the same name, with each conflict policy *)

Definition w_conflict (p : option TargetConflictPolicy) : world :=
  MkWorld (Some (mkReplica TReplica "app" "r1" None [source "a" "cm"] None
                   [hostTarget ["t1"] p None] []))
    [] (objects [src1; ("", obj "t1" "cm" "theirs" [])])
    (namespaces [("", "src"); ("", "t1")]) [] [].
Definition run_overwrite :=
  runReconcile provider request (w_conflict (Some TargetConflictPolicyOverwrite)).

(** ** Deletion of a (Cluster)Replica without copies *)

Definition w_deleted (status : CreatedResourcesWithTypeList) : world :=
  MkWorld (Some (mkReplica TReplica "app" "r1" (Some 9%Z) [source "a" "cm"] None
                   [hostTarget ["t1"] None None] status))
    [] (objects [src1]) (namespaces [("", "src")]) [] [].
Definition run_deleted := runReconcile provider request (w_deleted []).

(** ** Copies next to clusters *)

Definition w_nextTo (clusters : list Cluster) (tmpl : option string) (targets : list TargetDefinition)
    (status : CreatedResourcesWithTypeList) (rejected : list string) : world :=
  MkWorld (Some (mkReplica TReplica "app" "r1" None [source "a" "cm"] tmpl targets status))
    clusters
    (objects (src1 :: match status with
                      | [] => []
                      | _ => [("", obj "ns1" "cm" "v0" (copyLabels "replica" "app" "r1"))]
                      end))
    (namespaces [("", "src"); ("", "ns1")]) rejected [].

(** The update of the copy is rejected. *)
Definition run_nextToRejected :=
  runReconcile provider request
    (w_nextTo [mkCluster "ns1" "c1"] None [nextToTarget] (tracks None "ns1" "cm") ["cm"]).

(** Two clusters in one namespace, a manifest that depends on the cluster. *)
Definition run_nextToTwice :=
  runReconcile provider request
    (w_nextTo [mkCluster "ns1" "c1"; mkCluster "ns1" "c2"] (Some "cluster") [nextToTarget] [] []).

(** The status patches are rejected; two target definitions meet in "ns1". *)
Definition run_statusRejected :=
  runReconcile provider request
    (w_nextTo [mkCluster "ns1" "c1"] None [nextToTarget; hostTarget ["ns1"] None None] [] ["r1"]).

(** ** A template that stops working *)

Definition w_template (text : string) : world :=
  MkWorld (Some (mkReplica TReplica "app" "r1" None [source "a" "cm"] (Some text)
                   [hostTarget ["t1"] None None] (tracks None "t1" "cm")))
    [] (objects [src1; ("", obj "t1" "cm" "v0" (copyLabels "replica" "app" "r1"))])
    (namespaces [("", "src"); ("", "t1")]) [] [].
Definition run_templateFails := runReconcile provider request (w_template "fail").

(** ** The copy of a Replica with the same name in another namespace *)

Definition run_namesake :=
  runReconcile provider request (w_obsolete (copyLabels "replica" "other" "r1")).

(** ** A ClusterReplica whose source is itself a copy *)

Definition requestC : Request := MkRequest "" "" "cr1".
Definition w_inherited : world :=
  MkWorld (Some (mkReplica TClusterReplica "" "cr1" None [source "a" "cm"] None
                   [hostTarget ["t1"] None None] []))
    [] (objects [("", obj "src" "cm" "v1" (copyLabels "replica" "app" "r1"))])
    (namespaces [("", "src"); ("", "t1")]) [] [].
Definition run_inherited1 := runReconcile provider requestC w_inherited.
Definition run_inherited2 := runReconcile provider requestC (run_inherited1.1.1).

(** ** A spec that changes during the reconcile *)

(** The source of the spec is given another id whenever the status is patched. *)
Definition w_racing : world :=
  MkWorld (Some (mkReplica TReplica "app" "r1" None [source "a" "cm"] None
                   [hostTarget ["t1"; "t2"] None None] []))
    [] (objects [src1]) (namespaces [("", "src"); ("", "t1"); ("", "t2")]) [] [].

Definition editSource (o : Replica) : Replica :=
  MkReplica (rep_Type o) (rep_Namespace o) (rep_Name o) (rep_Generation o)
    (rep_DeletionTimestamp o) (rep_Labels o) (rep_Annotations o) (rep_Finalizers o)
    (MkSpec [source "b" "cm"] (spec_Template (rep_Spec o)) (spec_Targets (rep_Spec o))
       (spec_Interval (rep_Spec o))) (rep_Status o).

Definition serveRacing (e : Req) (w : world) : world * Resp e :=
  match e with
  | PatchReplicaStatus _ o _ => (w_set_replica (editSource o) w, (editSource o, None))
  | e => serve e w
  end.

Definition run_racing := run serveRacing (Reconcile provider request Reset) w_racing.

(** The history, the outcome and the final world of a run. *)
Definition history {W A} (r : W * KHistory * A) : KHistory := r.1.2.
Definition outcome {W A} (r : W * KHistory * A) : A := r.2.
Definition final {W A} (r : W * KHistory * A) : W := r.1.1.

Lemma outcome_exec {S A W} (h : ∀ e : Req, W → W * Resp e) (m : KM S A) s w fl :
  (outcome (run h (m s) w)).2 = fl →
  exec (m s) (history (run h (m s) w)) ((outcome (run h (m s) w)).1, fl).
Proof. intros <-. rewrite <- surjective_pairing. apply (run_exec h). Qed.

(** The manifest that the event [i] of a history reads or writes. *)
Definition manifestAt (tr : KHistory) (i : nat) : Unstructured :=
  match tr !! i with
  | Some (Ev (CouWriteTarget _ u) _) => u
  | Some (Ev (CouReadTarget _ u) _) => u
  | _ => obj "" "" "" []
  end.

(** Closed decidable facts are evaluated. *)
Ltac concrete := apply (bool_decide_unpack _); vm_compute; exact I.
