(* ===== verification/DeleteProperties.v ===== *)
(** * deleteObsoleteResources does what it is for

    Which resources it touches, that it forgets none that may still exist, and
    that it deals with every obsolete one. *)

From S2P Require Import Prelude GoLib ApiTypes External Effects Kube.
From S2P Require Import StatusList ConditionNames ReplicaState ReplicaTarget ReplicaDelete DeleteSelection.
From S2P Require Import FakeServer Scenarios.

(** ** Vocabulary *)

(** The status entry for a resource of a cluster. *)
Definition entryOf (ref : ObjectReference) (res : TypedObjectReference) : entry :=
  (tref_GVK res, MkCR (normalizeCluster (Some ref)) (tref_Namespace res) (tref_Name res)).

Definition lookup_event (acc : Access) (res : TypedObjectReference) (r : GetResult Unstructured) : KEvent :=
  @Ev _ Resp (GetObject acc (tref_GVK res) (tref_Namespace res) (tref_Name res)) r.

Section Delete.
Context `{X : Ext}.
Variables (providerName : string) (platformCluster : Access) (clusterList : list Cluster).

(** The access was obtained for the cluster. *)
Definition via (tr : KHistory) (ref : ObjectReference) (acc : Access) : Prop :=
  @Ev _ Resp (ProviderGet (ClusterNameFromReference ref)) (inr acc) ∈ tr.

(** Reasons for which the status may drop the entry of a resource. *)
Inductive forgettable (rep : Replica) (tr : KHistory) (ref : ObjectReference)
    (res : TypedObjectReference) : Prop :=
| forget_vanished : ¬ present clusterList ref → forgettable rep tr ref res
| forget_gone acc err :
    via tr ref acc → lookup_event acc res (NotFound err) ∈ tr → forgettable rep tr ref res
| forget_foreign acc obj :
    via tr ref acc → lookup_event acc res (Found obj) ∈ tr →
    isManaged providerName rep (u_Labels obj) = false → forgettable rep tr ref res
| forget_released acc obj :
    via tr ref acc → lookup_event acc res (Found obj) ∈ tr →
    map_get (u_Labels obj) ReplicaDeletionPolicyLabel = ReplicaDeletionPolicyKeep →
    @Ev _ Resp (PatchObject acc (u_set_Labels (stripLabels (u_Labels obj)) obj) obj) None ∈ tr →
    forgettable rep tr ref res.

(** What is done about an obsolete resource. *)
Inductive handled (rep : Replica) (tr : KHistory) (ref : ObjectReference)
    (res : TypedObjectReference) : Prop :=
| handled_unreachable err :
    @Ev _ Resp (ProviderGet (ClusterNameFromReference ref)) (inl err) ∈ tr → handled rep tr ref res
| handled_lookup acc r :
    via tr ref acc → lookup_event acc res r ∈ tr →
    (∀ obj, r = Found obj → isManaged providerName rep (u_Labels obj) = true →
       map_get (u_Labels obj) ReplicaDeletionPolicyLabel ≠ ReplicaDeletionPolicyKeep →
       IsZero (u_DeletionTimestamp obj) = true →
       ∃ d, @Ev _ Resp (DeleteObject acc obj) d ∈ tr) →
    handled rep tr ref res.

(** Why an obsolete resource is still in the status. *)
Inductive blocked (tr : KHistory) (ref : ObjectReference) (res : TypedObjectReference) : Prop :=
| blocked_unreachable err :
    @Ev _ Resp (ProviderGet (ClusterNameFromReference ref)) (inl err) ∈ tr → blocked tr ref res
| blocked_failed acc err :
    via tr ref acc → lookup_event acc res (Failed err) ∈ tr → blocked tr ref res
| blocked_exists acc obj :
    via tr ref acc → lookup_event acc res (Found obj) ∈ tr → blocked tr ref res.

Definition reportedFalse (s : rstate) (ref : ObjectReference) (res : TypedObjectReference) : Prop :=
  ∃ reason message,
    MkCond (TargetCondition ref res) ConditionFalse reason message ∈ s_Conditions s.

(** The requests of the function, from the state [s0] it starts in. *)
Definition onlyObsolete (s0 : rstate) (tr : KHistory) (e : Req) : Prop :=
  match e with
  | RangeOrder _ => True
  | ProviderGet n => ∃ ref, n = ClusterNameFromReference ref ∧ present clusterList ref
  | GetObject acc gvk ns n =>
      ∃ ref, obsolete clusterList s0 ref (MkTRef gvk ns n) ∧ via tr ref acc
  | DeleteObject acc obj =>
      ∃ ref res tr0, obsolete clusterList s0 ref res ∧ via tr ref acc ∧
        tr = tr0 ++ [lookup_event acc res (Found obj)]
  | PatchObject acc _ obj =>
      ∃ ref res tr0, obsolete clusterList s0 ref res ∧ via tr ref acc ∧
        tr = tr0 ++ [lookup_event acc res (Found obj)]
  | _ => False
  end.

(** ** Monotonicity *)

Lemma in_app {A} (x : A) l k : x ∈ l → x ∈ l ++ k.
Proof. intros. apply elem_of_app. by left. Qed.

Lemma in_snoc {A} (x : A) l : x ∈ l ++ [x].
Proof. apply elem_of_app. right. by left. Qed.

Hint Resolve in_app in_snoc : core.

Lemma via_app tr tr' ref acc : via tr ref acc → via (tr ++ tr') ref acc.
Proof. unfold via. auto. Qed.

Hint Resolve via_app : core.

Lemma forgettable_app rep tr tr' ref res :
  forgettable rep tr ref res → forgettable rep (tr ++ tr') ref res.
Proof.
  destruct 1; [by apply forget_vanished|eapply forget_gone|eapply forget_foreign|eapply forget_released];
    eauto.
Qed.

Lemma handled_app rep tr tr' ref res : handled rep tr ref res → handled rep (tr ++ tr') ref res.
Proof.
  destruct 1 as [err H|acc r Hv Hr Hd]; [eapply handled_unreachable; eauto|].
  eapply handled_lookup; [eauto|eauto|]. intros obj ? ? ? ?.
  destruct (Hd obj) as [d ?]; eauto.
Qed.

Lemma blocked_app tr tr' ref res : blocked tr ref res → blocked (tr ++ tr') ref res.
Proof.
  destruct 1; [eapply blocked_unreachable|eapply blocked_failed|eapply blocked_exists]; eauto.
Qed.

(** ** How the state moves

    [moved tr s tr' s']: from [s] to [s'] the status only loses entries that
    may be forgotten, and conditions are only added. *)

Definition statusOf (s : rstate) : CreatedResourcesWithTypeList := rep_Replicas (s_Object s).

Record moved (tr : KHistory) (s : rstate) (tr' : KHistory) (s' : rstate) : Prop := {
  mv_history : tr `prefix_of` tr';
  mv_toDelete : s_toDelete s' = s_toDelete s;
  mv_identity : ∀ labels, isManaged providerName (s_Object s') labels =
                          isManaged providerName (s_Object s) labels;
  mv_conditions : ∀ c, c ∈ s_Conditions s → c ∈ s_Conditions s';
  mv_wf : wf (statusOf s) → wf (statusOf s');
  mv_shrinks : tracked (statusOf s') ⊆ tracked (statusOf s);
  mv_keeps : ∀ e, e ∈ tracked (statusOf s) → e ∈ tracked (statusOf s') ∨
             ∃ ref res, e = entryOf ref res ∧ forgettable (s_Object s) tr' ref res }.

Lemma moved_refl tr s : moved tr s tr s.
Proof. split; auto. Qed.

Lemma forgettable_identity rep rep' tr ref res :
  (∀ labels, isManaged providerName rep labels = isManaged providerName rep' labels) →
  forgettable rep tr ref res → forgettable rep' tr ref res.
Proof.
  intros Hid. destruct 1; [by apply forget_vanished|eapply forget_gone|eapply forget_foreign|eapply forget_released];
    eauto; by rewrite <- Hid.
Qed.

Lemma moved_trans tr1 s1 tr2 s2 tr3 s3 :
  moved tr1 s1 tr2 s2 → moved tr2 s2 tr3 s3 → moved tr1 s1 tr3 s3.
Proof.
  intros [H1 H2 H3 H4 H5 H6 H7] [K1 K2 K3 K4 K5 K6 K7]. split.
  - by etrans.
  - by rewrite K2.
  - intros labels. by rewrite K3.
  - auto.
  - auto.
  - by etrans.
  - intros e He. destruct (H7 e He) as [He'|(ref & res & -> & Hf)].
    + destruct (K7 e He') as [?|(ref & res & -> & Hf)]; [by left|]. right. exists ref, res.
      split; [done|]. eapply forgettable_identity, Hf. intros. by rewrite H3.
    + right. exists ref, res. split; [done|]. destruct K1 as [k ->]. by apply forgettable_app.
Qed.

(** ** One resource *)

Section Loop.
Context {XL : ExtLaws X}.
(** The state the function starts in, and the status it starts with. *)
Variables (s0 : rstate).

#[local] Abbreviation P := (onlyObsolete s0).

(** What is known of an obsolete resource once it has had its turn. *)
Definition dealtWith (tr : KHistory) (s : rstate) (ref : ObjectReference) (res : TypedObjectReference)
    : Prop :=
  handled (s_Object s0) tr ref res ∧
  (wf (statusOf s0) → entryOf ref res ∈ tracked (statusOf s) →
   blocked tr ref res ∧ reportedFalse s ref res).

Lemma dealtWith_moved tr s tr' s' ref res :
  moved tr s tr' s' → dealtWith tr s ref res → dealtWith tr' s' ref res.
Proof.
  intros [[k ->] _ _ Hc _ Hsub _] [Hh Hb]. split; [by apply handled_app|].
  intros Hw Hin. destruct (Hb Hw) as [? (r & m & ?)]; [set_solver|].
  split; [by apply blocked_app|]. exists r, m. by apply Hc.
Qed.

(** The state as it is relative to the start. *)
Definition started (tr : KHistory) (s : rstate) : Prop :=
  (∀ labels, isManaged providerName (s_Object s) labels =
             isManaged providerName (s_Object s0) labels) ∧
  (wf (statusOf s0) → wf (statusOf s)).

Lemma started_moved tr s tr' s' : moved tr s tr' s' → started tr s → started tr' s'.
Proof. intros [_ _ Hid _ Hw _ _] [H1 H2]. split; [intros; by rewrite Hid|auto]. Qed.

(** A step that appends an event and possibly a condition. *)
Lemma moved_event tr s ev s' :
  s_Object s' = s_Object s → s_toDelete s' = s_toDelete s →
  (∀ c, c ∈ s_Conditions s → c ∈ s_Conditions s') → moved tr s (tr ++ [ev]) s'.
Proof.
  intros Ho Ht Hc. unfold statusOf. split; unfold statusOf; rewrite ?Ho; auto.
  by apply prefix_app_r.
Qed.

Lemma moved_state tr s s' :
  s_Object s' = s_Object s → s_toDelete s' = s_toDelete s →
  (∀ c, c ∈ s_Conditions s → c ∈ s_Conditions s') → moved tr s tr s'.
Proof. intros Ho Ht Hc. split; unfold statusOf; rewrite ?Ho; auto. Qed.

Lemma withCondition_keeps t st r m s c :
  c ∈ s_Conditions s → c ∈ s_Conditions (withCondition t st r m s).
Proof. intros Hc. simpl. rewrite GenerateCreateCondition_law. by apply in_app. Qed.

Lemma withCondition_reported ref res r m s :
  reportedFalse (withCondition (TargetCondition ref res) ConditionFalse r m s) ref res.
Proof. exists r, m. simpl. rewrite GenerateCreateCondition_law. apply in_snoc. Qed.

(** Dropping the entry of a forgettable resource. *)
Definition dropped (ref : ObjectReference) (res : TypedObjectReference) (s : rstate) : rstate :=
  set_Object
    (set_ConditionsToRemove s (s_ConditionsToRemove s ++ [TargetCondition ref res]))
    (rep_set_Replicas (RemoveRaw (tref_GVK res) (tref_Namespace res) (tref_Name res) (Some ref)
                         (rep_Replicas (s_Object s))) (s_Object s)).

Lemma moved_dropped tr s ref res :
  forgettable (s_Object s) tr ref res → moved tr s tr (dropped ref res s).
Proof.
  intros Hf. unfold dropped. split; auto;
    unfold statusOf, RemoveRaw; cbn [s_Object set_Object]; rewrite ?rep_Replicas_set.
  - apply wf_Remove.
  - apply tracked_Remove_subseteq.
  - intros e He. destruct (decide (e = entryOf ref res)) as [->|Hne]; [right; eauto|].
    left. apply tracked_Remove_superset. set_solver.
Qed.

Lemma dropped_untracked s ref res :
  wf (statusOf s) → entryOf ref res ∉ tracked (statusOf (dropped ref res s)).
Proof.
  intros Hw. unfold dropped, statusOf, RemoveRaw. cbn [s_Object set_Object].
  rewrite rep_Replicas_set, tracked_Remove by done. unfold entryOf. set_solver.
Qed.

Lemma forget_spec ref res s tr Q :
  Q tr (dropped ref res s) (Next tt) → mwp P (forget ref res) s tr Q.
Proof. intros H. unfold forget, removeCondition, removeRawFromStatus. by repeat rstep. Qed.

Definition settles (tr : KHistory) (s : rstate) ref res (tr' : KHistory) (s' : rstate) : Prop :=
  moved tr s tr' s' ∧ dealtWith tr' s' ref res.

(** The two ways in which an iteration ends. *)
Lemma settles_dropped tr s tr' ref res :
  tr `prefix_of` tr' → started tr s →
  forgettable (s_Object s) tr' ref res → handled (s_Object s0) tr' ref res →
  settles tr s ref res tr' (dropped ref res s).
Proof.
  intros [k ->] [_ Hw] Hf Hh. split.
  - apply moved_trans with (tr ++ k) s; [|by apply moved_dropped].
    split; auto. by exists k.
  - split; [done|]. intros Hwf Hin. exfalso. by apply (dropped_untracked s ref res (Hw Hwf)).
Qed.

Lemma settles_reported tr s tr' s' ref res r m :
  tr `prefix_of` tr' →
  s_Object s' = s_Object s → s_toDelete s' = s_toDelete s → s_Conditions s' = s_Conditions s →
  handled (s_Object s0) tr' ref res → blocked tr' ref res →
  settles tr s ref res tr' (withCondition (TargetCondition ref res) ConditionFalse r m s').
Proof.
  intros [k ->] Ho Ht Hc Hh Hb. split.
  - apply moved_trans with (tr ++ k) s'.
    + split; unfold statusOf; rewrite ?Ho, ?Hc; auto. by exists k.
    + apply moved_state; [done|done|]. intros c. apply withCondition_keeps.
  - split; [done|]. intros _ _. split; [done|]. apply withCondition_reported.
Qed.

Lemma deleteResource_spec ref logName acc res s tr :
  started tr s → obsolete clusterList s0 ref res → via tr ref acc →
  mwp P (deleteResource providerName ref logName acc res) s tr (λ tr' s' fl,
    settles tr s ref res tr' s' ∧ ∀ why, fl ≠ Panic why).
Proof.
  intros Hst Hob Hvia. pose proof Hst as [Hid Hwf].
  unfold deleteResource, failDelete, awaitDeletion.
  assert (∀ ev, tr `prefix_of` tr ++ [ev]) as Hp1 by (intros; by apply prefix_app_r).
  assert (∀ ev ev', tr `prefix_of` (tr ++ [ev]) ++ [ev']) as Hp2
    by (intros; by do 2 apply prefix_app_r).
  rstep. rstep; [exists ref; by destruct res|].
  fold (lookup_event acc res r).
  rstep.
  - rstep. rstep. rstep.
    { match goal with H : negb (isManaged _ _ _) = true |- _ => apply negb_true_iff in H; rename H into Hm end.
      apply forget_spec. split; [|done]. apply settles_dropped; [by auto|done|..].
      - eapply forget_foreign; [eauto|apply in_snoc|done].
      - eapply handled_lookup; [eauto|apply in_snoc|]. intros o [= <-] Hm'. by rewrite Hid in Hm; congruence. }
    match goal with H : negb (isManaged _ _ _) = false |- _ => apply negb_false_iff in H; rename H into Hm end.
    rstep; [|rstep].
    + match goal with H : String.eqb _ _ = true |- _ => apply String.eqb_eq in H; rename H into Hk end.
      assert (∀ ev, handled (s_Object s0) ((tr ++ [lookup_event acc res (Found a)]) ++ [ev]) ref res) as Hh.
      { intros ev. eapply handled_lookup; [by eauto|by eauto|]. by intros o [= <-]. }
      rstep. rstep; [exists ref, res, tr; by auto|]. rstep.
      * rstep. split; [|done]. apply settles_reported; auto.
        eapply blocked_exists; eauto.
      * apply forget_spec. split; [|done]. apply settles_dropped; [by auto|done| |by auto].
        eapply forget_released; eauto.
    + rstep. rstep; [exists ref, res, tr; by auto|].
      assert (∀ d, handled (s_Object s0) ((tr ++ [lookup_event acc res (Found a)]) ++
                [@Ev _ Resp (DeleteObject acc a) d]) ref res) as Hh.
      { intros d. eapply handled_lookup; [by eauto|by eauto|]. intros o [= <-] _ _ _. by eauto. }
      rstep; repeat rstep; (split; [|done]); apply settles_reported; auto;
        eapply blocked_exists; eauto.
    + repeat rstep. split; [|done]. apply settles_reported; auto.
      * eapply handled_lookup; [eauto|apply in_snoc|]. intros o [= <-]. congruence.
      * eapply blocked_exists; eauto.
  - apply forget_spec. split; [|done]. apply settles_dropped; [by auto|done|..].
    + eapply forget_gone; eauto.
    + eapply handled_lookup; [eauto|apply in_snoc|done].
  - rstep. split; [|done]. apply settles_reported; auto.
    + eapply handled_lookup; [eauto|apply in_snoc|done].
    + eapply blocked_failed; eauto.
Qed.

(** ** One cluster *)

Lemma started_refl tr : started tr s0.
Proof. split; auto. Qed.

(** A loop over resources settles all of them. *)
Lemma settle_loop (l : list TypedObjectReference) ref (body : TypedObjectReference → KM rstate unit) s tr :
  (∀ res tr' s', res ∈ l → tr `prefix_of` tr' → started tr' s' →
     mwp P (body res) s' tr' (λ tr'' s'' fl,
       settles tr' s' ref res tr'' s'' ∧ ∀ why, fl ≠ Panic why)) →
  started tr s →
  mwp P (for_each l body) s tr (λ tr' s' fl,
    (moved tr s tr' s' ∧ ∀ res, res ∈ l → dealtWith tr' s' ref res) ∧ fl = Next tt).
Proof.
  intros Hbody Hst.
  apply (mwp_for_each_prefix P l body s tr (λ pre tr' s',
    moved tr s tr' s' ∧ ∀ res, res ∈ pre → dealtWith tr' s' ref res)).
  2: { split; [apply moved_refl|]. by intros res ?%not_elem_of_nil. }
  intros pre x post tr' s' -> [Hmv Hall].
  eapply mwp_mono; [|apply Hbody].
  - intros tr'' s'' fl [[Hmv' Hd] Hp]. split; [|done]. split; [by eapply moved_trans|].
    intros res [Hin| ->%list_elem_of_singleton]%elem_of_app; [|done].
    by eapply dealtWith_moved, Hall.
  - apply elem_of_app. right. by left.
  - by destruct Hmv.
  - by eapply started_moved.
Qed.

Lemma deleteInCluster_spec ref resources s tr :
  started tr s → present clusterList ref →
  (∀ res, res ∈ resources → obsolete clusterList s0 ref res) →
  mwp P (deleteInCluster providerName ref resources) s tr (λ tr' s' fl,
    (moved tr s tr' s' ∧ ∀ res, res ∈ resources → dealtWith tr' s' ref res) ∧
    ∀ why, fl ≠ Panic why).
Proof.
  intros Hst Hpres Hob. unfold deleteInCluster. rstep. rstep; [by exists ref|].
  assert (∀ ev s', s_Object s' = s_Object s → s_toDelete s' = s_toDelete s →
            s_Conditions s' = s_Conditions s → moved tr s (tr ++ [ev]) s') as Hmv0.
  { intros ev s' Ho Ht Hc. apply moved_event; [done|done|]. by rewrite Hc. }
  rstep.
  - rstep. rstep. rstep. eapply mwp_mono.
    2: { eapply settle_loop with (ref := ref); [|eapply started_moved, Hst; by apply Hmv0].
         intros res tr' s' Hres Hp Hst'. rstep. split; [|done].
         apply settles_reported; auto; [eapply handled_unreachable|eapply blocked_unreachable];
           destruct Hp as [k ->]; eauto. }
    intros tr' s' fl [[Hmv Hall] ->]. rstep. split; [|done]. split; [|done].
    eapply moved_trans, Hmv. by apply Hmv0.
  - eapply mwp_mono.
    2: { eapply settle_loop with (ref := ref); [|eapply started_moved, Hst; by apply Hmv0].
         intros res tr' s' Hres Hp Hst'. apply deleteResource_spec; [done|by apply Hob|].
         destruct Hp as [k ->]. unfold via. eauto. }
    intros tr' s' fl [[Hmv Hall] ->]. split; [|done]. split; [|done].
    eapply moved_trans, Hmv. by apply Hmv0.
Qed.

(** ** Pruning the entries of vanished clusters *)

Definition pruned (visited : list ObjectReference) (m : toDeleteMap) : toDeleteMap :=
  filter (λ '(ref, _), ref ∉ visited ∨ present clusterList ref) m.

(** As [moved], but [resourcesToDelete] may shrink and conditions stay. *)
Record prunes (tr : KHistory) (s : rstate) (tr' : KHistory) (s' : rstate) : Prop := {
  pr_history : tr' = tr;
  pr_moved : moved tr s tr' (set_toDelete s' (s_toDelete s));
  pr_conditions : s_Conditions s' = s_Conditions s;
  pr_object : rep_DeletionTimestamp (s_Object s') = rep_DeletionTimestamp (s_Object s) }.

Lemma prune_loop ref resources s tr :
  ¬ present clusterList ref →
  mwp P (for_each resources (λ res,
           removeCondition (TargetCondition ref res) ;;;
           removeRawFromStatus ref res)%prog) s tr (λ tr' s' fl,
    (prunes tr s tr' s' ∧ s_toDelete s' = s_toDelete s ∧
     (wf (statusOf s) → ∀ res, res ∈ resources → entryOf ref res ∉ tracked (statusOf s'))) ∧
    fl = Next tt).
Proof.
  intros Hnp.
  apply (mwp_for_each_prefix P resources _ s tr (λ pre tr' s',
    prunes tr s tr' s' ∧ s_toDelete s' = s_toDelete s ∧
    (wf (statusOf s) → ∀ res, res ∈ pre → entryOf ref res ∉ tracked (statusOf s')))).
  2: { split; [|by split; [|intros ?? ?%not_elem_of_nil]].
       split; [done| |done|done]. by apply moved_state. }
  intros pre res post tr' s' _ ([-> Hmv Hc Hd] & Htd & Hun).
  change (removeCondition (TargetCondition ref res) ;;; removeRawFromStatus ref res)%prog
    with (forget ref res).
  apply forget_spec. split; [|done].
  assert (moved tr (set_toDelete s' (s_toDelete s)) tr
            (dropped ref res (set_toDelete s' (s_toDelete s)))) as Hdr.
  { apply moved_dropped. by apply forget_vanished. }
  split; [|split; [done|]].
  - split; [done| |done|done]. eapply moved_trans; [exact Hmv|exact Hdr].
  - intros Hw res' [Hin| ->%list_elem_of_singleton]%elem_of_app.
    + intros Hin'. apply (Hun Hw res' Hin). by apply (mv_shrinks _ _ _ _ Hdr).
    + apply (dropped_untracked (set_toDelete s' (s_toDelete s))). by apply (mv_wf _ _ _ _ Hmv).
Qed.

Definition prunedResult (ref : ObjectReference) (L : list TypedObjectReference)
    (tr : KHistory) (s : rstate) (tr' : KHistory) (s' : rstate) : Prop :=
  prunes tr s tr' s' ∧
  s_toDelete s' = (if decide (present clusterList ref) then s_toDelete s
                   else delete ref (s_toDelete s)) ∧
  (¬ present clusterList ref → wf (statusOf s) → ∀ res, res ∈ L → entryOf ref res ∉ tracked (statusOf s')).

Lemma prunes_refl tr s : prunes tr s tr s.
Proof. split; [done| |done|done]. by apply moved_state. Qed.

Lemma pruneCluster_spec ref L s tr :
  mwp P (pruneCluster clusterList ref L) s tr (λ tr' s' fl,
    prunedResult ref L tr s tr' s' ∧ ∀ why, fl ≠ Panic why).
Proof.
  unfold pruneCluster.
  assert (present clusterList ref → mwp P (ret tt) s tr (λ tr' s' fl,
    prunedResult ref L tr s tr' s' ∧ ∀ why, fl ≠ Panic why)) as Hkeep.
  { intros Hp. rstep. split; [|done]. split; [apply prunes_refl|]. by rewrite decide_True. }
  case_bool_decide as Hz; [apply Hkeep; by left|].
  case_bool_decide as He; [apply Hkeep; by right|].
  assert (¬ present clusterList ref) as Hnp by (intros [?|?]; done).
  rstep. eapply mwp_mono; [|by apply prune_loop].
  intros tr' s' fl [([-> Hmv Hc Hd] & Htd & Hun) ->]. unfold removeCondition. rstep. rstep. rstep.
  split; [|done]. split; [|split; [|done]].
  - split; [done| |exact Hc|exact Hd]. destruct Hmv. by split.
  - rewrite decide_False by done. simpl. by rewrite Htd.
Qed.

Lemma prunes_trans tr s tr1 s1 tr2 s2 :
  prunes tr s tr1 s1 → prunes tr1 s1 tr2 s2 → prunes tr s tr2 s2.
Proof.
  intros [-> Hm Hc Hd] [-> Hm' Hc' Hd']. split; [done| |by rewrite Hc'|by rewrite Hd'].
  eapply moved_trans; [exact Hm|].
  destruct Hm' as [H1 H2 H3 H4 H5 H6 H7]. by split.
Qed.

(** The whole pruning loop leaves the candidates of the present clusters. *)
Lemma pruning_spec (m : toDeleteMap) s tr :
  s_toDelete s = m →
  mwp P (range_map m (pruneCluster clusterList)) s tr (λ tr' s' fl, fl = Next tt ∧
    tr `prefix_of` tr' ∧ prunes tr' s tr' s' ∧
    s_toDelete s' = filter (λ '(ref, _), present clusterList ref) m ∧
    (wf (statusOf s) → ∀ ref L res, m !! ref = Some L → ¬ present clusterList ref → res ∈ L →
       entryOf ref res ∉ tracked (statusOf s'))).
Proof.
  intros Hm. eapply mwp_mono; [|apply (mwp_range_map_visit P m _ s tr (λ visited tr' s',
    tr `prefix_of` tr' ∧ prunes tr' s tr' s' ∧
    (∀ ref, s_toDelete s' !! ref =
       if decide (ref ∈ visited ∧ ¬ present clusterList ref) then None else m !! ref) ∧
    (wf (statusOf s) → ∀ ref L res, ref ∈ visited → m !! ref = Some L → ¬ present clusterList ref →
       res ∈ L → entryOf ref res ∉ tracked (statusOf s'))))].
  - intros tr' s' fl (-> & order & Hord & Hpre & Hpr & Htd & Hun). split; [done|].
    split; [done|]. split; [done|]. split.
    + apply map_eq. intros ref. rewrite Htd. apply option_eq. intros L.
      rewrite map_lookup_filter_Some. case_decide as Hd.
      * naive_solver.
      * split; [|naive_solver]. intros HL. split; [done|].
        destruct (decide (present clusterList ref)); [done|]. exfalso. apply Hd.
        split; [|done]. by eapply range_order_complete.
    + intros Hw ref L res HL. apply (Hun Hw ref L res); [by eapply range_order_complete|done].
  - intros visited ref L tr' s' Hv HL (Hpre & Hpr & Htd & Hun).
    eapply mwp_mono; [|apply pruneCluster_spec].
    intros tr'' s'' fl [(Hpr' & Htd' & Hun') Hp]. split; [|done].
    pose proof Hpr' as [-> Hmv _ _].
    split; [done|]. split; [by eapply prunes_trans|]. split.
    + intros ref'. rewrite Htd'.
      destruct (decide (present clusterList ref)) as [Hpr1|Hnp].
      * rewrite Htd. apply decide_ext. rewrite elem_of_app, list_elem_of_singleton. naive_solver.
      * destruct (decide (ref' = ref)) as [->|Hne].
        -- rewrite lookup_delete_eq, decide_True; [done|]. split; [apply in_snoc|done].
        -- rewrite lookup_delete_ne, Htd by done. apply decide_ext.
           rewrite elem_of_app, list_elem_of_singleton. naive_solver.
    + intros Hw ref' L' res [Hin| ->%list_elem_of_singleton]%elem_of_app HL' Hnp Hres.
      * intros Hin'. apply (Hun Hw ref' L' res Hin HL' Hnp Hres).
        by apply (mv_shrinks _ _ _ _ Hmv).
      * apply Hun'; [done| |congruence]. by apply (mv_wf _ _ _ _ (pr_moved _ _ _ _ Hpr)).
  - done.
  - intros ev. split; [by apply prefix_app_r|]. split; [apply prunes_refl|]. split.
    + intros ref. rewrite Hm, decide_False; [done|]. by intros [?%not_elem_of_nil _].
    + intros _ ref L res ?%not_elem_of_nil. done.
Qed.

(** ** The whole function *)

Record outcomeOf (tr' : KHistory) (s' : rstate) : Prop := {
  oc_keeps : ∀ e, e ∈ tracked (statusOf s0) → e ∈ tracked (statusOf s') ∨
             ∃ ref res, e = entryOf ref res ∧ forgettable (s_Object s0) tr' ref res;
  oc_shrinks : tracked (statusOf s') ⊆ tracked (statusOf s0);
  oc_wf : wf (statusOf s0) → wf (statusOf s');
  oc_dealt : ∀ ref res, obsolete clusterList s0 ref res → dealtWith tr' s' ref res;
  oc_pruned : wf (statusOf s0) → ∀ ref res, unmanaged s0 ref res → ¬ present clusterList ref →
              entryOf ref res ∉ tracked (statusOf s') }.

Lemma deletion_loop_spec (m : toDeleteMap) s tr :
  started tr s → s_toDelete s = m →
  (∀ ref L, m !! ref = Some L → present clusterList ref ∧
     ∀ res, res ∈ L → obsolete clusterList s0 ref res) →
  mwp P (range_map m (deleteInCluster providerName)) s tr (λ tr' s' fl, fl = Next tt ∧
    moved tr s tr' s' ∧
    ∀ ref L res, m !! ref = Some L → res ∈ L → dealtWith tr' s' ref res).
Proof.
  intros Hst Hm Hob. eapply mwp_mono; [|apply (mwp_range_map_visit P m _ s tr (λ visited tr' s',
    moved tr s tr' s' ∧ ∀ ref L res, ref ∈ visited → m !! ref = Some L → res ∈ L →
      dealtWith tr' s' ref res))].
  - intros tr' s' fl (-> & order & Hord & Hmv & Hall). split; [done|]. split; [done|].
    intros ref L res HL. apply (Hall ref L res); [by eapply range_order_complete|done].
  - intros visited ref L tr' s' _ HL [Hmv Hall]. destruct (Hob ref L HL) as [Hp HLo].
    eapply mwp_mono; [|apply deleteInCluster_spec; [by eapply started_moved|done|done]].
    intros tr'' s'' fl [[Hmv' Hall'] Hnp]. split; [|done]. split; [by eapply moved_trans|].
    intros ref' L' res [Hin| ->%list_elem_of_singleton]%elem_of_app HL' Hres.
    + eapply dealtWith_moved; [done|]. by eapply Hall.
    + apply Hall'. congruence.
  - done.
  - intros ev. split; [by apply moved_event|]. intros ref L res ?%not_elem_of_nil. done.
Qed.

(** [Cleanup] at the end changes the representation only. *)
Definition cleaned (s : rstate) : rstate :=
  set_Object s (rep_set_Replicas (Cleanup (rep_Replicas (s_Object s))) (s_Object s)).

Lemma cleaned_outcome tr' s e :
  outcomeOf tr' s → outcomeOf tr' (set_ReconcileError (cleaned s) e).
Proof.
  intros [H1 H2 H3 H4 H5].
  assert (statusOf (set_ReconcileError (cleaned s) e) = Cleanup (statusOf s)) as Heq by done.
  split; rewrite ?Heq, ?tracked_Cleanup; auto with replicator.
  intros ref res Hob. destruct (H4 ref res Hob) as [Hh Hb]. split; [done|].
  by rewrite Heq, tracked_Cleanup.
Qed.

Lemma cleaned_compact s e x :
  x ∈ statusOf (set_ReconcileError (cleaned s) e) → crt_Resources x ≠ [].
Proof.
  change (x ∈ Cleanup (statusOf s) → crt_Resources x ≠ []).
  rewrite Cleanup_filter, list_elem_of_filter. intros [Hx _] Hnil. rewrite Hnil in Hx. simpl in Hx. lia.
Qed.

(** From the pruned state to the end of the deletion loop. *)
Lemma deleteObsoleteResources_main managed tr :
  s_managed s0 = Some managed →
  mwp P (deleteObsoleteResources providerName clusterList false) s0 tr (λ tr' s' fl,
    fl = Next tt ∧ outcomeOf tr' s' ∧ ∀ x, x ∈ statusOf s' → crt_Resources x ≠ []).
Proof.
  intros Hm. unfold deleteObsoleteResources. rstep. rstep. rewrite Hm. rstep. rstep. rstep. rstep.
  fold (candidates s0 managed). set (cand := candidates s0 managed).
  rstep. eapply mwp_mono; [|by apply (pruning_spec cand)].
  intros tr1 s1 fl (-> & Hp1 & [_ Hmv1 Hc1 Hd1] & Htd1 & Hun1).
  rstep. rstep. rstep. rstep. rewrite Hc1, Htd1. fold (selected clusterList s0 managed).
  set (sel := selected clusterList s0 managed).
  assert (∀ ref L, sel !! ref = Some L → present clusterList ref ∧
            ∀ res, res ∈ L → obsolete clusterList s0 ref res) as Hsel.
  { intros ref L HL. pose proof (selected_lookup clusterList s0 managed ref Hm) as Hl.
    fold sel in Hl. rewrite HL in Hl. destruct Hl as (Hp & _ & Hl). split; [done|].
    intros res. apply Hl. }
  rstep. eapply mwp_mono; [|apply (deletion_loop_spec sel); [|done|exact Hsel]].
  2: { split; [intros; apply (mv_identity _ _ _ _ Hmv1)|apply (mv_wf _ _ _ _ Hmv1)]. }
  intros tr2 s2 fl (-> & Hmv2 & Hall). rstep. rstep. rstep. split; [done|].
  split; [|apply cleaned_compact]. apply cleaned_outcome.
  assert (moved tr1 s0 tr2 (set_toDelete s2 (s_toDelete s0))) as Hmv.
  { apply moved_trans with tr1 (set_toDelete s1 (s_toDelete s0)).
    - destruct Hmv1. by split.
    - destruct Hmv2. by split. }
  split; [apply Hmv|apply Hmv|apply Hmv| |].
  - intros ref res Hob. pose proof (selected_lookup clusterList s0 managed ref Hm) as Hl. fold sel in Hl.
    destruct (sel !! ref) as [L|] eqn:HL; [|by destruct (Hl res)].
    apply (Hall ref L res HL). by apply Hl.
  - intros Hw ref res Hu Hnp Hin.
    pose proof (candidates_lookup s0 managed ref Hm) as Hl. fold cand in Hl.
    destruct (cand !! ref) as [L|] eqn:HL; [|by destruct (Hl res)].
    apply (Hun1 Hw ref L res HL Hnp); [by apply Hl|].
    by apply (mv_shrinks _ _ _ _ Hmv2).
Qed.

End Loop.

(** ** Properties *)

Section Properties.
Context {XL : ExtLaws X}.
Variables (s : rstate) (managed : gmap ObjectReference (list Unstructured)).
Hypothesis Hmanaged : s_managed s = Some managed.

#[local] Abbreviation history_of tr s' fl :=
  (exec (deleteObsoleteResources providerName clusterList false s) tr (s', fl)).

Lemma function_outcome tr s' fl :
  history_of tr s' fl →
  (fl = Next tt ∧ outcomeOf s tr s' ∧ ∀ x, x ∈ statusOf s' → crt_Resources x ≠ []) ∧
  permitted (onlyObsolete s) tr.
Proof.
  intros Hex.
  exact (mwp_exec _ _ _ _ _ _ _ (deleteObsoleteResources_main s managed [] Hmanaged) Hex).
Qed.

(** C5: Only obsolete resources are deleted: a resource the status lists for a
    cluster that exists, that is none of the managed ones, for which this
    reconcile reported no condition, and whose cluster it did not report as
    unhealthy (unless the (Cluster)Replica is in deletion).  The deletion goes
    through an access obtained for that cluster, and the object was read under
    the resource's reference in the step before. *)
Theorem deletes_only_obsolete tr s' fl i acc u r :
  history_of tr s' fl → tr !! i = Some (Ev (DeleteObject acc u) r) →
  ∃ ref res tr0, obsolete clusterList s ref res ∧ via (take i tr) ref acc ∧
    take i tr = tr0 ++ [lookup_event acc res (Found u)].
Proof.
  intros [_ Hp]%function_outcome Hi.
  apply (Hp (take i tr) (Ev (DeleteObject acc u) r) (drop (S i) tr)).
  symmetry. by apply take_drop_middle.
Qed.

(** C4: No copy is forgotten: an entry leaves the status only when its
    cluster's resource no longer exists, or when a lookup through that
    cluster's access showed that the resource is gone, that it does not carry
    the marks of this (Cluster)Replica, or that it is marked "Keep" and has
    been released.  A failed call, an object in deletion, or an order of
    events between them never loses an entry. *)
Theorem no_copy_forgotten tr s' fl e :
  history_of tr s' fl → e ∈ tracked (rep_Replicas (s_Object s)) →
  e ∈ tracked (rep_Replicas (s_Object s')) ∨
  ∃ ref res, e = entryOf ref res ∧ forgettable (s_Object s) tr ref res.
Proof. intros [(_ & Ho & _) _]%function_outcome He. by apply (oc_keeps _ _ _ Ho). Qed.

(** C6: Every obsolete resource is dealt with: the function always runs to its
    end, and for each of them either the cluster's access failed, or the
    resource was looked up and, when it is a live copy without the "Keep" mark,
    its deletion was requested.  An entry that is nevertheless still in the
    status has a reason in the history, and a condition with status False
    reports it. *)
Theorem every_obsolete_dealt_with tr s' fl ref res :
  history_of tr s' fl → wf (rep_Replicas (s_Object s)) → obsolete clusterList s ref res →
  fl = Next tt ∧ handled (s_Object s) tr ref res ∧
  (entryOf ref res ∈ tracked (rep_Replicas (s_Object s')) →
     blocked tr ref res ∧ reportedFalse s' ref res).
Proof.
  intros [(-> & Ho & _) _]%function_outcome Hw Hob. split; [done|].
  destruct (oc_dealt _ _ _ Ho ref res Hob) as [Hh Hb]. split; [done|]. by apply Hb.
Qed.

(** ** Completion *)

Lemma seenConditions_foldl (f : string → bool) cs (m : gmap string ConditionStatus) t :
  (∀ c, c ∈ cs → con_Type c = t → f (con_Type c) = false) →
  foldl (λ m c, if f (con_Type c) then <[con_Type c := con_Status c]> m else m) m cs !! t = m !! t.
Proof.
  revert m. induction cs as [|c cs IH]; intros m H; simpl; [done|].
  rewrite IH by (intros; apply H; [by right|done]).
  destruct (f (con_Type c)) eqn:Hf; [|done]. rewrite lookup_insert_ne; [done|].
  intros Heq. rewrite (H c) in Hf; [done|by left|done].
Qed.

Lemma seenTargetConditions_none cs t :
  (∀ c, c ∈ cs → HasPrefix (con_Type c) ConditionTypeTargetPrefix = false) →
  seenTargetConditions cs !! t = None.
Proof.
  intros H. unfold seenTargetConditions, seenConditions.
  etrans; [apply (seenConditions_foldl
           (λ t, negb (HasPrefix t ConditionTypeClusterPrefix) && HasPrefix t ConditionTypeTargetPrefix)
           cs ∅)|done].
  intros c Hc _. rewrite H by done. apply andb_false_r.
Qed.

Lemma statusEntries_tracked l g r :
  (g, r) ∈ tracked l → (refOfCopy r, trefOfCopy g r) ∈ statusEntries l.
Proof.
  rewrite elem_of_tracked. intros (x & Hx & <- & Hr). apply list_elem_of_bind.
  exists x. split; [|done]. apply list_elem_of_fmap. by exists r.
Qed.

(** No entry names the empty cluster reference: [AddRaw] stores nil instead. *)
Definition normalized (l : CreatedResourcesWithTypeList) : Prop :=
  ∀ g r, (g, r) ∈ tracked l → cr_Cluster r = normalizeCluster (cr_Cluster r).

Lemma entryOf_copy g r :
  cr_Cluster r = normalizeCluster (cr_Cluster r) → entryOf (refOfCopy r) (trefOfCopy g r) = (g, r).
Proof.
  intros Hn. unfold entryOf, refOfCopy, trefOfCopy. destruct r as [[c|] ns n]; simpl in *; [|done].
  by rewrite <- Hn.
Qed.

(** The access succeeded, the lookup found nothing. *)
Definition showsGone (ev : KEvent) : bool :=
  match ev with
  | Ev e r =>
      match e return Resp e → bool with
      | ProviderGet _ => λ r, match r with inr _ => true | inl _ => false end
      | GetObject _ _ _ _ => λ r, match r with NotFound _ => true | _ => false end
      | _ => λ _, true
      end r
  end.

(** C7: Deletion completes: when a (Cluster)Replica is in deletion, nothing is
    managed and no target was reported on, and every access succeeds and every
    lookup finds the resource gone, the status is empty afterwards, so that the
    next reconcile removes the finalizer. *)
Theorem deletion_completes tr s' fl :
  history_of tr s' fl →
  wf (rep_Replicas (s_Object s)) → normalized (rep_Replicas (s_Object s)) →
  IsZero (rep_DeletionTimestamp (s_Object s)) = false → managed = ∅ →
  (∀ c, c ∈ s_Conditions s → HasPrefix (con_Type c) ConditionTypeTargetPrefix = false) →
  Forall (λ ev, showsGone ev = true) tr →
  rep_Replicas (s_Object s') = [].
Proof.
  intros [(-> & Ho & Hcompact) _]%function_outcome Hw Hnorm Hdel Hm Hcs Hgone. rewrite Forall_forall in Hgone.
  assert (∀ g r, (g, r) ∉ tracked (rep_Replicas (s_Object s'))) as Hempty.
  { intros g r Hin. pose proof (oc_shrinks _ _ _ Ho _ Hin) as Hin0.
    pose proof (entryOf_copy g r (Hnorm g r Hin0)) as He.
    assert (unmanaged s (refOfCopy r) (trefOfCopy g r)) as Hu.
    { split; [by apply statusEntries_tracked|]. rewrite Hmanaged, Hm. simpl.
      rewrite lookup_empty. apply not_elem_of_nil. }
    destruct (decide (present clusterList (refOfCopy r))) as [Hp|Hnp].
    - destruct (oc_dealt _ _ _ Ho (refOfCopy r) (trefOfCopy g r)) as [_ Hb].
      { split; [done|]. split; [done|]. split; [by rewrite Hdel|by apply seenTargetConditions_none]. }
      rewrite He in Hb. by destruct (Hb Hw Hin) as [[err Hl%Hgone|acc err ? Hl%Hgone|acc u ? Hl%Hgone] _].
    - apply (oc_pruned _ _ _ Ho Hw _ _ Hu Hnp). by rewrite He. }
  destruct (rep_Replicas (s_Object s')) as [|x l] eqn:Hl; [done|exfalso].
  assert (x ∈ statusOf s') as Hx by (unfold statusOf; rewrite Hl; by left).
  pose proof (Hcompact x Hx) as Hne. destruct (crt_Resources x) as [|r rs] eqn:Hr; [done|].
  apply (Hempty (crt_Type x) r), elem_of_tracked. exists x.
  split; [by left|]. split; [done|]. rewrite Hr. by left.
Qed.

End Properties.
End Delete.

(** ** Witnesses *)

(** The state in which the deletion of [w_obsolete]'s old copy starts. *)
Definition s_before (deleted : option Time) (managed : gmap ObjectReference (list Unstructured)) : rstate :=
  set_managed (rstate_init (mkReplica TReplica "app" "r1" deleted [source "a" "cm"] None
                 [hostTarget ["t1"] None None] (tracks None "old" "cm"))) (Some managed).

Definition run_delete (w : world) (deleted : option Time) :=
  run serve (deleteObsoleteResources provider [] false (s_before deleted ∅)) w.

Lemma delete_exec w deleted :
  exec (deleteObsoleteResources provider [] false (s_before deleted ∅))
    (history (run_delete w deleted)) (outcome (run_delete w deleted)).
Proof. apply (run_exec serve). Qed.

Definition w_live : world := w_obsolete (copyLabels "replica" "app" "r1").

Lemma delete_exec_pair w deleted s' fl :
  outcome (run_delete w deleted) = (s', fl) →
  exec (deleteObsoleteResources provider [] false (s_before deleted ∅))
    (history (run_delete w deleted)) (s', fl).
Proof. intros <-. apply delete_exec. Qed.

Definition oldCopy : Unstructured := obj "old" "cm" "v0" (copyLabels "replica" "app" "r1").
Definition oldReference : TypedObjectReference := MkTRef configMap "old" "cm".

Lemma s_before_wf deleted : wf (rep_Replicas (s_Object (s_before deleted ∅))).
Proof.
  split; [apply NoDup_singleton|]. apply Forall_singleton, NoDup_singleton.
Qed.

Lemma deletes_only_obsolete_witness :
  history (run_delete w_live None) !! 4 = Some (@Ev _ Resp (DeleteObject platform oldCopy) Deleted) ∧
  ∃ ref res, obsolete [] (s_before None ∅) ref res.
Proof.
  match goal with |- ?A ∧ _ => assert A as Hi by (vm_compute; reflexivity) end.
  split; [exact Hi|].
  destruct (outcome (run_delete w_live None)) as [s' fl] eqn:Ho.
  destruct (deletes_only_obsolete provider [] (s_before None ∅) ∅ eq_refl _ _ _ _ _ _ _
              (delete_exec_pair _ _ _ _ Ho) Hi) as (ref & res & _ & Hob & _).
  exists ref, res. exact Hob.
Defined.

Lemma no_copy_forgotten_witness :
  let e := (configMap, MkCR None "old" "cm") in
  e ∈ tracked (rep_Replicas (s_Object (s_before None ∅))) ∧
  (e ∈ tracked (rep_Replicas (s_Object (outcome (run_delete w_live None)).1)) ∨
   ∃ ref res, e = entryOf ref res ∧
     forgettable provider [] (s_Object (s_before None ∅)) (history (run_delete w_live None)) ref res).
Proof.
  intros e.
  assert (e ∈ tracked (rep_Replicas (s_Object (s_before None ∅)))) as He by concrete.
  split; [exact He|].
  destruct (outcome (run_delete w_live None)) as [s' fl] eqn:Ho.
  exact (no_copy_forgotten provider [] (s_before None ∅) ∅ eq_refl _ _ _ e
           (delete_exec_pair _ _ _ _ Ho) He).
Defined.

Lemma every_obsolete_dealt_with_witness :
  handled provider (s_Object (s_before None ∅)) (history (run_delete w_live None)) zeroRef oldReference.
Proof.
  destruct (outcome (run_delete w_live None)) as [s' fl] eqn:Ho.
  assert (obsolete [] (s_before None ∅) zeroRef oldReference) as Hob.
  { split; [split; [by left|apply not_elem_of_nil]|]. split; [by left|].
    split; [discriminate|reflexivity]. }
  destruct (every_obsolete_dealt_with provider [] (s_before None ∅) ∅ eq_refl _ _ _ zeroRef
              oldReference (delete_exec_pair _ _ _ _ Ho) (s_before_wf None) Hob) as (_ & Hh & _).
  exact Hh.
Defined.

Lemma s_before_normalized deleted : normalized (rep_Replicas (s_Object (s_before deleted ∅))).
Proof.
  intros g r (x & ->%list_elem_of_singleton & _ & ->%list_elem_of_singleton)%elem_of_tracked. done.
Qed.

Lemma deletion_completes_witness :
  rep_Replicas (s_Object (outcome (run_delete (w_deleted []) (Some 9%Z))).1) = [].
Proof.
  destruct (outcome (run_delete (w_deleted []) (Some 9%Z))) as [s' fl] eqn:Ho.
  apply (deletion_completes provider [] (s_before (Some 9%Z) ∅) ∅ eq_refl _ _ _
           (delete_exec_pair _ _ _ _ Ho) (s_before_wf _) (s_before_normalized _)); [done|done| |].
  - intros c Hc. by apply not_elem_of_nil in Hc.
  - concrete.
Defined.
