(* ===== verification/CreateProperties.v ===== *)
(** * handleCreateOrUpdate and the end of a reconcile

    Error reporting, panics, the early returns, and the bookkeeping around
    them. *)

From S2P Require Import Prelude GoLib ApiTypes External Effects Kube.
From S2P Require Import Shared StatusList ConditionNames ReplicaState ReplicaTarget ReplicaCreateOrUpdate.
From S2P Require Import ReplicaDelete DeleteSelection ReplicaReconcile ReplicaPolicy ReplicaSafety.
From S2P Require Import FakeServer Scenarios.

(** ** The sources of the (Cluster)Replica

    [wellSourced]: the CRD demands at least one source, and nobody edits the
    list of sources while the reconcile patches the object. *)

Definition wellSourcedResponse (e : Req) : Resp e → Prop :=
  match e with
  | GetReplica _ _ _ => λ r,
      match r with Found rep => spec_Sources (rep_Spec rep) ≠ [] | _ => True end
  | DeleteOperationAnnotation _ _ => λ r, spec_Sources (rep_Spec r.1) ≠ []
  | PatchReplica _ o _ => λ r, spec_Sources (rep_Spec r.1) = spec_Sources (rep_Spec o)
  | PatchReplicaStatus _ o _ => λ r, spec_Sources (rep_Spec r.1) = spec_Sources (rep_Spec o)
  | _ => λ _, True
  end.

Definition wellSourced (tr : KHistory) : Prop :=
  Forall (λ ev, wellSourcedResponse (ev_req ev) (ev_resp ev)) tr.

#[export] Instance ReferenceWithID_eq_dec : EqDecision ReferenceWithID.
Proof. solve_decision. Defined.

#[export] Instance wellSourcedResponse_dec e r : Decision (wellSourcedResponse e r).
Proof.
  destruct e; simpl in *; try apply _;
    match goal with x : GetResult _ |- _ => destruct x; apply _ end.
Defined.

#[export] Instance wellSourced_dec tr : Decision (wellSourced tr).
Proof. unfold wellSourced. apply _. Defined.

Lemma wellSourced_snoc tr ev :
  wellSourced (tr ++ [ev]) → wellSourced tr ∧ wellSourcedResponse (ev_req ev) (ev_resp ev).
Proof. unfold wellSourced. rewrite Forall_app, Forall_singleton. done. Qed.

Definition sourcesOf (s : rstate) : list ReferenceWithID := spec_Sources (rep_Spec (s_Object s)).

Section Create.
Context `{X : Ext} {XL : ExtLaws X}.
Variables (providerName : string) (platformCluster : Access).

(** The sources the reconcile starts with. *)
Variable srcs : list ReferenceWithID.
Hypothesis srcs_nonempty : srcs ≠ [].

(** A source has been read. *)
Definition fetched (tr : KHistory) (src : ReferenceWithID) : Prop :=
  ∃ u, @Ev _ Resp (GetObject platformCluster (tref_GVK (src_Ref src)) (tref_Namespace (src_Ref src))
                     (tref_Name (src_Ref src))) (Found u) ∈ tr.

(** All requests but those of the deletion are permitted; a deletion is when
    all sources have been read. *)
Definition sourcesRead (tr : KHistory) : Prop := wellSourced tr → ∀ src, src ∈ srcs → fetched tr src.

Definition deletesInformed (tr : KHistory) (e : Req) : Prop :=
  match e with
  | DeleteObject _ _ | PatchObject _ _ _ => sourcesRead tr
  | _ => True
  end.

#[local] Abbreviation P := deletesInformed.

(** ** The invariant of the function *)

(** Every condition so far is True unless an error has been recorded. *)
Definition reported (s : rstate) : Prop :=
  Forall (λ e, e = None) (s_errs s) → Forall (λ c, con_Status c = ConditionTrue) (s_Conditions s).

Record good (tr : KHistory) (s : rstate) : Prop := {
  g_requeue : s_RequeueAfter s = 0%Z;
  g_reported : reported s;
  g_sources : wellSourced tr → sourcesOf s = srcs }.

(** In the loops, the sources have been read, and without a template they are
    still as they were read. *)
Record loaded (tmpl : option string) (tr : KHistory) (s : rstate) : Prop := {
  l_good : good tr s;
  l_fetched : wellSourced tr → ∀ src, src ∈ sourcesOf s → fetched tr src;
  l_present : wellSourced tr → tmpl = None →
              ∀ src, src ∈ sourcesOf s → is_Some (s_sources s !! src_ID src);
  l_managed : is_Some (s_managed s) }.

(** What a step may end with. *)
Definition ends {A} (I : KHistory → rstate → Prop) (tr : KHistory) (s : rstate) (fl : Flow A) : Prop :=
  match fl with Panic _ => ¬ wellSourced tr | _ => I tr s end.

Lemma good_same tr ev s s' :
  s_Object s' = s_Object s → s_RequeueAfter s' = s_RequeueAfter s → reported s' →
  good tr s → good (tr ++ [ev]) s'.
Proof.
  intros Ho Hr Hrep [? ? Hs]. split; [by rewrite Hr|done|].
  unfold sourcesOf. rewrite Ho. intros [? _]%wellSourced_snoc. by apply Hs.
Qed.

Lemma good_state tr s s' :
  s_Object s' = s_Object s → s_RequeueAfter s' = s_RequeueAfter s → reported s' →
  good tr s → good tr s'.
Proof.
  intros Ho Hr Hrep [? ? Hs]. split; [by rewrite Hr|done|]. unfold sourcesOf. by rewrite Ho.
Qed.

Lemma fetched_app tr tr' src : fetched tr src → fetched (tr ++ tr') src.
Proof. intros [u ?]. exists u. apply elem_of_app. by left. Qed.

(** Recording an error excuses the condition; a True condition needs no excuse. *)
Lemma reported_error s e :
  reported (set_errs s (s_errs s ++ [Some e])).
Proof. intros [_ H]%Forall_app. by inversion H. Qed.

Lemma reported_withError con e s : reported (withError con e s).
Proof. intros [_ H]%Forall_app. by inversion H. Qed.

Lemma reported_true t r m s : reported s → reported (withCondition t ConditionTrue r m s).
Proof.
  intros H He. simpl. rewrite GenerateCreateCondition_law. apply Forall_app.
  split; [by apply H|by apply Forall_singleton].
Qed.

(** ** One target *)

Section Target.
Variables (tmpl : option string) (t : targetEnv).

#[local] Abbreviation inv := (loaded tmpl).

(** A step that keeps the object, the sources and the managed resources. *)
Lemma loaded_state tr s s' :
  s_Object s' = s_Object s → s_sources s' = s_sources s → s_managed s' = s_managed s →
  s_RequeueAfter s' = s_RequeueAfter s → reported s' → inv tr s → inv tr s'.
Proof.
  intros Ho Hs Hm Hr Hrep [Hg Hf Hp Hmn]. split.
  - by eapply good_state.
  - unfold sourcesOf. by rewrite Ho.
  - unfold sourcesOf. by rewrite Ho, Hs.
  - by rewrite Hm.
Qed.

Lemma loaded_event tr ev s : inv tr s → inv (tr ++ [ev]) s.
Proof.
  intros [Hg Hf Hp Hmn]. split; [by eapply good_same; [..|exact Hg]; [| |apply Hg]| | |done].
  - intros [Hw _]%wellSourced_snoc src Hsrc. by apply fetched_app, Hf.
  - intros [Hw _]%wellSourced_snoc. by apply Hp.
Qed.

Lemma loaded_reported tr s : inv tr s → reported s.
Proof. intros [[_ H _] _ _ _]. exact H. Qed.

#[local] Ltac solve_reported :=
  repeat apply reported_true;
  first [apply reported_withError
        | match goal with H : loaded _ ?tr ?s |- _ => exact (loaded_reported tr s H) end].

#[local] Ltac keeps :=
  simpl; repeat apply loaded_event;
  first [done
        | match goal with H : loaded _ ?tr ?s |- loaded _ ?tr _ =>
            apply (loaded_state tr s); [done|done|done|done|solve_reported|done] end].

Lemma failTemplating_ends {A} rerr s tr :
  inv tr s → mwp P (failTemplating (A := A) rerr) s tr (ends inv).
Proof.
  intros HI. unfold failTemplating. rstep. rstep. rstep. rstep. rstep. rstep.
  - rstep. rstep. simpl. apply (loaded_state tr s); try done. apply reported_error.
  - rstep. rstep. rstep. rstep. simpl. apply (loaded_state tr s); try done.
    intros [_ H]%Forall_app. by inversion H.
Qed.

Lemma renderTarget_ends tn s tr :
  inv tr s → mwp P (renderTarget tmpl t tn) s tr (ends inv).
Proof.
  intros HI.
  assert (tmpl = None ∨ ∃ text, tmpl = Some text) as [Ht|[text Ht]] by (destruct tmpl; eauto).
  - replace (renderTarget tmpl t tn) with (renderExactCopy t tn) by by rewrite Ht.
    unfold renderExactCopy. rstep. rstep.
    pose proof (l_present _ _ _ HI) as Hp. pose proof (g_sources _ _ (l_good _ _ _ HI)) as Hne.
    unfold sourcesOf in Hp, Hne.
    destruct (spec_Sources (rep_Spec (s_Object s))) as [|src rest] eqn:Hsrc.
    + rstep. simpl. intros Hw. by apply srcs_nonempty, eq_sym, Hne.
    + destruct (s_sources s !! src_ID src) eqn:Hl.
      * rstep; rstep; keeps.
      * rstep. simpl. intros Hw. destruct (Hp Hw Ht src) as [u Hu]; [by left|congruence].
  - replace (renderTarget tmpl t tn) with (renderTemplate text t tn) by by rewrite Ht.
    unfold renderTemplate. rstep. rstep. rstep. rstep; [done|]. rstep. rstep.
    assert (inv (tr ++ [@Ev _ Resp (TemplateExecute text (templateData t tn s)) r])
              (set_sources s r.2)) as HI'.
    { apply (loaded_event _ (Ev (TemplateExecute text (templateData t tn s)) r)) in HI.
      destruct HI as [[? ? ?] ? ? ?]. split; [by split|done|by rewrite Ht|done]. }
    rstep; [by apply failTemplating_ends|]. rstep; [by apply failTemplating_ends|]. by rstep.
Qed.

Lemma detectConflict_ends rendered raw s tr :
  inv tr s → mwp P (detectConflict t rendered raw) s tr (ends inv).
Proof. intros HI. unfold detectConflict, recordRendered. repeat rstep; keeps. Qed.

Lemma checkOwnership_ends rendered existing s tr :
  inv tr s → mwp P (checkOwnership t rendered existing) s tr (ends inv).
Proof. intros HI. unfold checkOwnership, failExists. repeat rstep; keeps. Qed.

Lemma ensureNamespace_ends rendered s tr :
  inv tr s → mwp P (ensureNamespace t rendered) s tr (ends inv).
Proof.
  intros HI. unfold ensureNamespace, failNamespaceDeleting, skipNamespace.
  repeat rstep; try done; keeps.
Qed.

Lemma checkExisting_ends rendered s tr :
  inv tr s → mwp P (checkExisting t rendered) s tr (ends inv).
Proof.
  intros HI. unfold checkExisting, fetchExisting. rstep. rstep. rstep; [done|]. rstep.
  - rstep. apply checkOwnership_ends. by apply loaded_event.
  - rstep. apply ensureNamespace_ends. by apply loaded_event.
  - rstep. keeps.
Qed.

(** A status patch may bring back another object. *)
Lemma loaded_patched tr s s' o old r :
  inv tr s →
  sourcesOf s = spec_Sources (rep_Spec o) → s_Object s' = r.1 →
  s_sources s' = s_sources s → s_managed s' = s_managed s → s_RequeueAfter s' = s_RequeueAfter s →
  reported s' →
  inv (tr ++ [@Ev _ Resp (PatchReplicaStatus platformCluster o old) r]) s'.
Proof.
  intros [[Hr Hrep Hs] Hf Hp Hm] Hso Ho Hsr Hmn Hrq Hrep'.
  assert (wellSourced (tr ++ [@Ev _ Resp (PatchReplicaStatus platformCluster o old) r]) →
          wellSourced tr ∧ sourcesOf s' = sourcesOf s) as Hw.
  { intros [Hw Heq]%wellSourced_snoc. split; [done|]. unfold sourcesOf in *. rewrite Ho, Hso. exact Heq. }
  split; [split; [by rewrite Hrq|done|]| | |by rewrite Hmn].
  - intros [? ->]%Hw. by apply Hs.
  - intros [? ->]%Hw src Hsrc. by apply fetched_app, Hf.
  - intros [? ->]%Hw. rewrite Hsr. by apply Hp.
Qed.

Lemma trackInStatus_ends rendered s tr :
  inv tr s → mwp P (trackInStatus platformCluster t rendered) s tr (ends inv).
Proof.
  intros HI. unfold trackInStatus. rstep. rstep. rstep; [by rstep|].
  rstep. rstep; [done|]. rstep. rstep. rstep; rstep; simpl.
  - eapply loaded_patched; [exact HI|done|done|done|done|done|]. apply reported_withError.
  - eapply loaded_patched; [exact HI|done|done|done|done|done|]. exact (loaded_reported tr s HI).
Qed.

Lemma syncTarget_ends rendered s tr :
  is_Some (u_Labels rendered) → inv tr s → mwp P (syncTarget t rendered) s tr (ends inv).
Proof.
  intros [m Hm] HI. unfold syncTarget, failSync, recordManaged.
  rstep. rstep; [done|]. rstep; [rstep; keeps|].
  assert (is_Some (mutateTarget rendered seen)) as [u Hu].
  { unfold mutateTarget, syncLabels. rewrite Hm. by destruct (_ && _). }
  rewrite Hu. rstep. rstep; [done|]. rstep; [rstep; keeps|].
  rstep. rstep. rstep. simpl.
  lazymatch goal with
  | |- loaded _ ((_ ++ [?e1]) ++ [?e2]) _ =>
      pose proof (loaded_event _ e2 _ (loaded_event _ e1 _ HI)) as [[? ? ?] ? ? ?]
  end.
  split; [split; [done|by apply reported_true|done]|done|done|by eexists].
Qed.

Lemma handleTarget_ends tn s tr :
  inv tr s → mwp P (handleTarget providerName platformCluster tmpl t tn) s tr (ends inv).
Proof.
  intros HI. unfold handleTarget.
  rstep. eapply mwp_mono; [|by apply renderTarget_ends].
  intros tr1 s1 [[rendered raw]| |why] HI1; [|done|done].
  rstep. eapply mwp_mono; [|by apply detectConflict_ends].
  intros tr2 s2 [[]| |why] HI2; [|done|done]. rstep. rstep.
  rstep. eapply mwp_mono; [|by apply checkExisting_ends].
  intros tr3 s3 [[]| |why] HI3; [|done|done].
  rstep. eapply mwp_mono; [|by apply trackInStatus_ends].
  intros tr4 s4 [[]| |why] HI4; [|done|done].
  apply syncTarget_ends; [by eexists|done].
Qed.

End Target.
(** ** The loops over clusters and target definitions *)

Section Loops.
Variables (clusterList : list Cluster) (tmpl : option string).

#[local] Abbreviation inv := (loaded tmpl).

Lemma loop_ends {T} (l : list T) body s tr :
  (∀ x tr' s', x ∈ l → inv tr' s' → mwp P (body x) s' tr' (ends inv)) →
  inv tr s → mwp P (for_each l body) s tr (λ tr' s' fl, ends inv tr' s' fl ∧ fl ≠ Stop).
Proof.
  intros Hbody HI. eapply mwp_mono; [|apply (mwp_for_each_panic P l body s tr inv
    (λ tr' _ _, ¬ wellSourced tr')); [|exact HI]].
  - intros tr' s' [[]| |why]; simpl; done.
  - intros x tr' s' Hx HI'. eapply mwp_mono; [|by apply Hbody].
    intros tr'' s'' [[]| |why]; simpl; done.
Qed.

Lemma selectNamespaces_ends sel logName items s tr :
  inv tr s → mwp P (selectNamespaces sel logName items) s tr (ends inv).
Proof.
  revert s. induction items as [|ns items IH]; intros s HI; simpl; [by rstep|].
  rstep.
  - rstep. rstep. apply IH. apply (loaded_state _ tr s); try done. apply reported_error.
  - rstep. eapply mwp_mono; [|by apply IH]. intros tr' s' [names| |why] HI'; [|done|done]. by rstep.
Qed.

Lemma resolveTarget_ends td tc name s tr :
  (isNextTo td = true → is_Some tc) → inv tr s →
  mwp P (resolveTarget platformCluster td tc name) s tr (ends inv).
Proof.
  intros Hnt HI. unfold resolveTarget.
  destruct (isNextTo td) eqn:Hn.
  - destruct Hnt as [c ->]; [done|]. by rstep.
  - rstep. rstep; [done|].
    assert (∀ ev s', s_Object s' = s_Object s → s_sources s' = s_sources s →
              s_managed s' = s_managed s → s_RequeueAfter s' = s_RequeueAfter s →
              reported s' → inv (tr ++ [ev]) s') as Hk.
    { intros. apply (loaded_state _ _ s); try done. by apply loaded_event. }
    pose proof (loaded_reported _ _ _ HI) as Hrep.
    rstep; [rstep; simpl; apply Hk; try done; apply reported_withError|].
    rstep; [|rstep; simpl; by apply Hk].
    rstep; [rstep; simpl; by apply Hk|].
    rstep. rstep; [done|]. rstep.
    + rstep. simpl. apply (loaded_state _ _ s); try done; [apply reported_withError|].
      by do 2 apply loaded_event.
    + rstep. eapply mwp_mono; [|apply selectNamespaces_ends; by do 2 apply loaded_event].
      intros tr' s' [names| |why] HI'; [|done|done]. by rstep.
Qed.

Lemma handleCluster_ends td tc s tr :
  (isNextTo td = true → is_Some tc) → inv tr s →
  mwp P (handleCluster providerName platformCluster tmpl td tc) s tr (ends inv).
Proof.
  intros Hnt HI. unfold handleCluster. rstep; [by rstep|].
  rstep. eapply mwp_mono; [|by apply resolveTarget_ends].
  intros tr1 s1 [[acc names]| |why] HI1; [|done|done].
  rstep. eapply mwp_mono; [|apply loop_ends; [|exact HI1]].
  2: { intros tn tr' s' _ HI'. by apply handleTarget_ends. }
  intros tr2 s2 [[]| |why] [HI2 _]; [|done|done]. rstep. simpl.
  apply (loaded_state _ tr2 s2); try done. apply reported_true. by eapply loaded_reported.
Qed.

Lemma matchedClusters_nextTo td tc :
  tc ∈ matchedClusters clusterList td → isNextTo td = true → is_Some tc.
Proof.
  unfold matchedClusters, isNextTo. destruct (td_Cluster td); [|done].
  intros (cl & -> & _)%list_elem_of_fmap _. by eexists.
Qed.

Lemma handleTargetDef_ends td s tr :
  inv tr s → mwp P (handleTargetDef providerName platformCluster clusterList tmpl td) s tr (ends inv).
Proof.
  intros HI. eapply mwp_mono; [|apply loop_ends; [|exact HI]]; [by intros ??? [? _]|].
  intros tc tr' s' Htc HI'. apply handleCluster_ends; [by apply matchedClusters_nextTo|done].
Qed.

End Loops.

(** ** The steps before the loops *)

Record early (tr : KHistory) (s : rstate) : Prop := {
  e_good : good tr s;
  e_managed : s_managed s = None;
  e_errs : s_errs s = [] }.

(** An early return. *)
Definition returned (s : rstate) : Prop :=
  s_RequeueAfter s = 0%Z ∧ s_managed s = None ∧ is_Some (s_ReconcileError s).

Definition early_ends {A} (tr : KHistory) (s : rstate) (fl : Flow A) : Prop :=
  match fl with Next _ => early tr s | Stop => returned s | Panic _ => False end.

Lemma early_event tr ev s : early tr s → early (tr ++ [ev]) s.
Proof. intros [Hg ? ?]. split; [|done|done]. eapply good_same; [..|exact Hg]; [done|done|apply Hg]. Qed.

Lemma early_returned t rerr tr s :
  early tr s →
  returned (withCondition t ConditionFalse (re_Reason rerr) (re_Error rerr)
              (set_ReconcileError s (Some rerr))).
Proof. intros [[? ? ?] ? ?]. split; [done|]. split; [done|by eexists]. Qed.

Lemma ensureFinalizer_ends s tr :
  early tr s → mwp P (ensureFinalizer platformCluster) s tr early_ends.
Proof.
  intros HI. unfold ensureFinalizer. rstep. rstep.
  destruct (AddFinalizer (rep_Finalizers (s_Object s)) ReplicaFinalizer) as [fs added].
  destruct HI as [[Hr Hrep Hs] Hm He].
  rstep. rstep. rstep; [|by rstep; split].
  rstep. rstep. rstep. rstep; [done|]. rstep. rstep. simpl.
  assert (wellSourced (tr ++ [@Ev _ Resp (PatchReplica platformCluster
            (rep_set_Finalizers fs (s_Object s)) (s_OldObject s)) r]) →
          spec_Sources (rep_Spec r.1) = srcs) as Hs'.
  { intros [Hw Heq]%wellSourced_snoc. simpl in Heq. rewrite Heq. by apply Hs. }
  rstep; rstep; simpl; [split; [done|split; [done|by eexists]]|].
  split; [split|done|done]; [done|exact Hrep|exact Hs'].
Qed.

Lemma parseTemplate_ends s tr : early tr s → mwp P parseTemplate s tr early_ends.
Proof.
  intros HI. unfold parseTemplate.
  repeat rstep; simpl; first [done | by eapply early_returned].
Qed.

Lemma fetchSources_ends s tr :
  early tr s →
  mwp P (fetchSources platformCluster) s tr (λ tr' s' fl, early_ends tr' s' fl ∧
    (fl = Next tt → ∀ src, src ∈ sourcesOf s' →
       fetched tr' src ∧ is_Some (s_sources s' !! src_ID src))).
Proof.
  intros HI. unfold fetchSources. rstep. rstep.
  apply (mwp_for_each_return _ _ _ _ _ (λ pre tr' s', early tr' s' ∧ sourcesOf s' = sourcesOf s ∧
    ∀ src, src ∈ pre → fetched tr' src ∧ is_Some (s_sources s' !! src_ID src))).
  - intros pre src post tr' s' _ (HI' & Hso & Hpre). unfold fetchSource.
    rstep. rstep; [done|]. pose proof (early_event _ (Ev (GetObject platformCluster
      (tref_GVK (src_Ref src)) (tref_Namespace (src_Ref src)) (tref_Name (src_Ref src))) r) _ HI') as HI2.
    rstep.
    + rstep. rstep. rstep. simpl. destruct HI2 as [[? ? ?] ? ?].
      split; [split; [split; [done|by apply reported_true|done]|done|done]|]. split; [done|].
      intros src' [Hin| ->%list_elem_of_singleton]%elem_of_app.
      * destruct (Hpre src' Hin) as [Hf Hs]. split; [by apply fetched_app|].
        destruct (decide (src_ID src = src_ID src')) as [->|Hne];
          [rewrite lookup_insert_eq; by eexists|by rewrite lookup_insert_ne].
      * rewrite lookup_insert_eq. split; [|by eexists]. exists a. apply elem_of_app. right. by left.
    + rstep. split; [by eapply early_returned|done].
    + rstep. split; [by eapply early_returned|done].
  - intros tr' s' (HI' & Hso & Hall). split; [done|]. intros _. by rewrite Hso.
  - split; [done|]. split; [done|]. by intros src ?%not_elem_of_nil.
Qed.

(** ** The whole function *)

Definition createOutcome {A} (tr : KHistory) (s : rstate) (fl : Flow A) : Prop :=
  match fl with
  | Next _ =>
      s_RequeueAfter s = 0%Z ∧ is_Some (s_managed s) ∧
      sourcesRead tr ∧
      (s_ReconcileError s = None → Forall (λ c, con_Status c = ConditionTrue) (s_Conditions s))
  | Stop => returned s
  | Panic _ => ¬ wellSourced tr
  end.

Lemma handleCreateOrUpdate_outcome clusterList s tr :
  early tr s →
  mwp P (handleCreateOrUpdate providerName platformCluster clusterList) s tr createOutcome.
Proof.
  intros HI. unfold handleCreateOrUpdate.
  rstep. eapply mwp_mono; [|by apply ensureFinalizer_ends].
  intros tr1 s1 [[]| |why] HI1; [|done|done].
  rstep. eapply mwp_mono; [|by apply parseTemplate_ends].
  intros tr2 s2 [tmpl| |why] HI2; [|done|done].
  rstep. eapply mwp_mono; [|by apply fetchSources_ends].
  intros tr3 s3 [[]| |why] [HI3 Hsrc]; [|done|done]. specialize (Hsrc eq_refl).
  rstep. rstep. rstep. rstep. rstep. rstep. rstep.
  eapply mwp_mono; [|apply (loop_ends tmpl)].
  - intros tr4 s4 [[]| |why] [HI4 Hns]; [|done|done]. unfold finishCreateOrUpdate. rstep. simpl.
    destruct HI4 as [[Hr Hrep Hs] Hf _ Hm].
    assert (sourcesRead tr4) as Hread by (intros Hw; rewrite <- (Hs Hw); by apply Hf).
    assert (Aggregate (s_errs s4) = None → Forall (λ c, con_Status c = ConditionTrue) (s_Conditions s4)).
    { intros Ha. by apply Hrep, Aggregate_nil. }
    destruct (s_templatingErrorSet s4); simpl; done.
  - intros td tr' s' _ HI'. by apply handleTargetDef_ends.
  - destruct HI3 as [[Hr Hrep Hs] _ _]. simpl in *. split.
    + split; [done|by apply (reported_true ConditionTypeMeta)|done].
    + intros _ src ?. by apply Hsrc.
    + intros _ _ src ?. by apply Hsrc.
    + by eexists.
Qed.

End Create.

(** ** The rest of a reconcile never panics and never sets the requeue time *)

Section Quiet.
Context `{X : Ext}.
Variables (providerName : string) (clusterList : list Cluster).

(** Any policy that objects to calls of [CreateOrUpdate] at most. *)
Context (P : KHistory → Req → Prop) (HP : ∀ tr e, isCreateOrUpdate e = false → P tr e).

(** From the state [s]: the loops leave these two fields alone. *)
Definition still (s : rstate) (_ : KHistory) (s' : rstate) : Prop :=
  s_RequeueAfter s' = s_RequeueAfter s ∧ s_managed s' = s_managed s.

Definition calm {A} (s : rstate) (tr : KHistory) (s' : rstate) (fl : Flow A) : Prop :=
  still s tr s' ∧ ∀ why, fl ≠ Panic why.

#[local] Ltac calm_steps := repeat (rstep; try (by apply HP); simpl); try done; by split.

Lemma deleteResource_calm ref logName acc res s s0 tr :
  still s0 tr s → mwp P (deleteResource providerName ref logName acc res) s tr (calm s0).
Proof.
  intros [Hr Hm]. unfold deleteResource, failDelete, awaitDeletion, forget, removeCondition, removeRawFromStatus.
  calm_steps.
Qed.

(** A loop whose body is calm. *)
Lemma loop_calm {T} (l : list T) (body : T → KM rstate unit) s s0 tr :
  (∀ x tr' s', still s0 tr' s' → mwp P (body x) s' tr' (calm s0)) →
  still s0 tr s → mwp P (for_each l body) s tr (λ tr' s' fl, still s0 tr' s' ∧ fl = Next tt).
Proof.
  intros Hbody Hs.
  apply (mwp_for_each_prefix P l body s tr (λ _, still s0)); [|done].
  intros pre x post tr' s' _ Hs'. by apply Hbody.
Qed.

Lemma range_calm {T} (m : gmap ObjectReference T) (body : ObjectReference → T → KM rstate unit) s s0 tr :
  (∀ k a tr' s', still s0 tr' s' → mwp P (body k a) s' tr' (calm s0)) →
  still s0 tr s → mwp P (range_map m body) s tr (λ tr' s' fl, still s0 tr' s' ∧ fl = Next tt).
Proof.
  intros Hbody Hs. eapply mwp_mono; [|apply (mwp_range_map_visit P m body s tr (λ _, still s0))].
  - intros tr' s' fl [-> (order & _ & ?)]. done.
  - intros pre k a tr' s' _ _ Hs'. by apply Hbody.
  - by apply HP.
  - done.
Qed.

Lemma deleteInCluster_calm ref resources s s0 tr :
  still s0 tr s → mwp P (deleteInCluster providerName ref resources) s tr (calm s0).
Proof.
  intros Hs. unfold deleteInCluster. rstep. rstep; [by apply HP|]. rstep.
  - rstep. rstep. rstep. eapply mwp_mono; [|apply (loop_calm _ _ _ s0); [|exact Hs]].
    + intros tr' s' fl [? ->]. by rstep.
    + intros res tr' s' [? ?]. calm_steps.
  - eapply mwp_mono; [|apply (loop_calm _ _ _ s0); [|exact Hs]].
    + intros tr' s' fl [? ->]. done.
    + intros res tr' s' Hs'. by apply deleteResource_calm.
Qed.

Lemma pruneCluster_calm ref resources s s0 tr :
  still s0 tr s → mwp P (pruneCluster clusterList ref resources) s tr (calm s0).
Proof.
  intros Hs. unfold pruneCluster, removeCondition, removeRawFromStatus.
  rstep; [by rstep|]. rstep; [by rstep|]. rstep.
  eapply mwp_mono; [|apply (loop_calm _ _ _ s0); [|exact Hs]].
  - intros tr' s' fl [[? ?] ->]. calm_steps.
  - intros res tr' s' [? ?]. calm_steps.
Qed.

Lemma deleteObsoleteResources_calm unset s s0 tr :
  still s0 tr s →
  mwp P (deleteObsoleteResources providerName clusterList unset) s tr (λ tr' s' fl,
    still s0 tr' s' ∧ fl = Next tt).
Proof.
  intros Hs. unfold deleteObsoleteResources. rstep; [by rstep|]. rstep. rstep. rstep; [|by rstep].
  rstep. rstep. rstep. rstep. rstep.
  eapply mwp_mono; [|apply (range_calm _ _ _ s0); [|exact Hs]].
  2: { intros. by apply pruneCluster_calm. }
  intros tr1 s1 fl [Hs1 ->]. rstep. rstep. rstep. rstep. rstep.
  eapply mwp_mono; [|apply (range_calm _ _ _ s0); [|exact Hs1]].
  2: { intros. by apply deleteInCluster_calm. }
  intros tr2 s2 fl [Hs2 ->]. rstep. rstep. by rstep.
Qed.

(** Nothing happens when the managed resources could not be determined. *)
Lemma deleteObsoleteResources_undetermined Q s tr R :
  s_managed s = None → R tr s (Next tt) →
  mwp Q (deleteObsoleteResources providerName clusterList false) s tr R.
Proof. intros Hm HR. unfold deleteObsoleteResources. rstep. rstep. rewrite Hm. by rstep. Qed.

(** ** All managed resources end up in the status *)

Definition inStatus (s : rstate) (ref : ObjectReference) (u : Unstructured) : Prop :=
  ContainsRaw (u_GVK u) (u_Namespace u) (u_Name u) (Some ref) (rep_Replicas (s_Object s)) = true.

Definition allManagedInStatus (s : rstate) : Prop :=
  ∀ managed ref objs u, s_managed s = Some managed → managed !! ref = Some objs → u ∈ objs →
    inStatus s ref u.

Lemma addManagedToStatus_spec s tr :
  mwp P addManagedToStatus s tr (λ tr' s' fl,
    still s tr' s' ∧ allManagedInStatus s' ∧ fl = Next tt).
Proof.
  unfold addManagedToStatus. rstep. rstep. rstep.
  2: { rstep. split; [done|]. split; [|done]. intros m ref objs u Hm. congruence. }
  rename g into m.
  eapply mwp_mono; [|apply (mwp_range_map_visit P m _ s tr (λ visited tr' s',
    still s tr' s' ∧ ∀ ref objs u, ref ∈ visited → m !! ref = Some objs → u ∈ objs → inStatus s' ref u))].
  - intros tr' s' fl [-> (order & Hord & Hs' & Hall)]. split; [done|]. split; [|done].
    intros m' ref objs u Hm Hl Hu. destruct Hs' as [_ Hmn].
    assert (m' = m) as -> by congruence.
    apply (Hall ref objs u); [by eapply range_order_complete|done|done].
  - intros visited ref objs tr' s' _ Hl [Hs' Hall].
    eapply mwp_mono; [|apply (mwp_for_each_prefix P objs _ s' tr' (λ pre tr'' s'',
      still s tr'' s'' ∧ (∀ ref' objs' u, ref' ∈ visited → m !! ref' = Some objs' → u ∈ objs' →
                            inStatus s'' ref' u) ∧ ∀ u, u ∈ pre → inStatus s'' ref u))].
    + intros tr'' s'' fl [(Hs'' & Hall' & Hobjs) ->]. split; [|done]. split; [done|].
      intros ref' objs' u [Hin| ->%list_elem_of_singleton]%elem_of_app Hl' Hu; [by eapply Hall'|].
      apply Hobjs. congruence.
    + intros pre u post tr'' s'' _ (Hs'' & Hall' & Hobjs). rstep. split; [|done]. simpl.
      split; [done|]. unfold inStatus, AddRaw, ContainsRaw in *. simpl.
      split; [intros; apply Contains_Add_mono; by eapply Hall'|].
      intros u' [Hin| ->%list_elem_of_singleton]%elem_of_app; [by apply Contains_Add_mono, Hobjs|].
      apply Contains_Add.
    + split; [done|]. split; [done|]. by intros u ?%not_elem_of_nil.
  - by apply HP.
  - intros ev. split; [done|]. by intros ref objs u ?%not_elem_of_nil.
Qed.

End Quiet.

(** ** The whole reconcile *)

Section Reconcile.
Context `{X : Ext} {XL : ExtLaws X}.
Variable providerName : string.

#[local] Abbreviation any := (λ (_ : KHistory) (_ : Req), True).

(** What follows handleCreateOrUpdate or handleDelete. *)
Definition finishReconcile (clusterList : list Cluster) (unset : bool) : KM rstate bool :=
  (deleteObsoleteResources providerName clusterList unset ;;;
   (if unset then ret tt else addManagedToStatus) ;;;
   skipWaiting unset ;;;
   ret unset)%prog.

Definition finished (s : rstate) (unset : bool) (fl : Flow bool) : Prop :=
  fl = Next unset ∧ s_RequeueAfter s = 0%Z ∧ (unset = false → allManagedInStatus s).

Lemma skipWaiting_idle unset s tr Q (R : KHistory → rstate → Flow unit → Prop) :
  s_RequeueAfter s = 0%Z → R tr s (Next tt) → mwp Q (skipWaiting unset) s tr R.
Proof. intros H HR. unfold skipWaiting. rstep. rstep. rewrite H. by rstep. Qed.

Lemma finishReconcile_finished clusterList unset s tr :
  s_RequeueAfter s = 0%Z →
  mwp any (finishReconcile clusterList unset) s tr (λ tr' s' fl, finished s' unset fl).
Proof.
  intros H0. unfold finishReconcile. rstep.
  eapply mwp_mono; [|by apply (deleteObsoleteResources_calm _ _ any (λ _ _ _, I) _ _ s)].
  intros tr1 s1 fl [[Hr1 Hm1] ->]. rstep. destruct unset.
  - rstep. rstep. apply skipWaiting_idle; [congruence|]. rstep. split; [done|]. split; [congruence|done].
  - eapply mwp_mono; [|by apply (addManagedToStatus_spec any)].
    intros tr2 s2 fl ([Hr2 Hm2] & Hall & ->). rstep. apply skipWaiting_idle; [congruence|].
    rstep. split; [done|]. split; [congruence|done].
Qed.

(** Without managed resources determined, no deletion is requested at all. *)
Lemma finishReconcile_undetermined clusterList platformCluster srcs s tr :
  s_RequeueAfter s = 0%Z → s_managed s = None →
  mwp (deletesInformed platformCluster srcs) (finishReconcile clusterList false) s tr
    (λ tr' s' fl, finished s' false fl).
Proof.
  intros H0 Hm. unfold finishReconcile. rstep.
  apply deleteObsoleteResources_undetermined; [done|]. rstep.
  unfold addManagedToStatus. rstep. rstep. rewrite Hm. rstep. rstep.
  apply skipWaiting_idle; [done|]. rstep. split; [done|]. split; [done|].
  intros _ m ref objs u Hm'. congruence.
Qed.

Lemma sourcesRead_app platformCluster srcs tr tr' :
  sourcesRead platformCluster srcs tr → sourcesRead platformCluster srcs (tr ++ tr').
Proof.
  intros H Hw src Hsrc. apply fetched_app, H; [|done].
  unfold wellSourced in *. by apply Forall_app in Hw as [? _].
Qed.

Lemma early_init tr rep :
  early (spec_Sources (rep_Spec rep)) tr (rstate_init rep).
Proof. split; [split; [done| |done]|done|done]. intros _. apply Forall_nil_2. Qed.

(** A (Cluster)Replica that is not in deletion. *)
Lemma reconcileListed_live platformCluster clusterList rep tr :
  spec_Sources (rep_Spec rep) ≠ [] → IsZero (rep_DeletionTimestamp rep) = true →
  mwp (deletesInformed platformCluster (spec_Sources (rep_Spec rep)))
    (reconcileListed providerName platformCluster clusterList) (rstate_init rep) tr
    (λ tr' s' fl, match fl with Panic _ => ¬ wellSourced tr' | _ => finished s' false fl end).
Proof.
  intros Hne Hz. unfold reconcileListed. rstep. rstep. cbn [s_Object rstate_init]. rewrite Hz. rstep. rstep. rstep.
  eapply mwp_mono; [|apply handleCreateOrUpdate_outcome; [exact Hne|apply early_init]].
  intros tr1 s1 fl Hout. destruct fl as [[]| |why]; [| |done].
  - destruct Hout as (Hr & _ & Hread & _). rstep. fold (finishReconcile clusterList false).
    eapply mwp_mono; [|eapply mwp_permit; [|by apply (finishReconcile_finished clusterList false)]].
    + intros tr2 s2 fl' Hfin. pose proof Hfin as [-> _]. exact Hfin.
    + intros tr2 e [k ->] _. destruct e; simpl; try done; by apply sourcesRead_app.
  - destruct Hout as (Hr & Hm & _). rstep. fold (finishReconcile clusterList false).
    eapply mwp_mono; [|by apply finishReconcile_undetermined].
    intros tr2 s2 fl' Hfin. pose proof Hfin as [-> _]. exact Hfin.
Qed.

(** One in deletion. *)
Lemma handleDelete_idle platformCluster s tr :
  mwp any (handleDelete platformCluster) s tr (λ tr' s' fl,
    s_RequeueAfter s' = s_RequeueAfter s ∧ ∃ unset, fl = Next unset).
Proof.
  unfold handleDelete. rstep. rstep. rstep; [rstep; rstep; rstep; by eauto|].
  destruct (RemoveFinalizer (rep_Finalizers (s_Object s)) ReplicaFinalizer) as [fs removed].
  rstep. rstep. rstep; [|rstep; by eauto].
  rstep. rstep. rstep. rstep; [done|]. rstep. rstep.
  rstep; [rstep; rstep; rstep; rstep; rstep; by eauto|rstep; by eauto].
Qed.

Lemma reconcileListed_finishes platformCluster clusterList rep tr :
  spec_Sources (rep_Spec rep) ≠ [] →
  mwp any (reconcileListed providerName platformCluster clusterList) (rstate_init rep) tr
    (λ tr' s' fl, match fl with Panic _ => ¬ wellSourced tr' | _ => ∃ unset, finished s' unset fl end).
Proof.
  intros Hne. destruct (IsZero (rep_DeletionTimestamp rep)) eqn:Hz.
  - eapply mwp_mono; [|eapply mwp_permit; [|by apply reconcileListed_live]]; [|done].
    intros tr' s' [unset| |why]; [by exists false|by exists false|done].
  - unfold reconcileListed. rstep. rstep. cbn [s_Object rstate_init]. rewrite Hz.
    rstep. rstep. eapply mwp_mono; [|apply handleDelete_idle].
    intros tr1 s1 fl [Hr [unset ->]].
    assert (∀ s', s_RequeueAfter s' = 0%Z → mwp any (finishReconcile clusterList unset) s' tr1
      (λ tr' s'' fl, match fl with Panic _ => ¬ wellSourced tr' | _ => ∃ unset, finished s'' unset fl end)) as Hfin.
    { intros s' H0. eapply mwp_mono; [|by apply finishReconcile_finished].
      intros tr2 s2 fl' Hf. pose proof Hf as [-> _]. by exists unset. }
    rstep. rstep. rstep; [rstep; by apply Hfin|]. rstep. rstep. rstep. by apply Hfin.
Qed.

Lemma runFetched_finishes platformCluster rep (si : sharedInformation) tr :
  (wellSourced tr → spec_Sources (rep_Spec rep) ≠ []) →
  mwp any (runFetched providerName platformCluster rep) si tr (λ tr' si' fl,
    si' = si ∧ match fl with
               | Next rr => wellSourced tr' → rr_RequeueAfter rr = 0%Z
               | Stop => False
               | Panic _ => ¬ wellSourced tr' end).
Proof.
  intros Hsrc. unfold runFetched. rstep. apply mwp_local.
  destruct (decide (spec_Sources (rep_Spec rep) = [])) as [Hnil|Hne].
  - eapply mwp_mono; [|apply mwp_prefix, (mwp_trivial any _ _ _ (λ _ _ _, True)); done].
    intros tr' s' fl [_ [k ->]]. assert (¬ wellSourced (tr ++ k)) as Hw.
    { intros Hw. unfold wellSourced in Hw. apply Forall_app in Hw as [Hw _]. by apply Hsrc. }
    rstep; rstep; done.
  - unfold reconcileFetched. rstep. rstep; [done|]. rstep.
    + rstep. rstep. rstep. rstep. rstep. by rstep.
    + eapply mwp_mono; [|by apply reconcileListed_finishes].
      intros tr' s' [unset| |why] Hf; [|by destruct Hf as (? & ? & _)|by rstep].
      destruct Hf as (u & _ & H0 & _). rstep. by destruct unset.
Qed.

Lemma reconcile_finishes req platformCluster (si : sharedInformation) tr :
  mwp any (reconcile providerName req platformCluster) si tr (λ tr' si' fl,
    si' = si ∧ match fl with
               | Next rr => wellSourced tr' → rr_RequeueAfter rr = 0%Z
               | Stop => False
               | Panic _ => ¬ wellSourced tr' end).
Proof.
  unfold reconcile. rstep. rstep; [done|]. rstep; [|by rstep|by rstep].
  rstep.
  - apply runFetched_finishes. by intros [_ Hs]%wellSourced_snoc.
  - by rstep.
  - rstep. rstep; [done|]. rstep; [by rstep|]. apply runFetched_finishes.
    by intros [_ Hs]%wellSourced_snoc.
Qed.

End Reconcile.

(** ** Properties *)

Section Properties.
Context `{X : Ext} {XL : ExtLaws X}.
Variable providerName : string.

(** C9: handleCreateOrUpdate reports every problem.  When it gets through, the
    managed resources are determined, every source has been fetched, and
    either a reconcile error is set or all conditions are True; when it
    returns early, a reconcile error is set and the managed resources stay
    undetermined, which is what keeps the deletion from doing anything; it
    panics only if the sources of the object change under its feet. *)
Theorem createOrUpdate_reports_errors platformCluster clusterList rep tr s' fl :
  spec_Sources (rep_Spec rep) ≠ [] →
  exec (handleCreateOrUpdate providerName platformCluster clusterList (rstate_init rep)) tr (s', fl) →
  match fl with
  | Next _ =>
      is_Some (s_managed s') ∧
      (wellSourced tr → ∀ src, src ∈ spec_Sources (rep_Spec rep) → fetched platformCluster tr src) ∧
      (s_ReconcileError s' = None → Forall (λ c, con_Status c = ConditionTrue) (s_Conditions s'))
  | Stop => s_managed s' = None ∧ is_Some (s_ReconcileError s')
  | Panic _ => ¬ wellSourced tr
  end.
Proof.
  intros Hne Hex.
  eapply mwp_exec in Hex as [Hout _];
    [|apply (handleCreateOrUpdate_outcome providerName platformCluster _ Hne), early_init].
  destruct fl; [by destruct Hout as [_ ?]| |done]. by destruct Hout as (_ & ? & ?).
Qed.

(** C8: If a source cannot be read, nothing is deleted: while a
    (Cluster)Replica is not in deletion, a resource is deleted or released
    only after each of its sources has been read. *)
Theorem deletion_needs_sources platformCluster clusterList rep tr a i e r src :
  spec_Sources (rep_Spec rep) ≠ [] → IsZero (rep_DeletionTimestamp rep) = true →
  exec (reconcileListed providerName platformCluster clusterList (rstate_init rep)) tr a →
  wellSourced tr → tr !! i = Some (Ev e r) →
  match e with DeleteObject _ _ | PatchObject _ _ _ => True | _ => False end →
  src ∈ spec_Sources (rep_Spec rep) →
  ∃ u, @Ev _ Resp (GetObject platformCluster (tref_GVK (src_Ref src)) (tref_Namespace (src_Ref src))
                     (tref_Name (src_Ref src))) (Found u) ∈ take i tr.
Proof.
  intros Hne Hz Hex Hw Hi He Hsrc. destruct a as [s' fl].
  eapply mwp_exec in Hex as [_ Hp]; [|by apply (reconcileListed_live providerName platformCluster)].
  specialize (Hp (take i tr) (Ev e r) (drop (S i) tr) ltac:(symmetry; by apply take_drop_middle)).
  rewrite <- (take_drop i tr) in Hw. unfold wellSourced in Hw. apply Forall_app in Hw as [Hw _].
  destruct e; try done; by apply (Hp Hw).
Qed.

(** C13: At the end of a reconcile of a (Cluster)Replica, the status lists every
    resource the reconcile determined to be managed, under its cluster; the
    result tells whether the object is gone. *)
Theorem managed_in_status platformCluster clusterList rep tr s' unset managed ref objs u :
  spec_Sources (rep_Spec rep) ≠ [] →
  exec (reconcileListed providerName platformCluster clusterList (rstate_init rep)) tr (s', Next unset) →
  unset = false → s_managed s' = Some managed → managed !! ref = Some objs → u ∈ objs →
  ContainsRaw (u_GVK u) (u_Namespace u) (u_Name u) (Some ref) (rep_Replicas (s_Object s')) = true.
Proof.
  intros Hne Hex -> Hm Hl Hu.
  eapply mwp_exec in Hex as [Hout _]; [|by apply (reconcileListed_finishes providerName platformCluster)].
  destruct Hout as (u' & [= <-] & _ & Hall). by apply (Hall eq_refl managed ref objs).
Qed.

(** A reconcile ends with its only status update. *)
Definition concludes (req : Request) (si : sharedInformation) (tr : KHistory)
    (si' : sharedInformation) (fl : Flow (Z * option string)) : Prop :=
  si' = ClearPending (req_NamespacedName req) si ∧
  ((∃ err msg, tr = [@Ev _ Resp (ProviderGet (req_Cluster req)) (inl err)] ∧
               fl = Next (0%Z, Some msg)) ∨
   ∃ tr0 pc rr requeue rep after err,
     tr = tr0 ++ [@Ev _ Resp (UpdateStatus pc rr phaseFunc requeue) (rep, after, err)] ∧
     platformOf tr = Some pc ∧ notConcluded tr0 ∧ rr_RequeueAfter rr = 0%Z ∧
     fl = Next (match err, rr_Object rr with
                | None, Some _ => capInterval (GetInterval (rep_Spec rep)) after
                | _, _ => after
                end, err)).

Lemma Reconcile_concludes req si :
  mwp (λ _ _, True) (Reconcile providerName req) si [] (λ tr si' fl,
    wellSourced tr → concludes req si tr si' fl).
Proof.
  unfold Reconcile. rstep. rstep. rstep. rstep; [done|]. rstep.
  - rstep. intros _. split; [done|]. left. by do 2 eexists.
  - rstep. eapply mwp_mono; [|apply mwp_and; [apply reconcile_finishes|]];
      [|eapply mwp_permit; [|by apply (reconcile_silent providerName req a)]; done].
    intros tr1 s1 fl [[-> Hfl] (k & -> & Hk)].
    destruct fl as [rr| |why]; [|done|by intros Hw; destruct Hfl].
    rstep. rstep; [done|]. destruct r0 as [[rep after] err].
    destruct err as [err|]; [|destruct (rr_Object rr) eqn:Ho]; rstep;
      intros [Hw _]%wellSourced_snoc; (split; [done|]); right;
      do 7 eexists; (split; [done|]); (split; [done|]); (split; [by constructor|]);
      (split; [by apply Hfl|]); by rewrite ?Ho.
Qed.

(** C11: Under stable sources a reconcile never panics.  If the access to the
    platform cluster fails, this is the only request and the error is returned.
    Otherwise the outcome is reported exactly once: the status update, on the
    platform cluster, is the last request, and none of the earlier requests is
    a status update.  The result of the reconcile is the requeue interval this
    update asks for, capped by the interval of the spec.  The pending marker of
    the (Cluster)Replica is cleared and nothing else of the shared information
    changes.  The reconcile result never carries a requeue interval of its own. *)
Theorem reconcile_always_concludes req si tr si' fl :
  exec (Reconcile providerName req si) tr (si', fl) → wellSourced tr →
  si' = ClearPending (req_NamespacedName req) si ∧
  ((∃ err msg, tr = [@Ev _ Resp (ProviderGet (req_Cluster req)) (inl err)] ∧
               fl = Next (0%Z, Some msg)) ∨
   ∃ tr0 pc rr requeue rep after err,
     tr = tr0 ++ [@Ev _ Resp (UpdateStatus pc rr phaseFunc requeue) (rep, after, err)] ∧
     platformOf tr = Some pc ∧ notConcluded tr0 ∧ rr_RequeueAfter rr = 0%Z ∧
     fl = Next (match err, rr_Object rr with
                | None, Some _ => capInterval (GetInterval (rep_Spec rep)) after
                | _, _ => after
                end, err)).
Proof.
  intros Hex. by eapply mwp_exec in Hex as [Hout _]; [|apply (Reconcile_concludes req si)].
Qed.

End Properties.

(** ** Witnesses *)

(** The platform cluster and the reconciled object of the scenarios. *)
Definition createdReplica : Replica :=
  mkReplica TReplica "app" "r1" None [source "a" "cm"] None [hostTarget ["t1"] None None] [].

Definition run_handler :=
  run serve (handleCreateOrUpdate provider platform [] (rstate_init createdReplica)) w_create.

Lemma createOrUpdate_reports_errors_witness :
  s_ReconcileError (outcome run_handler).1 = None ∧ (outcome run_handler).2 = Next tt ∧
  is_Some (s_managed (outcome run_handler).1).
Proof.
  split; [vm_compute; reflexivity|].
  assert ((outcome run_handler).2 = Next tt) as Hfl by (vm_compute; reflexivity).
  split; [exact Hfl|].
  pose proof (outcome_exec serve (handleCreateOrUpdate provider platform [])
                (rstate_init createdReplica) w_create _ Hfl) as Hex.
  destruct (createOrUpdate_reports_errors provider platform [] createdReplica _ _ _ ltac:(done) Hex)
    as [Hm _]. exact Hm.
Defined.

Definition obsoleteReplica : Replica :=
  mkReplica TReplica "app" "r1" None [source "a" "cm"] None [hostTarget ["t1"] None None]
    (tracks None "old" "cm").

Definition run_listed :=
  run serve (reconcileListed provider platform [] (rstate_init obsoleteReplica))
    (w_obsolete (copyLabels "replica" "app" "r1")).

Lemma deletion_needs_sources_witness :
  ∃ i old, history run_listed !! i = Some (@Ev _ Resp (DeleteObject platform old) Deleted) ∧
  ∃ u, @Ev _ Resp (GetObject platform configMap "src" "cm") (Found u) ∈ take i (history run_listed).
Proof.
  exists 11, (obj "old" "cm" "v0" (copyLabels "replica" "app" "r1")).
  match goal with |- ?A ∧ _ => assert A as Hi by (vm_compute; reflexivity) end.
  split; [exact Hi|].
  pose proof (outcome_exec serve (reconcileListed provider platform [])
                (rstate_init obsoleteReplica) (w_obsolete (copyLabels "replica" "app" "r1")) _ eq_refl)
    as Hex.
  assert (wellSourced (history run_listed)) as Hw by concrete.
  exact (deletion_needs_sources provider platform [] obsoleteReplica _ _ _ _ _ (source "a" "cm")
           ltac:(done) eq_refl Hex Hw Hi I ltac:(by left)).
Defined.

Definition managedCopy : Unstructured :=
  default (obj "" "" "" [])
    (m ← s_managed (outcome run_listed).1; objs ← m !! MkRef "" ""; head objs).

Lemma managed_in_status_witness :
  u_Name managedCopy = "cm" ∧
  ContainsRaw (u_GVK managedCopy) (u_Namespace managedCopy) (u_Name managedCopy)
    (Some (MkRef "" "")) (rep_Replicas (s_Object (outcome run_listed).1)) = true.
Proof.
  split; [vm_compute; reflexivity|].
  assert ((outcome run_listed).2 = Next false) as Hfl by (vm_compute; reflexivity).
  pose proof (outcome_exec serve (reconcileListed provider platform [])
                (rstate_init obsoleteReplica) _ _ Hfl) as Hex.
  assert (s_managed (outcome run_listed).1 = Some {[MkRef "" "" := [managedCopy]]}) as Hm
    by (vm_compute; reflexivity).
  exact (managed_in_status provider platform [] obsoleteReplica _ _ false _ (MkRef "" "") [managedCopy]
           managedCopy ltac:(done) Hex eq_refl Hm eq_refl ltac:(by left)).
Defined.

Lemma reconcile_always_concludes_witness :
  wellSourced (history run_create) ∧ (outcome run_create).1 = ClearPending (MkNN "app" "r1") Reset.
Proof.
  assert (wellSourced (history run_create)) as Hw by concrete.
  split; [exact Hw|].
  pose proof (outcome_exec serve (Reconcile provider request) Reset w_create _ eq_refl) as Hex.
  destruct (reconcile_always_concludes provider request _ _ _ _ Hex Hw) as [Hsi _]. exact Hsi.
Defined.
