(* ===== verification/OutcomeProperties.v ===== *)
(** * Outcomes of the single steps

    What one target of a reconcile, handleDelete, the operation annotation and
    the callbacks of the status updater come to. *)

From S2P Require Import Prelude GoLib ApiTypes External Effects Kube.
From S2P Require Import Shared ConditionNames ReplicaState ReplicaTarget ReplicaDelete ReplicaReconcile.
From S2P Require Import ReplicaCreateOrUpdate NamespaceSelection FakeServer Scenarios CreateProperties.

Section Outcomes.
Context `{X : Ext} {XL : ExtLaws X}.

#[local] Abbreviation any := (λ (_ : KHistory) (_ : Req), True).

(** ** One target *)

Section Target.
Variables (providerName : string) (platformCluster : Access) (tmpl : option string) (t : targetEnv).

(** What the reports of a target consist of. *)
Definition unreported (s s' : rstate) : Prop :=
  s_errs s' = s_errs s ∧ s_Conditions s' = s_Conditions s ∧ s_managed s' = s_managed s ∧
  s_templatingErrorSet s' = s_templatingErrorSet s.

(** The target failed: an error, and a condition that carries it. *)
Definition targetFailed (s s' : rstate) : Prop :=
  ∃ k e, s_errs s' = s_errs s ++ [Some e] ∧ s_managed s' = s_managed s ∧
    s_Conditions s' = s_Conditions s ++
      [MkCond (TargetCondition (t_clusterRef t) k) ConditionFalse (re_Reason e) (re_Error e)].

(** It was skipped: a True condition tells why. *)
Definition targetSkipped (s s' : rstate) : Prop :=
  s_errs s' = s_errs s ∧ s_managed s' = s_managed s ∧
  ∃ k reason msg, reason ∈ [ConditionReasonTargetSkipped; ConditionReasonIdenticalCopy] ∧
    s_Conditions s' = s_Conditions s ++
      [MkCond (TargetCondition (t_clusterRef t) k) ConditionTrue reason msg].

(** The template failed: only the first such error gets a condition. *)
Definition templatingFailed (s s' : rstate) : Prop :=
  ∃ e, s_errs s' = s_errs s ++ [Some e] ∧ s_managed s' = s_managed s ∧
    s_templatingErrorSet s' = true ∧
    s_Conditions s' = s_Conditions s ++
      (if s_templatingErrorSet s then []
       else [MkCond ConditionTypeTemplatingError ConditionTrue (re_Reason e) (re_Error e)]).

Definition targetStopped (s s' : rstate) : Prop :=
  targetFailed s s' ∨ targetSkipped s s' ∨ templatingFailed s s'.

(** What a step before the write may end with. *)
Definition flows {A} (s : rstate) (_ : KHistory) (s' : rstate) (fl : Flow A) : Prop :=
  match fl with Next _ => unreported s s' | Stop => targetStopped s s' | Panic _ => True end.

Lemma stopped_after s s1 s2 : unreported s s1 → targetStopped s1 s2 → targetStopped s s2.
Proof.
  unfold targetStopped, targetFailed, targetSkipped, templatingFailed.
  intros (-> & -> & -> & ->). done.
Qed.

Lemma unreported_trans s s1 s2 : unreported s s1 → unreported s1 s2 → unreported s s2.
Proof. unfold unreported. intuition congruence. Qed.

Lemma flows_after {A} s s1 tr s2 (fl : Flow A) :
  unreported s s1 → flows s1 tr s2 fl → flows s tr s2 fl.
Proof.
  intros H. destruct fl; simpl; [by apply unreported_trans|by apply stopped_after|done].
Qed.

(** Sequencing of such steps. *)
Lemma flows_seq {A B} (m : KM rstate A) (f : A → KM rstate B) s tr Q :
  (∀ s tr, mwp any m s tr (flows s)) →
  (∀ a s1 tr1, unreported s s1 → mwp any (f a) s1 tr1 Q) →
  (∀ tr1 s1, targetStopped s s1 → Q tr1 s1 Stop) →
  (∀ tr1 s1 why, Q tr1 s1 (Panic why)) →
  mwp any (let! a := m in f a)%prog s tr Q.
Proof.
  intros Hm Hf HS HP. rstep. eapply mwp_mono; [|apply Hm].
  intros tr1 s1 [a| |why] H; [by apply Hf|by apply HS|done].
Qed.

Lemma failed_flow rendered e s :
  targetStopped s (withError (targetCon t rendered) e s).
Proof.
  left. exists (TypedReferenceFromObject rendered), e. simpl. by rewrite GenerateCreateCondition_law.
Qed.

Lemma skipped_flow rendered reason msg s :
  reason ∈ [ConditionReasonTargetSkipped; ConditionReasonIdenticalCopy] →
  targetStopped s (withCondition (targetCon t rendered) ConditionTrue reason msg s).
Proof.
  intros H. right. left. split; [done|]. split; [done|].
  exists (TypedReferenceFromObject rendered), reason, msg. simpl. by rewrite GenerateCreateCondition_law.
Qed.

#[local] Ltac flow :=
  simpl; first [done | apply failed_flow | apply skipped_flow; set_solver
              | eapply stopped_after; [|apply failed_flow]; done].

Lemma failTemplating_flows {A} rerr s tr : mwp any (failTemplating (A := A) rerr) s tr (flows s).
Proof.
  unfold failTemplating. rstep. rstep. rstep. rstep. rstep. rstep.
  - rstep. rstep. right. right. exists rerr. simpl in *. by rewrite Heqb, app_nil_r.
  - rstep. rstep. rstep. rstep. right. right. exists rerr. simpl in *.
    by rewrite Heqb, GenerateCreateCondition_law.
Qed.

Lemma renderTarget_flows tn s tr : mwp any (renderTarget tmpl t tn) s tr (flows s).
Proof.
  unfold renderTarget, renderExactCopy, renderTemplate. rstep.
  - rstep. rstep. rstep. rstep; [done|]. rstep. rstep.
    assert (unreported s (set_sources s r.2)) as Hs by done.
    rstep; [eapply mwp_mono; [|apply failTemplating_flows]; intros; by eapply flows_after|].
    rstep; [eapply mwp_mono; [|apply failTemplating_flows]; intros; by eapply flows_after|].
    by rstep.
  - repeat rstep; flow.
Qed.

Lemma detectConflict_flows rendered raw s tr : mwp any (detectConflict t rendered raw) s tr (flows s).
Proof. unfold detectConflict, recordRendered. repeat rstep; flow. Qed.

Lemma checkExisting_flows rendered s tr : mwp any (checkExisting t rendered) s tr (flows s).
Proof.
  unfold checkExisting, fetchExisting, checkOwnership, failExists, ensureNamespace,
    failNamespaceDeleting, skipNamespace.
  repeat rstep; flow.
Qed.

Lemma trackInStatus_flows rendered s tr :
  mwp any (trackInStatus platformCluster t rendered) s tr (flows s).
Proof. unfold trackInStatus. repeat rstep; flow. Qed.

(** The last step: the write. *)
Definition targetSynced (s : rstate) (tr : KHistory) (s' : rstate) : Prop :=
  ∃ tr0 target written k msg,
    tr = tr0 ++ [@Ev _ Resp (CouWriteTarget (t_access t) target) (inr written)] ∧
    s_errs s' = s_errs s ∧
    s_managed s' = Some (<[managedResourcesKey t :=
                            default [] (default ∅ (s_managed s) !! managedResourcesKey t) ++ [written]]>
                           (default ∅ (s_managed s))) ∧
    s_Conditions s' = s_Conditions s ++
      [MkCond (TargetCondition (t_clusterRef t) k) ConditionTrue ConditionReasonTargetSynced msg].

Definition reports (s : rstate) (tr : KHistory) (s' : rstate) (fl : Flow unit) : Prop :=
  match fl with Next _ => targetSynced s tr s' | Stop => targetStopped s s' | Panic _ => True end.

Lemma syncTarget_reports rendered s tr : mwp any (syncTarget t rendered) s tr (reports s).
Proof.
  unfold syncTarget, failSync, recordManaged. rstep. rstep; [done|]. rstep; [rstep; flow|].
  rstep; [|by rstep]. rstep. rstep; [done|]. rstep; [rstep; flow|]. rstep. rstep. rstep.
  do 3 eexists. exists (TypedReferenceFromObject rendered). eexists. split; [done|]. simpl.
  by rewrite GenerateCreateCondition_law.
Qed.

Lemma handleTarget_reported tn s tr :
  mwp any (handleTarget providerName platformCluster tmpl t tn) s tr (reports s).
Proof.
  unfold handleTarget.
  apply flows_seq; [intros; apply renderTarget_flows| |done|done]. intros [rendered raw] s1 tr1 H1.
  apply flows_seq; [intros; apply detectConflict_flows| | |done].
  2: { intros tr2 s2 Hs. by eapply stopped_after. }
  intros [] s2 tr2 H2. rstep. rstep.
  apply flows_seq; [intros; apply checkExisting_flows| | |done].
  2: { intros tr3 s3 Hs. do 2 (eapply stopped_after; [done|]). done. }
  intros [] s3 tr3 H3.
  apply flows_seq; [intros; apply trackInStatus_flows| | |done].
  2: { intros tr4 s4 Hs. do 3 (eapply stopped_after; [done|]). done. }
  intros [] s4 tr4 H4. assert (unreported s s4) as H by (do 3 (eapply unreported_trans; [|done]); done).
  eapply mwp_mono; [|apply syncTarget_reports].
  intros tr5 s5 [[]| |why]; [|by apply stopped_after|done].
  unfold reports, targetSynced. destruct H as (-> & -> & -> & _). done.
Qed.

(** C10: No target is handled silently.  It ends with a successful write, and
    then the written resource is among the managed ones and has a True
    condition; or it is given up, and then there is a reconcile error with a
    condition that carries it, or a True condition says why the target was
    skipped; only for template errors one condition stands for all of them. *)
Theorem handleTarget_reports targetNamespace s tr s' fl :
  exec (handleTarget providerName platformCluster tmpl t targetNamespace s) tr (s', fl) →
  match fl with
  | Next _ =>
      ∃ tr0 target written k msg,
        tr = tr0 ++ [@Ev _ Resp (CouWriteTarget (t_access t) target) (inr written)] ∧
        s_errs s' = s_errs s ∧
        s_managed s' = Some (<[managedResourcesKey t :=
                                default [] (default ∅ (s_managed s) !! managedResourcesKey t) ++ [written]]>
                               (default ∅ (s_managed s))) ∧
        s_Conditions s' = s_Conditions s ++
          [MkCond (TargetCondition (t_clusterRef t) k) ConditionTrue ConditionReasonTargetSynced msg]
  | Stop => targetFailed s s' ∨ targetSkipped s s' ∨ templatingFailed s s'
  | Panic _ => True
  end.
Proof.
  intros Hex. by eapply mwp_exec in Hex as [Hr _]; [|apply handleTarget_reported].
Qed.

End Target.

(** ** handleDelete *)

(** C18: handleDelete waits while the status tracks copies; otherwise it gives
    the (Cluster)Replica up with a single patch that removes nothing but the
    finalizer, or with none when the finalizer is already gone; a failed patch
    is reported and the object is kept. *)
Theorem handleDelete_releases platformCluster rep tr s' fl :
  exec (handleDelete platformCluster (rstate_init rep)) tr (s', fl) →
  let rep' := rep_set_Finalizers (RemoveFinalizer (rep_Finalizers rep) ReplicaFinalizer).1 rep in
  match rep_Replicas rep with
  | _ :: _ =>
      tr = [] ∧ fl = Next false ∧ s_Object s' = rep ∧
      s_Conditions s' = [MkCond ConditionTypeMeta ConditionFalse
        ConditionReasonWaitingForManagedReplicasDeletion "Waiting for managed replicas to be deleted"]
  | [] =>
      ReplicaFinalizer ∉ rep_Finalizers rep' ∧
      ((RemoveFinalizer (rep_Finalizers rep) ReplicaFinalizer).2 = false ∧
         tr = [] ∧ fl = Next true ∧ s_Object s' = rep' ∨
       ∃ o err, tr = [@Ev _ Resp (PatchReplica platformCluster rep' rep) (o, err)] ∧
         s_Object s' = o ∧ fl = Next (bool_decide (err = None)) ∧
         (is_Some (s_ReconcileError s') ↔ is_Some err))
  end.
Proof.
  cbv zeta. intros Hex. refine (proj1 (mwp_exec any _ _ (λ tr s' fl, _) _ _ _ _ Hex)).
  clear Hex tr s' fl. unfold handleDelete. rstep. rstep. simpl.
  pose proof (RemoveFinalizer_gone (rep_Finalizers rep) ReplicaFinalizer) as Hgone.
  destruct (rep_Replicas rep) eqn:Hr; simpl.
  - destruct (RemoveFinalizer (rep_Finalizers rep) ReplicaFinalizer) as [fs removed]. simpl in *.
    rstep. rstep. rstep; [|rstep; split; [done|]; by left].
    rstep. rstep. rstep. rstep; [done|]. destruct r as [o err]. rstep. rstep. simpl. destruct err as [err|].
    + do 4 rstep. rstep. simpl. split; [done|]. right. exists o, (Some err). simpl.
      split; [done|]. split; [done|]. split; [done|]. by split; eexists.
    + rstep. split; [done|]. right. exists o, None. simpl.
      split; [done|]. split; [done|]. split; [done|]. by split; intros [? ?].
  - rstep. rstep. rstep. simpl. by rewrite GenerateCreateCondition_law.
Qed.

(** ** The operation annotation *)

(** There is nothing to do: the object is gone or annotated to be ignored. *)
Definition nothingToDo (ev : KEvent) : Prop :=
  match ev with
  | Ev (GetReplica _ _ _) found =>
      match found with
      | Found rep => rep_Annotations rep ≫= (.!! OperationAnnotation) = Some OperationAnnotationValueIgnore
      | NotFound _ => True
      | Failed _ => False
      end
  | _ => False
  end.

(** C22: A (Cluster)Replica that is annotated to be ignored, or that does not
    exist, is left alone: after reading it the reconcile does nothing but
    report the empty result. *)
Theorem ignored_is_untouched providerName req si access read rest a :
  exec (Reconcile providerName req si) (access :: read :: rest) a → nothingToDo read →
  ∃ pc requeue res, rest = [@Ev _ Resp (UpdateStatus pc emptyResult phaseFunc requeue) res].
Proof.
  intros Hex Hn. destruct a as [si' fl].
  assert (∀ rep, rep_Annotations rep ≫= (.!! OperationAnnotation) = Some OperationAnnotationValueIgnore →
            operationOf rep = OpIgnore) as Hop.
  { intros rep Hrep. unfold operationOf. by rewrite Hrep, String.eqb_refl. }
  unfold Reconcile in Hex. apply exec_inv in Hex as (r & tr1 & [= -> <-] & Hex); simpl in Hex.
  destruct r as [err|pc]; [by apply exec_inv in Hex as [? _]|].
  apply exec_inv in Hex as (r & tr2 & [= -> <-] & Hex); simpl in Hn, Hex.
  destruct r as [rep|err0|err0]; [rewrite (Hop rep Hn) in Hex| |done]; simpl in Hex;
    (apply exec_inv in Hex as ([[updated after] err] & tr3 & -> & Hex); simpl in Hex;
     assert (tr3 = []) as -> by (destruct err; by apply exec_inv in Hex as [? _]); by do 3 eexists).
Qed.

End Outcomes.

(** ** The interval of the next reconcile *)

(** The interval of the spec bounds the time until the next reconcile: with
    a positive interval the reconcile is repeated after the requested time or
    the interval, whichever is sooner, and after the interval when nothing was
    requested; a non-positive interval leaves the request alone; without an
    interval the bound is an hour. *)
Theorem requeue_bounded_by_interval spec after :
  let result := capInterval (GetInterval spec) after in
  ((0 < GetInterval spec)%Z → (0 <= after)%Z →
     (0 < result <= GetInterval spec)%Z ∧ ((0 < after)%Z → result = Z.min after (GetInterval spec))) ∧
  ((GetInterval spec <= 0)%Z → result = after) ∧
  (spec_Interval spec = None → (0 < result <= Hour)%Z ∨ (after < 0)%Z).
Proof.
  cbv zeta. unfold capInterval.
  destruct (Z.ltb_spec 0 (GetInterval spec)), (Z.eqb_spec after 0), (Z.ltb_spec (GetInterval spec) after);
    simpl; (split; [lia|]); (split; [lia|]); intros Hn;
    (assert (GetInterval spec = Hour) by (unfold GetInterval; by rewrite Hn));
    change Hour with 3600000000000%Z in *; lia.
Qed.
