(* ===== verification/TargetProperties.v ===== *)
(** * One target resource: contents, labels, ownership

    Properties of the callback of [CreateOrUpdate], of the management labels,
    and of the ownership tests that read them back. *)

From S2P Require Import Prelude GoLib ApiTypes External Effects Kube.
From S2P Require Import StatusList ConditionNames ReplicaState ReplicaTarget ReplicaDelete ReplicaReconcile.
From S2P Require Import FakeServer Scenarios.

#[local] Opaque ReplicaDeletionPolicyLabel.

(** ** The callback of [CreateOrUpdate] *)

Lemma lookup_syncFields target rendered k :
  syncFields target rendered !! k = if skippedKey k then target !! k else rendered !! k.
Proof.
  unfold syncFields. apply option_eq. intros v.
  rewrite map_lookup_filter_Some, lookup_union_Some_raw, map_lookup_filter_Some, map_lookup_filter_None.
  destruct (skippedKey k) eqn:Hk.
  - split; [|intros Ht; split; [|by left]; right; split; [|done]; by right].
    intros [[[_ ?]|[_ Ht]] _]; done.
  - split.
    + intros [[[? _]|[Hr Ht]] [?|[w Hw]]]; try done.
      exfalso. destruct Hr as [Hr|Hr]; [congruence|]. by apply (Hr w).
    + intros Hr. split; [by left|]. right. eauto.
Qed.

Lemma map_has_get (m : StringMap) k : map_has m k = true ↔ m ≫= (.!! k) = Some (map_get m k).
Proof.
  unfold map_has, map_get. rewrite bool_decide_eq_true. split; [|by intros ->].
  intros [v ->]. done.
Qed.

Lemma syncLabels_spec (target : StringMap) (m : gmap string string) :
  ∃ m', syncLabels target (Some m) = Some (Some m') ∧
    (∀ k, k ≠ ReplicaDeletionPolicyLabel → m' !! k = m !! k) ∧
    m' !! ReplicaDeletionPolicyLabel =
      match m !! ReplicaDeletionPolicyLabel with
      | Some v => Some v
      | None => target ≫= (.!! ReplicaDeletionPolicyLabel)
      end.
Proof.
  unfold syncLabels.
  destruct (map_has target ReplicaDeletionPolicyLabel) eqn:Ht; simpl.
  - apply map_has_get in Ht.
    destruct (map_has (Some m) ReplicaDeletionPolicyLabel) eqn:Hm; simpl.
    + apply map_has_get in Hm. simpl in Hm. exists m. by rewrite Hm.
    + eexists. split; [done|]. split; [intros k Hk; by rewrite lookup_insert_ne|].
      rewrite lookup_insert_eq. unfold map_has in Hm. simpl in Hm.
      apply bool_decide_eq_false, eq_None_not_Some in Hm. by rewrite Hm, Ht.
  - exists m. split; [done|]. split; [done|]. unfold map_has in Ht.
    apply bool_decide_eq_false, eq_None_not_Some in Ht. rewrite Ht.
    by destruct (m !! ReplicaDeletionPolicyLabel).
Qed.

(** [mutateTarget] never fails on a manifest with labels, and this is its result. *)
Lemma mutateTarget_result rendered target m :
  u_Labels rendered = Some m →
  ∃ m', mutateTarget rendered target =
          Some (u_set_Annotations (u_Annotations rendered)
                 (u_set_Labels (Some m')
                   (u_set_Fields (syncFields (u_Fields target) (u_Fields rendered)) target))) ∧
    (∀ k, k ≠ ReplicaDeletionPolicyLabel → m' !! k = m !! k) ∧
    m' !! ReplicaDeletionPolicyLabel =
      match m !! ReplicaDeletionPolicyLabel with
      | Some v => Some v
      | None => u_Labels target ≫= (.!! ReplicaDeletionPolicyLabel)
      end.
Proof.
  intros Hm. unfold mutateTarget. rewrite Hm.
  destruct (syncLabels_spec (u_Labels target) m) as (m' & -> & ? & ?). by exists m'.
Qed.

Lemma updates_twice u a l f l' f' :
  u_set_Annotations a (u_set_Labels l (u_set_Fields f
    (u_set_Annotations a (u_set_Labels l' (u_set_Fields f' u))))) =
  u_set_Annotations a (u_set_Labels l (u_set_Fields f u)).
Proof. destruct u; reflexivity. Qed.

(** A second application to the result changes nothing. *)
Lemma mutateTarget_idem rendered target m result :
  u_Labels rendered = Some m →
  mutateTarget rendered target = Some result → mutateTarget rendered result = Some result.
Proof.
  intros Hm Heq. destruct (mutateTarget_result rendered target m Hm) as (m' & Heq' & Hne & Hdp).
  rewrite Heq' in Heq. injection Heq as <-.
  match goal with |- mutateTarget _ ?u = _ =>
    destruct (mutateTarget_result rendered u m Hm) as (m'' & -> & Hne' & Hdp') end.
  assert (m'' = m') as ->.
  { apply map_eq. intros k. destruct (decide (k = ReplicaDeletionPolicyLabel)) as [->|Hk].
    - rewrite Hdp'. simpl. rewrite Hdp. by destruct (m !! ReplicaDeletionPolicyLabel).
    - by rewrite Hne', Hne. }
  assert (∀ f, syncFields (syncFields f (u_Fields rendered)) (u_Fields rendered) =
               syncFields f (u_Fields rendered)) as Hsync.
  { intros f. apply map_eq. intros k. rewrite !lookup_syncFields. by destruct (skippedKey k). }
  rewrite updates_twice. do 4 f_equal. apply Hsync.
Qed.

(** C20: What an update does to a target resource: the top-level fields become
    those of the rendered manifest, except that "metadata", "status",
    "apiVersion" and "kind" keep the live contents; annotations and labels
    become the rendered ones, except that an existing deletion policy label the
    manifest does not mention survives; identity, UID, resource version,
    timestamps, finalizers, owner references and the rest of the metadata are
    untouched; and a second update with the same manifest changes nothing. *)
Theorem mutateTarget_spec rendered target m :
  u_Labels rendered = Some m →
  ∃ result, mutateTarget rendered target = Some result ∧
    (∀ k, u_Fields result !! k =
       if skippedKey k then u_Fields target !! k else u_Fields rendered !! k) ∧
    u_Annotations result = u_Annotations rendered ∧
    (∀ k, k ≠ ReplicaDeletionPolicyLabel → map_get (u_Labels result) k = default "" (m !! k)) ∧
    map_get (u_Labels result) ReplicaDeletionPolicyLabel =
      match m !! ReplicaDeletionPolicyLabel with
      | Some v => v
      | None => map_get (u_Labels target) ReplicaDeletionPolicyLabel
      end ∧
    (u_GVK result, u_Namespace result, u_Name result, u_UID result, u_ResourceVersion result,
     u_Generation result, u_CreationTimestamp result, u_DeletionTimestamp result,
     u_Finalizers result, u_OwnerReferences result, u_MetaRest result) =
    (u_GVK target, u_Namespace target, u_Name target, u_UID target, u_ResourceVersion target,
     u_Generation target, u_CreationTimestamp target, u_DeletionTimestamp target,
     u_Finalizers target, u_OwnerReferences target, u_MetaRest target) ∧
    mutateTarget rendered result = Some result.
Proof.
  intros Hm. destruct (mutateTarget_result rendered target m Hm) as (m' & Heq & Hne & Hdp).
  eexists. split; [exact Heq|]. split; [intros k; apply lookup_syncFields|].
  split; [done|]. split; [intros k Hk; unfold map_get; simpl; by rewrite Hne|]. split.
  { unfold map_get. simpl. rewrite Hdp. by destruct (m !! ReplicaDeletionPolicyLabel). }
  split; [done|]. by eapply mutateTarget_idem.
Qed.

(** ** The marks of the (Cluster)Replica *)

Section Marks.
Context `{X : Ext} {XL : ExtLaws X}.
Variable providerName : string.

Lemma managedBy_not_management : ManagedByLabel ∉ managementLabels.
Proof. apply ManagedByLabel_fresh. Qed.

Lemma marks_lookup rep (labels : gmap string string) :
  let m := managementLabelsOf providerName rep labels in
  m !! ManagedByLabel = Some providerName ∧
  m !! ReplicaSourceKindLabel = Some (ToLower (ReplicaKind rep)) ∧
  m !! ReplicaSourceNameLabel = Some (rep_Name rep) ∧
  m !! ReplicaSourceGenerationLabel = Some (format_int (rep_Generation rep)) ∧
  m !! ReplicaSourceNamespaceLabel =
    (match rep_Type rep with TReplica => Some (rep_Namespace rep)
     | TClusterReplica => labels !! ReplicaSourceNamespaceLabel end) ∧
  ∀ k, k ≠ ManagedByLabel → k ∉ managementLabels → m !! k = labels !! k.
Proof.
  pose proof managedBy_not_management as Hfresh. unfold managementLabels in *.
  rewrite !not_elem_of_cons in Hfresh. destruct_and! Hfresh.
  assert (ReplicaSourceKindLabel ≠ ReplicaSourceNameLabel) by done.
  unfold managementLabelsOf, ReplicaKind.
  destruct (rep_Type rep); simpl;
    (repeat split; [by simplify_map_eq..|]);
    intros k; rewrite !not_elem_of_cons; intros; destruct_and?; by simplify_map_eq.
Qed.

(** The labels of what a sync writes. *)
Lemma synced_labels rep raw seen target :
  mutateTarget (setManagementLabels providerName rep raw) seen = Some target →
  ∀ k, k ≠ ReplicaDeletionPolicyLabel →
    map_get (u_Labels target) k =
    default "" (managementLabelsOf providerName rep (default ∅ (u_Labels raw)) !! k).
Proof.
  intros Hmut k Hk.
  destruct (mutateTarget_result (setManagementLabels providerName rep raw) seen
              (managementLabelsOf providerName rep (default ∅ (u_Labels raw))) eq_refl)
    as (m' & Heq & Hne & _).
  rewrite Heq in Hmut. injection Hmut as <-. unfold map_get. simpl. by rewrite Hne.
Qed.

(** Both tests on what a sync writes. *)
Lemma synced_recognised rep raw seen target :
  mutateTarget (setManagementLabels providerName rep raw) seen = Some target →
  isManaged providerName rep (u_Labels target) = true ∧
  ownedByThis rep target =
    match rep_Type rep with
    | TReplica => true
    | TClusterReplica =>
        String.eqb (map_get (u_Labels raw) ReplicaSourceNamespaceLabel) (rep_Namespace rep)
    end.
Proof.
  intros Hmut. pose proof (synced_labels _ _ _ _ Hmut) as Hl.
  destruct (marks_lookup rep (default ∅ (u_Labels raw))) as (Hmb & Hk & Hn & _ & Hns & _).
  assert (ManagedByLabel ≠ ReplicaDeletionPolicyLabel) as Hne.
  { pose proof managedBy_not_management as Hf. unfold managementLabels in Hf.
    rewrite !not_elem_of_cons in Hf. tauto. }
  unfold isManaged, ownedByThis.
  rewrite !Hl by done. rewrite Hmb, Hk, Hn, Hns. simpl. rewrite !String.eqb_refl. simpl.
  split; [done|]. destruct (rep_Type rep); simpl; [by rewrite String.eqb_refl|].
  unfold map_get. by destruct (u_Labels raw).
Qed.

(** C21: A copy is recognised again.  Whatever a sync of the (Cluster)Replica
    writes passes the test [isManaged] of the deletion; it passes the ownership
    test of the next reconcile too, except when a ClusterReplica's manifest
    brings a namespace label of its own, which nothing removes. *)
Theorem synced_copy_is_recognised rep raw seen target :
  mutateTarget (setManagementLabels providerName rep raw) seen = Some target →
  isManaged providerName rep (u_Labels target) = true ∧
  ownedByThis rep target =
    match rep_Type rep with
    | TReplica => true
    | TClusterReplica =>
        String.eqb (map_get (u_Labels raw) ReplicaSourceNamespaceLabel) (rep_Namespace rep)
    end.
Proof. exact (synced_recognised rep raw seen target). Qed.

End Marks.

(** ** Witnesses *)

Lemma mutateTarget_spec_witness :
  let rendered := obj "t1" "cm" "new" [("app", "x")] in
  let live := obj "t1" "cm" "old" [(ReplicaDeletionPolicyLabel, ReplicaDeletionPolicyKeep)] in
  ∃ result, mutateTarget rendered live = Some result ∧ dataOf result = "new" ∧
            map_get (u_Labels result) ReplicaDeletionPolicyLabel = ReplicaDeletionPolicyKeep.
Proof.
  intros rendered live.
  destruct (mutateTarget_spec rendered live {["app" := "x"]} eq_refl)
    as (result & Heq & Hf & _ & _ & Hdp & _).
  exists result. split; [exact Heq|]. split.
  - unfold dataOf. rewrite Hf. vm_compute. reflexivity.
  - rewrite Hdp. vm_compute. reflexivity.
Defined.

Lemma synced_copy_is_recognised_witness :
  let rep := mkReplica TReplica "app" "r1" None [] None [] [] in
  let raw := obj "t1" "cm" "new" [] in
  match mutateTarget (setManagementLabels provider rep raw) raw with
  | Some target => ownedByThis rep target = true
  | None => False
  end.
Proof.
  intros rep raw.
  assert (∃ target, mutateTarget (setManagementLabels provider rep raw) raw = Some target)
    as [target Ht] by (eexists; vm_compute; reflexivity).
  rewrite Ht. destruct (synced_copy_is_recognised provider rep raw raw target Ht) as [_ Ho].
  exact Ho.
Defined.
