(* ===== verification/Divergences.v ===== *)
(** * Where the controller does not do what it means to

    Concrete reconciles against the server of [FakeServer].  Each statement
    quotes the events of the history that matter; the comment says what the
    code intends. *)

From S2P Require Import Prelude GoLib ApiTypes External Effects Kube.
From S2P Require Import Shared StatusList ReplicaState ReplicaTarget ReplicaDelete ReplicaReconcile.
From S2P Require Import FakeServer Scenarios.

#[local] Abbreviation event e r := (@Ev Req Resp e r).

(** The copy that a target next to the cluster [ns1/c1] already has. *)
Definition nextToCopy : Unstructured := obj "ns1" "cm" "v0" (copyLabels "replica" "app" "r1").

(** Resources that failed to be updated are meant to be kept ("this is to avoid
    deleting resources that failed to be created/updated").  For a target next
    to a cluster the failure is reported under the cluster's name, while the
    status lists the copy under the platform cluster, so the protection does
    not find it: the update of the copy is rejected, and the same reconcile
    deletes the copy. *)
Theorem nextTo_failed_update_is_deleted :
  let target := manifestAt (history run_nextToRejected) 6 in
  history run_nextToRejected !! 6 = Some (event (CouWriteTarget platform target) (inl "rejected")) ∧
  keyOf platform target = keyOf platform nextToCopy ∧
  history run_nextToRejected !! 11 = Some (event (DeleteObject platform nextToCopy) Deleted).
Proof. cbv zeta; split_and!; vm_compute; reflexivity. Qed.

(** "If they are different, we have a conflict and report an error."  Two
    clusters in the same namespace render the same resource next to them with
    different contents: the second silently overwrites the first, and the
    reconcile reports no error. *)
Theorem nextTo_conflict_is_missed :
  let t1 := manifestAt (history run_nextToTwice) 9 in
  let t2 := manifestAt (history run_nextToTwice) 13 in
  history run_nextToTwice !! 9 = Some (event (CouWriteTarget platform t1) (inr t1)) ∧
  history run_nextToTwice !! 13 = Some (event (CouWriteTarget platform t2) (inr t2)) ∧
  keyOf platform t1 = keyOf platform t2 ∧ dataOf t1 = "c1" ∧ dataOf t2 = "c2" ∧
  (outcome run_nextToTwice).2 = Next (Hour, None).
Proof. cbv zeta; split_and!; vm_compute; reflexivity. Qed.

(** A template error determines no target, so nothing protects the copies of
    earlier reconciles: they are deleted as if they were obsolete. *)
Theorem template_error_deletes_copies :
  (∃ d m, history run_templateFails !! 5 = Some (event (TemplateExecute "fail" d) (inl "nil pointer", m))) ∧
  history run_templateFails !! 10 =
    Some (event (DeleteObject platform (obj "t1" "cm" "v0" (copyLabels "replica" "app" "r1"))) Deleted).
Proof. split; [do 2 eexists|]; vm_compute; reflexivity. Qed.

(** The ownership check compares kind, name and namespace; the deletion
    compares only kind and name: the Replica [app/r1] deletes an object that,
    by its labels, belongs to the Replica [other/r1]. *)
Theorem namesake_copy_is_deleted :
  let theirs := obj "old" "cm" "v0" (copyLabels "replica" "other" "r1") in
  history run_namesake !! 14 = Some (event (DeleteObject platform theirs) Deleted) ∧
  ownedByOther (mkReplica TReplica "app" "r1" None [] None [] []) theirs = true.
Proof. split; vm_compute; reflexivity. Qed.

(** A ClusterReplica sets no namespace label but does not remove one either:
    when its source is itself a copy of a Replica, the first reconcile
    succeeds and the second one no longer recognises the copy as its own. *)
Theorem inherited_label_disowns :
  (outcome run_inherited1).2 = Next (Hour, None) ∧
  (outcome run_inherited2).2 = Next (0%Z, Some
    "target resource 't1/cm' (/v1, Kind=ConfigMap) in cluster '<hosting-platform-cluster>' already exists and is not owned by this (Cluster)Replica").
Proof. split; vm_compute; reflexivity. Qed.

(** The status patch refreshes the spec in memory while the sources have been
    fetched for the old one: when the id of the source is edited meanwhile, the
    next exact copy dereferences a nil source. *)
Theorem spec_edit_panics :
  (outcome run_racing).2 = Panic "nil pointer dereference".
Proof. vm_compute. reflexivity. Qed.

(** The status in memory keeps an entry whose status patch failed: another
    target definition that renders the same resource takes it for tracked and
    creates it, although no status the server stores mentions it. *)
Theorem failed_tracking_is_forgotten :
  let target := manifestAt (history run_statusRejected) 11 in
  history run_statusRejected !! 11 = Some (event (CouWriteTarget platform target) (inr target)) ∧
  existsb (λ ev : KEvent, match ev with
                          | Ev (PatchReplicaStatus _ _ _) (_, None) => true
                          | _ => false
                          end) (history run_statusRejected) = false ∧
  rep_Replicas <$> w_replica (w_nextTo [mkCluster "ns1" "c1"] None
    [nextToTarget; hostTarget ["ns1"] None None] [] ["r1"]) = Some [].
Proof. cbv zeta; split_and!; vm_compute; reflexivity. Qed.
