(* ===== verification/SafetyProperties.v ===== *)
(** * Safety of a reconcile

    What the requests of any reconcile have in common, for every behaviour of
    the API servers: the properties read the policy of [ReplicaPolicy] off the
    histories of [Reconcile]. *)

From S2P Require Import Prelude GoLib ApiTypes External Effects Kube.
From S2P Require Import Shared StatusList ReplicaState ReplicaTarget ReplicaCreateOrUpdate ReplicaDelete.
From S2P Require Import ReplicaReconcile ReplicaPolicy ReplicaSafety FakeServer Scenarios.

(** [tr] is the history of a reconcile of [req]. *)
Definition reconcileHistory `{X : Ext} (providerName : string) (req : Request) (tr : KHistory) : Prop :=
  ∃ si a, exec (Reconcile providerName req si) tr a.

Lemma run_history `{X : Ext} providerName req (w : world)
    (h : ∀ e : Req, world → world * Resp e) si :
  reconcileHistory providerName req (history (run h (Reconcile providerName req si) w)).
Proof. exists si. eexists. apply (run_exec h). Qed.

Section Safety.
Context `{X : Ext} {XL : ExtLaws X}.
Variables (providerName : string) (req : Request).

(** The policy at one point of a history. *)
Lemma history_safe tr i e r :
  reconcileHistory providerName req tr → tr !! i = Some (Ev e r) → isStatusUpdate e = false →
  take i tr = [] ∧ e = ProviderGet (req_Cluster req) ∨
  ∃ pc, platformOf (take i tr) = Some pc ∧ safeRequest providerName req pc (take i tr) e.
Proof.
  intros (si & [s' fl] & Hex) Hi Hn.
  destruct (mwp_exec _ _ _ _ _ _ _ (Reconcile_ok providerName req si) Hex) as [_ Hp].
  destruct (Hp (take i tr) (Ev e r) (drop (S i) tr)) as [?|(pc & ? & [?|[Hs _]])];
    [symmetry; by apply take_drop_middle|by left|right; by exists pc|].
  simpl in Hs. congruence.
Qed.

Lemma history_honest (tr : KHistory) i : honest tr → honest (take i tr).
Proof. intros H. rewrite <- (take_drop i tr) in H. by apply honest_app in H as [? _]. Qed.

Lemma platformOf_take (tr : KHistory) i pc : platformOf (take i tr) = Some pc → platformOf tr = Some pc.
Proof. destruct tr, i; done. Qed.

(** C1: A reconcile deletes only its own copies.  Every deletion is preceded,
    immediately, by a read of the very same object; the object carries the
    provider's managed-by label and the name and kind of the reconciled
    (Cluster)Replica, it is not marked "Keep" and it is not in deletion yet.
    This holds for every history of the servers' answers. *)
Theorem delete_only_managed tr i acc obj r :
  reconcileHistory providerName req tr → honest tr →
  tr !! i = Some (Ev (DeleteObject acc obj) r) →
  ∃ tr0 gvk ns n,
    take i tr = tr0 ++ [@Ev _ Resp (GetObject acc gvk ns n) (Found obj)] ∧
    map_get (u_Labels obj) ManagedByLabel = providerName ∧
    map_get (u_Labels obj) ReplicaSourceNameLabel = req_Name req ∧
    map_get (u_Labels obj) ReplicaSourceKindLabel =
      ToLower (match kindOfRequest req with TReplica => KindReplica | TClusterReplica => KindClusterReplica end) ∧
    map_get (u_Labels obj) ReplicaDeletionPolicyLabel ≠ ReplicaDeletionPolicyKeep ∧
    IsZero (u_DeletionTimestamp obj) = true.
Proof.
  intros Hre Hh Hi. destruct (history_safe _ _ _ _ Hre Hi eq_refl) as [[? ?]|(pc & Hpc & Hs)]; [done|].
  destruct (Hs (history_honest _ _ Hh)) as (tr0 & gvk & ns & n & rep & Htr & Hreq & Hm & Hk & Hz).
  exists tr0, gvk, ns, n. split; [done|].
  unfold isManaged in Hm. apply andb_true_iff in Hm as [[Hp Hn]%andb_true_iff Hkind].
  apply String.eqb_eq in Hp, Hn, Hkind. destruct Hreq as (Ht & _ & Hname).
  repeat split; try done; [by rewrite Hn|]. rewrite Hkind. unfold ReplicaKind. by rewrite Ht.
Qed.

(** C16: The deletion policy label "Keep" is respected: the only patch a
    reconcile applies to a target resource concerns a copy of its own that is
    marked "Keep" and was read immediately before.  It changes nothing but the
    labels, and of these it removes exactly the six labels of the controller:
    managed-by, kind, name and namespace of the source, its generation, and the
    deletion policy.  The released object is managed by no (Cluster)Replica any
    more (of a provider with a name). *)
Theorem keep_policy_releases tr i acc new old r :
  reconcileHistory providerName req tr → honest tr →
  tr !! i = Some (Ev (PatchObject acc new old) r) →
  ∃ tr0 gvk ns n rep,
    take i tr = tr0 ++ [@Ev _ Resp (GetObject acc gvk ns n) (Found old)] ∧
    isRequested req rep ∧ isManaged providerName rep (u_Labels old) = true ∧
    map_get (u_Labels old) ReplicaDeletionPolicyLabel = ReplicaDeletionPolicyKeep ∧
    new = u_set_Labels (u_Labels new) old ∧
    (∀ k, u_Labels new ≫= (.!! k) =
          if decide (k ∈ [ManagedByLabel; ReplicaSourceKindLabel; ReplicaSourceNameLabel;
                          ReplicaSourceNamespaceLabel; ReplicaSourceGenerationLabel;
                          ReplicaDeletionPolicyLabel])
          then None else u_Labels old ≫= (.!! k)) ∧
    (∀ rep', isManaged providerName rep' (u_Labels new) = true → providerName = "").
Proof.
  intros Hre Hh Hi. destruct (history_safe _ _ _ _ Hre Hi eq_refl) as [[? ?]|(pc & Hpc & Hs)]; [done|].
  destruct (Hs (history_honest _ _ Hh)) as (tr0 & gvk & ns & n & rep & Htr & Hreq & Hm & Hk & Hnew & Hl).
  exists tr0, gvk, ns, n, rep. do 5 (split; [done|]). split; [exact Hl|].
  intros rep'. unfold isManaged. rewrite !andb_true_iff, !String.eqb_eq. intros [[<- _] _].
  unfold map_get. specialize (Hl ManagedByLabel). rewrite decide_True in Hl by by left.
  by destruct (u_Labels new) as [m|]; simpl in *; [rewrite Hl|].
Qed.

(** C2: A reconcile writes a target resource only when it may.  Every write
    applies the callback of [CreateOrUpdate] to the contents read immediately
    before; the resource had been looked up through the same access, with no
    other access to target resources since, and it either did not exist, or
    was owned by the reconciled (Cluster)Replica, or the target definition has
    the policy "Overwrite", and the resource had no owner and was not in
    deletion.  What is written was rendered with the marks of the
    (Cluster)Replica. *)
Theorem write_requires_permission tr i acc target r :
  reconcileHistory providerName req tr → honest tr →
  tr !! i = Some (Ev (CouWriteTarget acc target) r) →
  ∃ tr0 rendered seen found mid,
    take i tr = tr0 ++ Ev (GetObject acc (u_GVK rendered) (u_Namespace rendered) (u_Name rendered)) found
                    :: mid ++ [@Ev _ Resp (CouReadTarget acc rendered) (CouCallback seen)] ∧
    Forall (λ ev, quiet ev = true) mid ∧ writable req (take i tr) found ∧
    marked providerName req rendered ∧ mutateTarget rendered seen = Some target.
Proof.
  intros Hre Hh Hi. destruct (history_safe _ _ _ _ Hre Hi eq_refl) as [[? ?]|(pc & Hpc & Hs)]; [done|].
  destruct Hs as (tr0 & rendered & seen & Htr & Hmut).
  assert (tr !! length tr0 = Some (@Ev _ Resp (CouReadTarget acc rendered) (CouCallback seen))) as Hj.
  { rewrite <- (take_drop i tr), Htr, <- app_assoc. by rewrite lookup_app_r, Nat.sub_diag by lia. }
  assert (take (length tr0) tr = tr0) as Htk.
  { rewrite <- (take_drop i tr), Htr, <- app_assoc. by apply take_app_length. }
  destruct (history_safe _ _ _ _ Hre Hj eq_refl) as [[? ?]|(pc' & _ & Hs')]; [done|].
  destruct (Hs' (history_honest _ _ Hh)) as [(tr1 & found & mid & Htr1 & Hmid & Hw) [Hmk _]].
  rewrite Htk in Htr1, Hw. exists tr1, rendered, seen, found, mid.
  rewrite Htr. split; [by rewrite Htr1, <- app_assoc|]. split; [done|].
  split; [|done]. destruct found as [ex| |]; simpl in *; [|done|done].
  destruct Hw as [?|(td & ? & ?)]; [by left|]. right. exists td.
  split; [by apply targetDelivered_app|done].
Qed.

(** C3: "add to status before creating, so we don't lose track if something
    goes wrong afterwards": when no status patch of the reconcile has failed,
    every resource is recorded, under the cluster the access leads to, in a
    version of the status that the platform cluster stores before the resource
    is created or updated. *)
Theorem tracked_before_write tr i acc rendered r :
  reconcileHistory providerName req tr → honest tr → statusPatched tr →
  tr !! i = Some (Ev (CouReadTarget acc rendered) r) →
  ∃ pc, platformOf tr = Some pc ∧ trackedBefore pc (take i tr) acc rendered.
Proof.
  intros Hre Hh Hsp Hi. destruct (history_safe _ _ _ _ Hre Hi eq_refl) as [[? ?]|(pc & Hpc & Hs)]; [done|].
  destruct (Hs (history_honest _ _ Hh)) as (_ & _ & Ht). exists pc.
  split; [by eapply platformOf_take|]. apply Ht.
  rewrite <- (take_drop i tr) in Hsp. by apply statusPatched_app in Hsp as [? _].
Qed.

(** C19: A namespace is created only on demand: in the cluster where a
    namespaced resource has just been found missing, after its namespace has
    been found missing too, and for a target definition with the policy
    "Create". *)
Theorem namespace_created_on_demand tr i acc n r :
  reconcileHistory providerName req tr →
  tr !! i = Some (Ev (CreateNamespace acc n) r) →
  n ≠ "" ∧
  ∃ tr0 gvk name err err' td,
    take i tr = tr0 ++ [@Ev _ Resp (GetObject acc gvk n name) (NotFound err);
                        @Ev _ Resp (GetNamespace acc n) (NotFound err')] ∧
    targetDelivered (take i tr) td ∧ GetNamespacePolicy td = NamespacePolicyCreate.
Proof.
  intros Hre Hi. destruct (history_safe _ _ _ _ Hre Hi eq_refl) as [[? ?]|(pc & Hpc & Hs)]; [done|].
  destruct Hs as (tr0 & gvk & name & err & err' & td & ? & ? & ? & ?).
  split; [done|]. by exists tr0, gvk, name, err, err', td.
Qed.

(** C17: The finalizer protects the copies.  A reconcile changes the metadata
    of the (Cluster)Replica in two ways only, and only on the platform cluster.
    A patch is relative to a version [old] the server delivered, changes
    nothing but the finalizers, and either appends the controller's finalizer
    to an object that is not in deletion and lacks it, or removes it from one
    in deletion whose status tracks no resource any more.  The other change is
    the removal of the operation annotation, from the version that was read
    immediately before, when its value asks for a reconcile. *)
Theorem finalizer_protects_copies tr i e r :
  reconcileHistory providerName req tr → tr !! i = Some (Ev e r) →
  match e with
  | PatchReplica acc o old =>
      platformOf tr = Some acc ∧ delivered (take i tr) old ∧
      o = rep_set_Finalizers (rep_Finalizers o) old ∧
      ((IsZero (rep_DeletionTimestamp old) = true ∧ ReplicaFinalizer ∉ rep_Finalizers old ∧
        rep_Finalizers o = rep_Finalizers old ++ [ReplicaFinalizer]) ∨
       (IsZero (rep_DeletionTimestamp old) = false ∧ rep_Replicas old = [] ∧
        RemoveFinalizer (rep_Finalizers old) ReplicaFinalizer = (rep_Finalizers o, true) ∧
        ReplicaFinalizer ∉ rep_Finalizers o))
  | DeleteOperationAnnotation acc rep =>
      platformOf tr = Some acc ∧
      (∃ tr0, take i tr = tr0 ++ [@Ev _ Resp (GetReplica acc (kindOfRequest req)
                                              (req_NamespacedName req)) (Found rep)]) ∧
      rep_Annotations rep ≫= (.!! OperationAnnotation) = Some OperationAnnotationValueReconcile
  | _ => True
  end.
Proof.
  intros Hre Hi. destruct e; try exact I;
    destruct (history_safe _ _ _ _ Hre Hi eq_refl) as [[? ?]|(pc & Hpc & -> & Hs)]; try done.
  - destruct Hs as (tr0 & Htr & Hop). split; [by eapply platformOf_take|]. split; [by exists tr0|done].
  - destruct Hs as (Hdel & Ho & Hs). split; [by eapply platformOf_take|]. split; [done|].
    split; [done|]. destruct (IsZero (rep_DeletionTimestamp old)); [left; by destruct Hs|right].
    destruct Hs as [? Hrm]. do 3 (split; [done|]).
    pose proof (RemoveFinalizer_gone (rep_Finalizers old) ReplicaFinalizer) as Hg. by rewrite Hrm in Hg.
Qed.

End Safety.

(** ** Witnesses *)

Lemma scenario_history req (w : world) :
  reconcileHistory provider req (history (runReconcile provider req w)).
Proof. apply run_history. Qed.

Lemma delete_only_managed_witness :
  let old := obj "old" "cm" "v0" (copyLabels "replica" "app" "r1") in
  history run_obsolete !! 14 = Some (@Ev _ Resp (DeleteObject platform old) Deleted) ∧
  map_get (u_Labels old) ManagedByLabel = "replicator".
Proof.
  intros old.
  assert (history run_obsolete !! 14 = Some (@Ev _ Resp (DeleteObject platform old) Deleted)) as Hi
    by (vm_compute; reflexivity).
  split; [exact Hi|].
  assert (honest (history run_obsolete)) as Hh by concrete.
  destruct (delete_only_managed provider request _ _ _ _ _ (scenario_history request _) Hh Hi)
    as (? & ? & ? & ? & _ & Hm & _). exact Hm.
Defined.

Lemma keep_policy_releases_witness :
  let old := obj "old" "cm" "v0" ((ReplicaDeletionPolicyLabel, ReplicaDeletionPolicyKeep)
                                    :: copyLabels "replica" "app" "r1") in
  let new := u_set_Labels (Some ∅) old in
  history run_keep !! 14 = Some (@Ev _ Resp (PatchObject platform new old) None) ∧
  u_Labels new ≫= (.!! ReplicaSourceKindLabel) = None.
Proof.
  intros old new.
  assert (history run_keep !! 14 = Some (@Ev _ Resp (PatchObject platform new old) None)) as Hi
    by (vm_compute; reflexivity).
  split; [exact Hi|].
  assert (honest (history run_keep)) as Hh by concrete.
  destruct (keep_policy_releases provider request _ _ _ _ _ _ (scenario_history request _) Hh Hi)
    as (? & ? & ? & ? & ? & _ & _ & _ & _ & _ & Hk & _).
  exact (Hk ReplicaSourceKindLabel).
Defined.

Definition written : Unstructured := manifestAt (history run_overwrite) 8.

Lemma write_requires_permission_witness :
  history run_overwrite !! 8 = Some (@Ev _ Resp (CouWriteTarget platform written) (inr written)) ∧
  ∃ rendered, marked provider request rendered.
Proof.
  assert (history run_overwrite !! 8 =
          Some (@Ev _ Resp (CouWriteTarget platform written) (inr written))) as Hi
    by (vm_compute; reflexivity).
  split; [exact Hi|].
  assert (honest (history run_overwrite)) as Hh by concrete.
  destruct (write_requires_permission provider request _ _ _ _ _ (scenario_history request _) Hh Hi)
    as (? & rendered & ? & ? & ? & _ & _ & _ & Hm & _).
  exists rendered. exact Hm.
Defined.

Definition readTarget : Unstructured := manifestAt (history run_create) 9.

Lemma tracked_before_write_witness :
  history run_create !! 9 =
    Some (@Ev _ Resp (CouReadTarget platform readTarget) (CouCallback readTarget)) ∧
  ∃ pc, trackedBefore pc (take 9 (history run_create)) platform readTarget.
Proof.
  assert (history run_create !! 9 =
          Some (@Ev _ Resp (CouReadTarget platform readTarget) (CouCallback readTarget))) as Hi
    by (vm_compute; reflexivity).
  split; [exact Hi|].
  assert (honest (history run_create)) as Hh by concrete.
  assert (statusPatched (history run_create)) as Hsp by concrete.
  destruct (tracked_before_write provider request _ _ _ _ _ (scenario_history request _) Hh Hsp Hi)
    as (pc & _ & Ht).
  exists pc. exact Ht.
Defined.

Lemma namespace_created_on_demand_witness :
  history run_create !! 7 = Some (@Ev _ Resp (CreateNamespace platform "t1") None) ∧ "t1" ≠ "".
Proof.
  assert (history run_create !! 7 = Some (@Ev _ Resp (CreateNamespace platform "t1") None)) as Hi
    by (vm_compute; reflexivity).
  split; [exact Hi|].
  destruct (namespace_created_on_demand provider request _ _ _ _ _ (scenario_history request _) Hi)
    as (Hn & _). exact Hn.
Defined.

Definition released : Replica :=
  rep_set_Finalizers [] (default (mkReplica TReplica "" "" None [] None [] [])
                           (w_replica (w_deleted []))).

Definition beingDeleted : Replica :=
  mkReplica TReplica "app" "r1" (Some 9%Z) [source "a" "cm"] None [hostTarget ["t1"] None None] [].

Lemma finalizer_protects_copies_witness :
  history run_deleted !! 3 =
    Some (@Ev _ Resp (PatchReplica platform released beingDeleted) (released, None)) ∧
  rep_Replicas beingDeleted = [].
Proof.
  match goal with |- ?A ∧ _ => assert A as Hi by (vm_compute; reflexivity) end.
  split; [exact Hi|].
  destruct (finalizer_protects_copies provider request _ _ _ _ (scenario_history request _) Hi)
    as (_ & _ & _ & [[Hz _]|(_ & Hr & _)]); [discriminate Hz|exact Hr].
Defined.
