(* ===== verification/WriteOnce.v ===== *)
(** * A reconcile writes no target resource twice

    The conflict detection of [handleCreateOrUpdate] records, per cluster
    reference, which resources have been rendered, and lets a resource pass
    only once.  Here this is followed from one target through the loops to the
    histories of whole reconciles. *)

From S2P Require Import Prelude GoLib ApiTypes External Effects Kube.
From S2P Require Import Shared StatusList ReplicaState ReplicaTarget ReplicaCreateOrUpdate ReplicaDelete.
From S2P Require Import ReplicaReconcile ReplicaPolicy ReplicaSafety FakeServer Scenarios.
From S2P Require Import CreateProperties SafetyProperties.

(** ** The calls of CreateOrUpdate in a history *)

(** What identifies a resource within a cluster. *)
Definition identityOf (u : Unstructured) : TypedObjectReference :=
  MkTRef (u_GVK u) (u_Namespace u) (u_Name u).

Definition callOf (e : Req) : option (Access * TypedObjectReference) :=
  match e with CouReadTarget acc u => Some (acc, identityOf u) | _ => None end.

Definition callsOf (tr : KHistory) : list (Access * TypedObjectReference) :=
  omap (λ ev, callOf (ev_req ev)) tr.

Lemma callsOf_app tr tr' : callsOf (tr ++ tr') = callsOf tr ++ callsOf tr'.
Proof. apply omap_app. Qed.

Lemma callsOf_none (tr : KHistory) :
  Forall (λ ev, isCreateOrUpdate (ev_req ev) = false) tr → callsOf tr = [].
Proof. induction 1 as [|[e r] tr He _ IH]; [done|]. simpl in *. by destruct e. Qed.

(** ** Which cluster a call is for *)

Section Attribution.
Context `{X : Ext}.

(** The access was obtained for the cluster reference [ref], for a target
    definition of the (Cluster)Replica and one of the clusters it selects among
    those the platform cluster listed ([ref] is zero for the platform cluster
    itself). *)
Definition usedFor (platformCluster : Access) (tr : KHistory) (ref : ObjectReference) (acc : Access)
    : Prop :=
  ∃ td tc clusters,
    targetDelivered tr td ∧ @Ev _ Resp (ListClusters platformCluster) (inr clusters) ∈ tr ∧
    tc ∈ matchedClusters clusters td ∧ clusterRefOf tc = ref ∧
    leadsTo platformCluster tr acc (statusRefOf td tc).

Lemma usedFor_app pc tr tr' ref acc : usedFor pc tr ref acc → usedFor pc (tr ++ tr') ref acc.
Proof.
  intros (td & tc & l & Htd & Hl & Htc & Href & Hacc). exists td, tc, l.
  split; [by apply targetDelivered_app|]. split; [apply elem_of_app; by left|].
  split; [done|]. split; [done|by apply leadsTo_app].
Qed.

(** The references attribute the calls so that no resource occurs twice. *)
Definition attributed (pc : Access) (tr : KHistory) (refs : list ObjectReference) : Prop :=
  Forall2 (λ ref c, usedFor pc tr ref c.1) refs (callsOf tr) ∧ NoDup (zip refs (callsOf tr).*2).

Lemma attributed_quiet pc tr k refs :
  callsOf k = [] → attributed pc tr refs → attributed pc (tr ++ k) refs.
Proof.
  intros Hk [Hu Hnd]. unfold attributed. rewrite callsOf_app, Hk, app_nil_r. split; [|done].
  eapply Forall2_impl; [exact Hu|]. intros ref c. apply usedFor_app.
Qed.

Lemma attributed_call pc tr refs ref acc u r :
  attributed pc tr refs → usedFor pc tr ref acc → (ref, identityOf u) ∉ zip refs (callsOf tr).*2 →
  attributed pc (tr ++ [@Ev _ Resp (CouReadTarget acc u) r]) (refs ++ [ref]).
Proof.
  intros [Hu Hnd] Hr Hf. pose proof (Forall2_length _ _ _ Hu) as Hlen.
  unfold attributed. rewrite callsOf_app, fmap_app. simpl. split.
  - apply Forall2_app; [|by constructor; [apply usedFor_app|]].
    eapply Forall2_impl; [exact Hu|]. intros ref' c. apply usedFor_app.
  - rewrite zip_with_app by by rewrite length_fmap.
    apply NoDup_app. split; [done|]. split; [|by apply NoDup_singleton].
    intros p Hp ->%list_elem_of_singleton. done.
Qed.

(** Without copies next to clusters, and when an access tells which cluster it
    belongs to, the attribution is determined by the access. *)
Lemma attributed_distinct pc tr refs :
  attributed pc tr refs →
  (∀ td, targetDelivered tr td → isNextTo td = false) →
  (∀ acc cl cl', leadsTo pc tr acc cl → leadsTo pc tr acc cl' → cl = cl') →
  NoDup (callsOf tr).
Proof.
  intros [Hu Hnd] Hnt Hinj. apply NoDup_alt. intros i j [acc k] Hi Hj.
  destruct (Forall2_lookup_r _ _ _ _ _ Hu Hi) as (ref & Hri & td & tc & l & Htd & _ & _ & Href & Hacc).
  destruct (Forall2_lookup_r _ _ _ _ _ Hu Hj) as (ref' & Hrj & td' & tc' & l' & Htd' & _ & _ & Href' & Hacc').
  pose proof (Hinj _ _ _ Hacc Hacc') as Heq. unfold statusRefOf in Heq.
  rewrite (Hnt _ Htd), (Hnt _ Htd') in Heq.
  assert (ref = ref') as <- by (subst; destruct tc, tc'; simpl in *; congruence).
  rewrite NoDup_alt in Hnd. apply (Hnd i j (ref, k)); apply lookup_zip_with_Some; do 2 eexists;
    (split; [done|]); (split; [done|]); by rewrite list_lookup_fmap, ?Hi, ?Hj.
Qed.

End Attribution.

(** ** The invariant *)

Section Once.
Context `{X : Ext} {XL : ExtLaws X}.
Variables (providerName : string) (req : Request) (platformCluster : Access).

#[local] Abbreviation any := (λ (_ : KHistory) (_ : Req), True).
#[local] Abbreviation noCall := (λ (_ : KHistory) (e : Req), isCreateOrUpdate e = false).

(** Every call so far is attributed and recorded. *)
Definition accounted (tr : KHistory) (s : rstate) (refs : list ObjectReference) : Prop :=
  attributed platformCluster tr refs ∧
  ∀ ref k, (ref, k) ∈ zip refs (callsOf tr).*2 → is_Some (recordedFor s ref k).

Definition once (tr : KHistory) (s : rstate) : Prop := ∃ refs, accounted tr s refs.

(** A target has been recorded and its call is still to come. *)
Definition due (ref : ObjectReference) (k : TypedObjectReference) (tr : KHistory) (s : rstate) : Prop :=
  ∃ refs, accounted tr s refs ∧ (ref, k) ∉ zip refs (callsOf tr).*2 ∧ is_Some (recordedFor s ref k).

(** Statements that depend on the calls and the records only. *)
Definition settled (I : KHistory → rstate → Prop) : Prop :=
  ∀ tr k s s', callsOf k = [] → s_conflicts s' = s_conflicts s → I tr s → I (tr ++ k) s'.

Lemma accounted_quiet tr k s s' refs :
  callsOf k = [] → s_conflicts s' = s_conflicts s → accounted tr s refs → accounted (tr ++ k) s' refs.
Proof.
  intros Hk Hc [Ha Hr]. split; [by apply attributed_quiet|].
  intros ref id. rewrite callsOf_app, Hk, app_nil_r. unfold recordedFor. rewrite Hc. apply Hr.
Qed.

Lemma once_settled : settled once.
Proof. intros tr k s s' Hk Hc [refs H]. exists refs. by eapply accounted_quiet. Qed.

Lemma due_settled ref id : settled (due ref id).
Proof.
  intros tr k s s' Hk Hc (refs & H & Hf & Hr). exists refs. split; [by eapply accounted_quiet|].
  rewrite callsOf_app, Hk, app_nil_r. split; [done|]. unfold recordedFor in *. by rewrite Hc.
Qed.

Lemma due_once ref id tr s : due ref id tr s → once tr s.
Proof. intros (refs & H & _). by exists refs. Qed.

(** A part of the program that makes no call and leaves the records alone. *)
Lemma mwp_settled {A} (m : KM rstate A) s tr I Q :
  settled I → mwp noCall m s tr (λ _ s' _, s_conflicts s' = s_conflicts s) → I tr s →
  mwp any m s tr Q → mwp any m s tr (λ tr' s' fl, Q tr' s' fl ∧ I tr' s').
Proof.
  intros HI Hm Hs HQ. apply mwp_and; [done|].
  eapply mwp_permit; [|eapply mwp_mono; [|apply (mwp_requests _ (λ e, isCreateOrUpdate e = false)), Hm]];
    [done| |done].
  intros tr' s' fl [Hc (k & -> & Hk)]. eapply HI; [by apply callsOf_none|done|done].
Qed.

(** ** One target *)

Section Target.
Variables (tmpl : option string) (t : targetEnv).

#[local] Ltac silent := repeat (rstep; try done; simpl); done.

Lemma renderTarget_silent tn s tr :
  mwp noCall (renderTarget tmpl t tn) s tr (λ _ s' _, s_conflicts s' = s_conflicts s).
Proof. unfold renderTarget, renderExactCopy, renderTemplate, failTemplating. silent. Qed.

Lemma checkExisting_silent rendered s tr :
  mwp noCall (checkExisting t rendered) s tr (λ _ s' _, s_conflicts s' = s_conflicts s).
Proof.
  unfold checkExisting, fetchExisting, checkOwnership, failExists, ensureNamespace,
    failNamespaceDeleting, skipNamespace. silent.
Qed.

Lemma trackInStatus_silent rendered s tr :
  mwp noCall (trackInStatus platformCluster t rendered) s tr (λ _ s' _, s_conflicts s' = s_conflicts s).
Proof. unfold trackInStatus. silent. Qed.

(** Conflict detection: only identities without a record pass. *)
Lemma detectConflict_due rendered raw s tr :
  once tr s →
  mwp any (detectConflict t rendered raw) s tr (λ tr' s' fl,
    match fl with
    | Next _ => due (t_clusterRef t) (identityOf rendered) tr' s'
    | _ => once tr' s'
    end).
Proof.
  intros [refs Hs]. set (k := identityOf rendered).
  assert (∀ known, default ∅ (s_conflicts s !! t_clusterRef t) = known → known !! k = None →
    mwp any (recordRendered t rendered raw known) s tr (λ tr' s' fl,
      match fl with Next _ => due (t_clusterRef t) k tr' s' | _ => once tr' s' end)) as Hrec.
  { intros known <- Hnone. unfold recordRendered. rstep. rewrite TypedReferenceFromObject_law.
    change (MkTRef _ _ _) with k. destruct Hs as [Ha Hr].
    assert (recordedFor s (t_clusterRef t) k = None) as Hfresh.
    { unfold recordedFor. by destruct (s_conflicts s !! t_clusterRef t). }
    exists refs. split; [split; [done|]|split].
    - intros ref id Hin. unfold recordedFor. simpl. rewrite recordedFor_insert.
      case_decide; [by eexists|by apply Hr].
    - intros Hin%Hr. rewrite Hfresh in Hin. by destruct Hin.
    - unfold recordedFor. simpl. rewrite recordedFor_insert, decide_True by done. by eexists. }
  assert (∀ s', s_conflicts s' = s_conflicts s → once tr s') as Hkeep.
  { intros s' Hc. rewrite <- (app_nil_r tr). apply (once_settled tr [] s); [done|done|by exists refs]. }
  unfold detectConflict. rstep. rstep.
  destruct (s_conflicts s !! t_clusterRef t) as [known|] eqn:Hk; [|by apply Hrec].
  rewrite TypedReferenceFromObject_law. change (MkTRef _ _ _) with k.
  destruct (known !! k) as [existing|] eqn:He; [|by apply Hrec].
  repeat rstep; by apply Hkeep.
Qed.

Lemma syncTarget_once rendered s tr :
  usedFor platformCluster tr (t_clusterRef t) (t_access t) →
  due (t_clusterRef t) (identityOf rendered) tr s →
  mwp any (syncTarget t rendered) s tr (λ tr' s' _, once tr' s').
Proof.
  intros Hu (refs & [Ha Hr] & Hf & Hrec). pose proof (Forall2_length _ _ _ (proj1 Ha)) as Hlen.
  unfold syncTarget. rstep. rstep; [done|].
  assert (∀ r, once (tr ++ [@Ev _ Resp (CouReadTarget (t_access t) rendered) r]) s) as Hcalled.
  { intros seen. exists (refs ++ [t_clusterRef t]). split; [by apply attributed_call|].
    intros ref id. rewrite callsOf_app, fmap_app. simpl.
    rewrite zip_with_app by by rewrite length_fmap.
    intros [Hin|[= -> ->]%list_elem_of_singleton]%elem_of_app; [by apply Hr|done]. }
  assert (∀ r k s', callsOf k = [] → s_conflicts s' = s_conflicts s →
    once ((tr ++ [@Ev _ Resp (CouReadTarget (t_access t) rendered) r]) ++ k) s') as Hdone.
  { intros. by eapply once_settled. }
  clear Hcalled. unfold failSync, recordManaged.
  repeat (rstep; try done; simpl);
    first [by apply Hdone | rewrite <- (app_nil_r (tr ++ _)); by apply Hdone].
Qed.

Lemma handleTarget_once tn s tr :
  usedFor platformCluster tr (t_clusterRef t) (t_access t) → once tr s →
  mwp any (handleTarget providerName platformCluster tmpl t tn) s tr (λ tr' s' _, once tr' s').
Proof.
  intros Hu Hs.
  assert (∀ A (m : KM rstate A) I s' tr', settled I → tr `prefix_of` tr' → I tr' s' →
    mwp noCall m s' tr' (λ _ s'' _, s_conflicts s'' = s_conflicts s') →
    mwp any m s' tr' (λ tr'' s'' _, tr `prefix_of` tr'' ∧ I tr'' s'')) as Hsilent.
  { intros A m I s' tr' HI Hp HIs Hm.
    eapply mwp_mono; [|apply mwp_settled; [exact HI|exact Hm|exact HIs|]].
    - intros ??? H. exact H.
    - eapply mwp_mono; [|apply mwp_prefix, (mwp_trivial any _ _ _ (λ _ _ _, True)); done].
      intros ??? [_ ?]. by etrans. }
  unfold handleTarget. rstep.
  eapply mwp_mono; [|apply (Hsilent _ _ once); [apply once_settled|done|done|apply renderTarget_silent]].
  intros tr1 s1 [[rendered raw]| |why] [Hp1 Hs1]; [|done|done]. rstep.
  eapply mwp_mono; [|by apply mwp_prefix, detectConflict_due].
  intros tr2 s2 [[]| |why] [Hs2 Hp2]; [|done|done]. rstep. rstep.
  change (identityOf rendered) with (identityOf (setManagementLabels providerName (s_Object s2) rendered)) in Hs2.
  set (u := setManagementLabels _ _ _) in *. rstep.
  eapply mwp_mono; [|apply (Hsilent _ _ (due (t_clusterRef t) (identityOf u)));
    [apply due_settled|by etrans|done|apply checkExisting_silent]].
  intros tr3 s3 fl [Hp3 Hs3]. destruct fl as [[]| |why]; [|by eapply due_once..]. rstep.
  eapply mwp_mono; [|apply (Hsilent _ _ (due (t_clusterRef t) (identityOf u)));
    [apply due_settled|done|done|apply trackInStatus_silent]].
  intros tr4 s4 fl [Hp4 Hs4]. destruct fl as [[]| |why]; [|by eapply due_once..].
  apply syncTarget_once; [|done]. destruct Hp4 as [k ->]. by apply usedFor_app.
Qed.

End Target.

(** ** The loops *)

#[local] Abbreviation sources_of s := (spec_Sources (rep_Spec (s_Object s))).

(** The invariant of the loops: the object in memory is known as well. *)
Definition tracked_once (tr : KHistory) (s : rstate) : Prop := once tr s ∧ inv req tr (s_Object s).

Lemma selectNamespaces_silent sel logName items s tr :
  mwp noCall (selectNamespaces sel logName items) s tr (λ _ s' _, s_conflicts s' = s_conflicts s).
Proof.
  revert s. induction items as [|ns items IH]; intros s; simpl; [by rstep|]. rstep.
  - rstep. rstep. eapply mwp_mono; [|apply IH]. by intros ???.
  - rstep. eapply mwp_mono; [|apply IH]. intros tr' s' [names| |why] ?; [by rstep|done|done].
Qed.

Lemma resolveTarget_silent td tc name s tr :
  mwp noCall (resolveTarget platformCluster td tc name) s tr (λ _ s' _, s_conflicts s' = s_conflicts s).
Proof.
  unfold resolveTarget. repeat (rstep; try done; simpl); try done.
  eapply mwp_mono; [|apply selectNamespaces_silent]. intros tr' s' [names| |why] ?; [by rstep|done|done].
Qed.

Lemma handleTarget_tracked tmpl t tn s tr :
  usedFor platformCluster tr (t_clusterRef t) (t_access t) → targetOk platformCluster t tr →
  tracked_once tr s →
  mwp any (handleTarget providerName platformCluster tmpl t tn) s tr (λ tr' s' _, tracked_once tr' s').
Proof.
  intros Hu Hok [Ho HI]. apply mwp_and; [by apply handleTarget_once|].
  eapply mwp_permit; [|by apply handleTarget_ok]; done.
Qed.

Lemma handleCluster_tracked tmpl td tc clusters s tr :
  targetDelivered tr td → @Ev _ Resp (ListClusters platformCluster) (inr clusters) ∈ tr →
  tc ∈ matchedClusters clusters td → tracked_once tr s →
  mwp any (handleCluster providerName platformCluster tmpl td tc) s tr (λ tr' s' _, tracked_once tr' s').
Proof.
  intros Htd Hl Htc [Ho HI]. unfold handleCluster. rstep; [by rstep|]. rstep.
  eapply mwp_mono; [|apply (mwp_settled _ _ _ once); [apply once_settled|apply resolveTarget_silent|done|]];
    [|eapply mwp_permit; [|apply mwp_prefix, (resolveTarget_ok providerName), HI]; done].
  intros tr1 s1 fl [[[HI1 Hacc] [k ->]] Ho1]. destruct fl as [[acc names]| |why]; [|done|done].
  specialize (Hacc _ _ eq_refl).
  assert (usedFor platformCluster (tr ++ k) (clusterRefOf tc) acc) as Hu.
  { exists td, tc, clusters. split; [by apply targetDelivered_app|].
    split; [apply elem_of_app; by left|done]. }
  rstep. eapply mwp_mono; [|apply (mwp_for_each_safe _ _ _ _ _ tracked_once); [|done]].
  - intros tr2 s2 [[]| |why] (? & _ & ?); [|done|done]. by rstep.
  - intros tn tr' s' _ Hp Ht. apply handleTarget_tracked; [| |done].
    + destruct Hp as [k' ->]. by apply usedFor_app.
    + eapply targetOk_prefix; [done|]. split; simpl; [by apply targetDelivered_app|done].
Qed.

(** ** handleCreateOrUpdate *)

Lemma ensureFinalizer_silent s tr :
  mwp noCall (ensureFinalizer platformCluster) s tr (λ _ s' _, s_conflicts s' = s_conflicts s).
Proof.
  unfold ensureFinalizer. rstep. rstep. destruct (AddFinalizer _ _) as [fs added].
  repeat (rstep; try done; simpl); done.
Qed.

Lemma parseTemplate_silent s tr :
  mwp noCall parseTemplate s tr (λ _ s' _, s_conflicts s' = s_conflicts s).
Proof. unfold parseTemplate. repeat (rstep; try done; simpl); done. Qed.

Lemma fetchSources_silent s tr :
  mwp noCall (fetchSources platformCluster) s tr (λ _ s' _, s_conflicts s' = s_conflicts s).
Proof.
  unfold fetchSources. rstep. rstep.
  apply (mwp_for_each_return _ _ _ _ _ (λ _ _ s', s_conflicts s' = s_conflicts s)); [|done|done].
  intros pre src post tr' s' _ Hc. unfold fetchSource. repeat (rstep; try done; simpl); done.
Qed.

(** A silent step that keeps the invariant of the object. *)
Lemma silent_tracked {A} (m : KM rstate A) s tr (Q : KHistory → rstate → Flow A → Prop) :
  mwp noCall m s tr (λ _ s' _, s_conflicts s' = s_conflicts s) →
  mwp (safeRequest providerName req platformCluster) m s tr Q → once tr s →
  mwp any m s tr (λ tr' s' fl, (Q tr' s' fl ∧ tr `prefix_of` tr') ∧ once tr' s').
Proof.
  intros Hm HQ Ho. apply mwp_settled; [apply once_settled|done|done|].
  eapply mwp_permit; [|by apply mwp_prefix]. done.
Qed.

Lemma handleCreateOrUpdate_once clusters s tr :
  @Ev _ Resp (ListClusters platformCluster) (inr clusters) ∈ tr →
  tracked_once tr s → pristine tr s → IsZero (rep_DeletionTimestamp (s_Object s)) = true →
  mwp any (handleCreateOrUpdate providerName platformCluster clusters) s tr (λ tr' s' _, once tr' s').
Proof.
  intros Hl [Ho HI] Hpr Hz. unfold handleCreateOrUpdate. rstep.
  eapply mwp_mono; [|apply silent_tracked; [apply ensureFinalizer_silent|by apply ensureFinalizer_ok|done]].
  intros tr1 s1 [[]| |why] [[[_ HI1] [k1 ->]] Ho1]; [|done|done]. specialize (HI1 eq_refl). rstep.
  eapply mwp_mono; [|apply silent_tracked; [apply parseTemplate_silent|by apply parseTemplate_ok|done]].
  intros tr2 s2 [tmpl| |why] [[HI2 [k2 ->]] Ho2]; [|done|done]. rstep.
  eapply mwp_mono; [|apply silent_tracked; [apply fetchSources_silent|by apply fetchSources_ok|done]].
  intros tr3 s3 [[]| |why] [[HI3 [k3 ->]] Ho3]; [|done|done].
  rstep. rstep. rstep. rstep. rstep. rstep. rstep.
  destruct (inv_spec _ _ _ HI3) as (rep & Hrep & Hspec).
  assert (@Ev _ Resp (ListClusters platformCluster) (inr clusters) ∈ ((tr ++ k1) ++ k2) ++ k3) as Hl3.
  { do 3 (apply elem_of_app; left). done. }
  eapply mwp_mono; [|apply (mwp_for_each_safe _ _ _ _ _ tracked_once)].
  - intros tr4 s4 [[]| |why] [[Ho4 _] _]; [|done|done]. unfold finishCreateOrUpdate. rstep.
    rewrite <- (app_nil_r tr4). eapply once_settled; [done| |exact Ho4]. simpl.
    by destruct (s_templatingErrorSet s4).
  - intros td tr' s' Htd [k ->] Ht. unfold handleTargetDef.
    eapply mwp_mono; [|apply (mwp_for_each_safe _ _ _ _ _ tracked_once); [|done]]; [by intros ??? [? _]|].
    intros tc tr'' s'' Htc [k' ->] Ht'. apply (handleCluster_tracked _ _ _ clusters); [| |done|done].
    + do 2 apply targetDelivered_app. exists rep. split; [done|]. by rewrite Hspec.
    + do 2 (apply elem_of_app; left). done.
  - split; [|done]. rewrite <- (app_nil_r (_ ++ k3)). by eapply once_settled.
Qed.

(** ** The whole reconcile *)

Definition allAttributed (tr : KHistory) : Prop := ∃ refs, attributed platformCluster tr refs.

(** What follows makes no call. *)
Lemma attributed_after {S A} (m : KM S A) (s : S) tr :
  mwp noCall m s tr (λ _ _ _, True) → allAttributed tr → mwp any m s tr (λ tr' _ _, allAttributed tr').
Proof.
  intros Hm [refs Ha].
  eapply mwp_permit; [|eapply mwp_mono; [|apply (mwp_requests _ (λ e, isCreateOrUpdate e = false)), Hm]];
    [done| |done].
  intros tr' s' fl [_ (k & -> & Hk)]. exists refs. by apply attributed_quiet; [apply callsOf_none|].
Qed.

Lemma finishReconcile_silent clusters unset s tr :
  mwp noCall (finishReconcile providerName clusters unset) s tr (λ _ _ _, True).
Proof.
  unfold finishReconcile. rstep.
  eapply mwp_mono; [|by apply (deleteObsoleteResources_calm _ _ noCall (λ _ _ H, H) _ _ s)].
  intros tr1 s1 fl [_ ->]. rstep.
  assert (∀ s' tr', mwp noCall (skipWaiting unset ;;; ret unset)%prog s' tr' (λ _ _ _, True)) as Hskip.
  { intros. unfold skipWaiting. by repeat rstep. }
  destruct unset; [rstep; apply Hskip|].
  eapply mwp_mono; [|by apply (addManagedToStatus_spec noCall)]. intros tr2 s2 fl (_ & _ & ->). apply Hskip.
Qed.

Lemma handleDelete_silent s tr : mwp noCall (handleDelete platformCluster) s tr (λ _ _ _, True).
Proof.
  unfold handleDelete. rstep. rstep. rstep; [by repeat rstep|].
  destruct (RemoveFinalizer _ _) as [fs removed]. by repeat rstep.
Qed.

Lemma allAttributed_silent tr k : callsOf k = [] → allAttributed tr → allAttributed (tr ++ k).
Proof. intros Hk [refs H]. exists refs. by apply attributed_quiet. Qed.

Lemma reconcileListed_once clusters rep tr :
  @Ev _ Resp (ListClusters platformCluster) (inr clusters) ∈ tr →
  callsOf tr = [] → inv req tr rep → delivered tr rep →
  mwp any (reconcileListed providerName platformCluster clusters) (rstate_init rep) tr
    (λ tr' _ _, allAttributed tr').
Proof.
  intros Hl Hc HI Hdel.
  assert (attributed platformCluster tr []) as Ha.
  { split; [rewrite Hc; constructor|constructor]. }
  unfold reconcileListed. rstep. rstep. rstep.
  destruct (IsZero (rep_DeletionTimestamp (s_Object (rstate_init rep)))) eqn:Hz.
  - rstep. rstep. eapply mwp_mono; [|apply (handleCreateOrUpdate_once clusters); [done| |done|done]].
    2: { split; [|done]. exists []. split; [done|]. by intros ref k ?%not_elem_of_nil. }
    intros tr1 s1 fl [refs [Ha1 _]]. assert (allAttributed tr1) as Ht1 by by exists refs.
    destruct fl as [[]| |why]; [rstep|rstep|done];
      fold (finishReconcile providerName clusters false);
      apply attributed_after; [apply finishReconcile_silent|done|apply finishReconcile_silent|done].
  - rstep. eapply mwp_mono; [|apply attributed_after; [apply handleDelete_silent|by exists []]].
    intros tr1 s1 [unset| |why] Ht1; [|done|done]. rstep. rstep.
    rstep; [rstep|rstep; rstep; rstep]; fold (finishReconcile providerName clusters unset);
      (apply attributed_after; [apply finishReconcile_silent|done]).
Qed.

Lemma runFetched_once rep (si : sharedInformation) tr :
  callsOf tr = [] → inv req tr rep → delivered tr rep →
  mwp any (runFetched providerName platformCluster rep) si tr (λ tr' _ _, allAttributed tr').
Proof.
  intros Hc HI Hdel. unfold runFetched. rstep. apply mwp_local.
  eapply mwp_mono with (Q := λ tr' _ _, allAttributed tr').
  { intros tr' s' fl Ht. by repeat rstep. }
  unfold reconcileFetched. rstep. rstep; [done|].
  assert (∀ r, callsOf (tr ++ [@Ev _ Resp (ListClusters platformCluster) r]) = []) as Hc'.
  { intros. by rewrite callsOf_app, Hc. }
  rstep.
  - rstep. rstep. rstep. rstep. rstep. exists []. split; rewrite Hc'; constructor.
  - apply reconcileListed_once; [|done|by apply inv_app|by apply delivered_app].
    apply elem_of_app. right. by left.
Qed.

Lemma reconcile_once (si : sharedInformation) tr :
  callsOf tr = [] →
  mwp any (reconcile providerName req platformCluster) si tr (λ tr' _ _, allAttributed tr').
Proof.
  intros Hc.
  assert (∀ k, callsOf k = [] → allAttributed (tr ++ k)) as Hnone.
  { intros k Hk. exists []. split; rewrite callsOf_app, Hc, Hk; constructor. }
  assert (∀ rep, honest (tr ++ [@Ev _ Resp (GetReplica platformCluster (kindOfRequest req)
            (req_NamespacedName req)) (Found rep)]) → isRequested req rep) as Hid.
  { intros rep [_ (? & ? & ?)]%honest_snoc. done. }
  unfold reconcile. rstep. rstep; [done|]. rstep; [|rstep; by apply Hnone..]. rstep.
  - apply runFetched_once; [by rewrite callsOf_app, Hc| |by apply delivered_snoc].
    by apply inv_delivered; [| |apply Hid].
  - rstep. by apply Hnone.
  - rstep. rstep; [done|]. rstep.
    { rstep. rewrite <- app_assoc. by apply Hnone. }
    destruct r0 as [o err]. simpl in *. subst. apply runFetched_once; [|by apply inv_delivered; [| |
      intros [Hh Ho]%honest_snoc; eapply sameIdentity_requested; [exact Ho|by apply Hid]]|by apply delivered_snoc].
    by rewrite !callsOf_app, Hc.
Qed.

End Once.

Lemma Reconcile_once `{X : Ext} {XL : ExtLaws X} providerName req si :
  mwp (λ _ _, True) (Reconcile providerName req) si [] (λ tr _ _,
    ∀ pc, platformOf tr = Some pc → allAttributed pc tr).
Proof.
  unfold Reconcile. rstep. rstep. rstep. rstep; [done|]. rstep; [by rstep|].
  rstep. eapply mwp_mono; [|by apply mwp_prefix, (reconcile_once providerName req a)].
  intros tr1 s1 fl [Ht [k ->]].
  assert (∀ k', callsOf k' = [] → ∀ pc,
    platformOf (([] ++ [@Ev _ Resp (ProviderGet (req_Cluster req)) (inr a)]) ++ k ++ k') = Some pc →
    allAttributed pc ((([] ++ [@Ev _ Resp (ProviderGet (req_Cluster req)) (inr a)]) ++ k) ++ k')) as Hend.
  { intros k' Hk pc [= <-]. by apply allAttributed_silent. }
  destruct fl as [rr| |why].
  - rstep. rstep; [done|]. destruct r0 as [[updated z] err].
    destruct err; [|destruct (rr_Object rr)]; rstep; intros pc Hpc; apply Hend; try done;
      by rewrite app_assoc.
  - intros pc Hpc. rewrite <- (app_nil_r (_ ++ k)). apply Hend; [done|]. by rewrite app_nil_r.
  - intros pc Hpc. rewrite <- (app_nil_r (_ ++ k)). apply Hend; [done|]. by rewrite app_nil_r.
Qed.

(** ** Properties *)

(** C15: A reconcile writes no target resource twice.  Every call of
    CreateOrUpdate in its history can be attributed to a cluster reference its
    access was obtained for, selected by a target definition among the listed
    clusters, in such a way that no resource is created or updated twice for
    the same reference.  If no target is next to a cluster, and an access tells
    which cluster it belongs to, then no resource is created or updated twice
    on the same cluster.  And every write belongs to one such call: it follows
    it immediately, with the contents its callback computed. *)
Theorem target_written_once `{X : Ext} {XL : ExtLaws X} providerName req tr pc :
  reconcileHistory providerName req tr → platformOf tr = Some pc →
  (∃ refs, Forall2 (λ ref c, usedFor pc tr ref c.1) refs (callsOf tr) ∧
           NoDup (zip refs (callsOf tr).*2)) ∧
  ((∀ td, targetDelivered tr td → isNextTo td = false) →
   (∀ acc cl cl', leadsTo pc tr acc cl → leadsTo pc tr acc cl' → cl = cl') →
   NoDup (callsOf tr)) ∧
  (∀ i acc o r, tr !! i = Some (Ev (CouWriteTarget acc o) r) →
     ∃ j rendered seen, i = S j ∧
       tr !! j = Some (@Ev _ Resp (CouReadTarget acc rendered) (CouCallback seen)) ∧
       mutateTarget rendered seen = Some o).
Proof.
  intros Hre Hpc. pose proof Hre as (si & [s' fl] & Hex).
  eapply mwp_exec in Hex as [Hall _]; [|apply Reconcile_once].
  destruct (Hall pc Hpc) as [refs Ha]. split; [by exists refs|].
  split; [by eapply attributed_distinct|]. intros i acc o r Hi.
  destruct (history_safe _ _ _ _ _ _ Hre Hi eq_refl) as [[_ ?]|(pc' & _ & Hs)]; [done|].
  destruct Hs as (tr0 & rendered & seen & Htr & Hm). exists (length tr0), rendered, seen.
  assert (length (take i tr) = i) as Hlen.
  { apply length_take_le. apply lookup_lt_Some in Hi. lia. }
  rewrite Htr, length_app in Hlen. simpl in Hlen. split; [lia|]. split; [|done].
  rewrite <- (take_drop i tr), Htr, <- app_assoc. by rewrite lookup_app_r, Nat.sub_diag by lia.
Qed.

(** ** Witness: two target definitions that meet in both namespaces *)

Definition w_overlap : world :=
  MkWorld (Some (mkReplica TReplica "app" "r1" None [source "a" "cm"] None
                   [hostTarget ["t1"; "t2"] None None; hostTarget ["t2"; "t1"] None None] []))
    [] (objects [src1]) (namespaces [("", "src")]) [] [].
Definition run_overlap := runReconcile provider request w_overlap.

(** A history that concerns the platform cluster only. *)
Definition hostOnly (ev : KEvent) : bool :=
  match ev_req ev with ProviderGet n => String.eqb n HostingPlatformCluster | _ => true end &&
  match deliveredBy ev with
  | Some rep => forallb (λ td, negb (isNextTo td)) (spec_Targets (rep_Spec rep))
  | None => true
  end.

Lemma hostOnly_conditions pc (tr : KHistory) :
  forallb hostOnly tr = true →
  (∀ td, targetDelivered tr td → isNextTo td = false) ∧
  (∀ acc cl cl', leadsTo pc tr acc cl → leadsTo pc tr acc cl' → cl = cl').
Proof.
  intros Hall. assert (∀ ev, ev ∈ tr → hostOnly ev = true) as H.
  { intros ev Hev%list_elem_of_In. by eapply forallb_forall in Hall. }
  clear Hall. split.
  - intros td (rep & (ev & Hev & Hd) & Htd). specialize (H ev Hev).
    unfold hostOnly in H. rewrite Hd in H. apply andb_true_iff in H as [_ H].
    rewrite forallb_forall in H. apply list_elem_of_In in Htd. specialize (H td Htd).
    by apply negb_true_iff.
  - assert (∀ acc ref, ¬ leadsTo pc tr acc (Some ref)) as Hno.
    { intros acc ref (c & _ & Hev). specialize (H _ Hev). apply andb_true_iff in H as [H _].
      revert H. unfold sprint. simpl. by destruct (cl_Namespace c). }
    intros acc [ref|] [ref'|] Hl Hl'; [by destruct (Hno acc ref)..|by destruct (Hno acc ref')|done].
Qed.

Lemma target_written_once_witness :
  callsOf (history run_overlap) =
    [(platform, MkTRef configMap "t1" "cm"); (platform, MkTRef configMap "t2" "cm")] ∧
  NoDup (callsOf (history run_overlap)).
Proof.
  assert (callsOf (history run_overlap) =
    [(platform, MkTRef configMap "t1" "cm"); (platform, MkTRef configMap "t2" "cm")]) as Hc
    by (vm_compute; reflexivity).
  split; [exact Hc|].
  destruct (target_written_once provider request (history run_overlap) platform
              (scenario_history request w_overlap) ltac:(vm_compute; reflexivity))
    as (_ & Hn & _).
  assert (forallb hostOnly (history run_overlap) = true) as Hh by (vm_compute; reflexivity).
  destruct (hostOnly_conditions platform _ Hh) as [Htd Hacc]. exact (Hn Htd Hacc).
Defined.
