(* ===== verification/Witnesses.v ===== *)
(** * Concrete inputs of the component properties

    Closed instances of the theorems of [StatusList], [ConditionNames],
    [Shared], [ClusterHandler] and [OutcomeProperties] at inputs where their
    hypotheses hold. *)

From S2P Require Import Prelude GoLib ApiTypes External Effects Kube.
From S2P Require Import StatusList ConditionNames Shared ClusterHandler ReplicaState ReplicaTarget.
From S2P Require Import ReplicaDelete ReplicaReconcile FakeServer Scenarios CreateProperties OutcomeProperties.

(** ** The status list *)

Definition someStatus : CreatedResourcesWithTypeList :=
  AddRaw configMap "ns" "a" (Some (MkRef "cns" "c1")) (tracks None "ns" "a").

Lemma status_list_refines_set_witness :
  wf someStatus ∧
  (configMap, MkCR (Some (MkRef "cns" "c1")) "ns" "a") ∈ tracked someStatus ∧
  ContainsRaw configMap "ns" "a" (Some (MkRef "cns" "c2")) someStatus = false ∧
  tracked (RemoveRaw configMap "ns" "a" None someStatus) =
    tracked someStatus ∖ {[(configMap, MkCR None "ns" "a")]}.
Proof.
  assert (wf (tracks None "ns" "a")) as Hwf0.
  { split; [by apply NoDup_singleton|]. apply Forall_singleton. by apply NoDup_singleton. }
  destruct (status_list_refines_set configMap "ns" "a" (Some (MkRef "cns" "c1")) _ Hwf0)
    as [[Hwf Ht] _].
  split; [exact Hwf|].
  destruct (status_list_refines_set configMap "ns" "a" None someStatus Hwf) as (_ & [_ Hrm] & _).
  destruct (status_list_refines_set configMap "ns" "a" (Some (MkRef "cns" "c2")) someStatus Hwf)
    as (_ & _ & Hc & _).
  split; [|split; [|exact Hrm]].
  - change (tracked someStatus) with
      (tracked (AddRaw configMap "ns" "a" (Some (MkRef "cns" "c1")) (tracks None "ns" "a"))).
    rewrite Ht. apply elem_of_union_l. apply elem_of_singleton. reflexivity.
  - vm_compute. reflexivity.
Defined.

(** ** Condition types *)


(** ** Deduplication *)

Definition someReplica : Replica := mkReplica TReplica "app" "r1" None [] None [] [].

(** A caller has sent a notification; a second one is about to be suppressed. *)
Definition sentOnce : list label :=
  [LSpawn someReplica; LInsert "app/r1"; LSend "app/r1"; LSpawn someReplica].
Definition pendingState : state :=
  MkState (MkShared [someReplica] {["app/r1"]}) {[0 := AtCheck someReplica]}.

Lemma sentOnce_reachable : reachable sentOnce pendingState.
Proof.
  unfold reachable, sentOnce.
  apply (steps_snoc _ [LSpawn someReplica; LInsert "app/r1"; LSend "app/r1"]
           (MkState (MkShared [someReplica] {["app/r1"]}) ∅)).
  2: { apply (step_spawn _ ∅ 0). reflexivity. }
  apply (steps_snoc _ [LSpawn someReplica; LInsert "app/r1"]
           (MkState (MkShared [] {["app/r1"]}) {[0 := AtSend someReplica]})).
  2: { apply (own_send someReplica ∅ 0); reflexivity. }
  apply (steps_snoc _ [LSpawn someReplica] (MkState (MkShared [] ∅) {[0 := AtCheck someReplica]})).
  2: { apply (own_insert someReplica ∅ 0); reflexivity. }
  apply (steps_snoc _ [] initial); [constructor|]. apply (step_spawn _ ∅ 0). reflexivity.
Qed.

Lemma dedup_bound_witness :
  reachable sentOnce pendingState ∧ count (isSend "app/r1") sentOnce ≤ 1.
Proof.
  split; [exact sentOnce_reachable|].
  pose proof (dedup_bound "app/r1" _ _ sentOnce_reachable) as H. exact H.
Defined.

Lemma suppressed_is_covered_witness :
  step pendingState (LSuppress "app/r1") (MkState (info pendingState) ∅) ∧
  covered "app/r1" (sentOnce ++ [LSuppress "app/r1"]).
Proof.
  assert (step pendingState (LSuppress "app/r1") (MkState (info pendingState) ∅)) as Hs.
  { apply (own_suppress someReplica ∅ 0); reflexivity. }
  split; [exact Hs|].
  destruct (suppressed_is_covered _ _ _ _ _ _ sentOnce_reachable Hs (steps_nil _)) as [_ Hend].
  destruct (Hend (inflight_empty _)) as [H|[H|[H _]]]; [by apply not_elem_of_nil in H|exact H|].
  by apply not_elem_of_nil in H.
Defined.

Lemma notifications_accounted_witness :
  sentKeys sentOnce = ["app/r1"] ∧ channelKeys pendingState = ["app/r1"] ∧
  heldSince "app/r1" sentOnce.
Proof.
  destruct (notifications_accounted "app/r1" _ _ sentOnce_reachable)
    as (Hp & _ & _ & Heq & _).
  split; [reflexivity|]. split; [exact (eq_sym Heq)|]. apply Hp. vm_compute. reflexivity.
Defined.

Lemma EnqueueReplica_spec_witness :
  ∃ ls, steps (MkState Reset {[7 := AtCheck someReplica]}) ls
          (MkState (MkShared [someReplica] {["app/r1"]}) ∅).
Proof.
  destruct (EnqueueReplica_spec someReplica Reset ∅ 7 (lookup_empty 7)) as [[ls Hls] _].
  exists ls. exact Hls.
Defined.

(** ** The cluster handler *)

Lemma cluster_dedup_never_happens_witness :
  let c := HandleCreateOrUpdate (inr [someReplica]) (inr []) (mkCluster "ns1" "c1") (New None) Reset in
  handler_reachable None c.1.1 ∧ h_clusterStates c.1.1 = ∅.
Proof.
  intros c. assert (handler_reachable None c.1.1) as Hc by (apply hr_createOrUpdate, hr_new).
  split; [exact Hc|].
  destruct (cluster_dedup_never_happens None c.1.1 (inr []) (inr []) (mkCluster "ns1" "c1") Reset Hc)
    as [He _]. exact He.
Defined.

(** Two (Cluster)Replicas with a copy in "ns1": next to the cluster, and on it. *)
Definition tiedReplica : Replica := mkReplica TReplica "app" "r1" None [] None [] (tracks None "ns1" "cm").
Definition untiedReplica : Replica :=
  mkReplica TReplica "app" "r2" None [] None [] (tracks (Some (MkRef "ns1" "c1")) "ns1" "cm").

Lemma enqueueAllReplicasForCluster_spec_witness :
  enqueueAllReplicasForCluster (inr [untiedReplica; tiedReplica]) (inr []) (mkCluster "ns1" "c1") Reset =
  (MkShared [tiedReplica] {["app/r1"]}, None).
Proof.
  rewrite (enqueueAllReplicasForCluster_spec (inr [untiedReplica; tiedReplica]) (inr [])).
  vm_compute. reflexivity.
Defined.

Lemma namespaced_copy_not_associated_witness :
  copyCausesEnqueue (mkCluster "ns1" "c1") (MkCR (Some (MkRef "ns1" "c1")) "t1" "cm") = false.
Proof. by apply (namespaced_copy_not_associated _ _ (MkRef "ns1" "c1")). Defined.

(** ** Outcomes *)

(** The target of [run_create], before anything has been rendered. *)
Definition someEnv : targetEnv :=
  MkTarget (hostTarget ["t1"] None None) None zeroRef HostingPlatformClusterNameForLogging false platform.

Definition ready : rstate :=
  set_sources (rstate_init createdReplica) {["a" := obj "src" "cm" "v1" []]}.

Definition run_target := run serve (handleTarget provider platform None someEnv "t1" ready) w_create.

Definition run_target_exec :
    exec (handleTarget provider platform None someEnv "t1" ready) (history run_target)
      ((outcome run_target).1, (outcome run_target).2) :=
  outcome_exec serve (handleTarget provider platform None someEnv "t1") ready w_create _ eq_refl.

Lemma handleTarget_reports_witness :
  (outcome run_target).2 = Next tt ∧ is_Some (s_managed (outcome run_target).1).
Proof.
  assert ((outcome run_target).2 = Next tt) as Hfl by (vm_compute; reflexivity).
  split; [exact Hfl|].
  pose proof (handleTarget_reports provider platform None someEnv "t1" ready _ _ _ run_target_exec) as H.
  rewrite Hfl in H. destruct H as (tr0 & target & w & k & msg & _ & _ & Hm & _).
  rewrite Hm. eexists. reflexivity.
Defined.

Definition deletedReplica : Replica :=
  mkReplica TReplica "app" "r1" (Some 9%Z) [source "a" "cm"] None [hostTarget ["t1"] None None] [].

Definition run_release := run serve (handleDelete platform (rstate_init deletedReplica)) (w_deleted []).

Lemma handleDelete_releases_witness :
  (outcome run_release).2 = Next true ∧ length (history run_release) = 1 ∧
  rep_Finalizers (s_Object (outcome run_release).1) = [].
Proof.
  pose proof (outcome_exec serve (handleDelete platform) (rstate_init deletedReplica) (w_deleted []) _
                eq_refl) as Hex.
  destruct (handleDelete_releases platform deletedReplica _ _ _ Hex)
    as [_ [[Hno _]|(o & err & Htr & _)]]; [vm_compute in Hno; discriminate Hno|].
  split; [vm_compute; reflexivity|]. split; [|vm_compute; reflexivity].
  change (history run_release) with
    (history (run serve (handleDelete platform (rstate_init deletedReplica)) (w_deleted []))).
  rewrite Htr. reflexivity.
Defined.

Definition ignoredReplica : Replica :=
  MkReplica TReplica "app" "r1" 1 None None
    (Some {[OperationAnnotation := OperationAnnotationValueIgnore]}) [ReplicaFinalizer]
    (MkSpec [source "a" "cm"] None [hostTarget ["t1"] None None] None) (MkStatus 1 "" [] []).

Definition w_ignored : world := w_set_replica ignoredReplica w_create.
Definition run_ignored := runReconcile provider request w_ignored.

Definition readIgnored : KEvent :=
  @Ev _ Resp (GetReplica platform TReplica (req_NamespacedName request)) (Found ignoredReplica).

Lemma ignored_is_untouched_witness :
  nothingToDo readIgnored ∧ length (history run_ignored) = 3.
Proof.
  assert (nothingToDo readIgnored) as Hn by (vm_compute; reflexivity).
  split; [exact Hn|].
  pose proof (outcome_exec serve (Reconcile provider request) Reset w_ignored _ eq_refl) as Hex.
  assert (∃ access rest, history run_ignored = access :: readIgnored :: rest) as (access & rest & Heq)
    by (do 2 eexists; vm_compute; reflexivity).
  change (history (run serve (Reconcile provider request Reset) w_ignored))
    with (history run_ignored) in Hex.
  rewrite Heq in Hex |- *.
  destruct (ignored_is_untouched provider request _ _ _ _ _ Hex Hn) as (pc & rq & res & Hrest).
  rewrite Hrest. reflexivity.
Defined.

Lemma requeue_bounded_by_interval_witness :
  capInterval (GetInterval (MkSpec [] None [] (Some 60%Z))) 90 = 60%Z.
Proof.
  destruct (requeue_bounded_by_interval (MkSpec [] None [] (Some 60%Z)) 90) as [H _].
  destruct H as [_ H]; [reflexivity|lia|]. apply H. reflexivity.
Defined.
