(* ===== verification/EmbedDocs.v ===== *)
(** * The documentation tool

    [hack/embed-docs/main.go]: injects the contents of files into the fenced
    code blocks of markdown files that follow an inject marker.

    The file system, the console and the marshalling of the report answer the
    requests of [FsReq]; flag parsing hands over the flags and the arguments,
    and [os.Exit] is the exit code of the program. *)

From S2P Require Import Prelude GoLib GoText Effects.

(** ** Requests *)

Inductive FsReq :=
| Stat (path : string)
| ReadDir (path : string)
| ReadFile (path : string)
| WriteFile (path data : string)
| Marshal (asJSON : bool) (results : list (string * string * string))
| Print (text : string)      (** standard output *)
| PrintErr (text : string)   (** standard error *)
| Usage.                     (** [flag.Usage] *)

Record DirEntry := MkEntry { e_Name : string; e_IsDir : bool }.

Definition FsResp (e : FsReq) : Type :=
  match e with
  | Stat _ => string + bool            (** whether it is a directory *)
  | ReadDir _ => string + list DirEntry
  | ReadFile _ => string + string
  | WriteFile _ _ => option string
  | Marshal _ _ => string + string
  | Print _ | PrintErr _ | Usage => unit
  end.

Abbreviation FM := (M FsResp).
Abbreviation FsHistory := (list (Event FsResp)).

(** ** Markers *)

Definition reInjectStart : list piece :=
  [Lit "<!--"; Spaces; Lit "inject:"; Spaces; Group; Spaces; Lit "-->"].
Definition reInjectEnd : list piece := [Lit "<!--"; Spaces; Lit "end inject"; Spaces; Lit "-->"].

(** The fences are matched without pieces: [^```] and [^```$]. *)
Definition reFenceOpen (s : string) : bool := HasPrefix s "```".
Definition reFenceClose (s : string) : bool := String.eqb s "```".

(** [m[1]] of an inject marker. *)
Definition injectStart (line : string) : option string :=
  FindStringSubmatch reInjectStart line ≫= head.
Definition injectEnd (line : string) : bool := MatchString reInjectEnd line.

(** ** Errors *)

Inductive InjectError :=
| ExpectedOpeningFence (injectFile line : string)
| MissingClosingFence (injectFile : string)
| UnableToRead (injectFile err : string)
| ExpectedEndInject (injectFile : string).

Inductive status := statusUnchanged | statusModified | statusError.

Definition statusText (s : status) : string :=
  match s with
  | statusUnchanged => "unchanged"
  | statusModified => "modified"
  | statusError => "error"
  end.

Record fileResult := MkResult { r_File : string; r_Status : status; r_Error : string }.

Section Tool.
(** [strconv.Quote], which the verb [%q] applies. *)
Variable Quote : string → string.
Local Open Scope prog_scope.

Definition errorText (e : InjectError) : string :=
  match e with
  | ExpectedOpeningFence f l =>
      sprint ["expected opening fence after inject marker for "; f; ", got: "; Quote l]
  | MissingClosingFence f => sprint ["missing closing fence for inject block referencing "; f]
  | UnableToRead f err => sprint ["unable to read inject file "; f; ": "; err]
  | ExpectedEndInject f => sprint ["expected end inject marker after closing fence for "; f]
  end.

(** ** inject *)

(** The inner loops, on the lines that are left: skip to the closing fence,
    and copy blank lines. *)
Fixpoint skipToFence (lines : list string) : list string :=
  match lines with
  | [] => []
  | l :: rest => if reFenceClose l then lines else skipToFence rest
  end.

Fixpoint takeBlank (lines : list string) : list string * list string :=
  match lines with
  | [] => ([], [])
  | l :: rest =>
      if isBlank l then let '(blank, rest') := takeBlank rest in (l :: blank, rest')
      else ([], lines)
  end.

Section State.
Context {S : Type}.

(** What follows an inject marker: the rendered lines and the lines left. *)
Definition injectBlock (injectFile : string) (lines : list string)
    : FM S (InjectError + (list string * list string)) :=
  match lines with
  | [] => panic "index out of range"
  | fenceLine :: lines =>
      if negb (reFenceOpen fenceLine) then ret (inl (ExpectedOpeningFence injectFile fenceLine))
      else
        match skipToFence lines with
        | [] => ret (inl (MissingClosingFence injectFile))
        | closing :: lines =>
            let! fileData := call (ReadFile injectFile) in
            match fileData with
            | inl err => ret (inl (UnableToRead injectFile err))
            | inr fileData =>
                let injected := TrimRight newline fileData in
                let '(blank, lines) := takeBlank lines in
                match lines with
                | [] => ret (inl (ExpectedEndInject injectFile))
                | l :: lines =>
                    if negb (injectEnd l) then ret (inl (ExpectedEndInject injectFile))
                    else ret (inr (fenceLine :: injected :: closing :: blank ++ [l], lines))
                end
            end
        end
  end.

(** The outer loop; every iteration consumes a line, so the number of lines is
    enough fuel ([inject_exec] below does not run out of it). *)
Fixpoint injectLoop (fuel : nat) (lines : list string) (baseDir : string) (result : list string)
    : FM S (InjectError + list string) :=
  match lines with
  | [] => ret (inr result)
  | line :: rest =>
      match fuel with
      | O => panic "out of fuel"
      | Datatypes.S fuel =>
          match injectStart line with
          | None => injectLoop fuel rest baseDir (result ++ [line])
          | Some file =>
              let! r := injectBlock (JoinPath baseDir file) rest in
              match r with
              | inl e => ret (inl e)
              | inr (block, rest) => injectLoop fuel rest baseDir (result ++ line :: block)
              end
          end
      end
  end.

Definition inject (lines : list string) (baseDir : string) : FM S (InjectError + list string) :=
  injectLoop (length lines) lines baseDir [].

(** ** processFile *)

Definition processFile (mdFile : string) (checkOnly : bool) : FM S (bool * option string) :=
  let! data := call (ReadFile mdFile) in
  match data with
  | inl err => ret (false, Some err)
  | inr original =>
      let! result := inject (Split newline original) (Dir mdFile) in
      match result with
      | inl e => ret (false, Some (errorText e))
      | inr result =>
          let updated := Join result newline in
          if String.eqb updated original then ret (false, None)
          else if checkOnly then ret (true, None)
          else
            let! err := call (WriteFile mdFile updated) in
            ret (true, err)
      end
  end.

End State.

(** ** main *)

Record mstate := MkMain {
  m_results : list fileResult;
  m_anyDiff : bool;
  m_anyError : bool;
  m_mdFiles : list string }.

Definition addError (file err : string) (s : mstate) : mstate :=
  MkMain (m_results s ++ [MkResult file statusError err]) (m_anyDiff s) true (m_mdFiles s).
Definition addModified (file : string) (s : mstate) : mstate :=
  MkMain (m_results s ++ [MkResult file statusModified ""]) true (m_anyError s) (m_mdFiles s).
Definition addUnchanged (file : string) (s : mstate) : mstate :=
  MkMain (m_results s ++ [MkResult file statusUnchanged ""]) (m_anyDiff s) (m_anyError s) (m_mdFiles s).
Definition addFiles (files : list string) (s : mstate) : mstate :=
  MkMain (m_results s) (m_anyDiff s) (m_anyError s) (m_mdFiles s ++ files).

Definition mdFilesIn (dir : string) (entries : list DirEntry) : list string :=
  (λ e, JoinPath dir (e_Name e)) <$>
    List.filter (λ e, negb (e_IsDir e) && HasSuffix (e_Name e) ".md") entries.

Definition collect (arg : string) : FM mstate unit :=
  let! info := call (Stat arg) in
  match info with
  | inl err => modify (addError arg err) ;;; stop
  | inr true =>
      let! entries := call (ReadDir arg) in
      match entries with
      | inl err => modify (addError arg err) ;;; stop
      | inr entries => modify (addFiles (mdFilesIn arg entries))
      end
  | inr false => modify (addFiles [arg])
  end.

Definition processOne (check : bool) (mdFile : string) : FM mstate unit :=
  let! (changed, err) := processFile mdFile check in
  match err with
  | Some err => modify (addError mdFile err)
  | None => modify (if changed then addModified mdFile else addUnchanged mdFile)
  end.

Definition reportRow (r : fileResult) : string * string * string :=
  (r_File r, statusText (r_Status r), r_Error r).

Definition printOutput (results : list fileResult) (asJSON : bool) : FM mstate unit :=
  let! data := call (Marshal asJSON (reportRow <$> results)) in
  match data with
  | inl err =>
      let! _ := call (PrintErr (sprint ["error marshalling output: "; err; String newline ""])) in
      ret tt
  | inr data =>
      let! _ := call (Print (if asJSON then data +:+ String newline "" else data)) in ret tt
  end.

(** The exit code. *)
Definition main (check asJSON : bool) (args : list string) : FM mstate nat :=
  match args with
  | [] => let! _ := call Usage in ret 1
  | _ =>
      for_each args collect ;;;
      let! s := get in
      for_each (m_mdFiles s) (processOne check) ;;;
      let! s := get in
      (match m_mdFiles s with
       | [] => let! _ := call (Print ("no markdown files found in the specified paths" +:+ String newline "")) in ret tt
       | _ => printOutput (m_results s) asJSON
       end) ;;;
      ret (if m_anyError s || check && m_anyDiff s then 1 else 0)
  end.

End Tool.
