(* ===== verification/EmbedDocsProperties.v ===== *)
(** * The documentation tool does what it documents

    [injects] is the specification of [inject]: a document is a sequence of
    plain lines and inject blocks, and the result replaces the contents of the
    blocks and nothing else. *)

From S2P Require Import Prelude GoLib GoText Effects EmbedDocs.

#[local] Abbreviation event e r := (@Ev FsReq FsResp e r).

(** ** Specification *)

(** [injects base lines tr result]: the document [lines] becomes [result] when
    the files of its blocks are read in order with the answers [tr]. *)
Inductive injects (base : string) : list string → FsHistory → list string → Prop :=
| injects_nil : injects base [] [] []
| injects_line l lines tr result :
    injectStart l = None → injects base lines tr result →
    injects base (l :: lines) tr (l :: result)
| injects_block marker file opening old closing blank ending content lines tr result :
    injectStart marker = Some file → reFenceOpen opening = true →
    Forall (λ l, reFenceClose l = false) old → reFenceClose closing = true →
    Forall (λ l, isBlank l = true) blank → injectEnd ending = true →
    injects base lines tr result →
    injects base
      (marker :: opening :: old ++ closing :: blank ++ ending :: lines)
      (event (ReadFile (JoinPath base file)) (inr content) :: tr)
      (marker :: opening :: TrimRight newline content :: closing :: blank ++ ending :: result).

(** ** The inner loops *)

Lemma skipToFence_spec lines :
  match skipToFence lines with
  | [] => Forall (λ l, reFenceClose l = false) lines
  | closing :: rest =>
      ∃ old, lines = old ++ closing :: rest ∧ Forall (λ l, reFenceClose l = false) old ∧
             reFenceClose closing = true
  end.
Proof.
  induction lines as [|l lines IH]; simpl; [constructor|].
  destruct (reFenceClose l) eqn:Hl; [by exists []|].
  destruct (skipToFence lines) as [|c rest]; [by constructor|].
  destruct IH as (old & -> & Ho & Hc). exists (l :: old). split; [done|]. split; [by constructor|done].
Qed.

Lemma skipToFence_app old closing rest :
  Forall (λ l, reFenceClose l = false) old → reFenceClose closing = true →
  skipToFence (old ++ closing :: rest) = closing :: rest.
Proof. induction 1 as [|l old Hl _ IH]; intros Hc; simpl; [by rewrite Hc|]. rewrite Hl. by apply IH. Qed.

Lemma takeBlank_spec lines :
  let '(blank, rest) := takeBlank lines in
  lines = blank ++ rest ∧ Forall (λ l, isBlank l = true) blank.
Proof.
  induction lines as [|l lines IH]; simpl; [done|].
  destruct (isBlank l) eqn:Hl; [|done].
  destruct (takeBlank lines) as [blank rest]. destruct IH as [-> Hb]. split; [done|by constructor].
Qed.

Lemma takeBlank_app blank ending rest :
  Forall (λ l, isBlank l = true) blank → isBlank ending = false →
  takeBlank (blank ++ ending :: rest) = (blank, ending :: rest).
Proof.
  induction 1 as [|l blank Hl _ IH]; intros He; simpl; [by rewrite He|].
  rewrite Hl. by rewrite (IH He).
Qed.

Lemma takeBlank_length lines : length (takeBlank lines).2 ≤ length lines.
Proof.
  pose proof (takeBlank_spec lines) as H. destruct (takeBlank lines) as [blank rest].
  destruct H as [-> _]. rewrite length_app. simpl. lia.
Qed.

(** An end marker starts with "<", which is not white space. *)
Lemma injectEnd_not_blank l : injectEnd l = true → isBlank l = false.
Proof.
  intros H. apply matches_Lit, HasPrefix_inv in H as [r ->]. simpl. by destruct r.
Qed.

Lemma injectStart_not_end l : is_Some (injectStart l) → HasPrefix l "<!--" = true.
Proof.
  intros [f Hf]. unfold injectStart in Hf.
  destruct (FindStringSubmatch reInjectStart l) as [g|] eqn:Hg; [|done].
  apply (matches_Lit "<!--" (tail reInjectStart)). by apply (Find_Match _ _ g).
Qed.

(** ** Executions of inject *)

Section Inject.
Context {S : Type}.
Implicit Types (s : S) (tr : FsHistory).

(** One block. *)
Lemma injectBlock_sound file lines s tr s' block rest :
  exec (injectBlock (S := S) file lines s) tr (s', Next (inr (block, rest))) →
  ∃ opening old closing blank ending content,
    s' = s ∧ lines = opening :: old ++ closing :: blank ++ ending :: rest ∧
    block = opening :: TrimRight newline content :: closing :: blank ++ [ending] ∧
    tr = [event (ReadFile file) (inr content)] ∧
    reFenceOpen opening = true ∧ Forall (λ l, reFenceClose l = false) old ∧
    reFenceClose closing = true ∧ Forall (λ l, isBlank l = true) blank ∧ injectEnd ending = true.
Proof.
  unfold injectBlock. destruct lines as [|opening lines]; [by intros [_ ?]%exec_inv|].
  destruct (reFenceOpen opening) eqn:Ho; simpl; [|by intros [_ ?]%exec_inv].
  pose proof (skipToFence_spec lines) as Hskip.
  destruct (skipToFence lines) as [|closing lines']; [by intros [_ ?]%exec_inv|].
  destruct Hskip as (old & -> & Hold & Hc). intros (r & tr' & -> & Hex)%exec_inv. simpl in Hex.
  destruct r as [err|content]; [by apply exec_inv in Hex as [_ ?]|].
  pose proof (takeBlank_spec lines') as Hb. destruct (takeBlank lines') as [blank rest'].
  destruct Hb as [-> Hb]. destruct rest' as [|ending rest']; [by apply exec_inv in Hex as [_ ?]|].
  destruct (injectEnd ending) eqn:He; simpl in Hex; apply exec_inv in Hex as [-> Heq]; [|done].
  injection Heq as -> -> ->.
  exists opening, old, closing, blank, ending, content. repeat (split; [done|]). done.
Qed.

Lemma injectLoop_sound fuel lines base result s tr s' res :
  exec (injectLoop (S := S) fuel lines base result s) tr (s', Next (inr res)) →
  s' = s ∧ ∃ new, res = result ++ new ∧ injects base lines tr new.
Proof.
  revert lines result tr. induction fuel as [|fuel IH]; intros [|line rest] result tr; simpl;
    try by intros [_ ?]%exec_inv.
  - intros [-> [= -> ->]]%exec_inv. split; [done|]. exists []. rewrite app_nil_r. by repeat constructor.
  - intros [-> [= -> ->]]%exec_inv. split; [done|]. exists []. rewrite app_nil_r. by repeat constructor.
  - destruct (injectStart line) as [file|] eqn:Hstart.
    + intros Hex. unfold bind in Hex.
      apply exec_bind in Hex as (tr1 & [s1 fl1] & tr2 & -> & Hex1 & Hex2).
      destruct fl1 as [[e|[block rest']]| |why]; simpl in Hex2;
        try by apply exec_inv in Hex2 as [_ ?].
      apply injectBlock_sound in Hex1
        as (op & old & cl & blank & en & content & -> & -> & -> & -> & ? & ? & ? & ? & ?).
      apply IH in Hex2 as [-> (new & -> & Hnew)]. split; [done|].
      exists (line :: op :: TrimRight newline content :: cl :: blank ++ en :: new). split.
      * rewrite <- app_assoc. simpl. by rewrite <- app_assoc.
      * by apply (injects_block base line file op old cl blank en content rest' tr2 new).
    + intros Hex. apply IH in Hex as [-> (new & -> & Hnew)]. split; [done|].
      exists (line :: new). rewrite <- app_assoc. split; [done|]. by constructor.
Qed.

(** A block that is well formed is injected. *)
Lemma injectLoop_complete base lines tr new fuel result s :
  injects base lines tr new → length lines ≤ fuel →
  exec (injectLoop (S := S) fuel lines base result s) tr (s, Next (inr (result ++ new))).
Proof.
  intros H. revert fuel result. induction H as
    [|l lines tr new Hl H IH|marker file op old cl blank en content lines tr new Hs Ho Hold Hc Hb He H IH];
    intros fuel result Hf.
  - rewrite app_nil_r. destruct fuel; constructor.
  - destruct fuel as [|fuel]; simpl in Hf; [lia|]. simpl. rewrite Hl.
    replace (result ++ l :: new) with ((result ++ [l]) ++ new) by (by rewrite <- app_assoc).
    apply IH. lia.
  - destruct fuel as [|fuel]; simpl in Hf; [lia|]. simpl. rewrite Hs. unfold bind, injectBlock.
    rewrite Ho. simpl. rewrite skipToFence_app by done. constructor.
    simpl. rewrite (takeBlank_app blank en lines Hb (injectEnd_not_blank en He)), He. simpl.
    replace (result ++ marker :: op :: TrimRight newline content :: cl :: blank ++ en :: new) with
      ((result ++ marker :: op :: TrimRight newline content :: cl :: blank ++ [en]) ++ new)
      by (rewrite <- app_assoc; simpl; by rewrite <- app_assoc).
    apply IH. rewrite !length_app in Hf. simpl in Hf. rewrite length_app in Hf. simpl in Hf. lia.
Qed.

End Inject.

(** ** Failures *)

Section Failures.
Context {S : Type}.
Implicit Types (s : S) (tr : FsHistory).

#[local] Abbreviation any := (λ (_ : FsHistory) (_ : FsReq), True).

(** The last of the lines is an inject marker. *)
Definition endsInMarker (lines : list string) : Prop :=
  ∃ marker, last lines = Some marker ∧ is_Some (injectStart marker).

(** What the outer loop may end with; a panic is the index out of range. *)
Definition injectEnds {A} (lines : list string) (s : S) (_ : FsHistory) (s' : S)
    (fl : Flow (InjectError + A)) : Prop :=
  match fl with
  | Next _ => s' = s
  | Stop => False
  | Panic why => why = "index out of range" ∧ endsInMarker lines
  end.

Lemma injectBlock_ends file lines s tr :
  mwp any (injectBlock (S := S) file lines) s tr (λ _ s' fl, s' = s ∧
    match fl with
    | Next (inr (_, rest)) => ∃ pre, lines = pre ++ rest ∧ length rest < length lines
    | Next (inl _) => True
    | Stop => False
    | Panic why => why = "index out of range" ∧ lines = []
    end).
Proof.
  unfold injectBlock. destruct lines as [|opening lines]; [by mwp_step|].
  destruct (reFenceOpen opening); simpl; [|by mwp_step].
  pose proof (skipToFence_spec lines) as Hskip.
  destruct (skipToFence lines) as [|closing lines']; [by mwp_step|].
  destruct Hskip as (old & -> & _ & _). mwp_step. mwp_step; [done|].
  mwp_step; [by mwp_step|].
  pose proof (takeBlank_spec lines') as Hb. destruct (takeBlank lines') as [blank rest].
  destruct Hb as [-> _]. destruct rest as [|ending rest]; [by mwp_step|].
  destruct (injectEnd ending); simpl; mwp_step; [|done]. split; [done|].
  exists (opening :: old ++ closing :: blank ++ [ending]). split.
  - simpl. rewrite <- !app_assoc. simpl. by rewrite <- !app_assoc.
  - simpl. rewrite length_app. simpl. rewrite length_app. simpl. lia.
Qed.

Lemma endsInMarker_app pre lines : lines ≠ [] → endsInMarker lines → endsInMarker (pre ++ lines).
Proof.
  intros Hne (m & Hl & Hm). exists m. split; [|done]. rewrite last_app, Hl. done.
Qed.

Lemma injectLoop_ends fuel lines base result s tr :
  length lines ≤ fuel →
  mwp any (injectLoop (S := S) fuel lines base result) s tr (injectEnds lines s).
Proof.
  revert lines result tr. induction fuel as [|fuel IH]; intros [|line rest] result tr Hf; simpl in *;
    try by mwp_step.
  - lia.
  - destruct (injectStart line) as [file|] eqn:Hs.
    + mwp_step. eapply mwp_mono; [|apply injectBlock_ends].
      intros tr' s' fl [-> Hfl]. destruct fl as [[e|[block rest']]| |why]; [by mwp_step| |done|].
      * destruct Hfl as (pre & -> & Hlt). rewrite length_app in Hf, Hlt.
        eapply mwp_mono; [|apply IH; lia]. intros tr2 s2 fl. destruct fl as [?| |why]; [done|done|].
        simpl. intros [-> Hm]. split; [done|]. apply (endsInMarker_app (line :: pre)); [|done].
        by intros ->; destruct Hm as (? & ? & _).
      * destruct Hfl as [-> ->]. split; [done|]. exists line. by rewrite Hs.
    + eapply mwp_mono; [|apply IH; lia]. intros tr2 s2 fl. destruct fl as [?| |why]; [done|done|].
      simpl. intros [-> Hm]. split; [done|]. apply (endsInMarker_app [line]); [|done].
      by intros ->; destruct Hm as (? & ? & _).
Qed.

End Failures.

(** ** Injecting twice *)

(** No line of an injected file is a closing fence. *)
Definition fenceFree (tr : FsHistory) : Prop :=
  Forall (λ ev : Event FsResp, match ev with
    | Ev (ReadFile _) (inr content) =>
        Forall (λ l, reFenceClose l = false) (Split newline (TrimRight newline content))
    | _ => True
    end) tr.

Lemma injects_again base lines tr res :
  injects base lines tr res → Forall (λ l, lacks newline l = true) lines → fenceFree tr →
  injects base (res ≫= Split newline) tr res.
Proof.
  induction 1 as
    [|l lines tr new Hl H IH|marker file op old cl blank en content lines tr new Hs Ho Hold Hc Hb He H IH];
    intros Hlack Hfree.
  - constructor.
  - apply Forall_cons in Hlack as [Hlk Hlack]. rewrite bind_cons, (Split_id _ _ Hlk).
    constructor; [done|]. by apply IH.
  - apply Forall_cons in Hfree as [Hcont Hfree].
    repeat (apply Forall_cons in Hlack as [? Hlack]).
    apply Forall_app in Hlack as [_ [? Hlack]%Forall_cons].
    apply Forall_app in Hlack as [Hlb [? Hlack]%Forall_cons].
    rewrite !bind_cons, bind_app, bind_cons, !(Split_id newline marker), !(Split_id newline op),
      !(Split_id newline cl), !(Split_id newline en), (bind_Split_id _ _ Hlb) by done.
    simpl. apply injects_block; try done. by apply IH.
Qed.

Lemma injects_nonempty base lines tr res : injects base lines tr res → lines ≠ [] → res ≠ [].
Proof. by intros []. Qed.

(** ** The whole program *)

Section Main.
Variable Quote : string → string.

(** Nothing is written. *)
Definition readOnly (_ : FsHistory) (e : FsReq) : Prop :=
  match e with WriteFile _ _ => False | _ => True end.

Lemma injectBlock_readOnly {S} file lines (s : S) tr :
  mwp readOnly (injectBlock file lines) s tr (λ _ _ _, True).
Proof.
  unfold injectBlock. destruct lines as [|opening lines]; [by mwp_step|].
  destruct (reFenceOpen opening); simpl; [|by mwp_step].
  destruct (skipToFence lines); [by mwp_step|]. mwp_step. mwp_step; [done|].
  mwp_step; [by mwp_step|]. destruct (takeBlank _) as [blank [|ending rest]]; [by mwp_step|].
  destruct (injectEnd ending); by mwp_step.
Qed.

Lemma inject_readOnly {S} lines base (s : S) tr :
  mwp readOnly (inject lines base) s tr (λ _ _ _, True).
Proof.
  unfold inject. generalize (@nil string), (length lines). intros result fuel.
  revert lines result s tr. induction fuel as [|fuel IH]; intros [|line rest] result s tr; simpl;
    try by mwp_step.
  destruct (injectStart line); [|by apply IH].
  mwp_step. eapply mwp_mono; [|apply injectBlock_readOnly].
  intros tr' s' [[?|[? ?]]| |] _; [by mwp_step|by apply IH|done|done].
Qed.

Lemma processFile_readOnly {S} f (s : S) tr :
  mwp readOnly (processFile Quote f true) s tr (λ _ _ _, True).
Proof.
  unfold processFile. mwp_step. mwp_step; [done|]. mwp_step; [by mwp_step|].
  mwp_step. eapply mwp_mono; [|apply inject_readOnly].
  intros tr' s' [[?|?]| |] _; [by mwp_step| |done|done]. by mwp_step; mwp_step.
Qed.

(** The flags agree with the results. *)
Definition consistent (s : mstate) : Prop :=
  (m_anyError s = true ↔ ∃ r, r ∈ m_results s ∧ r_Status r = statusError) ∧
  (m_anyDiff s = true ↔ ∃ r, r ∈ m_results s ∧ r_Status r = statusModified).

Definition initial : mstate := MkMain [] false false [].

Lemma consistent_initial : consistent initial.
Proof. split; simpl; (split; [done|]); by intros (r & ?%not_elem_of_nil & _). Qed.

Lemma exists_snoc {A} (P : A → Prop) (l : list A) x :
  (∃ r, r ∈ l ++ [x] ∧ P r) ↔ (∃ r, r ∈ l ∧ P r) ∨ P x.
Proof.
  setoid_rewrite elem_of_app. setoid_rewrite list_elem_of_singleton. naive_solver.
Qed.

Lemma consistent_add file err s :
  consistent s → consistent (addError file err s) ∧ consistent (addModified file s) ∧
                 consistent (addUnchanged file s).
Proof.
  unfold consistent, addError, addModified, addUnchanged. simpl. rewrite !exists_snoc. simpl.
  naive_solver.
Qed.

(** The results follow the files, in order. *)
Definition reportedOn (files : list string) (s0 s : mstate) : Prop :=
  consistent s ∧ m_mdFiles s = m_mdFiles s0 ∧
  r_File <$> m_results s = (r_File <$> m_results s0) ++ files.

#[local] Abbreviation any := (λ (_ : FsHistory) (_ : FsReq), True).

Lemma processFile_state check f (s : mstate) tr :
  mwp any (processFile Quote f check) s tr (λ _ s' fl,
    match fl with Next _ => s' = s | Stop => False | Panic _ => True end).
Proof.
  unfold processFile. mwp_step. mwp_step; [done|]. mwp_step; [by mwp_step|].
  mwp_step. eapply mwp_mono; [|by apply injectLoop_ends].
  intros tr' s' [[?|?]| |why] Hfl; simpl in Hfl; [subst; by mwp_step|subst|done|done].
  mwp_step; [by mwp_step|]. mwp_step; [by mwp_step|]. mwp_step. mwp_step; [done|]. by mwp_step.
Qed.

Lemma processOne_reports check f s0 s files tr :
  reportedOn files s0 s →
  mwp any (processOne Quote check f) s tr (λ _ s' fl,
    match fl with Panic _ => True | _ => reportedOn (files ++ [f]) s0 s' end).
Proof.
  intros (Hs & Hf & Hr). unfold processOne. mwp_step.
  eapply mwp_mono; [|apply processFile_state].
  intros tr' s' [[changed err]| |why] Hfl; [subst s'|done|done].
  assert (∀ g st e, consistent (g s) → m_mdFiles (g s) = m_mdFiles s →
            m_results (g s) = m_results s ++ [MkResult f st e] →
            reportedOn (files ++ [f]) s0 (g s)) as Hadd.
  { intros g st e Hc Hm Hg. split; [done|]. split; [by rewrite Hm|].
    by rewrite Hg, fmap_app, Hr, <- app_assoc. }
  destruct err as [err|]; mwp_step.
  - by apply (Hadd _ statusError err); [apply consistent_add| |].
  - destruct changed.
    + by apply (Hadd (addModified f) statusModified ""); [apply (consistent_add f "")| |].
    + by apply (Hadd (addUnchanged f) statusUnchanged ""); [apply (consistent_add f "")| |].
Qed.

Lemma collect_consistent arg s tr :
  consistent s →
  mwp any (collect arg) s tr (λ _ s' fl,
    match fl with Panic _ => False | _ => consistent s' end).
Proof.
  intros Hs. unfold collect. mwp_step. mwp_step; [done|]. mwp_step.
  - mwp_step. mwp_step. mwp_step. by apply consistent_add.
  - mwp_step; [|by mwp_step]. mwp_step. mwp_step; [done|]. mwp_step; [|by mwp_step].
    mwp_step. mwp_step. mwp_step. by apply consistent_add.
Qed.

Lemma main_readOnly asJSON args s tr : mwp readOnly (main Quote true asJSON args) s tr (λ _ _ _, True).
Proof.
  unfold main. destruct args as [|arg args]; [mwp_step; mwp_step; [done|]; by mwp_step|].
  assert (∀ {X} (l : list X) (body : X → FM mstate unit) s tr Q,
    (∀ x s tr, mwp readOnly (body x) s tr (λ _ _ _, True)) → (∀ tr s fl, Q tr s fl) →
    mwp readOnly (for_each l body) s tr Q) as Hloop.
  { intros Y l body s1 tr1 Q Hb HQ.
    eapply mwp_mono; [|apply (mwp_for_each_visit readOnly l body _ _ (λ _ _ _, True) (λ _ _ _, True))];
      [done| |done].
    intros. eapply mwp_mono; [|by apply Hb]. by intros ? ? []. }
  assert (∀ tr' s', mwp readOnly (for_each (m_mdFiles s') (processOne Quote true)) s' tr' (λ _ _ _, True)) as Hp.
  { intros. apply Hloop; [|done]. intros f s2 tr2. unfold processOne. mwp_step.
    eapply mwp_mono; [|apply processFile_readOnly]. intros ? ? [[? [?|]]| |] _; [by mwp_step..|done|done]. }
  mwp_step. apply Hloop.
  - intros a s2 tr2. unfold collect. mwp_step. mwp_step; [done|]. repeat mwp_step; done.
  - intros tr1 s1 [[]| |]; [|done|done]. mwp_step. mwp_step. mwp_step.
    eapply mwp_mono; [|apply Hp]. intros tr2 s2 [[]| |] _; [|done|done].
    unfold printOutput. repeat mwp_step; done.
Qed.

Definition isProblem (check : bool) (r : fileResult) : Prop :=
  r_Status r = statusError ∨ check = true ∧ r_Status r = statusModified.

Lemma consistent_exit check s :
  consistent s →
  (m_anyError s || check && m_anyDiff s) = true ↔ ∃ r, r ∈ m_results s ∧ isProblem check r.
Proof.
  intros [He Hd]. rewrite orb_true_iff, andb_true_iff, He, Hd. unfold isProblem. naive_solver.
Qed.

Lemma main_ends check asJSON args :
  args ≠ [] →
  mwp any (main Quote check asJSON args) initial [] (λ _ s fl,
    match fl with
    | Next code => code = (if m_anyError s || check && m_anyDiff s then 1 else 0) ∧ consistent s ∧
                   ∃ errors, r_File <$> m_results s = errors ++ m_mdFiles s
    | Stop => False
    | Panic _ => True
    end).
Proof.
  intros Hne. unfold main. destruct args as [|arg args]; [done|]. clear Hne.
  mwp_step. eapply mwp_mono; [|apply (mwp_for_each_visit any _ _ _ _ (λ _ _ s, consistent s)
    (λ _ _ _, False)); [|apply consistent_initial]].
  2: { intros pre x tr' s' Hs. eapply mwp_mono; [|by apply collect_consistent].
       by intros tr'' s'' [[]| |why]. }
  intros tr1 s1 [[]| |why] Hs1; [|done|done]. mwp_step. mwp_step. mwp_step.
  eapply mwp_mono; [|apply (mwp_for_each_visit any _ _ _ _ (λ files _ s, reportedOn files s1 s)
    (λ _ _ _, True))].
  2: { intros pre x tr' s' Hs. by apply processOne_reports. }
  2: { split; [done|]. split; [done|]. by rewrite app_nil_r. }
  intros tr2 s2 [[]| |why] Hs2; [|done|done]. destruct Hs2 as (Hc & Hm & Hr).
  mwp_step. mwp_step. mwp_step.
  assert (∃ errors, r_File <$> m_results s2 = errors ++ m_mdFiles s2) as Herr.
  { exists (r_File <$> m_results s1). by rewrite Hm. }
  destruct (m_mdFiles s2) eqn:He.
  - mwp_step. mwp_step; [done|]. mwp_step. mwp_step. by rewrite He.
  - unfold printOutput. mwp_step. mwp_step; [done|].
    mwp_step; mwp_step; (mwp_step; [done|]); mwp_step; mwp_step; by rewrite He.
Qed.

End Main.

(** ** What a rewriting run has done *)

Definition readAnswer (ev : Event FsResp) : option (string + string) :=
  match ev with Ev (ReadFile _) r => Some r | _ => None end.
Definition writtenData (ev : Event FsResp) : option string :=
  match ev with Ev (WriteFile _ data) _ => Some data | _ => None end.

Lemma processFile_wrote {S} Quote file original updated reads (s : S) :
  exec (processFile Quote file false s)
    (event (ReadFile file) (inr original) :: reads ++ [event (WriteFile file updated) None])
    (s, Next (true, None)) →
  ∃ result, injects (Dir file) (Split newline original) reads result ∧ updated = Join result newline.
Proof.
  unfold processFile, bind, call. simpl. intros (r & tr & Heq & Hex)%exec_inv.
  pose proof (f_equal (λ l, head l ≫= readAnswer) Heq) as Hr. simpl in Hr.
  injection Hr as <-. pose proof (f_equal tail Heq) as Ht. simpl in Ht. subst tr. clear Heq.
  simpl in Hex. apply exec_bind in Hex as (tr1 & [s1 fl] & tr2 & Heq & Hinj & Hex).
  destruct fl as [[e|result]| |why]; simpl in Hex; try by apply exec_inv in Hex as [_ ?].
  apply injectLoop_sound in Hinj as [-> (new & -> & Hinj)]. simpl in Hex.
  destruct (String.eqb _ original); [by apply exec_inv in Hex as [_ ?]|].
  apply exec_inv in Hex as (err & tr3 & -> & Hex). apply exec_inv in Hex as [-> _].
  apply app_inj_tail in Heq as [-> Heq]. exists new. split; [done|].
  apply (f_equal writtenData) in Heq. by injection Heq.
Qed.

(** ** Properties *)

(** C37: [inject] implements its specification, in both directions: it succeeds
    with a result exactly when the lines are a sequence of plain lines and
    well-formed inject blocks whose files can be read, and the result is the
    document with the contents of the blocks replaced and every other line
    untouched. *)
Theorem inject_refines_injects {S} lines base (s s' : S) tr result :
  exec (inject lines base s) tr (s', Next (inr result)) ↔ s' = s ∧ injects base lines tr result.
Proof.
  split.
  - intros Hex. unfold inject in Hex. apply injectLoop_sound in Hex as [-> (new & -> & H)]. done.
  - intros [-> H]. by apply (injectLoop_complete base lines tr result (length lines) [] s).
Qed.

(** C39: [inject] terminates on every input, within its fuel, with a result or
    an error; the only other outcome is an index out of range, and it occurs
    only when the last line is an inject marker. *)
Theorem inject_terminates {S} lines base (s s' : S) tr fl :
  exec (inject lines base s) tr (s', fl) →
  match fl with
  | Next _ => s' = s
  | Stop => False
  | Panic why => why = "index out of range" ∧
                 ∃ marker, last lines = Some marker ∧ is_Some (injectStart marker)
  end.
Proof.
  intros Hex. unfold inject in Hex.
  by destruct (mwp_exec _ _ _ _ _ _ _ (injectLoop_ends (length lines) lines base [] s [] ltac:(done)) Hex)
    as [H _].
Qed.

(** A document that ends with a marker makes the tool panic instead of
    returning its error. *)
Theorem last_marker_panics :
  exec (inject ["<!-- inject: a.yaml -->"] "." tt) [] (tt, Panic "index out of range").
Proof. constructor. Qed.

(** C38: Running the tool twice changes nothing the second time: after a run
    has rewritten a file, a run that reads the same contents reports the file
    as unchanged, provided no injected file contains a closing fence. *)
Theorem processFile_idempotent {S} Quote file original updated reads check (s : S) :
  exec (processFile Quote file false s)
    (event (ReadFile file) (inr original) :: reads ++ [event (WriteFile file updated) None])
    (s, Next (true, None)) →
  fenceFree reads →
  exec (processFile Quote file check s) (event (ReadFile file) (inr updated) :: reads)
    (s, Next (false, None)).
Proof.
  intros Hex Hfree. apply processFile_wrote in Hex as (result & Hinj & ->).
  unfold processFile, bind, call. simpl. constructor. simpl.
  pose proof (injects_nonempty _ _ _ _ Hinj) as Hne.
  destruct (Split_cons newline original) as (l0 & ls & Hs0).
  rewrite Split_Join by (apply Hne; by rewrite Hs0).
  rewrite <- (app_nil_r reads). eapply exec_bind_intro.
  - apply injectLoop_complete; [|done]. eapply injects_again; [exact Hinj| |done].
    apply Forall_forall. intros l. apply Split_lacks.
  - simpl. rewrite String.eqb_refl. constructor.
Qed.

Section Properties.
Variable Quote : string → string.

(** In check mode the tool writes no file. *)
Theorem check_mode_writes_nothing asJSON args s tr a file data r :
  exec (main Quote true asJSON args s) tr a → event (WriteFile file data) r ∉ tr.
Proof.
  intros Hex Hin. destruct a as [s' fl].
  destruct (mwp_exec readOnly _ _ (λ _ _ _, True) _ _ _ (main_readOnly Quote asJSON args s []) Hex) as [_ Hp].
  apply list_elem_of_split in Hin as (pre & post & ->). exact (Hp pre _ post eq_refl).
Qed.

(** The exit code tells the outcome: without arguments it is 1; otherwise
    it is 1 exactly when one of the reported results is an error or, in check
    mode, a file that would change; and every markdown file found is reported
    on, in order. *)
Theorem exit_code_reports check asJSON args tr s code :
  exec (main Quote check asJSON args initial) tr (s, Next code) →
  match args with
  | [] => code = 1
  | _ =>
      (code = 1 ↔ ∃ r, r ∈ m_results s ∧
                    (r_Status r = statusError ∨ check = true ∧ r_Status r = statusModified)) ∧
      (code = 0 ∨ code = 1) ∧
      ∃ errors, r_File <$> m_results s = errors ++ m_mdFiles s
  end.
Proof.
  intros Hex. destruct args as [|arg args].
  - simpl in Hex. unfold bind, call in Hex. simpl in Hex.
    apply exec_inv in Hex as ([] & tr' & _ & Hex). by apply exec_inv in Hex as [_ [= _ ->]].
  - destruct (mwp_exec _ _ _ _ _ _ _ (main_ends Quote check asJSON (arg :: args) ltac:(done)) Hex)
      as [(-> & Hc & Herr) _].
    pose proof (consistent_exit check s Hc) as Hiff. unfold isProblem in Hiff.
    split; [|split; [|done]].
    + rewrite <- Hiff. by destruct (m_anyError s || check && m_anyDiff s).
    + destruct (m_anyError s || check && m_anyDiff s); [by right|by left].
Qed.

End Properties.

(** ** A file system, and the theorems on it *)

Definition files := gmap string string.

Definition serveFs (e : FsReq) (w : files) : files * FsResp e :=
  match e with
  | Stat p => (w, if bool_decide (is_Some (w !! p)) then inr false else inl "no such file")
  | ReadDir p => (w, inl "not a directory")
  | ReadFile p => (w, match w !! p with Some c => inr c | None => inl "no such file" end)
  | WriteFile p data => (<[p := data]> w, None)
  | Marshal _ rows => (w, inr "report")
  | Print _ => (w, tt)
  | PrintErr _ => (w, tt)
  | Usage => (w, tt)
  end.

Definition docText (content : string) : string :=
  Join ["# Title"; "<!-- inject: a.yaml -->"; "```yaml"; content; "```"; ""; "<!-- end inject -->"; "end"]
    newline.

Definition repo : files := {["docs/x.md" := docText "old"; "docs/a.yaml" := "k: v" +:+ String newline ""]}.

Definition quoted (s : string) : string := s.

Definition run_write := run serveFs (processFile quoted "docs/x.md" false tt) repo.
Definition run_check := run serveFs (main quoted true false ["docs/x.md"; "docs/y.md"] initial) repo.

Definition readOfYaml : FsHistory :=
  [event (ReadFile "docs/a.yaml") (inr ("k: v" +:+ String newline ""))].

Lemma processFile_idempotent_witness :
  run_write.1.1 !! "docs/x.md" = Some (docText "k: v") ∧
  exec (processFile quoted "docs/x.md" true tt)
    (event (ReadFile "docs/x.md") (inr (docText "k: v")) :: readOfYaml) (tt, Next (false, None)).
Proof.
  split; [vm_compute; reflexivity|].
  apply (processFile_idempotent quoted "docs/x.md" (docText "old")).
  - pose proof (run_exec serveFs (processFile quoted "docs/x.md" false tt) repo) as Hex.
    vm_compute in Hex. vm_compute. exact Hex.
  - apply Forall_singleton. apply Forall_singleton. reflexivity.
Defined.

Lemma inject_terminates_witness :
  exec (inject ["<!-- inject: a.yaml -->"] "." tt) [] (tt, Panic "index out of range") ∧
  is_Some (injectStart "<!-- inject: a.yaml -->").
Proof.
  assert (exec (inject ["<!-- inject: a.yaml -->"] "." tt) [] (tt, Panic "index out of range")) as Hex
    by constructor.
  split; [exact Hex|].
  destruct (inject_terminates _ _ _ _ _ _ Hex) as [_ (m & Hm & Hs)].
  injection Hm as <-. exact Hs.
Defined.

Lemma check_mode_writes_nothing_witness :
  length run_check.1.2 = 6 ∧
  event (WriteFile "docs/x.md" (docText "k: v")) None ∉ run_check.1.2.
Proof.
  split; [vm_compute; reflexivity|].
  apply (check_mode_writes_nothing quoted false ["docs/x.md"; "docs/y.md"] initial _ run_check.2).
  apply run_exec.
Defined.

Lemma exit_code_reports_witness :
  run_check.2.2 = Next 1 ∧ ∃ r, r ∈ m_results run_check.2.1 ∧
    (r_Status r = statusError ∨ true = true ∧ r_Status r = statusModified).
Proof.
  assert (run_check.2.2 = Next 1) as Hfl by (vm_compute; reflexivity).
  split; [exact Hfl|].
  assert (exec (main quoted true false ["docs/x.md"; "docs/y.md"] initial) run_check.1.2
            (run_check.2.1, Next 1)) as Hex.
  { rewrite <- Hfl, <- surjective_pairing. apply (run_exec serveFs). }
  destruct (exit_code_reports quoted true false ["docs/x.md"; "docs/y.md"] _ _ _ Hex) as [Hc _].
  apply Hc. reflexivity.
Defined.
