(* ===== verification/Setup.v ===== *)
(** * Which events reach the controllers

    [replicaPredicates] and parts of [SetupWithMulticlusterManager] of
    [internal/replica/controller.go] and [internal/namespace/controller.go]:
    the predicates that filter watch events, and the source that turns the
    notifications of the shared information into requests.  The calls of the
    builder that use them are in [ControllerSetup].

    The predicates are combinators of [controller-runtime] and
    [controller-utils]; they are the fields of a class, with their documented
    behaviour as laws. *)

From S2P Require Import Prelude GoLib ApiTypes External Effects Kube.
From S2P Require Import Shared ReplicaState ReplicaReconcile CreateProperties FakeServer Scenarios.

(** ** Watch events and predicates *)

Inductive KubeEvent (Obj : Type) :=
| CreateEvent (o : Obj)
| UpdateEvent (old new : Obj)
| DeleteEvent (o : Obj)
| GenericEvent (o : Obj).
#[global] Arguments CreateEvent {Obj} o.
#[global] Arguments UpdateEvent {Obj} old new.
#[global] Arguments DeleteEvent {Obj} o.
#[global] Arguments GenericEvent {Obj} o.

Definition subject {Obj} (ev : KubeEvent Obj) : Obj :=
  match ev with CreateEvent o | UpdateEvent _ o | DeleteEvent o | GenericEvent o => o end.

Definition isUpdate {Obj} (ev : KubeEvent Obj) : bool :=
  match ev with UpdateEvent _ _ => true | _ => false end.

Definition Predicate (Obj : Type) : Type := KubeEvent Obj → bool.

(** The predicates of the libraries. *)
Class Predicates (Obj : Type) := {
  And : list (Predicate Obj) → Predicate Obj;
  Or : list (Predicate Obj) → Predicate Obj;
  Not : Predicate Obj → Predicate Obj;
  (** [predicate.Funcs] with only [CreateFunc] set *)
  FuncsWithCreate : (Obj → bool) → Predicate Obj;
  GenerationChangedPredicate : Predicate Obj;
  LabelChangedPredicate : Predicate Obj;
  AnnotationChangedPredicate : Predicate Obj;
  DeletionTimestampChangedPredicate : Predicate Obj;
  OnUpdatePredicate : Predicate Obj;
  HasAnnotationPredicate : string → string → Predicate Obj;
  LostAnnotationPredicate : string → string → Predicate Obj }.

(** The logical combinators, and [Funcs], whose missing functions let every
    event pass. *)
Class CombinatorLaws (Obj : Type) `{Predicates Obj} := {
  And_law ps ev : And ps ev = forallb (λ p, p ev) ps;
  Or_law ps ev : Or ps ev = existsb (λ p, p ev) ps;
  Not_law p ev : Not p ev = negb (p ev);
  FuncsWithCreate_create f o : FuncsWithCreate f (CreateEvent o) = f o;
  FuncsWithCreate_default f ev :
    (∀ o, ev ≠ CreateEvent o) → FuncsWithCreate f ev = true;
  OnUpdate_law ev : OnUpdatePredicate ev = isUpdate ev }.

Definition hasAnnotation (a : StringMap) (k v : string) : bool := bool_decide (a ≫= (.!! k) = Some v).

(** The predicates that look at metadata concern updates; they let other
    events pass. *)
Class ReplicaPredicateLaws `{Predicates Replica} := {
  GenerationChanged_update old new :
    GenerationChangedPredicate (UpdateEvent old new) = negb (bool_decide (rep_Generation old = rep_Generation new));
  GenerationChanged_other ev : isUpdate ev = false → GenerationChangedPredicate ev = true;
  LabelChanged_update old new :
    LabelChangedPredicate (UpdateEvent old new) = negb (bool_decide (rep_Labels old = rep_Labels new));
  AnnotationChanged_update old new :
    AnnotationChangedPredicate (UpdateEvent old new) =
      negb (bool_decide (rep_Annotations old = rep_Annotations new));
  DeletionTimestampChanged_update old new :
    DeletionTimestampChangedPredicate (UpdateEvent old new) =
      negb (bool_decide (rep_DeletionTimestamp old = rep_DeletionTimestamp new));
  HasAnnotation_law k v ev :
    HasAnnotationPredicate k v ev = hasAnnotation (rep_Annotations (subject ev)) k v;
  LostAnnotation_update k v old new :
    LostAnnotationPredicate k v (UpdateEvent old new) =
      hasAnnotation (rep_Annotations old) k v && negb (hasAnnotation (rep_Annotations new) k v) }.

(** ** The predicates of the controllers *)

Section Setup.
Context `{X : Ext}.

Definition replicaPredicates `{Predicates Replica} : Predicate Replica :=
  And [
    Or [
      GenerationChangedPredicate;
      DeletionTimestampChangedPredicate;
      LabelChangedPredicate;
      AnnotationChangedPredicate];
    Not (
      Or [
        HasAnnotationPredicate OperationAnnotation OperationAnnotationValueIgnore;
        And [
          OnUpdatePredicate;
          LostAnnotationPredicate OperationAnnotation OperationAnnotationValueReconcile]])].

(** [startTime] is the time of the setup. *)
Definition namespacePredicates `{Predicates Namespace} (startTime : Time) : Predicate Namespace :=
  Or [
    FuncsWithCreate (λ o, Z.ltb startTime (ns_CreationTimestamp o));
    And [OnUpdatePredicate; LabelChangedPredicate]].

(** The [GenericFunc] of the notification source: the request for an object
    received from the channel. *)
Definition notificationRequest (obj : Replica) : Request :=
  MkRequest "" (rep_Namespace obj) (rep_Name obj).

(** One turn of the source: receive a notification, add its request to the
    work queue. *)
Definition notify (si : sharedInformation) (queue : list Request)
    : option (sharedInformation * list Request) :=
  match receive si with
  | None => None
  | Some (obj, si') => Some (si', queue ++ [notificationRequest obj])
  end.

(** ** Lemmas *)

Section Laws.
Context `{P : Predicates Replica} `{!CombinatorLaws Replica} `{!ReplicaPredicateLaws}.

(** What a user changes about a (Cluster)Replica. *)
Definition relevantChange (old new : Replica) : Prop :=
  rep_Generation old ≠ rep_Generation new ∨ rep_DeletionTimestamp old ≠ rep_DeletionTimestamp new ∨
  rep_Labels old ≠ rep_Labels new ∨ rep_Annotations old ≠ rep_Annotations new.

Definition hasOperation (value : string) (rep : Replica) : Prop :=
  rep_Annotations rep ≫= (.!! OperationAnnotation) = Some value.

Lemma update_passes old new :
  replicaPredicates (UpdateEvent old new) = true ↔
  relevantChange old new ∧ ¬ hasOperation OperationAnnotationValueIgnore new ∧
  ¬ (hasOperation OperationAnnotationValueReconcile old ∧
     ¬ hasOperation OperationAnnotationValueReconcile new).
Proof.
  unfold replicaPredicates, relevantChange, hasOperation, hasAnnotation.
  rewrite And_law. simpl. rewrite Or_law, Not_law, Or_law. simpl. rewrite And_law. simpl.
  rewrite GenerationChanged_update, DeletionTimestampChanged_update, LabelChanged_update,
    AnnotationChanged_update, HasAnnotation_law, OnUpdate_law, LostAnnotation_update.
  unfold hasAnnotation. simpl. repeat case_bool_decide; simpl; naive_solver.
Qed.

Lemma other_passes ev :
  isUpdate ev = false →
  replicaPredicates ev = true ↔ ¬ hasOperation OperationAnnotationValueIgnore (subject ev).
Proof.
  intros Hu. unfold replicaPredicates, hasOperation.
  rewrite And_law. simpl. rewrite Or_law, Not_law, Or_law. simpl. rewrite And_law. simpl.
  rewrite (GenerationChanged_other ev Hu), HasAnnotation_law, OnUpdate_law, Hu.
  unfold hasAnnotation. simpl. case_bool_decide; simpl; naive_solver.
Qed.

(** Which watch events of a (Cluster)Replica lead to a reconcile: an update
    does when the generation, the deletion timestamp, the labels or the
    annotations change, unless the object is annotated to be ignored or has
    just lost the reconcile annotation; every other event does unless the
    object is annotated to be ignored. *)
Theorem replica_events_filtered ev :
  replicaPredicates ev = true ↔
  ¬ hasOperation OperationAnnotationValueIgnore (subject ev) ∧
  match ev with
  | UpdateEvent old new =>
      relevantChange old new ∧
      ¬ (hasOperation OperationAnnotationValueReconcile old ∧
         ¬ hasOperation OperationAnnotationValueReconcile new)
  | _ => True
  end.
Proof.
  destruct ev as [o|old new|o|o]; [rewrite other_passes by done; simpl; tauto| |
    rewrite other_passes by done; simpl; tauto..].
  rewrite update_passes. simpl. tauto.
Qed.

(** The controller does not trigger itself: an update that changes only
    the status and the finalizers, and the removal of the reconcile
    annotation, are filtered. *)
Theorem own_updates_filtered rep status finalizers annotations :
  replicaPredicates (UpdateEvent rep (rep_set_Finalizers finalizers (rep_set_Status status rep))) = false ∧
  (hasOperation OperationAnnotationValueReconcile rep →
   annotations !! OperationAnnotation = None →
   replicaPredicates (UpdateEvent rep
     (MkReplica (rep_Type rep) (rep_Namespace rep) (rep_Name rep) (rep_Generation rep)
        (rep_DeletionTimestamp rep) (rep_Labels rep) (Some annotations) (rep_Finalizers rep)
        (rep_Spec rep) (rep_Status rep))) = false).
Proof.
  split; [|intros Hop Hann]; apply not_true_iff_false; rewrite update_passes.
  - unfold relevantChange. simpl. naive_solver.
  - intros (_ & _ & Hlost). apply Hlost. split; [done|]. unfold hasOperation. simpl. by rewrite Hann.
Qed.

End Laws.

Section NamespaceLaws.
Context `{P : Predicates Namespace} `{!CombinatorLaws Namespace}.

(** Namespaces that existed before the controller started do not cause
    creation events; but every update, deletion and generic event passes,
    whether the labels changed or not.  (The comments say that the controller
    reacts to creations and to label changes; the predicate for creations lets
    all other events pass, so the restriction to label changes has no effect.) *)
Theorem namespace_events_pass startTime ev :
  match ev with
  | CreateEvent ns => namespacePredicates startTime ev = Z.ltb startTime (ns_CreationTimestamp ns)
  | _ => namespacePredicates startTime ev = true
  end.
Proof.
  unfold namespacePredicates. destruct ev as [ns|old new|ns|ns]; rewrite Or_law; simpl.
  - rewrite FuncsWithCreate_create, And_law. simpl. rewrite OnUpdate_law. simpl. by rewrite orb_false_r.
  - by rewrite FuncsWithCreate_default.
  - by rewrite FuncsWithCreate_default.
  - by rewrite FuncsWithCreate_default.
Qed.

End NamespaceLaws.

(** ** From the notification to the reconcile *)

Section Notification.
Context {XL : ExtLaws X}.
Variable providerName : string.

Lemma notification_key obj :
  replicaKeyFromNamespacedName (req_NamespacedName (notificationRequest obj)) = replicaKeyFromObject obj.
Proof. done. Qed.

Lemma Reconcile_clears req si :
  mwp (λ _ _, True) (Reconcile providerName req) si [] (λ _ si' _,
    si' = ClearPending (req_NamespacedName req) si).
Proof.
  unfold Reconcile. rstep. rstep. rstep. rstep; [done|]. rstep; [by rstep|].
  rstep. eapply mwp_mono; [|apply reconcile_finishes].
  intros tr1 s1 fl [-> _]. destruct fl as [rr| |why]; [|done|done].
  rstep. rstep; [done|]. destruct r0 as [[rep after] err].
  destruct err; [by rstep|]. by rstep; rstep.
Qed.

(** C34: The way of a notification: the object at the head of the channel
    becomes the request of its own key; whatever becomes of the reconcile of
    this request, even a panic, afterwards the key is not pending any more,
    and the next request for the object is sent again unless the channel is
    full. *)
Theorem notification_reaches_reconcile obj ch pending queue tr si fl :
  let si0 := MkShared (obj :: ch) pending in
  notify si0 queue = Some (MkShared ch pending, queue ++ [notificationRequest obj]) ∧
  (exec (Reconcile providerName (notificationRequest obj) (MkShared ch pending)) tr (si, fl) →
   pendingReplicas si = pending ∖ {[replicaKeyFromObject obj]} ∧
   replicaNotificationChannel si = ch ∧
   (length ch < channelCapacity →
    replicaNotificationChannel (EnqueueReplica obj si) = ch ++ [obj])).
Proof.
  split; [done|]. intros Hex.
  destruct (mwp_exec _ _ _ _ _ _ _ (Reconcile_clears (notificationRequest obj) (MkShared ch pending)) Hex)
    as [-> _].
  split; [done|]. split; [done|]. intros Hlt. rewrite EnqueueReplica_unfold. simpl.
  rewrite notification_key, bool_decide_eq_false_2 by set_solver.
  by apply Nat.ltb_lt in Hlt as ->.
Qed.

End Notification.
End Setup.

(** ** Concrete predicates *)

(** The combinators over the metadata of an object. *)
Definition somePredicates {Obj} (generation : Obj → Z) (labels annotations : Obj → StringMap)
    (deletion : Obj → option Time) : Predicates Obj :=
  let changed {A} `{EqDecision A} (f : Obj → A) : Predicate Obj := λ ev,
    match ev with UpdateEvent old new => negb (bool_decide (f old = f new)) | _ => true end in
  {| And ps ev := forallb (λ p, p ev) ps;
     Or ps ev := existsb (λ p, p ev) ps;
     Not p ev := negb (p ev);
     FuncsWithCreate f ev := match ev with CreateEvent o => f o | _ => true end;
     GenerationChangedPredicate := changed generation;
     LabelChangedPredicate := changed labels;
     AnnotationChangedPredicate := changed annotations;
     DeletionTimestampChangedPredicate := changed deletion;
     OnUpdatePredicate := isUpdate;
     HasAnnotationPredicate k v ev := hasAnnotation (annotations (subject ev)) k v;
     LostAnnotationPredicate k v ev :=
       match ev with
       | UpdateEvent old new => hasAnnotation (annotations old) k v && negb (hasAnnotation (annotations new) k v)
       | _ => false
       end |}.

Definition onReplicas : Predicates Replica :=
  somePredicates rep_Generation rep_Labels rep_Annotations rep_DeletionTimestamp.
Definition onNamespaces : Predicates Namespace :=
  somePredicates (λ _, 0%Z) ns_Labels (λ _, None) ns_DeletionTimestamp.

Definition onReplicas_combinators : @CombinatorLaws Replica onReplicas.
Proof. split; try done. intros f [o|old new|o|o] H; [by destruct (H o)|done..]. Defined.
Definition onNamespaces_combinators : @CombinatorLaws Namespace onNamespaces.
Proof. split; try done. intros f [o|old new|o|o] H; [by destruct (H o)|done..]. Defined.
Definition onReplicas_laws : @ReplicaPredicateLaws onReplicas.
Proof. split; try done. by intros [o|old new|o|o]. Defined.

Definition watched (annotations : StringMap) (generation : Z) : Replica :=
  MkReplica TReplica "app" "r1" generation None None annotations [ReplicaFinalizer]
    (MkSpec [source "a" "cm"] None [] None) (MkStatus 1 "" [] []).

Definition reconcileAnnotation : gmap string string :=
  {[OperationAnnotation := OperationAnnotationValueReconcile]}.

Lemma replica_events_filtered_witness :
  @replicaPredicates _ onReplicas (UpdateEvent (watched None 1) (watched None 2)) = true ∧
  ¬ hasOperation OperationAnnotationValueIgnore (watched None 2).
Proof.
  assert (@replicaPredicates _ onReplicas (UpdateEvent (watched None 1) (watched None 2)) = true) as H
    by (vm_compute; reflexivity).
  split; [exact H|].
  destruct (@replica_events_filtered _ onReplicas onReplicas_combinators onReplicas_laws
              (UpdateEvent (watched None 1) (watched None 2))) as [Hf _].
  exact (proj1 (Hf H)).
Defined.

Lemma own_updates_filtered_witness :
  hasOperation OperationAnnotationValueReconcile (watched (Some reconcileAnnotation) 1) ∧
  @replicaPredicates _ onReplicas
    (UpdateEvent (watched (Some reconcileAnnotation) 1) (watched (Some ∅) 1)) = false.
Proof.
  assert (hasOperation OperationAnnotationValueReconcile (watched (Some reconcileAnnotation) 1)) as Hop
    by (vm_compute; reflexivity).
  split; [exact Hop|].
  destruct (@own_updates_filtered _ onReplicas onReplicas_combinators onReplicas_laws
              (watched (Some reconcileAnnotation) 1) (MkStatus 1 "" [] []) [] ∅) as [_ H].
  exact (H Hop eq_refl).
Defined.

Lemma namespace_events_pass_witness :
  let ns := MkNs "t1" (Some ∅) 5 None in
  @namespacePredicates onNamespaces 7 (CreateEvent ns) = false ∧
  @namespacePredicates onNamespaces 7 (UpdateEvent ns ns) = true.
Proof.
  intros ns. split.
  - exact (@namespace_events_pass onNamespaces onNamespaces_combinators 7 (CreateEvent ns)).
  - exact (@namespace_events_pass onNamespaces onNamespaces_combinators 7 (UpdateEvent ns ns)).
Defined.

Lemma notification_reaches_reconcile_witness :
  let obj := mkReplica TReplica "app" "r1" None [source "a" "cm"] None [hostTarget ["t1"] None None] [] in
  let r := run serve (Reconcile provider (notificationRequest obj) (MkShared [] {["app/r1"]})) w_create in
  pendingReplicas (outcome r).1 = {["app/r1"]} ∖ {["app/r1"]} ∧
  replicaNotificationChannel (EnqueueReplica obj (outcome r).1) = [obj].
Proof.
  intros obj r.
  pose proof (outcome_exec serve (Reconcile provider (notificationRequest obj)) (MkShared [] {["app/r1"]})
                w_create _ eq_refl) as Hex.
  destruct (notification_reaches_reconcile provider obj [] {["app/r1"]} [] (history r) (outcome r).1
              (outcome r).2) as [_ H].
  destruct (H Hex) as (Hp & _ & Hq). split; [exact Hp|]. apply Hq. apply Nat.ltb_lt. reflexivity.
Defined.
