(* ===== verification/ControllerSetup.v ===== *)
(** * The controllers and what they watch

    [NewReplicaController], [SetupWithMulticlusterManager] of
    [internal/replica/controller.go], and [New], [SetupWithMulticlusterManager]
    of [internal/namespace/controller.go]: the builder calls that tell the
    manager which events are requests of which controller.

    The builder belongs to [multicluster-runtime].  The setup functions are
    modelled by the calls they make; which requests an event leads to is an
    operation of the class [ControllerBuilder] with the builder's documented
    behaviour as its law. *)

From S2P Require Import Prelude GoLib ApiTypes External Effects Kube Shared Setup.
From S2P Require Import ReplicaReconcile FakeServer Scenarios.

(** ** The controllers *)

(** [ReplicaController]: the provider and the event recorder are handles of
    libraries; the store of the smart requeue is known by its smallest and
    largest interval and its factor. *)
Record ReplicaController := MkReplicaController {
  rc_providerName : string;
  rc_sr_MinInterval : Z;
  rc_sr_MaxInterval : Z;
  rc_sr_Factor : nat }.

Definition NewReplicaController (providerName : string) : ReplicaController :=
  MkReplicaController providerName (1 * Second)%Z (1 * Hour)%Z 2.

(** The [Reconciler] of a controller. *)
Inductive Reconciler :=
| ReplicaReconciler (c : ReplicaController)
| NamespaceReconciler.

(** ** Builder calls *)

(** The options of a watch. *)
Record WatchOptions (Obj : Type) := MkWatch {
  EngageWithLocalCluster : bool;
  EngageWithProviderClusters : bool;
  WatchPredicates : list (Predicate Obj) }.
#[global] Arguments MkWatch {Obj}.
#[global] Arguments EngageWithLocalCluster {Obj}.
#[global] Arguments EngageWithProviderClusters {Obj}.
#[global] Arguments WatchPredicates {Obj}.

Inductive BuilderCall :=
| ForReplica (w : WatchOptions Replica)
(** [Watches] with the handler [EnqueueRequestForObject] *)
| WatchesClusterReplica (w : WatchOptions Replica)
(** [WatchesRawSource] on the notification channel, with the [GenericFunc] of
    the handler *)
| WatchesNotifications (genericFunc : Replica → Request)
| ForNamespace (w : WatchOptions Namespace).

(** What is passed to [Complete] after the other calls. *)
Record ControllerSetup := MkSetup {
  cs_Calls : list BuilderCall;
  cs_Reconciler : Reconciler }.

Section Setup.
Context `{X : Ext} `{PR : Predicates Replica} `{PN : Predicates Namespace}.

Definition ReplicaController_SetupWithMulticlusterManager (c : ReplicaController) : ControllerSetup :=
  MkSetup
    [ForReplica (MkWatch true false [replicaPredicates]);
     WatchesClusterReplica (MkWatch true false [replicaPredicates]);
     WatchesNotifications notificationRequest]
    (ReplicaReconciler c).

(** [startTime] is the time of the call. *)
Definition NamespaceController_SetupWithMulticlusterManager (startTime : Time) : ControllerSetup :=
  MkSetup
    [ForNamespace (MkWatch true true [namespacePredicates startTime])]
    NamespaceReconciler.

End Setup.

(** ** What the builder promises *)

(** The cluster an event comes from. *)
Inductive Origin := LocalCluster | ProviderCluster (name : string).

Definition originName (o : Origin) : string :=
  match o with LocalCluster => "" | ProviderCluster name => name end.

Inductive Occurrence :=
| ReplicaEvent (ev : KubeEvent Replica)
| NamespaceEvent (ev : KubeEvent Namespace)
| Notification (obj : Replica).

Class ControllerBuilder := {
  requestsFor : ControllerSetup → Origin → Occurrence → list Request }.

Definition engages {Obj} (w : WatchOptions Obj) (o : Origin) : bool :=
  match o with
  | LocalCluster => EngageWithLocalCluster w
  | ProviderCluster _ => EngageWithProviderClusters w
  end.

(** An event passes a watch that engages with its cluster and all of whose
    predicates let it pass. *)
Definition passes {Obj} (w : WatchOptions Obj) (o : Origin) (ev : KubeEvent Obj) : bool :=
  engages w o && forallb (λ p, p ev) (WatchPredicates w).

Definition namespaceRequest (o : Origin) (ns : Namespace) : Request :=
  MkRequest (originName o) "" (ns_Name ns).

Definition replicaRequest (o : Origin) (rep : Replica) : Request :=
  MkRequest (originName o) (rep_Namespace rep) (rep_Name rep).

(** The request that a call of the builder makes of an occurrence. *)
Definition requestOf (call : BuilderCall) (o : Origin) (x : Occurrence) : option Request :=
  match call, x with
  | ForReplica w, ReplicaEvent ev =>
      if bool_decide (rep_Type (subject ev) = TReplica) && passes w o ev
      then Some (replicaRequest o (subject ev)) else None
  | WatchesClusterReplica w, ReplicaEvent ev =>
      if bool_decide (rep_Type (subject ev) = TClusterReplica) && passes w o ev
      then Some (replicaRequest o (subject ev)) else None
  | WatchesNotifications genericFunc, Notification obj => Some (genericFunc obj)
  | ForNamespace w, NamespaceEvent ev =>
      if passes w o ev then Some (namespaceRequest o (subject ev)) else None
  | _, _ => None
  end.

Class ControllerBuilderLaws (B : ControllerBuilder) := {
  requestsFor_law cs o x req :
    req ∈ requestsFor cs o x ↔ ∃ call, call ∈ cs_Calls cs ∧ requestOf call o x = Some req }.

(** ** Which occurrences reach which controller *)

Section Delivery.
Context `{X : Ext} `{PR : Predicates Replica} `{PN : Predicates Namespace}.
Context `{!CombinatorLaws Replica} `{!ReplicaPredicateLaws} `{!CombinatorLaws Namespace}.
Context `{BL : ControllerBuilderLaws}.

Lemma requestsFor_replica c o x req :
  req ∈ requestsFor (ReplicaController_SetupWithMulticlusterManager c) o x ↔
  match x with
  | ReplicaEvent ev =>
      o = LocalCluster ∧ replicaPredicates ev = true ∧ req = replicaRequest LocalCluster (subject ev)
  | Notification obj => req = notificationRequest obj
  | NamespaceEvent _ => False
  end.
Proof.
  rewrite requestsFor_law. unfold ReplicaController_SetupWithMulticlusterManager. simpl.
  setoid_rewrite elem_of_cons. setoid_rewrite elem_of_cons. setoid_rewrite elem_of_cons.
  setoid_rewrite elem_of_nil. destruct x as [ev|ev|obj].
  - split.
    + intros (call & [->|[->|[->|[]]]] & Hreq); simpl in Hreq; unfold passes in Hreq; [| |done].
      all: case_bool_decide; destruct o; simpl in Hreq; try done.
      all: destruct (replicaPredicates ev); simpl in Hreq; [|done]; by injection Hreq as <-.
    + intros (-> & Hp & ->). destruct (rep_Type (subject ev)) eqn:Ht.
      * eexists. split; [left; reflexivity|]. simpl. unfold passes. simpl. by rewrite Ht, Hp.
      * eexists. split; [right; left; reflexivity|]. simpl. unfold passes. simpl. by rewrite Ht, Hp.
  - split; [|done]. by intros (call & [->|[->|[->|[]]]] & Hreq).
  - split.
    + intros (call & [->|[->|[->|[]]]] & Hreq); simpl in Hreq; [done..|]. by injection Hreq as <-.
    + intros ->. eexists. split; [right; right; left; reflexivity|done].
Qed.

Lemma requestsFor_namespace startTime o x req :
  req ∈ requestsFor (NamespaceController_SetupWithMulticlusterManager startTime) o x ↔
  match x with
  | NamespaceEvent ev => namespacePredicates startTime ev = true ∧ req = namespaceRequest o (subject ev)
  | _ => False
  end.
Proof.
  rewrite requestsFor_law. unfold NamespaceController_SetupWithMulticlusterManager. simpl.
  setoid_rewrite elem_of_cons. setoid_rewrite elem_of_nil. destruct x as [ev|ev|obj].
  - split; [|done]. by intros (call & [->|[]] & Hreq).
  - split.
    + intros (call & [->|[]] & Hreq). simpl in Hreq. unfold passes in Hreq.
      destruct o; simpl in Hreq; destruct (namespacePredicates startTime ev); simpl in Hreq; try done; by injection Hreq as <-.
    + intros (Hp & ->). eexists. split; [left; reflexivity|]. simpl. unfold passes. simpl.
      rewrite Hp. by destruct o.
  - split; [|done]. by intros (call & [->|[]] & Hreq).
Qed.

(** C35: Which occurrences become requests of which controller.  The replica
    controller gets a request for the events of (Cluster)Replicas of the
    hosting cluster only: for an update when the generation, the deletion
    timestamp, the labels or the annotations have changed, unless the object
    is annotated to be ignored or has just lost the reconcile annotation; for
    any other event unless the object is annotated to be ignored; and for every
    notification.  The namespace controller gets a request, with the name of
    the cluster, for the creation events of namespaces of every cluster that
    were created after the start, and for all their update, deletion and
    generic events, whatever they change (the comment on the controller speaks
    of changed labels only). *)
Theorem occurrences_become_requests c startTime o x req :
  (req ∈ requestsFor (ReplicaController_SetupWithMulticlusterManager c) o x ↔
   match x with
   | ReplicaEvent ev =>
       o = LocalCluster ∧ req = replicaRequest LocalCluster (subject ev) ∧
       ¬ hasOperation OperationAnnotationValueIgnore (subject ev) ∧
       match ev with
       | UpdateEvent old new =>
           relevantChange old new ∧
           ¬ (hasOperation OperationAnnotationValueReconcile old ∧
              ¬ hasOperation OperationAnnotationValueReconcile new)
       | _ => True
       end
   | Notification obj => req = notificationRequest obj
   | NamespaceEvent _ => False
   end) ∧
  (req ∈ requestsFor (NamespaceController_SetupWithMulticlusterManager startTime) o x ↔
   match x with
   | NamespaceEvent ev =>
       req = namespaceRequest o (subject ev) ∧
       match ev with CreateEvent ns => (startTime < ns_CreationTimestamp ns)%Z | _ => True end
   | _ => False
   end).
Proof.
  rewrite requestsFor_replica, requestsFor_namespace. split.
  - destruct x as [ev|ev|obj]; [|done..]. rewrite replica_events_filtered. tauto.
  - destruct x as [ev|ev|obj]; [done| |done].
    pose proof (namespace_events_pass startTime ev) as Hev.
    destruct ev; rewrite Hev; [rewrite Z.ltb_lt|..]; tauto.
Qed.

End Delivery.

(** ** A concrete builder *)

Definition someBuilder : ControllerBuilder := {|
  requestsFor := λ cs o x, omap (λ call, requestOf call o x) (cs_Calls cs) |}.

Definition someBuilder_laws : ControllerBuilderLaws someBuilder.
Proof. split. intros cs o x req. apply list_elem_of_omap. Defined.

Lemma occurrences_become_requests_witness :
  let setup := @ReplicaController_SetupWithMulticlusterManager _ onReplicas (NewReplicaController provider) in
  let update := ReplicaEvent (UpdateEvent (watched None 1) (watched None 2)) in
  @requestsFor someBuilder setup LocalCluster update = [MkRequest "" "app" "r1"] ∧
  MkRequest "" "app" "r1" ∉ @requestsFor someBuilder setup (ProviderCluster "c1") update.
Proof.
  intros setup update. split; [vm_compute; reflexivity|]. intros Hin.
  pose proof (proj1 (@occurrences_become_requests _ onReplicas onNamespaces onReplicas_combinators
    onReplicas_laws onNamespaces_combinators someBuilder someBuilder_laws (NewReplicaController provider) 0
    (ProviderCluster "c1") update (MkRequest "" "app" "r1"))) as H.
  destruct (proj1 H Hin) as [Hl _]. discriminate Hl.
Defined.
