(* ===== verification/Command.v ===== *)
(** * The command line

    [cmd/platform-service-resource-replicator]: the commands and their flags,
    the options of the commands [init] and [run] with their defaults, and what
    the commands do.  The calls into the libraries (clients, managers,
    marshalling, the console) are requests.  Parsing the flags and dispatching
    to a command is done by [cobra]: it gets the tree of commands, and its
    answer tells which command runs with which values of the flags. *)

From S2P Require Import Prelude GoLib ApiTypes External Effects Install Setup ControllerSetup.

(** ** Options *)

Record SharedOptions := MkSharedOptions {
  Environment : string;
  DryRun : bool;
  ProviderName : string }.

(** [tls.Config], as far as the options change it. *)
Record TLSConfig := MkTLS { NextProtos : list string }.

Record MetricsServerOptions := MkMetrics {
  BindAddress : string;
  SecureServing : bool;
  ms_TLSOpts : list (TLSConfig → TLSConfig);
  (** whether [filters.WithAuthenticationAndAuthorization] is set *)
  ms_FilterProvider : bool }.

Record RawRunOptions := MkRawRun {
  MetricsAddr : string;
  EnableLeaderElection : bool;
  ProbeAddr : string;
  PprofAddr : string;
  SecureMetrics : bool;
  EnableHTTP2 : bool }.

Record RunOptions := MkRunOptions {
  o_Shared : SharedOptions;
  o_Raw : RawRunOptions;
  TLSOpts : list (TLSConfig → TLSConfig);
  WebhookTLSOpts : list (TLSConfig → TLSConfig);
  o_MetricsServer : MetricsServerOptions }.

(** The values of the option structs before any flag is defined. *)
Definition zeroShared : SharedOptions := MkSharedOptions "" false "".
Definition zeroRawRun : RawRunOptions := MkRawRun "" false "" "" false false.

(** ** Flags and commands *)

(** The calls [BoolVar] and [StringVar] of a flag set, with the assignment to
    the variable whose address they get, and the flags that libraries define. *)
Inductive FlagVar (O : Type) :=
| BoolVar (assign : bool → O → O) (name : string) (value : bool)
| StringVar (assign : string → O → O) (name : string) (value : string)
| LibraryFlags (library : string).
#[global] Arguments BoolVar {O}.
#[global] Arguments StringVar {O}.
#[global] Arguments LibraryFlags {O}.

Definition AddPersistentFlags : list (FlagVar SharedOptions) :=
  [LibraryFlags "logging";
   BoolVar (λ v o, MkSharedOptions (Environment o) v (ProviderName o)) "dry-run" false;
   StringVar (λ v o, MkSharedOptions v (DryRun o) (ProviderName o)) "environment" "";
   StringVar (λ v o, MkSharedOptions (Environment o) (DryRun o) v) "provider-name" "";
   LibraryFlags "platform"].

Definition AddFlags : list (FlagVar RawRunOptions) :=
  [StringVar (λ v o, MkRawRun v (EnableLeaderElection o) (ProbeAddr o) (PprofAddr o) (SecureMetrics o) (EnableHTTP2 o))
     "metrics-bind-address" "0";
   StringVar (λ v o, MkRawRun (MetricsAddr o) (EnableLeaderElection o) v (PprofAddr o) (SecureMetrics o) (EnableHTTP2 o))
     "health-probe-bind-address" ":8081";
   StringVar (λ v o, MkRawRun (MetricsAddr o) (EnableLeaderElection o) (ProbeAddr o) v (SecureMetrics o) (EnableHTTP2 o))
     "pprof-bind-address" "";
   BoolVar (λ v o, MkRawRun (MetricsAddr o) v (ProbeAddr o) (PprofAddr o) (SecureMetrics o) (EnableHTTP2 o))
     "leader-elect" false;
   BoolVar (λ v o, MkRawRun (MetricsAddr o) (EnableLeaderElection o) (ProbeAddr o) (PprofAddr o) v (EnableHTTP2 o))
     "metrics-secure" true;
   BoolVar (λ v o, MkRawRun (MetricsAddr o) (EnableLeaderElection o) (ProbeAddr o) (PprofAddr o) (SecureMetrics o) v)
     "enable-http2" false].

(** Defining a flag stores its default in its variable. *)
Definition storeDefault {O} (o : O) (f : FlagVar O) : O :=
  match f with
  | BoolVar assign _ value => assign value o
  | StringVar assign _ value => assign value o
  | LibraryFlags _ => o
  end.
Definition defaults {O} (fs : list (FlagVar O)) (o : O) : O := foldl storeDefault o fs.

(** The [Run] functions of the commands. *)
Inductive CommandRun := RunOfInit | RunOfRun.

(** [cobra.Command] *)
Inductive CobraCommand := Cobra
  (use short : string) (persistent : list (FlagVar SharedOptions)) (flags : list (FlagVar RawRunOptions))
  (run : option CommandRun) (commands : list CobraCommand).

(** The init command has no flags of its own. *)
Definition InitOptions_AddFlags : list (FlagVar RawRunOptions) := [].

Definition NewInitCommand : CobraCommand :=
  Cobra "init" "Initialize the platform-service-resource-replicator" [] InitOptions_AddFlags
    (Some RunOfInit) [].

Definition NewRunCommand : CobraCommand :=
  Cobra "run" "Run the platform-service-resource-replicator" [] AddFlags (Some RunOfRun) [].

Definition NewResourceReplicatorCommand : CobraCommand :=
  Cobra "platform-service-resource-replicator"
    "Commands for interacting with the platform-service-resource-replicator"
    AddPersistentFlags [] None [NewInitCommand; NewRunCommand].

(** What the arguments of the process ask for: a command with the values of
    its options, or nothing but the usage. *)
Inductive Parsed :=
| ParsedInit (so : SharedOptions)
| ParsedRun (so : SharedOptions) (raw : RawRunOptions)
| ParsedUsage.

(** [NewRunCommand]: the options before [Complete]. *)
Definition NewRunOptions (so : SharedOptions) (raw : RawRunOptions) : RunOptions :=
  MkRunOptions so raw [] [] (MkMetrics "" false [] false).

(** [mcmanager.Options], with the options of the webhook server. *)
Record ManagerOptions := MkManager {
  mg_Metrics : MetricsServerOptions;
  mg_WebhookTLSOpts : list (TLSConfig → TLSConfig);
  mg_HealthProbeBindAddress : string;
  mg_PprofBindAddress : string;
  mg_LeaderElection : bool;
  mg_LeaderElectionID : string;
  mg_LeaderElectionReleaseOnCancel : bool }.

(** [rbacv1.PolicyRule]; a [TokenConfig] is known by the rules of its
    permission requests. *)
Record PolicyRule := MkRule { APIGroups : list string; Resources : list string; Verbs : list string }.
Abbreviation TokenConfig := (list (list PolicyRule)).

(** [crdutil.CRDManager]: the label of the definitions that names their
    cluster, the definitions, the clusters by the values of the label. *)
Record CRDManager `{AM : ApiMachinery} := MkCRDManager {
  crdm_Label : string;
  crdm_CRDs : string + list CRD;
  crdm_Mapping : list (string * string) }.

Section Commands.
Context `{X : Ext} `{PR : Predicates Replica} `{PN : Predicates Namespace} {AM : ApiMachinery}.
Local Open Scope prog_scope.

(** ** Requests *)

(** The value [yaml.Marshal] is called on. *)
Inductive Printable :=
| RawShared (o : SharedOptions)
| RawRun (o : RawRunOptions)
| CompletedShared (endpoint : string)
| CompletedRun.

Inductive CmdReq :=
| Execute (cmd : CobraCommand)
| OsExit (code : nat)
| FmtPrint (text : string)
| InitializeRESTConfig
| InitializeClient (scheme : Scheme)
| GetLogger
| SetLogger
| APIServerEndpoint
| MarshalYAML (p : Printable)
| CmdPrint (text : string)
| CreateOrUpdateCRDs (m : CRDManager)
| NewWithClusterController (providerName : string) (tokenConfig : TokenConfig)
| NewManager (o : ManagerOptions)
| SetupClusterController
| SetupProvider
| Now
| CompleteController (cs : ControllerSetup)
| AddHealthzCheck
| AddReadyzCheck
| StartManager.

Definition CmdResp (e : CmdReq) : Type :=
  match e with
  | Execute _ => string + Parsed
  | APIServerEndpoint => string
  | MarshalYAML _ => string + string
  | Now => Time
  | OsExit _ | FmtPrint _ | SetLogger | CmdPrint _ | NewWithClusterController _ _ => unit
  | _ => option string
  end.

Abbreviation CM := (M CmdResp).
Abbreviation CmdHistory := (list (Event CmdResp)).

(** [if err := call; err != nil { return fmt.Errorf(msg + ": %w", err) }] *)
Definition try {S} (e : CmdReq) (errOf : CmdResp e → option string) (message : string)
    (next : CM S (option string)) : CM S (option string) :=
  let! r := call e in
  match errOf r with
  | Some err => ret (Some (sprint [message; err]))
  | None => next
  end.

Section Shared.
Context {S : Type}.

Definition print (text : string) : CM S unit := let! _ := call (CmdPrint text) in ret tt.

Definition Println (text : string) : CM S unit := print (text +:+ String "010" "").

(** ** SharedOptions *)

Definition SharedOptions_Complete : CM S (option string) :=
  try InitializeRESTConfig id "unable to initialize platform cluster rest config: "
    (match platformScheme with
     | Panicked why => panic why
     | Returned scheme =>
         try (InitializeClient scheme) id "unable to initialize platform cluster client: "
           (try GetLogger id "" (let! _ := call SetLogger in ret None))
     end).

Definition printYAML (p : Printable) (what : string) : CM S unit :=
  let! data := call (MarshalYAML p) in
  match data with
  | inl err => Println (sprint ["error marshalling "; what; ": "; err])
  | inr data => print data
  end.

Definition SharedOptions_PrintRaw (o : SharedOptions) : CM S unit :=
  printYAML (RawShared o) "raw shared options".

Definition SharedOptions_PrintCompleted : CM S unit :=
  let! endpoint := call APIServerEndpoint in
  printYAML (CompletedShared endpoint) "completed shared options".

(** ** init *)

Definition InitOptions_PrintCompletedOptions : CM S unit :=
  Println "########## COMPLETED OPTIONS START ##########" ;;;
  SharedOptions_PrintCompleted ;;;
  Println "########## COMPLETED OPTIONS END ##########".

Definition crdManager : CRDManager := MkCRDManager _ ClusterLabel CRDs [("platform", "platform")].

Definition InitOptions_Run : CM S (option string) :=
  try (CreateOrUpdateCRDs crdManager) id "error creating/updating CRDs: " (ret None).

Definition InitOptions_Complete : CM S (option string) :=
  let! err := SharedOptions_Complete in
  match err with Some err => ret (Some err) | None => ret None end.

(** The [Run] function of [NewInitCommand]. *)
Definition initCommand (so : SharedOptions) : CM S unit :=
  let! err := InitOptions_Complete in
  match err with
  | Some err => panic (sprint ["error completing options: "; err])
  | None =>
      InitOptions_PrintCompletedOptions ;;;
      if DryRun so then Println "=== END OF DRY RUN ==="
      else
        let! err := InitOptions_Run in
        match err with Some err => panic err | None => ret tt end
  end.

End Shared.

(** ** run: the options are the state *)

Definition disableHTTP2 (c : TLSConfig) : TLSConfig := MkTLS ["http/1.1"].

Definition RunOptions_PrintRawOptions : CM RunOptions unit :=
  let! o := get in
  Println "########## RAW OPTIONS START ##########" ;;;
  SharedOptions_PrintRaw (o_Shared o) ;;;
  printYAML (RawRun (o_Raw o)) "raw options" ;;;
  Println "########## RAW OPTIONS END ##########".

(** The fields that [Complete] fills in. *)
Definition completed (o : RunOptions) : RunOptions :=
  let tls := if EnableHTTP2 (o_Raw o) then TLSOpts o else TLSOpts o ++ [disableHTTP2] in
  let metrics := MkMetrics (MetricsAddr (o_Raw o)) (SecureMetrics (o_Raw o)) tls false in
  let metrics :=
    if SecureMetrics (o_Raw o)
    then MkMetrics (BindAddress metrics) (SecureServing metrics) (ms_TLSOpts metrics) true
    else metrics in
  MkRunOptions (o_Shared o) (o_Raw o) tls tls metrics.

Definition RunOptions_Complete : CM RunOptions (option string) :=
  let! err := SharedOptions_Complete in
  match err with
  | Some err => ret (Some err)
  | None => let! _ := call SetLogger in modify completed ;;; ret None
  end.

Definition RunOptions_PrintCompletedOptions : CM RunOptions unit :=
  Println "########## COMPLETED OPTIONS START ##########" ;;;
  SharedOptions_PrintCompleted ;;;
  printYAML CompletedRun "completed options" ;;;
  Println "########## COMPLETED OPTIONS END ##########".

Definition managerOptions (o : RunOptions) : ManagerOptions :=
  MkManager (o_MetricsServer o) (WebhookTLSOpts o) (ProbeAddr (o_Raw o)) (PprofAddr (o_Raw o))
    (EnableLeaderElection (o_Raw o)) "github.com/openmcp-project/platform-service-resource-replicator" true.

(** The permissions the provider asks for. *)
Definition adminPermissions : TokenConfig := [[MkRule ["*"] ["*"] ["*"]]].

(** The error of a request that can fail. *)
Definition errorOf (e : CmdReq) : CmdResp e → option string :=
  match e with
  | InitializeRESTConfig | InitializeClient _ | GetLogger | CreateOrUpdateCRDs _ | NewManager _
  | SetupClusterController | SetupProvider | CompleteController _
  | AddHealthzCheck | AddReadyzCheck | StartManager => λ r, r
  | _ => λ _, None
  end.

(** [try] with the error of the request. *)
Definition tryStep {S} (e : CmdReq) : string → CM S (option string) → CM S (option string) :=
  try e (errorOf e).

(** [New(prov).SetupWithMulticlusterManager(mgr)] of the namespace controller *)
Definition setupNamespaceController {S} (message : string) (next : CM S (option string))
    : CM S (option string) :=
  let! startTime := call Now in
  tryStep (CompleteController (NamespaceController_SetupWithMulticlusterManager startTime)) message next.

Definition RunOptions_Run : CM RunOptions (option string) :=
  let! o := get in
  let! _ := call (NewWithClusterController (ProviderName (o_Shared o)) adminPermissions) in
  tryStep (NewManager (managerOptions o)) "unable to create manager: " (
  tryStep SetupClusterController "unable to setup multicluster Cluster controller with manager: " (
  tryStep SetupProvider "unable to setup multicluster provider with manager: " (
  tryStep
    (CompleteController
       (ReplicaController_SetupWithMulticlusterManager (NewReplicaController (ProviderName (o_Shared o)))))
    "unable to setup multicluster Replica controller with manager: " (
  setupNamespaceController "unable to setup multicluster Namespace controller with manager: " (
  tryStep AddHealthzCheck "unable to set up health check: " (
  tryStep AddReadyzCheck "unable to set up ready check: " (
  tryStep StartManager "problem running manager: " (ret None)))))))).

(** The [Run] function of [NewRunCommand]. *)
Definition runCommand : CM RunOptions unit :=
  RunOptions_PrintRawOptions ;;;
  let! err := RunOptions_Complete in
  match err with
  | Some err => panic (sprint ["error completing options: "; err])
  | None =>
      RunOptions_PrintCompletedOptions ;;;
      let! o := get in
      if DryRun (o_Shared o) then Println "=== END OF DRY RUN ==="
      else
        let! err := RunOptions_Run in
        match err with Some err => panic err | None => ret tt end
  end.

(** [m] with options of its own. *)
Definition withOptions {S S' A} (s' : S') (m : CM S' A) : CM S A :=
  let! r := local m s' in
  match r.2 with Next a => ret a | Stop => stop | Panic why => panic why end.

(** [main].  The [Run] functions of the commands return nothing, so [Execute]
    fails before one of them runs or not at all. *)
Definition main : CM unit unit :=
  let! executed := call (Execute NewResourceReplicatorCommand) in
  match executed with
  | inl err => let! _ := call (FmtPrint err) in let! _ := call (OsExit 1) in ret tt
  | inr (ParsedInit so) => initCommand so
  | inr (ParsedRun so raw) => withOptions (NewRunOptions so raw) runCommand
  | inr ParsedUsage => ret tt
  end.

End Commands.

Abbreviation CM := (M CmdResp).
Abbreviation CmdHistory := (list (Event CmdResp)).
