(* ===== verification/CommandProperties.v ===== *)
(** * Properties of the command line

    In which order the commands talk to the outside, what they have done when
    they return, what the dry-run flag suppresses, how the servers are secured,
    and which scheme the clients get. *)

From S2P Require Import Prelude GoLib ApiTypes External Effects Install Setup ControllerSetup Command.
From S2P Require Import FakeServer.

(** Requests that leave no trace outside the process but text. *)
Definition harmless `{AM : ApiMachinery} (e : CmdReq) : bool :=
  match e with
  | Execute _ | FmtPrint _ | InitializeRESTConfig | InitializeClient _ | GetLogger | SetLogger
  | APIServerEndpoint | MarshalYAML _ | CmdPrint _ | Now => true
  | _ => false
  end.

Definition allHarmless `{AM : ApiMachinery} (tr : CmdHistory) : Prop :=
  Forall (λ ev, harmless (ev_req ev) = true) tr.

(** A request was answered without an error. *)
Definition succeeded `{AM : ApiMachinery} (ev : Event CmdResp) : Prop :=
  errorOf (ev_req ev) (ev_resp ev) = None.

Section Properties.
Context `{X : Ext} `{PR : Predicates Replica} `{PN : Predicates Namespace} {AM : ApiMachinery}.

(** Harmless requests; clients only get the scheme of the program. *)
Definition quiet (e : CmdReq) : Prop :=
  harmless e = true ∧ ∀ scheme, e = InitializeClient scheme → platformScheme = Returned scheme.

#[local] Abbreviation quietly := (λ (_ : CmdHistory) (e : CmdReq), quiet e).

Lemma allHarmless_snoc tr ev : allHarmless tr → harmless (ev_req ev) = true → allHarmless (tr ++ [ev]).
Proof. intros. apply Forall_app. split; [done|]. by apply Forall_singleton. Qed.

(** ** Preparations *)

Section Preparation.
Context {S : Type}.

Lemma print_spec text (s : S) tr Q :
  (∀ ev, harmless (ev_req ev) = true → Q (tr ++ [ev]) s (Next tt)) →
  mwp quietly (print text) s tr Q.
Proof. intros H. unfold print. mwp_step. mwp_step; [done|]. mwp_step. by apply H. Qed.

(** A step that only adds harmless requests to the history; it may panic. *)
Definition prepares {A} (m : CM S A) (R : S → S → A → Prop) : Prop :=
  ∀ s tr, allHarmless tr →
    mwp quietly m s tr (λ tr' s' fl,
      (∃ a, fl = Next a ∧ R s s' a ∧ allHarmless tr') ∨ ∃ why, fl = Panic why).

Lemma print_prepares text : prepares (print text) (λ s s' _, s' = s).
Proof.
  intros s tr Htr. apply print_spec. intros ev Hev. left. exists tt. split; [done|]. split; [done|].
  by apply allHarmless_snoc.
Qed.

Lemma prepares_then {B} (m : CM S unit) (k : CM S B) R :
  prepares m (λ s s' _, s' = s) → prepares k R → prepares (m ;;; k)%prog R.
Proof.
  intros Hm Hk s tr Htr. mwp_step. eapply mwp_mono; [|by apply Hm].
  intros tr1 s1 fl [([] & -> & -> & Htr1)|[why ->]]; [by apply Hk|]. right. by exists why.
Qed.

Lemma printYAML_prepares p what : prepares (printYAML p what) (λ s s' _, s' = s).
Proof.
  intros s tr Htr. unfold printYAML, Println. mwp_step. mwp_step; [done|].
  mwp_step; by apply print_prepares, allHarmless_snoc.
Qed.

Lemma SharedOptions_PrintCompleted_prepares :
  prepares SharedOptions_PrintCompleted (λ s s' _, s' = s).
Proof.
  intros s tr Htr. unfold SharedOptions_PrintCompleted. mwp_step. mwp_step; [done|].
  by apply printYAML_prepares, allHarmless_snoc.
Qed.

Lemma try_prepares (e : CmdReq) errOf message (next : CM S (option string)) :
  quiet e → prepares next (λ s s' _, s' = s) → prepares (try e errOf message next) (λ s s' _, s' = s).
Proof.
  intros He Hnext s tr Htr. unfold try. mwp_step. mwp_step; [done|].
  destruct He as [He _]. mwp_step.
  - mwp_step. left. eexists. split; [done|]. split; [done|]. by apply allHarmless_snoc.
  - by apply Hnext, allHarmless_snoc.
Qed.

Lemma SetLogger_prepares {A} (m : CM S A) R :
  prepares m R → prepares (let! _ := call SetLogger in m)%prog R.
Proof. intros Hm s tr Htr. mwp_step. mwp_step; [done|]. by apply Hm, allHarmless_snoc. Qed.

Lemma ret_prepares {A} (a : A) : prepares (ret a) (λ s s' a', s' = s ∧ a' = a).
Proof. intros s tr Htr. mwp_step. left. by exists a. Qed.

Lemma prepares_mono {A} (m : CM S A) (R R' : S → S → A → Prop) :
  (∀ s s' a, R s s' a → R' s s' a) → prepares m R → prepares m R'.
Proof.
  intros HR Hm s tr Htr. eapply mwp_mono; [|by apply Hm].
  intros tr' s' fl [(a & -> & H & Htr')|?]; [left|by right]. eauto.
Qed.

Lemma SharedOptions_Complete_prepares : prepares SharedOptions_Complete (λ s s' _, s' = s).
Proof.
  unfold SharedOptions_Complete. apply try_prepares; [done|].
  destruct platformScheme as [scheme|why] eqn:Hs.
  - apply try_prepares; [split; [done|by intros ? [= <-]]|]. apply try_prepares; [done|].
    apply SetLogger_prepares. eapply prepares_mono, ret_prepares. naive_solver.
  - intros s tr Htr. mwp_step. right. by exists why.
Qed.

End Preparation.

(** ** The order of the setup *)

(** The order in which the run command sets things up. *)
Definition runSequence (o : RunOptions) (startTime : Time) : list CmdReq :=
  [NewWithClusterController (ProviderName (o_Shared o)) adminPermissions;
   NewManager (managerOptions o);
   SetupClusterController;
   SetupProvider;
   CompleteController
     (ReplicaController_SetupWithMulticlusterManager (NewReplicaController (ProviderName (o_Shared o))));
   Now;
   CompleteController (NamespaceController_SetupWithMulticlusterManager startTime);
   AddHealthzCheck;
   AddReadyzCheck;
   StartManager].

(** The times that [time.Now()] has returned. *)
Definition nowIs (t : Time) (tr : CmdHistory) : Prop := Forall (λ ev, ∀ r, ev = Ev Now r → r = t) tr.

Definition timeOf (ev : Event CmdResp) : option Time :=
  match ev with Ev e r => match e return CmdResp e → option Time with Now => Some | _ => λ _, None end r end.

Lemma Ev_Now_inj t t' : @Ev _ CmdResp Now t = Ev Now t' → t = t'.
Proof. intros H%(f_equal timeOf). by injection H. Qed.

(** The next request of the sequence, after the successful ones before it. *)
Definition nextInOrder (o : RunOptions) (tr : CmdHistory) (e : CmdReq) : Prop :=
  ∃ startTime pre post, tr = pre ++ post ∧ allHarmless pre ∧ Forall succeeded post ∧
    nowIs startTime post ∧ (ev_req <$> post) ++ [e] `prefix_of` runSequence o startTime.

(** Where the setup has got to: the first [n] steps have succeeded, for every
    start time in [T]. *)
Definition progress (o : RunOptions) (T : Time → Prop) (tr : CmdHistory) (n : nat) : Prop :=
  ∃ pre post, tr = pre ++ post ∧ allHarmless pre ∧ Forall succeeded post ∧
    ∀ t, T t → nowIs t post ∧ ev_req <$> post = take n (runSequence o t).

#[local] Abbreviation noClaim := (λ (_ : CmdHistory) (_ : RunOptions) (_ : Flow _), True).

Lemma progress_permits o (T : Time → Prop) tr n e t :
  progress o T tr n → T t → runSequence o t !! n = Some e → nextInOrder o tr e.
Proof.
  intros (pre & post & -> & Hpre & Hpost & H) Ht Hn. destruct (H t Ht) as [Hnow Hseq].
  exists t, pre, post. split_and!; [done..|]. rewrite Hseq, <- (take_S_r _ _ _ Hn). apply prefix_take.
Qed.

Lemma progress_step o (T T' : Time → Prop) tr n ev :
  progress o T tr n → succeeded ev →
  (∀ t, T' t → T t ∧ runSequence o t !! n = Some (ev_req ev) ∧ ∀ r, ev = Ev Now r → r = t) →
  progress o T' (tr ++ [ev]) (S n).
Proof.
  intros (pre & post & -> & Hpre & Hpost & H) Hev HT. exists pre, (post ++ [ev]).
  split_and!; [by rewrite app_assoc|done|apply Forall_app; split; [done|by apply Forall_singleton]|].
  intros t Ht. destruct (HT t Ht) as (HTt & Hn & Hnow'), (H t HTt) as [Hnow Hseq]. split.
  - apply Forall_app. split; [done|]. by apply Forall_singleton.
  - by rewrite fmap_app, Hseq, (take_S_r _ _ _ Hn).
Qed.

Lemma tryStep_in_order n o (T : Time → Prop) t e message next o1 tr :
  progress o T tr n → T t → (∀ t', T t' → runSequence o t' !! n = Some e) → e ≠ Now →
  (∀ tr', progress o T tr' (S n) → mwp (nextInOrder o) next o1 tr' noClaim) →
  mwp (nextInOrder o) (tryStep e message next) o1 tr noClaim.
Proof.
  intros Hp Ht Hr Hne Hnext. unfold tryStep, try. mwp_step. mwp_step.
  { eapply progress_permits; [done|done|by apply Hr]. }
  mwp_step; [by mwp_step|]. apply Hnext. eapply progress_step; [done|done|].
  intros t' Ht'. split; [done|]. split; [by apply Hr|]. intros r0 Heq.
  by apply (f_equal ev_req) in Heq.
Qed.

Lemma RunOptions_Run_in_order o pre :
  allHarmless pre → mwp (nextInOrder o) RunOptions_Run o pre noClaim.
Proof.
  intros Hpre. unfold RunOptions_Run, setupNamespaceController. mwp_step. mwp_step. mwp_step.
  assert (progress o (λ _, True) pre 0) as Hp.
  { exists pre, []. rewrite app_nil_r. split_and!; [done|done|done|]. intros t _. by split; [constructor|]. }
  mwp_step; [by apply (progress_permits o _ _ _ _ 0%Z Hp)|].
  apply (progress_step o _ (λ _, True) _ _ (Ev _ r)) in Hp; [|done|done].
  do 4 (eapply (tryStep_in_order _ o (λ _, True) 0%Z); [exact Hp|done|done|done|clear Hp; intros ? Hp]).
  mwp_step. mwp_step; [by apply (progress_permits o _ _ _ _ 0%Z Hp)|].
  apply (progress_step o _ (eq r0) _ _ (Ev Now r0)) in Hp;
    [|done|intros t <-; split_and!; [done|done|by intros t ->%Ev_Now_inj]].
  do 4 (eapply (tryStep_in_order _ o (eq r0) r0); [exact Hp|done|by intros ? <-|done|clear Hp; intros ? Hp]).
  by mwp_step.
Qed.

(** ** The run command *)

Definition runPolicy (o : RunOptions) (tr : CmdHistory) (e : CmdReq) : Prop :=
  quiet e ∨ DryRun (o_Shared o) = false ∧ nextInOrder (completed o) tr e.

Lemma RunOptions_PrintRawOptions_prepares : prepares RunOptions_PrintRawOptions (λ s s' _, s' = s).
Proof.
  intros o tr Htr. unfold RunOptions_PrintRawOptions, SharedOptions_PrintRaw, Println.
  mwp_step. mwp_step.
  apply (prepares_then _ _ (λ s s' _, s' = s)); [apply print_prepares| |done].
  apply prepares_then; [apply printYAML_prepares|].
  apply prepares_then; [apply printYAML_prepares|apply print_prepares].
Qed.

Lemma RunOptions_PrintCompletedOptions_prepares :
  prepares RunOptions_PrintCompletedOptions (λ s s' _, s' = s).
Proof.
  unfold RunOptions_PrintCompletedOptions, Println.
  apply prepares_then; [apply print_prepares|].
  apply prepares_then; [apply SharedOptions_PrintCompleted_prepares|].
  apply prepares_then; [apply printYAML_prepares|apply print_prepares].
Qed.

Lemma RunOptions_Complete_prepares :
  prepares RunOptions_Complete (λ s s' err, s' = if err is None then completed s else s).
Proof.
  intros o tr Htr. unfold RunOptions_Complete. mwp_step.
  eapply mwp_mono; [|by apply SharedOptions_Complete_prepares].
  intros tr' o' fl [(err & -> & -> & Htr')|[why ->]]; [|right; by exists why]. destruct err.
  - mwp_step. left. by eexists.
  - mwp_step. mwp_step; [done|]. mwp_step. mwp_step. mwp_step. left. exists None. split; [done|].
    split; [done|]. by apply allHarmless_snoc.
Qed.

Lemma completed_shared o : o_Shared (completed o) = o_Shared o.
Proof. unfold completed. by destruct (EnableHTTP2 (o_Raw o)), (SecureMetrics (o_Raw o)). Qed.

(** A preparation under a policy that permits quiet requests. *)
Lemma prepares_under {St A} (P : CmdHistory → CmdReq → Prop) (m : CM St A) R s tr
    (Q : CmdHistory → St → Flow A → Prop) :
  (∀ tr e, quiet e → P tr e) → prepares m R → allHarmless tr →
  (∀ tr' s' a, R s s' a → allHarmless tr' → tr `prefix_of` tr' → Q tr' s' (Next a)) →
  (∀ tr' s' why, Q tr' s' (Panic why)) →
  mwp P m s tr Q.
Proof.
  intros HP Hm Htr HQ Hpanic. eapply mwp_permit; [intros ? ? _; apply HP|].
  eapply mwp_mono; [|by apply mwp_prefix, Hm].
  intros tr' s' fl [[(a & -> & HR & Htr')|[why ->]] Hpre]; [by apply HQ|apply Hpanic].
Qed.

Lemma runCommand_policy o tr0 : allHarmless tr0 → mwp (runPolicy o) runCommand o tr0 noClaim.
Proof.
  assert (∀ tr e, quiet e → runPolicy o tr e) as HP by (intros ? ? He; by left).
  intros H0. unfold runCommand. mwp_step.
  eapply prepares_under; [done|apply RunOptions_PrintRawOptions_prepares|done| |done].
  intros tr1 o1 [] -> H1 _. mwp_step.
  eapply prepares_under; [done|apply RunOptions_Complete_prepares|done| |done].
  intros tr2 o2 [err|] -> H2 _; [by mwp_step|]. mwp_step.
  eapply prepares_under; [done|apply RunOptions_PrintCompletedOptions_prepares|done| |done].
  intros tr3 o3 [] -> H3 _. mwp_step. mwp_step. rewrite completed_shared.
  destruct (DryRun (o_Shared o)) eqn:Hdry.
  - unfold Println. by eapply prepares_under; [done|apply print_prepares| | |].
  - mwp_step. eapply mwp_permit; [intros ? ? _ He; right; split; [done|exact He]|].
    eapply mwp_mono; [|by apply RunOptions_Run_in_order].
    intros tr4 o4 [[err|]| |why] _; [by mwp_step..|done|done].
Qed.

(** ** The init command *)

Definition initPolicy (so : SharedOptions) (tr : CmdHistory) (e : CmdReq) : Prop :=
  quiet e ∨ DryRun so = false ∧ e = CreateOrUpdateCRDs crdManager ∧ allHarmless tr.

Lemma InitOptions_Complete_prepares {St} :
  prepares (S := St) InitOptions_Complete (λ s s' _, s' = s).
Proof.
  intros s tr Htr. unfold InitOptions_Complete. mwp_step.
  eapply mwp_mono; [|by apply SharedOptions_Complete_prepares].
  intros tr' s' fl [(err & -> & -> & Htr')|[why ->]]; [|right; by exists why].
  destruct err; mwp_step; left; by eexists.
Qed.

Lemma initCommand_policy {St} so (s : St) tr0 :
  allHarmless tr0 → mwp (initPolicy so) (initCommand so) s tr0 (λ _ _ _, True).
Proof.
  assert (∀ tr e, quiet e → initPolicy so tr e) as HP by (intros ? ? He; by left).
  intros H0. unfold initCommand, InitOptions_PrintCompletedOptions, Println. mwp_step.
  eapply prepares_under; [done|apply InitOptions_Complete_prepares|done| |done].
  intros tr1 s1 [err|] -> H1 _; [by mwp_step|]. mwp_step. mwp_step.
  eapply prepares_under; [done|apply print_prepares|done| |done]. intros tr2 s2 [] -> H2 _. mwp_step.
  eapply prepares_under; [done|apply SharedOptions_PrintCompleted_prepares|done| |done].
  intros tr3 s3 [] -> H3 _. eapply prepares_under; [done|apply print_prepares|done| |done].
  intros tr4 s4 [] -> H4 _.
  destruct (DryRun so) eqn:Hdry; [by eapply prepares_under; [done|apply print_prepares| | |]|].
  mwp_step. unfold InitOptions_Run, try. mwp_step. mwp_step; [by right|].
  mwp_step; [mwp_step; by mwp_step|mwp_step; by mwp_step].
Qed.

(** ** The process *)

Lemma mwp_withOptions {St St' A} P (s' : St') (m : CM St' A) (s : St) tr
    (Q : CmdHistory → St → Flow A → Prop) :
  mwp P m s' tr (λ tr' _ fl, Q tr' s fl) → mwp P (withOptions s' m) s tr Q.
Proof.
  intros H. unfold withOptions. mwp_step. apply mwp_local. eapply mwp_mono, H.
  intros tr' s1 [a| |why] HQ; simpl; by mwp_step.
Qed.

(** The start of a history in which the arguments asked for [p]. *)
Definition asked (p : string + Parsed) (tr : CmdHistory) : Prop :=
  [Ev (Execute NewResourceReplicatorCommand) p] `prefix_of` tr.

(** The arguments of a request to execute. *)
Definition parsedOf (ev : Event CmdResp) : option (string + Parsed) :=
  match ev with
  | Ev e r => match e return CmdResp e → option (string + Parsed) with Execute _ => Some | _ => λ _, None end r
  end.

Definition mainPolicy (tr : CmdHistory) (e : CmdReq) : Prop :=
  quiet e ∨
  (∃ err, asked (inl err) tr ∧ e = OsExit 1) ∨
  (∃ so, asked (inr (ParsedInit so)) tr ∧
     DryRun so = false ∧ e = CreateOrUpdateCRDs crdManager ∧ allHarmless tr) ∨
  (∃ so raw, asked (inr (ParsedRun so raw)) tr ∧
     DryRun so = false ∧ nextInOrder (completed (NewRunOptions so raw)) tr e).

Lemma main_policy : mwp mainPolicy main tt [] (λ _ _ _, True).
Proof.
  unfold main. mwp_step. mwp_step; [by left|]. destruct r as [err|[so|so raw|]].
  - mwp_step. mwp_step; [by left|]. mwp_step.
    mwp_step; [right; left; exists err; split; [by eexists|done]|]. by mwp_step.
  - eapply mwp_permit; [|apply initCommand_policy; by constructor].
    intros tr e Hpre [He|He]; [by left|]. right. right. left. by exists so.
  - apply mwp_withOptions. eapply mwp_permit; [|eapply mwp_mono, runCommand_policy; [done|by constructor]].
    intros tr e Hpre [He|He]; [by left|]. do 3 right. by exists so, raw.
  - by mwp_step.
Qed.

(** ** What the commands come to *)

#[local] Abbreviation anything := (λ (_ : CmdHistory) (_ : CmdReq), True).

(** Some request was answered with an error. *)
Definition failedIn (tr : CmdHistory) : Prop := ∃ ev, ev ∈ tr ∧ ¬ succeeded ev.

Lemma failedIn_snoc tr ev err : errorOf (ev_req ev) (ev_resp ev) = Some err → failedIn (tr ++ [ev]).
Proof.
  intros He. exists ev. split; [apply elem_of_app; right; by left|]. unfold succeeded. congruence.
Qed.

Section Ends.
Context {St : Type}.
Implicit Types (s : St) (tr : CmdHistory).

Lemma print_ends text s tr Q :
  (∀ tr', Q tr' s (Next tt)) → mwp anything (print text) s tr Q.
Proof. intros HQ. unfold print. mwp_step. mwp_step; [done|]. by mwp_step. Qed.

Lemma printYAML_ends p what s tr Q :
  (∀ tr', Q tr' s (Next tt)) → mwp anything (printYAML p what) s tr Q.
Proof.
  intros HQ. unfold printYAML, Println. mwp_step. mwp_step; [done|]. mwp_step; by apply print_ends.
Qed.

Lemma PrintCompleted_ends s tr Q :
  (∀ tr', Q tr' s (Next tt)) → mwp anything SharedOptions_PrintCompleted s tr Q.
Proof.
  intros HQ. unfold SharedOptions_PrintCompleted. mwp_step. mwp_step; [done|]. by apply printYAML_ends.
Qed.

Lemma try_ends e errOf message (next : CM St (option string)) s tr Q :
  (∀ r, errOf r = errorOf e r) →
  (∀ tr' err, failedIn tr' → Q tr' s (Next (Some err))) →
  (∀ r, errorOf e r = None → mwp anything next s (tr ++ [Ev e r]) Q) →
  mwp anything (try e errOf message next) s tr Q.
Proof.
  intros Herr HQ Hnext. unfold try. mwp_step. mwp_step; [done|]. rewrite Herr.
  destruct (errorOf e _) eqn:He; [|by apply Hnext]. mwp_step. apply HQ. by eapply failedIn_snoc.
Qed.

Lemma Complete_ends s tr Q :
  (∀ tr', Q tr' s (Next None)) →
  (∀ tr' err, failedIn tr' → Q tr' s (Next (Some err))) →
  (∀ tr' why, platformScheme = Panicked why → Q tr' s (Panic why)) →
  mwp anything SharedOptions_Complete s tr Q.
Proof.
  intros HQ Herr Hpanic. unfold SharedOptions_Complete.
  apply try_ends; [done|done|]. intros r1 _.
  destruct platformScheme as [scheme|why]; [|mwp_step; by apply Hpanic].
  apply try_ends; [done|done|]. intros r2 _. apply try_ends; [done|done|]. intros r3 _.
  mwp_step. mwp_step; [done|]. by mwp_step.
Qed.

End Ends.

(** A command that returns has done its work unless it was a dry run; it
    panics only because a request failed or the scheme could not be built. *)
Definition worked {St} (dry : bool) (final : Event CmdResp) (tr : CmdHistory) (_ : St) (fl : Flow unit)
    : Prop :=
  match fl with
  | Next _ => dry = false → last tr = Some final
  | Stop => False
  | Panic why => failedIn tr ∨ platformScheme = Panicked why
  end.

#[local] Ltac cstep := cbv beta iota; mwp_step.

Lemma initCommand_worked {St} so (s : St) tr :
  mwp anything (initCommand so) s tr
    (worked (DryRun so) (@Ev _ CmdResp (CreateOrUpdateCRDs crdManager) None)).
Proof.
  unfold initCommand, InitOptions_Complete, InitOptions_PrintCompletedOptions, Println. cstep. cstep.
  apply Complete_ends; [|intros; do 2 cstep; by left|intros; by right].
  intros tr1. do 3 cstep. apply print_ends. intros tr2. cstep. apply PrintCompleted_ends.
  intros tr3. apply print_ends. intros tr4. cbv beta iota.
  destruct (DryRun so) eqn:Hdry; [by apply print_ends|]. cstep. unfold InitOptions_Run.
  apply try_ends; [done|intros; cstep; by left|]. intros r Hr. simpl in Hr. subst.
  do 2 cstep. intros _. by apply last_snoc.
Qed.

Lemma RunOptions_Run_worked o tr Q :
  (∀ tr', last tr' = Some (@Ev _ CmdResp StartManager None) → Q tr' o (Next None)) →
  (∀ tr' err, failedIn tr' → Q tr' o (Next (Some err))) →
  mwp anything RunOptions_Run o tr Q.
Proof.
  intros HQ Herr. unfold RunOptions_Run, setupNamespaceController. cstep. cstep. cstep.
  cstep; [done|]. do 4 (apply try_ends; [done|done|intros ? _]). cstep. cstep; [done|].
  do 3 (apply try_ends; [done|done|intros ? _]).
  apply try_ends; [done|done|]. intros started Hr. simpl in Hr. subst. cstep. apply HQ. by apply last_snoc.
Qed.

Lemma runCommand_worked o tr :
  mwp anything runCommand o tr
    (worked (DryRun (o_Shared o)) (@Ev _ CmdResp StartManager None)).
Proof.
  unfold runCommand, RunOptions_PrintRawOptions, SharedOptions_PrintRaw, RunOptions_Complete,
    RunOptions_PrintCompletedOptions, Println.
  do 4 cstep. apply print_ends. intros tr1. cstep. apply printYAML_ends. intros tr2.
  cstep. apply printYAML_ends. intros tr3. apply print_ends. intros tr4. cstep. cstep.
  apply Complete_ends; [|intros; do 2 cstep; by left|intros; by right].
  intros tr5. cstep. cstep; [done|]. do 5 cstep. apply print_ends. intros tr6.
  cstep. apply PrintCompleted_ends. intros tr7. cstep. apply printYAML_ends. intros tr8.
  apply print_ends. intros tr9. cstep. cstep. cbv beta iota. rewrite completed_shared.
  destruct (DryRun (o_Shared o)) eqn:Hdry; [by apply print_ends|]. cstep.
  apply RunOptions_Run_worked; [intros tr' Hlast; cstep; by intros _|intros; cstep; by left].
Qed.

(** The process as a whole, by what its arguments ask for. *)
Definition ended (tr : CmdHistory) (fl : Flow unit) : Prop :=
  (∃ err, tr = [@Ev _ CmdResp (Execute NewResourceReplicatorCommand) (inl err);
                @Ev _ CmdResp (FmtPrint err) tt; @Ev _ CmdResp (OsExit 1) tt] ∧ fl = Next tt) ∨
  (∃ so, asked (inr (ParsedInit so)) tr ∧
     worked (DryRun so) (@Ev _ CmdResp (CreateOrUpdateCRDs crdManager) None) tr tt fl) ∨
  (∃ so raw, asked (inr (ParsedRun so raw)) tr ∧
     worked (DryRun so) (@Ev _ CmdResp StartManager None) tr tt fl) ∨
  tr = [@Ev _ CmdResp (Execute NewResourceReplicatorCommand) (inr ParsedUsage)] ∧ fl = Next tt.

Lemma main_ended : mwp anything main tt [] (λ tr _ fl, ended tr fl).
Proof.
  unfold main. mwp_step. mwp_step; [done|]. destruct r as [err|[so|so raw|]].
  - mwp_step. mwp_step; [done|]. mwp_step. mwp_step; [done|]. mwp_step. left. exists err.
    by repeat match goal with u : CmdResp _ |- _ => destruct u end.
  - eapply mwp_mono; [|apply mwp_prefix, initCommand_worked].
    intros tr [] fl [Hw Hp]. right. left. by exists so.
  - apply mwp_withOptions. eapply mwp_mono; [|apply mwp_prefix, runCommand_worked].
    intros tr s fl [Hw Hp]. right. right. left. by exists so, raw.
  - mwp_step. by do 3 right.
Qed.

(** The last step of the setup comes after all others. *)
Lemma started_in_order o tr :
  nextInOrder o tr StartManager →
  ∃ startTime pre post, tr = pre ++ post ∧ allHarmless pre ∧ Forall succeeded post ∧
    (ev_req <$> post) ++ [StartManager] = runSequence o startTime.
Proof.
  intros (t & pre & post & -> & Hpre & Hpost & _ & [rest Hseq]). exists t, pre, post.
  do 3 (split; [done|]). destruct rest as [|x rest _] using rev_ind; [by rewrite app_nil_r in Hseq|].
  exfalso. assert (∃ first, runSequence o t = first ++ [StartManager] ∧ StartManager ∉ first) as (first & Hf & Hn).
  { eexists (_ :: _ :: _ :: _ :: _ :: _ :: _ :: _ :: _ :: []). split; [reflexivity|].
    rewrite !not_elem_of_cons. repeat split; try discriminate. apply not_elem_of_nil. }
  rewrite Hf, app_assoc in Hseq. apply app_inj_tail in Hseq as [-> _]. apply Hn.
  rewrite !elem_of_app, list_elem_of_singleton. tauto.
Qed.

(** ** Theorems *)

(** What a policy says about a request of an execution. *)
Lemma policy_at {St A} (P : CmdHistory → CmdReq → Prop) (m : CM St A) s tr a i e r Q :
  mwp P m s [] Q → exec (m s) tr a → tr !! i = Some (Ev e r) → P (take i tr) e.
Proof.
  intros Hm Hex Hi. destruct a as [s' fl]. destruct (mwp_exec _ _ _ _ _ _ _ Hm Hex) as [_ Hp].
  apply (Hp (take i tr) (Ev e r) (drop (S i) tr)). symmetry. by apply take_drop_middle.
Qed.

Lemma asked_inj p p' tr : asked p tr → asked p' tr → p = p'.
Proof.
  intros [k ->] [k' Heq]. apply (f_equal head) in Heq. simpl in Heq.
  apply (f_equal (λ ev, ev ≫= parsedOf)) in Heq. simpl in Heq. congruence.
Qed.

(** A run command that ends with the manager has gone through the setup. *)
Lemma setup_completed so raw tr s fl :
  exec (main tt) tr (s, fl) → asked (inr (ParsedRun so raw)) tr →
  last tr = Some (@Ev _ CmdResp StartManager None) →
  ∃ startTime pre post, tr = pre ++ post ∧ allHarmless pre ∧ Forall succeeded post ∧
    ev_req <$> post = runSequence (completed (NewRunOptions so raw)) startTime.
Proof.
  intros Hex Hso (tr0 & ->)%last_Some.
  assert ((tr0 ++ [@Ev _ CmdResp StartManager None]) !! length tr0 = Some (@Ev _ CmdResp StartManager None))
    as Hi by by rewrite lookup_app_r, Nat.sub_diag by lia.
  assert (take (length tr0) (tr0 ++ [@Ev _ CmdResp StartManager None]) = tr0) as Htk by apply take_app_length.
  destruct (policy_at _ _ _ _ _ _ _ _ _ main_policy Hex Hi) as [[? _]|[H|[H|H]]]; [done| | |].
  - by destruct H as (err & _ & ?).
  - by destruct H as (so' & _ & _ & ? & _).
  - destruct H as (so' & raw' & Hso' & _ & Hn). rewrite Htk in *.
    assert (inr (ParsedRun so raw) = (inr (ParsedRun so' raw') : string + Parsed)) as [= -> ->].
    { eapply asked_inj; [exact Hso|]. destruct Hso' as [k ->]. eexists. by rewrite <- app_assoc. }
    apply started_in_order in Hn as (t & pre & post & -> & Hpre & Hpost & Hseq).
    exists t, pre, (post ++ [@Ev _ CmdResp StartManager None]).
    split; [by rewrite app_assoc|]. split; [done|]. split; [by apply Forall_app_2, Forall_singleton|].
    by rewrite fmap_app.
Qed.

(** The clients of the process are initialised with a scheme that knows the
    types of the program. *)
Lemma clients_know_the_types `{!ApiMachineryLaws AM} tr a scheme r :
  exec (main tt) tr a → Ev (InitializeClient scheme) r ∈ tr → knowsAll scheme.
Proof.
  intros Hex (i & Hi)%list_elem_of_lookup. apply platformScheme_knowsAll.
  destruct (policy_at _ _ _ _ _ _ _ _ _ main_policy Hex Hi) as [[_ H]|[H|[H|H]]].
  - by apply H.
  - by destruct H as (err & _ & ?).
  - by destruct H as (so & _ & _ & ? & _).
  - destruct H as (so & raw & _ & _ & t & pre & post & _ & _ & _ & _ & Hpre).
    assert (InitializeClient scheme ∈ runSequence (completed (NewRunOptions so raw)) t) as Hin.
    { destruct Hpre as [rest ->]. rewrite !elem_of_app, list_elem_of_singleton. tauto. }
    unfold runSequence in Hin.
    repeat (apply elem_of_cons in Hin as [Hin|Hin]; [discriminate Hin|]). by apply not_elem_of_nil in Hin.
Qed.

(** C40: The process does what its arguments ask for, no more and no less.
    Whatever it does beyond text and preparations of its clients: it exits with
    the code 1 when the arguments cannot be executed; it applies the CRDs, once
    and after all preparations, for the init command without the dry-run flag;
    and for the run command without the dry-run flag it goes through the setup
    in its order (provider, manager, controllers, checks, start), each step
    only when all earlier ones have succeeded.  And it does these things: for
    arguments that cannot be executed it prints the error and exits; an init
    command that returns has applied the CRDs with success; a run command that
    returns has gone through the whole setup with success up to the end of the
    manager; when only the usage was asked for it does nothing more.  It panics
    only when a request failed or the scheme could not be built.  The clients
    it prepares know the types of the program. *)
Theorem main_in_order `{!ApiMachineryLaws AM} tr s fl :
  exec (main tt) tr (s, fl) →
  (∀ i e r, tr !! i = Some (Ev e r) →
     (∀ scheme, e = InitializeClient scheme → knowsAll scheme) ∧
     (harmless e = false →
      (∃ err, asked (inl err) (take i tr) ∧ e = OsExit 1) ∨
      (∃ so, asked (inr (ParsedInit so)) (take i tr) ∧
         DryRun so = false ∧ e = CreateOrUpdateCRDs crdManager ∧ allHarmless (take i tr)) ∨
      (∃ so raw, asked (inr (ParsedRun so raw)) (take i tr) ∧
         DryRun so = false ∧ nextInOrder (completed (NewRunOptions so raw)) (take i tr) e))) ∧
  fl ≠ Stop ∧ (∀ why, fl = Panic why → failedIn tr ∨ platformScheme = Panicked why) ∧
  ((∃ err, tr = [@Ev _ CmdResp (Execute NewResourceReplicatorCommand) (inl err);
                 @Ev _ CmdResp (FmtPrint err) tt; @Ev _ CmdResp (OsExit 1) tt]) ∨
   (∃ so, asked (inr (ParsedInit so)) tr ∧
      (fl = Next tt → DryRun so = false →
       last tr = Some (@Ev _ CmdResp (CreateOrUpdateCRDs crdManager) None))) ∨
   (∃ so raw, asked (inr (ParsedRun so raw)) tr ∧
      (fl = Next tt → DryRun so = false →
       ∃ startTime pre post, tr = pre ++ post ∧ allHarmless pre ∧ Forall succeeded post ∧
         ev_req <$> post = runSequence (completed (NewRunOptions so raw)) startTime)) ∨
   tr = [@Ev _ CmdResp (Execute NewResourceReplicatorCommand) (inr ParsedUsage)]).
Proof.
  intros Hex. split.
  { intros i e r Hi. split; [intros scheme ->; by eapply clients_know_the_types, list_elem_of_lookup_2|].
    intros He. destruct (policy_at _ _ _ _ _ _ _ _ _ main_policy Hex Hi) as [[H _]|H]; [congruence|done]. }
  destruct (mwp_exec _ _ _ _ _ _ _ main_ended Hex)
    as [[(err & -> & ->)|[(so & Hso & Hw)|[(so & raw & Hso & Hw)|[-> ->]]]] _].
  - split; [done|]. split; [done|]. left. by exists err.
  - split; [intros ->; exact Hw|]. split; [intros why ->; exact Hw|]. right. left. exists so. split; [done|].
    intros ->. exact Hw.
  - split; [intros ->; exact Hw|]. split; [intros why ->; exact Hw|]. do 2 right. left. exists so, raw. split; [done|].
    intros -> Hdry. exact (setup_completed so raw _ _ _ Hex Hso (Hw Hdry)).
  - split; [done|]. split; [done|]. by do 3 right.
Qed.

(** The run command touches the outside only without the dry-run flag and
    only in its order. *)
Theorem run_in_order o tr a i e r :
  exec (runCommand o) tr a → tr !! i = Some (Ev e r) → harmless e = false →
  DryRun (o_Shared o) = false ∧ nextInOrder (completed o) (take i tr) e.
Proof.
  intros Hex Hi He.
  destruct (policy_at _ _ _ _ _ _ _ _ _ (runCommand_policy o [] ltac:(constructor)) Hex Hi)
    as [[H _]|H]; [congruence|done].
Qed.

(** The init command changes nothing but the CRDs, these at most once,
    after all preparations, and never with the dry-run flag. *)
Theorem init_applies_crds {St} so (s : St) tr a i e r :
  exec (initCommand so s) tr a → tr !! i = Some (Ev e r) → harmless e = false →
  DryRun so = false ∧ e = CreateOrUpdateCRDs crdManager ∧ allHarmless (take i tr).
Proof.
  intros Hex Hi He.
  destruct (policy_at _ _ _ _ _ _ _ _ _ (initCommand_policy so s [] ltac:(constructor)) Hex Hi)
    as [[H _]|H]; [congruence|done].
Qed.

Lemma completed_options o :
  TLSOpts o = [] →
  let mg := managerOptions (completed o) in
  (EnableHTTP2 (o_Raw o) = false →
   ∀ c, NextProtos (foldl (λ c f, f c) c (ms_TLSOpts (mg_Metrics mg))) = ["http/1.1"] ∧
        NextProtos (foldl (λ c f, f c) c (mg_WebhookTLSOpts mg)) = ["http/1.1"]) ∧
  SecureServing (mg_Metrics mg) = SecureMetrics (o_Raw o) ∧
  ms_FilterProvider (mg_Metrics mg) = SecureMetrics (o_Raw o).
Proof.
  intros Ht. unfold completed, managerOptions. rewrite Ht.
  by destruct (EnableHTTP2 (o_Raw o)) eqn:H2, (SecureMetrics (o_Raw o)).
Qed.

(** The manager is created with safe servers: unless HTTP/2 is enabled,
    the metrics and the webhook server offer HTTP/1.1 only, and the metrics
    are served securely and behind authentication exactly when
    [--metrics-secure] is set, which is the default. *)
Theorem manager_is_secured so raw tr a mg r :
  exec (runCommand (NewRunOptions so raw)) tr a → Ev (NewManager mg) r ∈ tr →
  (EnableHTTP2 raw = false →
   ∀ c, NextProtos (foldl (λ c f, f c) c (ms_TLSOpts (mg_Metrics mg))) = ["http/1.1"] ∧
        NextProtos (foldl (λ c f, f c) c (mg_WebhookTLSOpts mg)) = ["http/1.1"]) ∧
  SecureServing (mg_Metrics mg) = SecureMetrics raw ∧
  ms_FilterProvider (mg_Metrics mg) = SecureMetrics raw.
Proof.
  intros Hex (i & Hi)%list_elem_of_lookup.
  destruct (policy_at _ _ _ _ _ _ _ _ _ (runCommand_policy _ [] ltac:(constructor)) Hex Hi)
    as [[? _]|[_ (t & pre & post & _ & _ & _ & _ & [rest Hseq])]]; [done|].
  assert (mg = managerOptions (completed (NewRunOptions so raw))) as ->.
  { assert (NewManager mg ∈ runSequence (completed (NewRunOptions so raw)) t) as Hin.
    { rewrite Hseq. rewrite !elem_of_app. left. right. by left. }
    clear Hseq. unfold runSequence in Hin.
    repeat (apply elem_of_cons in Hin as [Hin|Hin]; [first [discriminate Hin|by injection Hin]|]).
    by apply not_elem_of_nil in Hin. }
  exact (completed_options (NewRunOptions so raw) eq_refl).
Qed.

(** The values of the options when no flag is given. *)
Theorem default_options :
  defaults AddPersistentFlags zeroShared = MkSharedOptions "" false "" ∧
  defaults AddFlags zeroRawRun = MkRawRun "0" false ":8081" "" true false.
Proof. done. Qed.

End Properties.

(** ** An environment in which every call succeeds *)

Definition serveCmd (parsed : string + Parsed) (e : CmdReq) (w : unit) : unit * CmdResp e :=
  match e with
  | Execute _ => (w, parsed)
  | OsExit _ => (w, tt)
  | FmtPrint _ => (w, tt)
  | SetLogger => (w, tt)
  | APIServerEndpoint => (w, "https://platform")
  | MarshalYAML _ => (w, inr "yaml")
  | CmdPrint _ => (w, tt)
  | NewWithClusterController _ _ => (w, tt)
  | Now => (w, 7%Z)
  | _ => (w, None)
  end.

Definition defaultShared : SharedOptions := defaults AddPersistentFlags zeroShared.
Definition defaultRaw : RawRunOptions := defaults AddFlags zeroRawRun.
Definition defaultRun : RunOptions := NewRunOptions defaultShared defaultRaw.

Definition mainOf (parsed : string + Parsed) :=
  run (serveCmd parsed) (@main _ onReplicas onNamespaces _ tt) tt.
Definition run_main := mainOf (inr (ParsedRun defaultShared defaultRaw)).
Definition run_default := run (serveCmd (inl "")) (@runCommand _ onReplicas onNamespaces _ defaultRun) tt.
Definition run_init := run (serveCmd (inl "")) (initCommand defaultShared tt) tt.

Lemma main_in_order_witness :
  last run_main.1.2 = Some (@Ev _ CmdResp StartManager None) ∧
  @nextInOrder _ onReplicas onNamespaces _ (completed defaultRun) (take 28 run_main.1.2) StartManager.
Proof.
  assert (run_main.1.2 !! 28 = Some (@Ev _ CmdResp StartManager None)) as Hi
    by vm_cast_no_check (eq_refl (Some (@Ev _ CmdResp StartManager None))).
  split; [vm_cast_no_check (eq_refl (Some (@Ev _ CmdResp StartManager None)))|].
  destruct (proj2 (proj1 (@main_in_order _ onReplicas onNamespaces _ _ _ _ _
              (run_exec (serveCmd (inr (ParsedRun defaultShared defaultRaw)))
                 (@main _ onReplicas onNamespaces _ tt) tt)) _ _ _ Hi) eq_refl)
    as [(err & _ & He)|[(so & _ & _ & He & _)|(so & raw & [l Hp] & _ & H)]].
  - discriminate He.
  - discriminate He.
  - assert (head (take 28 run_main.1.2) =
              Some (@Ev _ CmdResp (Execute NewResourceReplicatorCommand) (inr (ParsedRun so raw)))) as Hh
      by exact (f_equal head Hp).
    apply (f_equal (λ ev, ev ≫= parsedOf)) in Hh.
    assert (head (take 28 run_main.1.2) ≫= parsedOf = Some (inr (ParsedRun defaultShared defaultRaw))) as Hd
      by (vm_compute; reflexivity).
    rewrite Hd in Hh. injection Hh as <- <-. exact H.
Defined.

Lemma run_in_order_witness :
  last run_default.1.2 = Some (@Ev _ CmdResp StartManager None) ∧ DryRun (o_Shared defaultRun) = false.
Proof.
  assert (run_default.1.2 !! 27 = Some (@Ev _ CmdResp StartManager None)) as Hi
    by vm_cast_no_check (eq_refl (Some (@Ev _ CmdResp StartManager None))).
  split; [vm_cast_no_check (eq_refl (Some (@Ev _ CmdResp StartManager None)))|].
  destruct (@run_in_order _ onReplicas onNamespaces _ defaultRun _ _ _ _ _
              (run_exec (serveCmd (inl "")) (@runCommand _ onReplicas onNamespaces _ defaultRun) tt)
              Hi eq_refl) as [Hd _]. exact Hd.
Defined.

Lemma init_applies_crds_witness :
  last run_init.1.2 = Some (@Ev _ CmdResp (CreateOrUpdateCRDs crdManager) None) ∧
  DryRun defaultShared = false.
Proof.
  assert (run_init.1.2 !! 9 = Some (@Ev _ CmdResp (CreateOrUpdateCRDs crdManager) None)) as Hi
    by vm_cast_no_check (eq_refl (Some (@Ev _ CmdResp (CreateOrUpdateCRDs crdManager) None))).
  split; [vm_cast_no_check (eq_refl (Some (@Ev _ CmdResp (CreateOrUpdateCRDs crdManager) None)))|].
  destruct (init_applies_crds defaultShared tt _ _ _ _ _
              (run_exec (serveCmd (inl "")) (initCommand defaultShared tt) tt) Hi eq_refl) as [Hd _]. exact Hd.
Defined.

Lemma manager_is_secured_witness :
  let mg := managerOptions (completed defaultRun) in
  (@Ev _ CmdResp (NewManager mg) None) ∈ run_default.1.2 ∧ ms_FilterProvider (mg_Metrics mg) = true.
Proof.
  intros mg.
  assert (run_default.1.2 !! 19 = Some (@Ev _ CmdResp (NewManager mg) None)) as Hi
    by vm_cast_no_check (eq_refl (Some (@Ev _ CmdResp (NewManager mg) None))).
  pose proof (list_elem_of_lookup_2 _ _ _ Hi) as Hin. split; [exact Hin|].
  destruct (@manager_is_secured _ onReplicas onNamespaces _ defaultShared defaultRaw _ _ mg None
              (run_exec (serveCmd (inl "")) (@runCommand _ onReplicas onNamespaces _ defaultRun) tt) Hin)
    as (_ & _ & Hf). exact Hf.
Defined.

Definition someScheme : mapScheme := match platformScheme with Returned s => s | Panicked _ => ∅ end.

Lemma clients_know_the_types_witness :
  (@Ev _ CmdResp (InitializeClient someScheme) None) ∈ run_main.1.2 ∧ knowsAll someScheme.
Proof.
  assert (run_main.1.2 !! 8 = Some (@Ev _ CmdResp (InitializeClient someScheme) None)) as Hi
    by vm_cast_no_check (eq_refl (Some (@Ev _ CmdResp (InitializeClient someScheme) None))).
  pose proof (list_elem_of_lookup_2 _ _ _ Hi) as Hin. split; [exact Hin|].
  exact (@clients_know_the_types _ onReplicas onNamespaces _ _ _ _ _ _
    (run_exec (serveCmd (inr (ParsedRun defaultShared defaultRaw)))
       (@main _ onReplicas onNamespaces _ tt) tt) Hin).
Defined.
