(* ===== verification/StatusType.v ===== *)
(** * The type of the status

    The well-formedness invariant of the status list ([StatusList.wf]: no type
    and no resource twice) through whole reconciles.  The proofs follow the
    structure of the programs: [keepsWf] is closed under their constructs. *)

From S2P Require Import Prelude GoLib ApiTypes External Effects Kube.
From S2P Require Import StatusList Shared ReplicaState ReplicaTarget ReplicaCreateOrUpdate.
From S2P Require Import ReplicaDelete ReplicaReconcile FakeServer Scenarios CreateProperties SafetyProperties.

(** A (Cluster)Replica with a well-formed status. *)
Definition typed (rep : Replica) : Prop := wf (rep_Replicas rep).

(** The servers deliver well-formed lists. *)
Definition typedResponse (e : Req) : Resp e → Prop :=
  match e with
  | GetReplica _ _ _ => λ r, match r with Found rep => typed rep | _ => True end
  | DeleteOperationAnnotation _ _ => λ r, typed r.1
  | PatchReplica _ _ _ => λ r, typed r.1
  | PatchReplicaStatus _ _ _ => λ r, typed r.1
  | _ => λ _, True
  end.

Definition typedHistory (tr : KHistory) : Prop :=
  Forall (λ ev, typedResponse (ev_req ev) (ev_resp ev)) tr.

(** The requests send well-formed lists. *)
Definition typedRequest (e : Req) : Prop :=
  match e with
  | PatchReplica _ o _ | PatchReplicaStatus _ o _ => typed o
  | UpdateStatus _ rr _ _ => match rr_Object rr with Some rep => typed rep | None => True end
  | _ => True
  end.

Lemma typedHistory_snoc tr ev :
  typedHistory (tr ++ [ev]) → typedHistory tr ∧ typedResponse (ev_req ev) (ev_resp ev).
Proof. unfold typedHistory. rewrite Forall_app, Forall_singleton. done. Qed.

Section Typed.
Context `{X : Ext}.
#[local] Abbreviation P := (λ (tr : KHistory) (e : Req), typedHistory tr → typedRequest e).

Definition inv (tr : KHistory) (s : rstate) : Prop := typedHistory tr → typed (s_Object s).

Definition keepsWf {A} (m : KM rstate A) : Prop :=
  ∀ s tr, inv tr s → mwp P m s tr (λ tr' s' _, inv tr' s').

Lemma inv_event tr ev s : inv tr s → inv (tr ++ [ev]) s.
Proof. intros H [Hw _]%typedHistory_snoc. by apply H. Qed.

(** ** The constructs *)

Lemma keepsWf_ret {A} (a : A) : keepsWf (ret a).
Proof. intros s tr H. by mwp_step. Qed.
Lemma keepsWf_stop {A} : keepsWf (A := A) stop.
Proof. intros s tr H. by mwp_step. Qed.
Lemma keepsWf_panic {A} why : keepsWf (A := A) (panic why).
Proof. intros s tr H. by mwp_step. Qed.
Lemma keepsWf_get : keepsWf get.
Proof. intros s tr H. by mwp_step. Qed.

Lemma keepsWf_modify f : (∀ s, typed (s_Object s) → typed (s_Object (f s))) → keepsWf (modify f).
Proof. intros Hf s tr H. mwp_step. intros Hw. by apply Hf, H. Qed.

Lemma keepsWf_call e :
  match e with PatchReplica _ _ _ | PatchReplicaStatus _ _ _ | UpdateStatus _ _ _ _ => False | _ => True end →
  keepsWf (call e).
Proof. intros He s tr H. mwp_step; [by destruct e|]. by apply inv_event. Qed.

Lemma keepsWf_bind {A B} (m : KM rstate A) (f : A → KM rstate B) :
  keepsWf m → (∀ a, keepsWf (f a)) → keepsWf (bind m f).
Proof.
  intros Hm Hf s tr H. mwp_step. eapply mwp_mono; [|by apply Hm].
  intros tr' s' [a| |why] H'; [by apply Hf|done|done].
Qed.

Lemma keepsWf_scope (m : KM rstate unit) : keepsWf m → keepsWf (scope m).
Proof.
  intros Hm s tr H. mwp_step. eapply mwp_mono; [|by apply Hm]. by intros tr' s' [[]| |why] H'.
Qed.

Lemma keepsWf_for_each {T} (l : list T) body : (∀ x, keepsWf (body x)) → keepsWf (for_each l body).
Proof.
  intros Hb. induction l as [|x l IH]; simpl; [apply keepsWf_ret|].
  apply keepsWf_bind; [apply keepsWf_scope, Hb|done].
Qed.

Lemma keepsWf_for_each_return {T} (l : list T) body :
  (∀ x, keepsWf (body x)) → keepsWf (for_each_return l body).
Proof.
  intros Hb. induction l as [|x l IH]; simpl; [apply keepsWf_ret|]. by apply keepsWf_bind.
Qed.

Lemma keepsWf_range_map {T} (m : gmap ObjectReference T) body :
  (∀ k a, keepsWf (body k a)) → keepsWf (range_map m body).
Proof.
  intros Hb. unfold range_map, range_keys. apply keepsWf_bind.
  - apply keepsWf_bind; [by apply keepsWf_call|]. intros. apply keepsWf_ret.
  - intros order. apply keepsWf_for_each. intros k. destruct (m !! k); [done|apply keepsWf_ret].
Qed.

End Typed.

#[local] Hint Resolve keepsWf_ret keepsWf_stop keepsWf_panic keepsWf_get : typedb.

(** One construct; the recurring steps of the controller are unfolded. *)
#[local] Ltac keep_step :=
  lazymatch goal with
  | |- keepsWf (bind _ _) => apply keepsWf_bind; [|intros ?]
  | |- keepsWf (for_each _ _) => apply keepsWf_for_each; intros ?
  | |- keepsWf (for_each_return _ _) => apply keepsWf_for_each_return; intros ?
  | |- keepsWf (range_map _ _) => apply keepsWf_range_map; intros ? ?
  | |- keepsWf (scope _) => apply keepsWf_scope
  | |- keepsWf (call _) => by apply keepsWf_call
  | |- keepsWf (modify _) => apply keepsWf_modify; intros ? ?; simpl; try done
  | |- keepsWf (createCon _ _ _ _) => unfold createCon
  | |- keepsWf (errsAppend _) => unfold errsAppend
  | |- keepsWf (failWith _ _) => unfold failWith
  | |- keepsWf (returnWith _ _) => unfold returnWith
  | |- keepsWf (match ?x with _ => _ end) => destruct x eqn:?
  | |- keepsWf _ => solve [eauto with typedb]
  end.
#[local] Ltac keep := intros; cbv zeta; repeat keep_step.

Section Layers.
Context `{X : Ext}.
Variables (providerName : string) (platformCluster : Access).

#[local] Abbreviation P := (λ (tr : KHistory) (e : Req), typedHistory tr → typedRequest e).

(** ** The two patches of the object *)

Lemma trackInStatus_keepsWf t rendered : keepsWf (trackInStatus platformCluster t rendered).
Proof.
  intros s tr H. unfold trackInStatus. rstep. rstep. rstep; [by rstep|].
  rstep. rstep; [intros Hw; apply wf_Add; by apply H|]. rstep. rstep.
  rstep; rstep; by intros [_ Hr]%typedHistory_snoc.
Qed.

Lemma ensureFinalizer_keepsWf : keepsWf (ensureFinalizer platformCluster).
Proof.
  intros s tr H. unfold ensureFinalizer. rstep. rstep. destruct (AddFinalizer _ _) as [fs added].
  rstep. rstep. rstep; [|by rstep]. rstep. rstep. rstep. rstep; [by intros Hw; apply H|].
  rstep. rstep. rstep; rstep; by intros [_ Hr]%typedHistory_snoc.
Qed.

Lemma handleDelete_keepsWf : keepsWf (handleDelete platformCluster).
Proof.
  intros s tr H. unfold handleDelete. rstep. rstep. rstep; [rstep; rstep; by rstep|].
  destruct (RemoveFinalizer _ _) as [fs removed].
  rstep. rstep. rstep; [|by rstep]. rstep. rstep. rstep. rstep; [by intros Hw; apply H|].
  rstep. rstep. rstep.
  - rstep. rstep. rstep. rstep. rstep. by intros [_ Hr]%typedHistory_snoc.
  - rstep. by intros [_ Hr]%typedHistory_snoc.
Qed.

#[local] Hint Resolve trackInStatus_keepsWf ensureFinalizer_keepsWf handleDelete_keepsWf : typedb.

(** ** Everything else only moves conditions, errors and maps *)

Lemma renderTarget_keepsWf tmpl t tn : keepsWf (renderTarget tmpl t tn).
Proof. unfold renderTarget, renderExactCopy, renderTemplate, failTemplating. keep. Qed.
Lemma detectConflict_keepsWf t rendered raw : keepsWf (detectConflict t rendered raw).
Proof. unfold detectConflict, recordRendered. keep. Qed.
Lemma checkExisting_keepsWf t rendered : keepsWf (checkExisting t rendered).
Proof.
  unfold checkExisting, fetchExisting, checkOwnership, failExists, ensureNamespace,
    failNamespaceDeleting, skipNamespace. keep.
Qed.
Lemma syncTarget_keepsWf t rendered : keepsWf (syncTarget t rendered).
Proof. unfold syncTarget, failSync, recordManaged. keep. Qed.

#[local] Hint Resolve renderTarget_keepsWf detectConflict_keepsWf checkExisting_keepsWf
  syncTarget_keepsWf : typedb.

Lemma handleTarget_keepsWf tmpl t tn :
  keepsWf (handleTarget providerName platformCluster tmpl t tn).
Proof. unfold handleTarget. keep. Qed.

Lemma selectNamespaces_keepsWf sel name items : keepsWf (selectNamespaces sel name items).
Proof. induction items; simpl; keep; done. Qed.

#[local] Hint Resolve handleTarget_keepsWf selectNamespaces_keepsWf : typedb.

Lemma resolveTarget_keepsWf td tc name : keepsWf (resolveTarget platformCluster td tc name).
Proof. unfold resolveTarget. keep. Qed.
Lemma parseTemplate_keepsWf : keepsWf parseTemplate.
Proof. unfold parseTemplate. keep. Qed.
Lemma fetchSources_keepsWf : keepsWf (fetchSources platformCluster).
Proof. unfold fetchSources, fetchSource. keep. Qed.

#[local] Hint Resolve resolveTarget_keepsWf parseTemplate_keepsWf fetchSources_keepsWf : typedb.

Lemma handleCreateOrUpdate_keepsWf clusterList :
  keepsWf (handleCreateOrUpdate providerName platformCluster clusterList).
Proof.
  unfold handleCreateOrUpdate, handleTargetDef, handleCluster, finishCreateOrUpdate. keep.
  by destruct (s_templatingErrorSet _).
Qed.

Lemma deleteResource_keepsWf ref name access res :
  keepsWf (deleteResource providerName ref name access res).
Proof.
  unfold deleteResource, failDelete, forget, awaitDeletion, removeCondition, removeRawFromStatus. keep;
    by apply wf_Remove.
Qed.

#[local] Hint Resolve deleteResource_keepsWf handleCreateOrUpdate_keepsWf : typedb.

Lemma deleteObsoleteResources_keepsWf clusterList unset :
  keepsWf (deleteObsoleteResources providerName clusterList unset).
Proof.
  unfold deleteObsoleteResources, deleteInCluster, pruneCluster, removeCondition, removeRawFromStatus.
  keep; first [by apply wf_Remove|by apply wf_Cleanup].
Qed.

#[local] Hint Resolve deleteObsoleteResources_keepsWf : typedb.

Lemma reconcileFetched_keepsWf : keepsWf (reconcileFetched providerName platformCluster).
Proof.
  unfold reconcileFetched, reconcileListed, addManagedToStatus, skipWaiting. keep.
  by apply wf_Add.
Qed.

Lemma runFetched_typed rep si tr :
  (typedHistory tr → typed rep) →
  mwp P (runFetched providerName platformCluster rep) si tr (λ tr' _ fl,
    match fl with
    | Next rr => typedHistory tr' → match rr_Object rr with Some rep => typed rep | None => True end
    | _ => True
    end).
Proof.
  intros H. unfold runFetched. rstep. apply mwp_local.
  eapply mwp_mono; [|apply (reconcileFetched_keepsWf (rstate_init rep)); exact H].
  intros tr' s' [unset| |why] H'; rstep; [by destruct unset|done..].
Qed.

Lemma reconcile_typed req si tr :
  mwp P (reconcile providerName req platformCluster) si tr (λ tr' _ fl,
    match fl with
    | Next rr => typedHistory tr' → match rr_Object rr with Some rep => typed rep | None => True end
    | _ => True
    end).
Proof.
  unfold reconcile. rstep. rstep; [done|]. rstep; [|by rstep..]. rstep.
  - apply runFetched_typed. by intros [_ Hr]%typedHistory_snoc.
  - by rstep.
  - rstep. rstep; [done|]. rstep; [by rstep|]. apply runFetched_typed.
    by intros [_ Hr]%typedHistory_snoc.
Qed.

End Layers.

Lemma Reconcile_typed `{X : Ext} providerName req si :
  mwp (λ tr e, typedHistory tr → typedRequest e) (Reconcile providerName req) si [] (λ _ _ _, True).
Proof.
  unfold Reconcile. rstep. rstep. rstep. rstep; [done|]. rstep; [by rstep|].
  rstep. eapply mwp_mono; [|apply reconcile_typed]. intros tr1 s1 [rr| |why] H; [|done|done].
  rstep. rstep; [exact H|]. destruct r0 as [[rep after] err].
  destruct err; [by rstep|]. by rstep; rstep.
Qed.

(** C14: The status list stays well formed: as long as the servers deliver lists
    in which no type and no resource occurs twice, every list a reconcile
    sends, in a patch or in the final status update, is of this kind again. *)
Theorem status_stays_wf `{X : Ext} providerName req tr i e r :
  reconcileHistory providerName req tr → typedHistory (take i tr) → tr !! i = Some (Ev e r) →
  typedRequest e.
Proof.
  intros (si & [s' fl] & Hex) Hty Hi.
  destruct (mwp_exec _ _ _ _ _ _ _ (Reconcile_typed providerName req si) Hex) as [_ Hp].
  apply (Hp (take i tr) (Ev e r) (drop (S i) tr)); [|exact Hty].
  symmetry. by apply take_drop_middle.
Qed.

(** The first status patch of [run_create]. *)
Definition patchedStatus : Replica :=
  match history run_create !! 8 with
  | Some (Ev (PatchReplicaStatus _ o _) _) => o
  | _ => createdReplica
  end.

#[local] Instance typed_dec rep : Decision (typed rep).
Proof. unfold typed, wf. apply _. Defined.

#[local] Instance typedResponse_dec e r : Decision (typedResponse e r).
Proof. destruct e; simpl in *; try apply _. destruct r; apply _. Defined.

#[local] Instance typedHistory_dec tr : Decision (typedHistory tr).
Proof. unfold typedHistory. apply _. Defined.

Lemma status_stays_wf_witness :
  rep_Replicas patchedStatus = tracks None "t1" "cm" ∧ typed patchedStatus.
Proof.
  split; [vm_compute; reflexivity|].
  assert (history run_create !! 8 =
    Some (@Ev _ Resp (PatchReplicaStatus platform patchedStatus createdReplica) (patchedStatus, None))) as Hi
    by (vm_compute; reflexivity).
  assert (typedHistory (take 8 (history run_create))) as Hty by concrete.
  exact (status_stays_wf provider request _ _ _ _ (scenario_history request _) Hty Hi).
Defined.
