(* ===== verification/HonestServer.v ===== *)
(** * Runs against an honest server

    Most theorems hold for every answer of the environment.  Whether the
    controller comes to rest can only be said of an environment that behaves
    like an API server.  This file has

    - [hwp]: the calculus for runs of stateful programs against a handler [h]
      with a state (the world), in the style of [mwp];
    - [HonestServer]: the interface to the environment, its laws being the
      documented behaviour of an API server that nobody else writes to in the
      meantime and of a template engine without side effects;
    - the proof that the server of [FakeServer] implements the interface. *)

From S2P Require Import Prelude GoLib ApiTypes External Effects Kube.
From S2P Require Import FakeServer.

(** ** Runs with a world *)

Section Runs.
Context {Req : Type} {Resp : Req → Type} {W : Type} (h : ∀ e : Req, W → W * Resp e).

Lemma run_bind {A B} (p : Prog Resp A) (f : A → Prog Resp B) w :
  run h (prog_bind p f) w =
  let '(w1, tr1, a) := run h p w in
  let '(w2, tr2, b) := run h (f a) w1 in (w2, tr1 ++ tr2, b).
Proof.
  revert w. induction p as [a|e k IH]; intros w; simpl.
  - by destruct (run h (f a) w) as [[w2 tr2] b].
  - destruct (h e w) as [w1 r]. rewrite IH. destruct (run h (k r) w1) as [[w2 tr1] a].
    by destruct (run h (f a) w2) as [[w3 tr2] b].
Qed.

Context {S : Type}.

(** The run of [m] from the state [s] in the world [w] ends as [Q] says. *)
Definition hwp {A} (m : M Resp S A) (s : S) (w : W) (Q : W → S → Flow A → Prop) : Prop :=
  let '(w', _, (s', fl)) := run h (m s) w in Q w' s' fl.

Lemma hwp_run {A} (m : M Resp S A) s w Q w' tr s' fl :
  hwp m s w Q → run h (m s) w = (w', tr, (s', fl)) → Q w' s' fl.
Proof. unfold hwp. intros H Hr. by rewrite Hr in H. Qed.

Lemma run_hwp {A} (m : M Resp S A) s w Q :
  hwp m s w Q → ∃ w' tr s' fl, run h (m s) w = (w', tr, (s', fl)) ∧ Q w' s' fl.
Proof. unfold hwp. destruct (run h (m s) w) as [[w' tr] [s' fl]]. by do 4 eexists. Qed.

Lemma hwp_mono {A} (m : M Resp S A) s w (Q Q' : W → S → Flow A → Prop) :
  (∀ w' s' fl, Q w' s' fl → Q' w' s' fl) → hwp m s w Q → hwp m s w Q'.
Proof. unfold hwp. destruct (run h (m s) w) as [[w' tr] [s' fl]]. auto. Qed.

Lemma hwp_and {A} (m : M Resp S A) s w (Q Q' : W → S → Flow A → Prop) :
  hwp m s w Q → hwp m s w Q' → hwp m s w (λ w' s' fl, Q w' s' fl ∧ Q' w' s' fl).
Proof. unfold hwp. by destruct (run h (m s) w) as [[w' tr] [s' fl]]. Qed.

Lemma hwp_true {A} (m : M Resp S A) s w (Q : W → S → Flow A → Prop) :
  (∀ w' s' fl, Q w' s' fl) → hwp m s w Q.
Proof. unfold hwp. destruct (run h (m s) w) as [[w' tr] [s' fl]]. auto. Qed.

Lemma hwp_bind {A B} (m : M Resp S A) (f : A → M Resp S B) s w Q :
  hwp m s w (λ w' s' fl,
    match fl with
    | Next a => hwp (f a) s' w' Q
    | Stop => Q w' s' Stop
    | Panic why => Q w' s' (Panic why)
    end) →
  hwp (bind m f) s w Q.
Proof.
  unfold hwp, bind. rewrite run_bind. destruct (run h (m s) w) as [[w1 tr1] [s1 [a| |why]]]; [|done|done].
  by destruct (run h (f a s1) w1) as [[w2 tr2] [s2 fl]].
Qed.

Lemma hwp_scope m s w (Q : W → S → Flow unit → Prop) :
  hwp m s w (λ w' s' fl,
    match fl with Panic why => Q w' s' (Panic why) | _ => Q w' s' (Next tt) end) →
  hwp (scope m) s w Q.
Proof.
  unfold hwp, scope. rewrite run_bind.
  by destruct (run h (m s) w) as [[w1 tr1] [s1 [a| |why]]].
Qed.

Lemma hwp_ret {A} (a : A) s w Q : Q w s (Next a) → hwp (ret a) s w Q.
Proof. done. Qed.
Lemma hwp_stop {A} s w (Q : W → S → Flow A → Prop) : Q w s Stop → hwp stop s w Q.
Proof. done. Qed.
Lemma hwp_panic {A} why s w (Q : W → S → Flow A → Prop) : Q w s (Panic why) → hwp (panic why) s w Q.
Proof. done. Qed.
Lemma hwp_get s w Q : Q w s (Next s) → hwp get s w Q.
Proof. done. Qed.
Lemma hwp_modify f s w Q : Q w (f s) (Next tt) → hwp (modify f) s w Q.
Proof. done. Qed.

(** The loop rule: an invariant that follows the traversal. *)
Lemma hwp_for_each {T} (l : list T) body s w (I : list T → W → S → Prop) :
  (∀ pre x post s' w', l = pre ++ x :: post → I pre w' s' →
     hwp (body x) s' w' (λ w'' s'' fl,
       match fl with Panic _ => True | _ => I (pre ++ [x]) w'' s'' end)) →
  I [] w s →
  hwp (for_each l body) s w (λ w' s' fl,
    match fl with Next _ => I l w' s' | Stop => False | Panic _ => True end).
Proof.
  intros Hbody.
  assert (∀ todo dn, l = dn ++ todo → ∀ s w, I dn w s →
    hwp (for_each todo body) s w (λ w' s' fl,
      match fl with Next _ => I l w' s' | Stop => False | Panic _ => True end)) as Hgen.
  { intros todo. induction todo as [|x todo IH]; intros dn Heq s' w' HI; simpl.
    - apply hwp_ret. by rewrite Heq, app_nil_r.
    - apply hwp_bind, hwp_scope. eapply hwp_mono; [|by eapply Hbody].
      intros w'' s'' [[]| |why] HI'; [| |done]; (apply (IH (dn ++ [x])); [|done]; by rewrite <- app_assoc). }
  by apply (Hgen l []).
Qed.

(** What a run decides is among the executions. *)
Lemma hwp_exec {A} (m : M Resp S A) s w (Q : W → S → Flow A → Prop) :
  hwp m s w Q → hwp m s w (λ w' s' fl, Q w' s' fl ∧ ∃ tr, exec (m s) tr (s', fl)).
Proof.
  unfold hwp. pose proof (run_exec h (m s) w) as Hex.
  destruct (run h (m s) w) as [[w' tr] [s' fl]]. intros HQ. split; [done|]. by exists tr.
Qed.

(** A call: its answer and the world after it. *)
Lemma hwp_call e s w w' r Q : h e w = (w', r) → Q w' s (Next r) → hwp (call e) s w Q.
Proof. unfold hwp. simpl. by intros ->. Qed.

End Runs.

(** A run of a sequence, and one that starts with a request. *)
Lemma run_seq {Req} {Resp : Req → Type} {W} (h : ∀ e : Req, W → W * Resp e) {S A B}
    (m : M Resp S A) (f : A → M Resp S B) s w :
  run h (bind m f s) w =
  let '(w1, tr1, (s1, fl)) := run h (m s) w in
  match fl with
  | Next a => let '(w2, tr2, r) := run h (f a s1) w1 in (w2, tr1 ++ tr2, r)
  | Stop => (w1, tr1, (s1, Stop))
  | Panic why => (w1, tr1, (s1, Panic why))
  end.
Proof.
  unfold bind. rewrite run_bind. destruct (run h (m s) w) as [[w1 tr1] [s1 [a| |why]]]; simpl; [done|..];
    by rewrite app_nil_r.
Qed.

Lemma run_request {Req} {Resp : Req → Type} {W} (h : ∀ e : Req, W → W * Resp e) {S B} e
    (f : Resp e → M Resp S B) s w w1 r :
  h e w = (w1, r) →
  run h (bind (call e) f s) w = let '(w2, tr, b) := run h (f r s) w1 in (w2, Ev e r :: tr, b).
Proof.
  intros Hr. rewrite run_seq. simpl. rewrite Hr. by destruct (run h (f r s) w1) as [[w2 tr] b].
Qed.

(** A part with a state of its own. *)
Lemma hwp_local {Req} {Resp : Req → Type} {W} (h : ∀ e : Req, W → W * Resp e) {S S' A}
    (m : M Resp S' A) (s' : S') (s : S) w (Q : W → S → Flow (S' * Flow A) → Prop) :
  hwp h m s' w (λ w' s'' fl, Q w' s (Next (s'', fl))) → hwp h (local m s') s w Q.
Proof.
  unfold hwp, local. rewrite run_bind. by destruct (run h (m s') w) as [[w' tr] [s'' fl]].
Qed.

#[global] Opaque hwp.

(** One step of the calculus; calls are left to the laws of the server. *)
Ltac hwp_step :=
  lazymatch goal with
  | |- hwp _ (bind _ _) _ _ _ => apply hwp_bind
  | |- hwp _ (ret _) _ _ _ => apply hwp_ret
  | |- hwp _ stop _ _ _ => apply hwp_stop
  | |- hwp _ (panic _) _ _ _ => apply hwp_panic
  | |- hwp _ get _ _ _ => apply hwp_get
  | |- hwp _ (modify _) _ _ _ => apply hwp_modify
  | |- hwp _ (scope _) _ _ _ => apply hwp_scope
  end; cbv beta iota.

(** ** The interface *)

(** The identity of an object. *)
Definition objRef (u : Unstructured) : TypedObjectReference :=
  MkTRef (u_GVK u) (u_Namespace u) (u_Name u).

(** What the server keeps of an object that is written; it may set the UID,
    the resource version, the generation and the like. *)
Definition sameContents (u o : Unstructured) : Prop :=
  objRef o = objRef u ∧ u_Labels o = u_Labels u ∧ u_Annotations o = u_Annotations u ∧
  u_Fields o = u_Fields u.

(** The answer to a [Get] when [o] is what the server stores. *)
Definition answers {A} (o : option A) (r : GetResult A) : Prop :=
  match o with Some a => r = Found a | None => ∃ err, r = NotFound err end.

(** Two (Cluster)Replicas that agree in everything but the status. *)
Definition withoutStatus (o : Replica) : Replica := rep_set_Status (MkStatus 0 "" [] []) o.
Definition sameRep (o o2 : Replica) : Prop := withoutStatus o = withoutStatus o2.

(** The requests that write (Cluster)Replicas. *)
Definition writesReplica (e : Req) : bool :=
  match e with
  | PatchReplica _ _ _ | PatchReplicaStatus _ _ _ | DeleteOperationAnnotation _ _
  | UpdateStatus _ _ _ _ => true
  | _ => false
  end.

(** The other requests that write objects are about one object. *)
Definition writesObject (e : Req) : option (Access * TypedObjectReference) :=
  match e with
  | CouWriteTarget acc u | PatchObject acc u _ | DeleteObject acc u => Some (acc, objRef u)
  | _ => None
  end.

Definition createsNamespace (e : Req) : bool :=
  match e with CreateNamespace _ _ => true | _ => false end.

Class HonestServer {W} (h : ∀ e : Req, W → W * Resp e) := {
  (** the objects, the namespaces, the (Cluster)Replicas and the Clusters
      behind an access, and the invariant of the server's state *)
  stored : W → Access → TypedObjectReference → option Unstructured;
  namespaceIn : W → Access → string → option Namespace;
  replicaAt : W → Access → ReplicaType → NamespacedName → option Replica;
  clustersAt : W → Access → string + list Cluster;
  consistent : W → Prop;
  (** the output of the template engine *)
  rendering : string → TemplateData → string + string;
  (** the access the provider gives for a name of a cluster *)
  providerAccess : string → string + Access;

  consistent_key w acc k o : consistent w → stored w acc k = Some o → objRef o = k;
  consistent_step e w : consistent w → consistent (h e w).1;

  (** reading *)
  get_object acc gvk ns n w :
    ∃ r, h (GetObject acc gvk ns n) w = (w, r) ∧ answers (stored w acc (MkTRef gvk ns n)) r;
  get_namespace acc n w :
    ∃ r, h (GetNamespace acc n) w = (w, r) ∧ answers (namespaceIn w acc n) r;
  list_namespaces acc w : ∃ r, h (ListNamespaces acc) w = (w, r) ∧
    ∀ w', namespaceIn w' = namespaceIn w → h (ListNamespaces acc) w' = (w', r);
  get_replica acc kind nn w :
    ∃ r, h (GetReplica acc kind nn) w = (w, r) ∧ answers (replicaAt w acc kind nn) r;
  list_clusters acc w : h (ListClusters acc) w = (w, clustersAt w acc);
  provider_get n w : consistent w → h (ProviderGet n) w = (w, providerAccess n);
  range_order keys w : ∃ order, h (RangeOrder keys) w = (w, order);
  cou_read acc u w :
    h (CouReadTarget acc u) w = (w, CouCallback (default u (stored w acc (objRef u))));
  template_execute text d w :
    h (TemplateExecute text d) w = (w, (rendering text d, tdata_Sources d));

  (** writing an object stores its contents; [CreateOrUpdate] does not write
      an object that has not changed *)
  cou_write acc u w :
    match h (CouWriteTarget acc u) w with
    | (w', inr o) => stored w' acc (objRef u) = Some o ∧ sameContents u o
    | (w', inl _) => stored w' acc (objRef u) = stored w acc (objRef u)
    end;
  objects_same e w : writesObject e = None → stored (h e w).1 = stored w;
  objects_frame e w acc k : writesObject e ≠ Some (acc, k) → stored (h e w).1 acc k = stored w acc k;
  namespaces_same e w : createsNamespace e = false → namespaceIn (h e w).1 = namespaceIn w;
  cou_write_unchanged acc o w :
    stored w acc (objRef o) = Some o → h (CouWriteTarget acc o) w = (w, inr o);

  (** (Cluster)Replicas are objects of their own.  A patch changes what its
      two arguments differ in: the finalizers or the list of resources in the
      status.  The final update of the status writes that list, and otherwise
      other parts of the status only; only an update that fails may have
      written nothing. *)
  replicas_same e w : writesReplica e = false → replicaAt (h e w).1 = replicaAt w;
  replica_patch acc obj old w kind nn :
    replicaAt w acc kind nn = Some old → obj = rep_set_Finalizers (rep_Finalizers obj) old →
    let '(w', r) := h (PatchReplica acc obj old) w in
    r.2 = None → r.1 = obj ∧ replicaAt w' acc kind nn = Some obj;
  status_patch acc obj old w kind nn :
    replicaAt w acc kind nn = Some old → obj = rep_set_Replicas (rep_Replicas obj) old →
    let '(w', r) := h (PatchReplicaStatus acc obj old) w in
    r.2 = None → r.1 = obj ∧ replicaAt w' acc kind nn = Some obj;
  update_status acc rr obj old phase requeue w kind nn :
    rr_Object rr = Some obj → rr_OldObject rr = Some old → sameRep old obj →
    replicaAt w acc kind nn = Some old →
    let '(w', r) := h (UpdateStatus acc rr phase requeue) w in
    ∃ o, replicaAt w' acc kind nn = Some o ∧
      (sameRep o obj ∧ rep_Replicas o = rep_Replicas obj ∨ r.2 ≠ None ∧ o = old);

  (** Clusters are never written *)
  clusters_same e w : clustersAt (h e w).1 = clustersAt w }.

(** ** The server of [FakeServer] is honest *)

(** Objects are stored under their identity, and every cluster can be reached. *)
Definition consistentWorld (w : world) : Prop :=
  w_unreachable w = [] ∧ ∀ acc k o, w_objects w !! (acc, k) = Some o → objRef o = k.

Lemma consistent_insert acc u w :
  consistentWorld w → consistentWorld (w_set_objects (<[keyOf acc u := u]> (w_objects w)) w).
Proof.
  intros [Hu Hw]. split; [done|]. intros acc' k o. simpl. rewrite lookup_insert_Some.
  intros [[Heq <-]|[_ Hk]]; [|by eapply Hw]. by injection Heq as _ <-.
Qed.

Lemma consistent_delete acc u w :
  consistentWorld w → consistentWorld (w_set_objects (deleteFrom w acc u) w).
Proof.
  intros [Hu Hw]. split; [done|]. unfold deleteFrom. destruct (w_objects w !! keyOf acc u) as [old|] eqn:Hold; [|exact Hw].
  destruct (u_Finalizers old).
  - intros acc' k o. simpl. rewrite lookup_delete_Some. intros [_ Hk]. by eapply Hw.
  - intros acc' k o. simpl. rewrite lookup_insert_Some. intros [[Heq <-]|[_ Hk]]; [|by eapply Hw].
    injection Heq as _ <-. by apply (Hw _ _ _ Hold).
Qed.

Lemma serve_consistent e w : consistentWorld w → consistentWorld (serve e w).1.
Proof.
  intros Hw. destruct e; simpl; try done.
  - by destruct (rejects w (rep_Name obj)).
  - case_bool_decide; [done|]. destruct (rejects w (u_Name target)); [done|by apply consistent_insert].
  - destruct (rejects w (u_Name obj)); [done|by apply consistent_insert].
  - by apply consistent_delete.
  - by destruct (rr_Object rr).
Qed.

Lemma answers_lookup {A} (o : option A) : answers o (lookupResult o).
Proof. destruct o; [done|by eexists]. Qed.

(** Which parts of the world a request can change. *)
Lemma serve_objects e w : writesObject e = None → w_objects (serve e w).1 = w_objects w.
Proof.
  destruct e; simpl; try done; intros _; by repeat case_match.
Qed.

Lemma serve_objects_frame e w acc k :
  writesObject e ≠ Some (acc, k) →
  w_objects (serve e w).1 !! (access_id acc, k) = w_objects w !! (access_id acc, k).
Proof.
  destruct (writesObject e) as [[acc' k']|] eqn:He; [|by rewrite serve_objects]. intros Hne.
  assert (∀ u, k' = objRef u → keyOf acc' u ≠ (access_id acc, k)) as Hkey.
  { intros u -> Heq. apply Hne. destruct acc, acc'. unfold keyOf, objRef in *. simpl in *. congruence. }
  destruct e; simpl in He; try done; injection He as -> <-; simpl.
  - case_bool_decide; [done|]. destruct (rejects _ _); simpl; [done|]. apply lookup_insert_ne, Hkey. done.
  - destruct (rejects _ _); simpl; [done|]. apply lookup_insert_ne, Hkey. done.
  - unfold deleteFrom. destruct (w_objects w !! keyOf _ _); [|done].
    destruct (u_Finalizers _); [apply lookup_delete_ne|apply lookup_insert_ne]; by apply Hkey.
Qed.

Lemma serve_namespaces e w : createsNamespace e = false → w_namespaces (serve e w).1 = w_namespaces w.
Proof.
  destruct e; simpl; try done; intros _; by repeat case_match.
Qed.

Lemma serve_replica e w : writesReplica e = false → w_replica (serve e w).1 = w_replica w.
Proof.
  destruct e; simpl; try done; intros _; by repeat case_match.
Qed.

Lemma serve_clusters e w : w_clusters (serve e w).1 = w_clusters w.
Proof.
  destruct e; simpl; try done; by repeat case_match.
Qed.

#[export] Program Instance fakeHonest : HonestServer serve := {|
  stored w acc k := w_objects w !! (access_id acc, k);
  namespaceIn w acc n := w_namespaces w !! (access_id acc, n);
  replicaAt w acc kind nn := w_replica w;
  clustersAt w acc := inr (w_clusters w);
  consistent := consistentWorld;
  rendering := renderText;
  providerAccess n := inr (MkAccess n) |}.
Next Obligation. intros w acc k o [_ Hw] Hk. exact (Hw _ _ _ Hk). Qed.
Next Obligation. exact serve_consistent. Qed.
Next Obligation. intros. eexists. split; [reflexivity|]. apply answers_lookup. Qed.
Next Obligation. intros. eexists. split; [reflexivity|]. apply answers_lookup. Qed.
Next Obligation.
  intros acc w. eexists. split; [reflexivity|]. intros w' Hns. simpl.
  assert (w_namespaces w' = w_namespaces w) as Heq.
  { apply map_eq. intros [a n]. exact (f_equal (λ f, f (MkAccess a) n) Hns). }
  unfold namespacesOf. by rewrite Heq.
Qed.
Next Obligation. intros. eexists. split; [reflexivity|]. apply answers_lookup. Qed.
Next Obligation. done. Qed.
Next Obligation. intros n w [Hu _]. simpl. by rewrite Hu. Qed.
Next Obligation. intros keys w. by eexists. Qed.
Next Obligation. done. Qed.
Next Obligation. done. Qed.
Next Obligation.
  intros acc u w. simpl. case_bool_decide; [done|].
  destruct (rejects w (u_Name u)); simpl; [done|]. by rewrite lookup_insert_eq.
Qed.
Next Obligation. intros e w He. cbn beta. by rewrite serve_objects. Qed.
Next Obligation. intros. by apply serve_objects_frame. Qed.
Next Obligation. intros e w He. cbn beta. by rewrite serve_namespaces. Qed.
Next Obligation.
  intros acc o w Ho. simpl in *. by rewrite bool_decide_eq_true_2.
Qed.
Next Obligation. intros e w He. cbn beta. by rewrite serve_replica. Qed.
Next Obligation. done. Qed.
Next Obligation. intros acc obj old w kind nn _ _. simpl. by destruct (rejects w (rep_Name obj)). Qed.
Next Obligation.
  intros acc [ro roo cs rem ra err] obj old phase requeue w kind nn [= ->] _ _ _. simpl.
  eexists. split; [done|]. by left.
Qed.
Next Obligation. intros e w. cbn beta. by rewrite serve_clusters. Qed.
