(* ===== verification/Convergence.v ===== *)
(** * Coming to rest

    Against an honest server ([HonestServer]) a second reconcile repeats what
    the first one decided and changes nothing: the ownership labels it wrote
    are recognised, the contents it wrote are what it would write again, and
    the resources are tracked.

    [converges] is the property of a part of a reconcile: when a first run
    reports no error, a second run that starts from the same records, in any
    world that agrees with the final one on what the first run has dealt with,
    takes the same course, ends with the same managed resources and leaves the
    world alone.  It is closed under the constructs of the programs and holds
    of every step up to the loop over the target definitions. *)

From S2P Require Import Prelude GoLib ApiTypes External Effects Kube.
From S2P Require Import StatusList ConditionNames ReplicaState ReplicaTarget ReplicaCreateOrUpdate.
From S2P Require Import TargetProperties OutcomeProperties HonestServer.

(** ** States that a second run starts from *)

Lemma sameRep_unfold o o2 : sameRep o o2 → o2 = rep_set_Status (rep_Status o2) o.
Proof. unfold sameRep, withoutStatus, rep_set_Status. destruct o, o2. simpl. congruence. Qed.

Lemma sameRep_status st o : sameRep o (rep_set_Status st o).
Proof. done. Qed.

(** What two runs have to agree in for the second to repeat the first. *)
Definition similar (s s2 : rstate) : Prop :=
  sameRep (s_Object s) (s_Object s2) ∧ s_sources s2 = s_sources s ∧
  s_conflicts s2 = s_conflicts s ∧ s_managed s2 = s_managed s ∧ s_Conditions s2 = s_Conditions s.

(** The managed resources of a cluster. *)
Definition managedAt (s : rstate) (ref : ObjectReference) : list Unstructured :=
  default [] (s_managed s ≫= (.!! ref)).

(** The resources that the first run manages are tracked. *)
Definition tracksManaged (s s2 : rstate) : Prop :=
  ∀ ref o, o ∈ managedAt s ref →
    ContainsRaw (u_GVK o) (u_Namespace o) (u_Name o) (Some ref) (rep_Replicas (s_Object s2)) = true.

(** The second run reports and manages what the first one does, nothing else. *)
Definition repeated (s2 s' s2' : rstate) : Prop :=
  s2' = set_Conditions (set_managed (set_conflicts s2 (s_conflicts s')) (s_managed s'))
          (s_Conditions s').

(** The number of reported errors. *)
Definition errors (s : rstate) : nat := length (omap id (s_errs s)).

(** Every target that has been rendered has been reported on. *)
Definition reportedOn `{X : Ext} (s : rstate) (ref : ObjectReference) (k : TypedObjectReference) : Prop :=
  TargetCondition ref k ∈ con_Type <$> s_Conditions s.

Definition allReported `{X : Ext} (s : rstate) : Prop :=
  ∀ ref k, is_Some (recordedFor s ref k) → reportedOn s ref k.

Section Convergence.
Context `{X : Ext} {XL : ExtLaws X}.
Context {W : Type} {h : ∀ e : Req, W → W * Resp e} `{!HonestServer h}.
Variables (providerName : string) (platformCluster : Access).

(** The clusters are reached through different accesses. *)
Variable accessOf : ObjectReference → Access.
Hypothesis accessOf_inj : ∀ ref ref', accessOf ref = accessOf ref' → ref = ref'.

(** Whether target definitions may create namespaces; those that skip missing
    namespaces are then excluded. *)
Variable creates : Prop.

(** The text of the template. *)
Variable tmpl : option string.

(** The (Cluster)Replica that is reconciled. *)
Variables (kind : ReplicaType) (nn : NamespacedName).

(** ** The manifest of a target *)

Definition manifestOf (t : targetEnv) (targetNamespace : string) (s : rstate)
    : option (Unstructured * string) :=
  match tmpl with
  | None =>
      match spec_Sources (rep_Spec (s_Object s)) with
      | [] => None
      | src0 :: _ =>
          match s_sources s !! src_ID src0 with
          | None => None
          | Some src =>
              match YamlMarshal (exactCopy targetNamespace src) with
              | inl _ => None
              | inr raw => Some (exactCopy targetNamespace src, raw)
              end
          end
      end
  | Some text =>
      match rendering text (templateData t targetNamespace s) with
      | inl _ => None
      | inr raw =>
          match YamlUnmarshal raw with
          | inl _ => None
          | inr u => Some (setTargetNamespace targetNamespace u, raw)
          end
      end
  end.

(** The manifests do not bring a source namespace label to the copies of a
    ClusterReplica: these would not be recognised (see
    [synced_copy_is_recognised]). *)
Definition recognisable (s : rstate) : Prop :=
  rep_Type (s_Object s) = TClusterReplica →
  ∀ t tn rendered raw, manifestOf t tn s = Some (rendered, raw) →
    map_get (u_Labels rendered) ReplicaSourceNamespaceLabel = rep_Namespace (s_Object s).

(** ** What a first run keeps, and what a second run does *)

(** The object at hand is the stored one. *)
Definition inSync (s : rstate) (w : W) : Prop :=
  replicaAt w platformCluster kind nn = Some (s_Object s) ∧ s_OldObject s = s_Object s.

Record kept (s : rstate) (w : W) (s' : rstate) (w' : W) : Prop := {
  kp_object : sameRep (s_Object s) (s_Object s');
  kp_status : grown (rep_Replicas (s_Object s)) (rep_Replicas (s_Object s'));
  kp_sources : s_sources s' = s_sources s;
  kp_managed : ∀ ref o, o ∈ managedAt s ref → o ∈ managedAt s' ref;
  kp_determined : is_Some (s_managed s) → is_Some (s_managed s');
  kp_tracked : tracksManaged s s → tracksManaged s' s';
  kp_conditions : s_Conditions s `prefix_of` s_Conditions s';
  kp_reported : allReported s → allReported s';
  kp_extends : extends s s';
  kp_namespaces : ¬ creates → namespaceIn w' = namespaceIn w;
  kp_stored : ∀ ref k, is_Some (recordedFor s ref k) →
              stored w' (accessOf ref) k = stored w (accessOf ref) k;
  kp_sync : inSync s' w' }.

(** The world [wf] shows what the part has dealt with as [w'] does. *)
Definition agrees (s s' : rstate) (w' wf : W) : Prop :=
  (¬ creates → namespaceIn wf = namespaceIn w') ∧
  ∀ ref k, recordedFor s ref k = None → is_Some (recordedFor s' ref k) →
    stored wf (accessOf ref) k = stored w' (accessOf ref) k.

Definition again {A} (m : KM rstate A) (s s' : rstate) (w' : W) (fl : Flow A) : Prop :=
  ∀ s2 wf, consistent wf → similar s s2 → tracksManaged s' s2 → agrees s s' w' wf →
    hwp h m s2 wf (λ w'' s2' fl', w'' = wf ∧ fl' = fl ∧ repeated s2 s' s2').

Definition converges {A} (m : KM rstate A) : Prop := ∀ s w,
  consistent w →
  hwp h m s w (λ w' s' fl,
    match fl with
    | Panic _ => True
    | _ => errors s ≤ errors s' ∧
           (inSync s w → errors s' ≤ errors s →
            kept s w s' w' ∧ (recognisable s → again m s s' w' fl))
    end).

(** ** Closure *)

Lemma run_consistent {A} (p : Prog Resp A) w : consistent w → consistent (run h p w).1.1.
Proof.
  revert w. induction p as [a|e k IH]; intros w Hw; simpl; [done|].
  pose proof (consistent_step e w Hw) as Hw1. destruct (h e w) as [w1 r].
  specialize (IH r w1 Hw1). by destruct (run h (k r) w1) as [[w2 tr] a].
Qed.

Lemma hwp_consistent {A} (m : KM rstate A) s w Q :
  hwp h m s w Q → hwp h m s w (λ w' s' fl, Q w' s' fl ∧ (consistent w → consistent w')).
Proof.
  intros H. pose proof (run_consistent (m s) w) as Hc. revert H. Transparent hwp.
  unfold hwp. by destruct (run h (m s) w) as [[w' tr] [s' fl]].
Qed.
#[local] Opaque hwp.

Lemma manifestOf_same t tn s s2 :
  sameRep (s_Object s) (s_Object s2) → s_sources s2 = s_sources s →
  manifestOf t tn s2 = manifestOf t tn s.
Proof.
  intros Hrep%sameRep_unfold Hsrc. unfold manifestOf, templateData. rewrite Hsrc, Hrep. done.
Qed.

Lemma recognisable_kept s w s' w' : kept s w s' w' → recognisable s → recognisable s'.
Proof.
  intros Hk Hs Hty t tn rendered raw. rewrite (manifestOf_same t tn s s'); [|apply Hk..].
  pose proof (sameRep_unfold _ _ (kp_object _ _ _ _ Hk)) as Hrep. rewrite Hrep in Hty |- *.
  intros Hm. by apply (Hs Hty t tn _ raw).
Qed.

Lemma kept_refl s w : inSync s w → kept s w s w.
Proof. intros. split; try done. by intros ???. Qed.

(** A step that only reports something. *)
Lemma kept_reporting c s w : inSync s w → kept s w (set_Conditions s (s_Conditions s ++ c)) w.
Proof.
  intros Hs. split; try done; [by eexists| |by intros ???].
  intros H ref k Hr. unfold reportedOn. simpl. rewrite fmap_app. apply elem_of_app. left. by apply H.
Qed.

Lemma kept_trans s w s1 w1 s2 w2 : kept s w s1 w1 → kept s1 w1 s2 w2 → kept s w s2 w2.
Proof.
  intros [Ho Hst Hs Hm Hd Ht Hc Hr He Hn Hf _] [Ho' Hst' Hs' Hm' Hd' Ht' Hc' Hr' He' Hn' Hf' Hy].
  split; try by etrans.
  - eauto.
  - eauto.
  - eauto.
  - eauto.
  - intros ????. by apply He', He.
  - intros ?. rewrite Hn'; auto.
  - intros ref k [raw Hraw]. rewrite Hf' by eauto. apply Hf. by eexists.
  - done.
Qed.

(** The agreement of the first of two parts. *)
Lemma agrees_first s w s1 w1 s2 w2 wf :
  kept s w s1 w1 → kept s1 w1 s2 w2 → agrees s s2 w2 wf → agrees s s1 w1 wf.
Proof.
  intros Hk Hk' [Hns Hag].
  split; [intros Hc; rewrite (Hns Hc); by apply Hk'|]. intros ref k Hnone [raw Hraw].
  rewrite Hag, (kp_stored _ _ _ _ Hk'); [done|by eexists|done|].
  exists raw. by apply (kp_extends _ _ _ _ Hk').
Qed.

Lemma agrees_second s w s1 w1 s2 w2 wf :
  kept s w s1 w1 → agrees s s2 w2 wf → agrees s1 s2 w2 wf.
Proof.
  intros Hk [Hns Hag]. split; [done|]. intros ref k Hnone Hsome.
  apply Hag; [|done]. destruct (recordedFor s ref k) eqn:Hr; [|done].
  by rewrite (kp_extends _ _ _ _ Hk _ _ _ Hr) in Hnone.
Qed.

Lemma repeated_similar s w s1 w1 s2 s2' :
  kept s w s1 w1 → similar s s2 → repeated s2 s1 s2' → similar s1 s2'.
Proof.
  intros Hk (Hrep & Hsrc & _) ->. pose proof (kp_object _ _ _ _ Hk).
  split; [simpl; unfold sameRep in *; congruence|]. split; [|done].
  simpl. by rewrite Hsrc, (kp_sources _ _ _ _ Hk).
Qed.

Lemma repeated_trans s2 s1 s2a s' s2b : repeated s2 s1 s2a → repeated s2a s' s2b → repeated s2 s' s2b.
Proof. unfold repeated. by intros -> ->. Qed.

(** A state that reports and manages the same. *)
Lemma repeated_refl s s2 : similar s s2 → repeated s2 s s2.
Proof.
  unfold repeated. intros (_ & _ & <- & <- & <-). by destruct s2.
Qed.

Lemma converges_bind_post {A B} (P : A → Prop) (m : KM rstate A) (f : A → KM rstate B) :
  (∀ s w, consistent w → hwp h m s w (λ _ _ fl, ∀ a, fl = Next a → P a)) →
  converges m → (∀ a, P a → converges (f a)) → converges (bind m f).
Proof.
  intros HP Hm Hf s w Hw. apply hwp_bind.
  eapply hwp_mono; [|apply hwp_consistent, hwp_and; [apply (HP s w Hw)|apply (Hm s w Hw)]].
  intros w1 s1 [a| |why] [[Ha H1] Hw1]; [| |done].
  - eapply hwp_mono; [|apply (Hf a (Ha a eq_refl) s1 w1 (Hw1 Hw))]. intros w2 s2 fl H2.
    assert (errors s1 ≤ errors s2 →
      (inSync s1 w1 → errors s2 ≤ errors s1 →
       kept s1 w1 s2 w2 ∧ (recognisable s1 → again (f a) s1 s2 w2 fl)) →
      errors s ≤ errors s2 ∧
      (inSync s w → errors s2 ≤ errors s →
       kept s w s2 w2 ∧ (recognisable s → again (bind m f) s s2 w2 fl))) as Hgoal.
    { destruct H1 as [Hle H1]. intros Hle' H2'. split; [lia|]. intros Hsync He.
      destruct (H1 Hsync ltac:(lia)) as [Hk1 Ha1].
      destruct (H2' (kp_sync _ _ _ _ Hk1) ltac:(lia)) as [Hk2 Ha2].
      split; [by eapply kept_trans|]. intros Hr t wf Hwf Hsim Hcov Hag. apply hwp_bind.
      specialize (Ha1 Hr). specialize (Ha2 (recognisable_kept _ _ _ _ Hk1 Hr)).
      eapply hwp_mono; [|apply Ha1; [done|done| |by eapply agrees_first]].
      - intros w' t1 fl1 (-> & -> & Hrep).
        eapply hwp_mono; [|apply Ha2; [done|by eapply repeated_similar| |by eapply agrees_second]].
        + intros w'' t2 fl2 (-> & -> & Hrep'). split; [done|]. split; [done|].
          by eapply repeated_trans.
        + rewrite Hrep. exact Hcov.
      - intros ref o Ho. apply Hcov. by apply (kp_managed _ _ _ _ Hk2). }
    destruct fl as [b| |why]; [|by apply Hgoal; apply H2..|done].
    apply Hgoal; apply H2.
  - destruct H1 as [Hle H1]. split; [done|]. intros Hsync He.
    destruct (H1 Hsync He) as [Hk Hag1]. split; [done|]. intros Hr t wf Hwf Hsim Hcov Hag. apply hwp_bind.
    eapply hwp_mono; [|by apply Hag1]. by intros w' t1 fl1 (-> & -> & Hrep).
Qed.

Lemma converges_bind {A B} (m : KM rstate A) (f : A → KM rstate B) :
  converges m → (∀ a, converges (f a)) → converges (bind m f).
Proof.
  intros Hm Hf. apply (converges_bind_post (λ _, True)); [|done|by intros a _].
  intros s w Hw. eapply hwp_mono; [|by apply Hm]. done.
Qed.

Lemma converges_scope (m : KM rstate unit) : converges m → converges (scope m).
Proof.
  intros Hm s w Hw. apply hwp_scope. eapply hwp_mono; [|by apply Hm].
  intros w' s' [[]| |why]; [| |done]; (intros [Hle H]; split; [done|]; intros Hsync He;
    destruct (H Hsync He) as [Hk Ha]; split; [done|]; intros Hr t wf Hwf Hsim Hcov Hag; apply hwp_scope;
    eapply hwp_mono; [|by apply Ha]; by intros w'' t' fl (-> & -> & Hrep)).
Qed.

(** Programs that depend on nothing and change at most other parts of the state. *)
Lemma converges_ret {A} (a : A) : converges (ret a).
Proof.
  intros s w _. hwp_step. split; [done|]. intros Hsync _. split; [by apply kept_refl|].
  intros _ s2 wf _ Hsim _ _. hwp_step. split_and!; [done..|by apply repeated_refl].
Qed.

Lemma converges_stop {A} : converges (A := A) stop.
Proof.
  intros s w _. hwp_step. split; [done|]. intros Hsync _. split; [by apply kept_refl|].
  intros _ s2 wf _ Hsim _ _. hwp_step. split_and!; [done..|by apply repeated_refl].
Qed.

Lemma converges_panic {A} why : converges (A := A) (panic why).
Proof. intros s w _. by hwp_step. Qed.

(** Reporting the same condition. *)
Lemma kept_withCondition con st reason msg s w :
  inSync s w → kept s w (withCondition con st reason msg s) w.
Proof. unfold withCondition. rewrite GenerateCreateCondition_law. apply kept_reporting. Qed.

Lemma repeated_withCondition con st reason msg s s2 :
  similar s s2 →
  repeated s2 (withCondition con st reason msg s) (withCondition con st reason msg s2).
Proof.
  unfold repeated, withCondition. simpl. intros (_ & _ & <- & <- & <-). by destruct s2.
Qed.

Lemma converges_createCon c st reason msg : converges (createCon c st reason msg).
Proof.
  intros s w _. unfold createCon. hwp_step. split; [done|]. intros Hsync _.
  split; [by apply kept_withCondition|].
  intros _ s2 wf _ Hsim _ _. hwp_step. split_and!; [done..|by apply repeated_withCondition].
Qed.

(** A reported error ends the claim. *)
Lemma converges_failWith {A} con rerr : converges (A := A) (failWith con rerr).
Proof.
  intros s w _. unfold failWith, errsAppend, createCon. do 5 hwp_step.
  unfold errors. simpl. rewrite omap_app, length_app. simpl. split; [lia|]. intros. lia.
Qed.

Lemma converges_for_each {T} (l : list T) body :
  (∀ x, x ∈ l → converges (body x)) → converges (for_each l body).
Proof.
  induction l as [|x l IH]; intros Hb; simpl; [apply converges_ret|].
  apply converges_bind; [apply converges_scope, Hb; by left|].
  intros []. apply IH. intros y Hy. apply Hb. by right.
Qed.

(** ** One target resource *)

Section Target.
Variable t : targetEnv.

(** The conditions after a target has been skipped, and after it has been synced. *)
Definition skippedConditions (R : Unstructured) (msg : string) (cs : list Condition) : list Condition :=
  GenerateCreateCondition cs (targetCon t R) ConditionTrue ConditionReasonTargetSkipped msg.

Definition syncedConditions (R : Unstructured) (cs : list Condition) : list Condition :=
  GenerateCreateCondition cs (targetCon t R) ConditionTrue ConditionReasonTargetSynced
    (sprint ["Target resource '"; nameOf R; "' ("; gvkString R;
             ") successfully synced to cluster '"; t_logClusterName t; "'"]).

(** Why a target is skipped, by what it reads of the world: its own resource
    and its namespace. *)
Definition foreign (R : Unstructured) (obj : Replica) (w : W) (msg : string) : Prop :=
  ∃ o, stored w (t_access t) (objRef R) = Some o ∧ ownedByThis obj o = false ∧
       GetTargetConflictPolicy (t_def t) = TargetConflictPolicySkip ∧
       msg = sprint ["Target resource '"; keyString o; "' ("; gvkString o; ") in cluster '";
                     t_logClusterName t;
                     "' already exists and is not owned by this (Cluster)Replica, skipping"].

Definition namespaceMissing (R : Unstructured) (w : W) (msg : string) : Prop :=
  stored w (t_access t) (objRef R) = None ∧ u_Namespace R ≠ "" ∧
  GetNamespacePolicy (t_def t) = NamespacePolicySkip ∧
  let message what := sprint ["Target namespace '"; u_Namespace R; "' in cluster '";
                              t_logClusterName t; what; ", skipping"] in
  match namespaceIn w (t_access t) (u_Namespace R) with
  | None => msg = message "' does not exist"
  | Some ns => IsZero (ns_DeletionTimestamp ns) = false ∧ msg = message "' is being deleted"
  end.

Definition skipped (R : Unstructured) (obj : Replica) (w : W) (msg : string) : Prop :=
  foreign R obj w msg ∨ namespaceMissing R w msg.

Lemma hwp_failWith {A} con rerr s w (Q : W → rstate → Flow A → Prop) :
  (∀ s', errors s < errors s' → Q w s' Stop) → hwp h (failWith con rerr) s w Q.
Proof.
  intros H. unfold failWith, errsAppend, createCon. do 5 hwp_step. apply H.
  unfold errors. simpl. rewrite omap_app, length_app. simpl. lia.
Qed.

Lemma hwp_skip con st reason msg s w (Q : W → rstate → Flow unit → Prop) :
  Q w (withCondition con st reason msg s) Stop →
  hwp h (createCon con st reason msg ;;; stop)%prog s w Q.
Proof. intros H. unfold createCon. do 3 hwp_step. by apply H. Qed.

Lemma hwp_fetchExisting R s w Q :
  Q w s (Next (stored w (t_access t) (objRef R))) → hwp h (fetchExisting t R) s w Q.
Proof.
  intros HQ. unfold fetchExisting. hwp_step.
  destruct (get_object (t_access t) (u_GVK R) (u_Namespace R) (u_Name R) w) as (r & Hr & Ha).
  eapply hwp_call; [exact Hr|]. change (MkTRef _ _ _) with (objRef R) in Ha. revert Ha HQ.
  destruct (stored w (t_access t) (objRef R)); simpl; [intros ->|intros [err ->]]; intros HQ; by hwp_step.
Qed.

(** A check that lets the target pass, fails, or skips it. *)
Definition checked (R : Unstructured) (s : rstate) (w w' : W) (s' : rstate) (fl : Flow unit) : Prop :=
  match fl with
  | Next _ => s' = s ∧ stored w' = stored w ∧ replicaAt w' = replicaAt w ∧
              (¬ creates → namespaceIn w' = namespaceIn w)
  | Stop => errors s < errors s' ∨
            w' = w ∧ ∃ msg, s' = set_Conditions s (skippedConditions R msg (s_Conditions s)) ∧
                            skipped R (s_Object s) w msg
  | Panic _ => False
  end.

Lemma hwp_skipped R msg s w :
  skipped R (s_Object s) w msg →
  hwp h (createCon (targetCon t R) ConditionTrue ConditionReasonTargetSkipped msg ;;; stop)%prog s w
    (checked R s w).
Proof. intros H. apply hwp_skip. right. split; [done|]. by exists msg. Qed.

Lemma checkOwnership_first R existing s w :
  stored w (t_access t) (objRef R) = Some existing →
  hwp h (checkOwnership t R existing) s w (checked R s w).
Proof.
  intros Hst. unfold checkOwnership, failExists. hwp_step. hwp_step.
  destruct (ownedByThis (s_Object s) existing) eqn:Ho; [by hwp_step|].
  destruct (GetTargetConflictPolicy (t_def t)) eqn:Hp.
  - destruct (negb (IsZero (u_DeletionTimestamp existing)));
      [apply hwp_failWith; intros s' He; by left|].
    destruct (ownedByOther (s_Object s) existing);
      [apply hwp_failWith; intros s' He; by left|by hwp_step].
  - apply hwp_skipped. left. by exists existing.
  - apply hwp_failWith; intros s' He; by left.
  - apply hwp_failWith; intros s' He; by left.
Qed.

Hypothesis creates_policy : GetNamespacePolicy (t_def t) = NamespacePolicyCreate → creates.

Lemma ensureNamespace_first R s w :
  stored w (t_access t) (objRef R) = None →
  hwp h (ensureNamespace t R) s w (checked R s w).
Proof.
  intros Hst. unfold ensureNamespace, skipNamespace, failNamespaceDeleting.
  destruct (String.eqb_spec (u_Namespace R) "") as [|Hns]; [by hwp_step|]. hwp_step.
  destruct (get_namespace (t_access t) (u_Namespace R) w) as (r & Hr & Ha).
  eapply hwp_call; [exact Hr|]. cbv beta iota.
  destruct (namespaceIn w (t_access t) (u_Namespace R)) as [ns|] eqn:Hin; simpl in Ha;
    [subst r|destruct Ha as [err ->]].
  - destruct (IsZero (ns_DeletionTimestamp ns)) eqn:Hz; [by hwp_step|].
    destruct (GetNamespacePolicy (t_def t)) eqn:Hp;
      [apply hwp_failWith; intros s' He; by left| |apply hwp_failWith; intros s' He; by left|by hwp_step].
    apply hwp_skipped. right. unfold namespaceMissing. by rewrite Hin.
  - destruct (GetNamespacePolicy (t_def t)) eqn:Hp.
    + hwp_step. set (e := CreateNamespace (t_access t) (u_Namespace R)).
      destruct (h e w) as [w1 r] eqn:Hc. eapply hwp_call; [exact Hc|]. cbv beta iota.
      destruct r; [apply hwp_failWith; intros s' He; by left|]. hwp_step.
      pose proof (objects_same e w eq_refl) as Hw. pose proof (replicas_same e w eq_refl) as Hrep.
      rewrite Hc in Hw, Hrep. split_and!; [done..|]. intros Hn. by destruct (Hn (creates_policy eq_refl)).
    + apply hwp_skipped. right. unfold namespaceMissing. by rewrite Hin.
    + apply hwp_failWith; intros s' He; by left.
    + by hwp_step.
Qed.

Lemma checkExisting_first R s w : hwp h (checkExisting t R) s w (checked R s w).
Proof.
  unfold checkExisting. hwp_step. apply hwp_fetchExisting. cbv beta iota.
  destruct (stored w (t_access t) (objRef R)) as [o|] eqn:Hst.
  - by apply checkOwnership_first.
  - by apply ensureNamespace_first.
Qed.

Definition isTracked (R : Unstructured) (s : rstate) : Prop :=
  ContainsRaw (u_GVK R) (u_Namespace R) (u_Name R) (clusterStatusRef t) (rep_Replicas (s_Object s)) = true.

(** [s'] is [s] with another object at hand, which only has a longer status list. *)
Definition tracksMore (s s' : rstate) : Prop :=
  s' = set_OldObject (set_Object s (s_Object s')) (s_OldObject s') ∧
  sameRep (s_Object s) (s_Object s') ∧
  grown (rep_Replicas (s_Object s)) (rep_Replicas (s_Object s')).

Lemma trackInStatus_first R s w :
  hwp h (trackInStatus platformCluster t R) s w (λ w' s' fl,
    match fl with
    | Next _ => s_errs s' = s_errs s ∧
                (inSync s w → tracksMore s s' ∧ isTracked R s' ∧ inSync s' w' ∧ stored w' = stored w ∧
                              namespaceIn w' = namespaceIn w)
    | Stop => errors s < errors s'
    | Panic _ => False
    end).
Proof.
  unfold trackInStatus. hwp_step. hwp_step.
  destruct (ContainsRaw _ _ _ _ _) eqn:Hc.
  - hwp_step. split; [done|]. intros Hs. split; [|done]. split; [by destruct s|done].
  - hwp_step. set (obj := rep_set_Replicas _ _). set (e := PatchReplicaStatus platformCluster obj (s_OldObject s)).
    pose proof (status_patch platformCluster obj (s_OldObject s) w kind nn) as Hp.
    pose proof (objects_same e w eq_refl) as Hst. pose proof (namespaces_same e w eq_refl) as Hns.
    unfold e in *. clear e.
    destruct (h (PatchReplicaStatus platformCluster obj (s_OldObject s)) w) as [w1 r] eqn:Hr.
    eapply hwp_call; [exact Hr|]. hwp_step. hwp_step.
    destruct (r.2) as [err|]; [by apply hwp_failWith|]. hwp_step. split; [done|]. intros [Hsync Hold].
    rewrite Hold in Hp. destruct (Hp Hsync eq_refl eq_refl) as [-> Hobj]. simpl.
    split; [split_and!; [done..|apply grown_AddRaw]|]. split; [apply Contains_Add|done].
Qed.

Lemma objRef_mutate R seen target : mutateTarget R seen = Some target → objRef target = objRef seen.
Proof. unfold mutateTarget. destruct (syncLabels _ _); [|done]. by intros [= <-]. Qed.

(** What the server stored of the outcome of the callback is its own outcome. *)
Lemma mutate_stored R target o :
  mutateTarget R target = Some target → sameContents target o → mutateTarget R o = Some o.
Proof.
  intros Hm (Href & Hl & Ha & Hf). unfold mutateTarget in *. rewrite Hl, Hf.
  destruct (syncLabels (u_Labels target) (u_Labels R)) as [labels|]; [|done].
  injection Hm as Hm. f_equal. destruct o, target. unfold u_set_Annotations, u_set_Labels, u_set_Fields in *.
  simpl in *. congruence.
Qed.

(** The copy of a target in the world: it is recognised, and it is what would
    be written again. *)
Definition copyOf (R : Unstructured) (obj : Replica) (o : Unstructured) : Prop :=
  objRef o = objRef R ∧ ownedByThis obj o = true ∧ mutateTarget R o = Some o.

(** The state after the copy [o] has been recorded and reported. *)
Definition synced (R o : Unstructured) (s : rstate) : rstate :=
  let m := default ∅ (s_managed s) in
  let ref := managedResourcesKey t in
  set_Conditions (set_managed s (Some (<[ref := default [] (m !! ref) ++ [o]]> m)))
    (syncedConditions R (s_Conditions s)).

Definition onlyWrote (R : Unstructured) (w w' : W) : Prop :=
  ∀ acc k, (acc, k) ≠ (t_access t, objRef R) → stored w' acc k = stored w acc k.

(** The manifest brings no source namespace label to a copy of a ClusterReplica. *)
Definition noForeignLabel (obj : Replica) (raw : Unstructured) : Prop :=
  rep_Type obj = TClusterReplica →
  map_get (u_Labels raw) ReplicaSourceNamespaceLabel = rep_Namespace obj.

Lemma noForeignLabel_same obj obj2 raw : sameRep obj obj2 → noForeignLabel obj raw → noForeignLabel obj2 raw.
Proof. intros Hrep%sameRep_unfold. rewrite Hrep. done. Qed.

Lemma hwp_synced R o s w (Q : W → rstate → Flow unit → Prop) :
  Q w (synced R o s) (Next tt) →
  hwp h (recordManaged t o ;;;
         createCon (targetCon t R) ConditionTrue ConditionReasonTargetSynced
           (sprint ["Target resource '"; nameOf R; "' ("; gvkString R;
                    ") successfully synced to cluster '"; t_logClusterName t; "'"]))%prog s w Q.
Proof. intros HQ. unfold recordManaged, createCon. by do 3 hwp_step. Qed.

Lemma syncTarget_first raw obj s w :
  let R := setManagementLabels providerName obj raw in
  hwp h (syncTarget t R) s w (λ w' s' fl,
    match fl with
    | Next _ => ∃ o, s' = synced R o s ∧ namespaceIn w' = namespaceIn w ∧
                replicaAt w' = replicaAt w ∧
                (consistent w → onlyWrote R w w' ∧ objRef o = objRef R) ∧
                (consistent w → noForeignLabel obj raw →
                 stored w' (t_access t) (objRef R) = Some o ∧ copyOf R obj o)
    | Stop => errors s < errors s'
    | Panic _ => True
    end).
Proof.
  intros R. unfold syncTarget, failSync. hwp_step.
  eapply hwp_call; [apply cou_read|]. cbv beta iota.
  set (seen := default R (stored w (t_access t) (objRef R))).
  destruct (mutateTarget R seen) as [target|] eqn:Hmut; [|by hwp_step].
  hwp_step. set (e := CouWriteTarget (t_access t) target).
  pose proof (cou_write (t_access t) target w) as Hw. pose proof (objects_frame e w) as Hframe.
  pose proof (namespaces_same e w eq_refl) as Hns. pose proof (replicas_same e w eq_refl) as Hrep.
  unfold e in *. clear e.
  destruct (h (CouWriteTarget (t_access t) target) w) as [w1 [err|o]] eqn:Hr;
    (eapply hwp_call; [exact Hr|]); cbv beta iota; [by apply hwp_failWith|].
  apply hwp_synced. exists o. simpl in Hframe, Hns, Hrep.
  assert (consistent w → objRef target = objRef R) as Hkey.
  { intros Hcons. rewrite (objRef_mutate _ _ _ Hmut). unfold seen.
    destruct (stored w (t_access t) (objRef R)) as [o'|] eqn:Ho; [|done]. by eapply consistent_key. }
  split_and!; try done; intros Hcons; specialize (Hkey Hcons).
  { split; [intros acc k Hne; apply Hframe; rewrite Hkey; congruence|]. by destruct Hw as [_ [-> _]]. }
  destruct Hw as [Hst Hsame]. rewrite Hkey in Hst. intros Hlabel.
  pose proof (mutateTarget_idem R seen (managementLabelsOf providerName obj (default ∅ (u_Labels raw)))
    target eq_refl Hmut) as Hidem.
  split; [exact Hst|]. split; [by destruct Hsame as [-> _]|]. split; [|by eapply mutate_stored].
  destruct (synced_recognised providerName obj raw seen target Hmut) as [_ Hown].
  destruct Hsame as (_ & Hl & _). unfold ownedByThis in *. rewrite Hl, Hown.
  destruct (rep_Type obj) eqn:Hty; [done|]. rewrite (Hlabel Hty). apply String.eqb_refl.
Qed.

(** ** Rendering and conflicts *)

Lemma hwp_failTemplating {A} rerr s w (Q : W → rstate → Flow A → Prop) :
  (∀ s', errors s < errors s' → Q w s' Stop) → hwp h (failTemplating rerr) s w Q.
Proof.
  intros H. unfold failTemplating, errsAppend, createCon. do 5 hwp_step.
  assert (∀ s', s_errs s' = s_errs s ++ [Some rerr] → Q w s' Stop) as HQ.
  { intros s' He. apply H. unfold errors. rewrite He, omap_app, length_app. simpl. lia. }
  destruct (s_templatingErrorSet _); repeat hwp_step; by apply HQ.
Qed.

Lemma hwp_renderTarget tn s w Q :
  match manifestOf t tn s with
  | Some r => Q w s (Next r)
  | None => (∀ s', errors s < errors s' → Q w s' Stop) ∧ ∀ why, Q w s (Panic why)
  end →
  hwp h (renderTarget tmpl t tn) s w Q.
Proof.
  unfold manifestOf, renderTarget, renderTemplate, renderExactCopy. destruct tmpl as [text|].
  - intros HQ. hwp_step. hwp_step. hwp_step. eapply hwp_call; [apply template_execute|]. cbv beta iota.
    hwp_step. hwp_step. cbn [fst snd templateData tdata_Sources].
    replace (set_sources s (s_sources s)) with s by (by destruct s).
    destruct (rendering text (templateData t tn s)) as [err|raw];
      [by apply hwp_failTemplating, HQ|].
    destruct (YamlUnmarshal raw) as [err|u]; [by apply hwp_failTemplating, HQ|]. by hwp_step.
  - intros HQ. hwp_step. hwp_step. destruct (spec_Sources _) as [|src0 srcs]; [hwp_step; by apply HQ|].
    destruct (s_sources s !! src_ID src0) as [src|]; [|hwp_step; by apply HQ].
    destruct (YamlMarshal (exactCopy tn src)) as [err|raw]; [by apply hwp_failWith, HQ|]. by hwp_step.
Qed.

Definition record (rendered : Unstructured) (raw : string) (s : rstate) : rstate :=
  set_conflicts s (<[t_clusterRef t := <[objRef rendered := raw]>
                      (default ∅ (s_conflicts s !! t_clusterRef t))]> (s_conflicts s)).

(** The state after an identical copy has been reported. *)
Definition identical (rendered : Unstructured) (s : rstate) : rstate :=
  withCondition (targetCon t rendered) ConditionTrue ConditionReasonIdenticalCopy identicalCopyMessage s.

Lemma hwp_detectConflict rendered raw s w Q :
  match recordedFor s (t_clusterRef t) (objRef rendered) with
  | None => Q w (record rendered raw s) (Next tt)
  | Some raw' => if String.eqb raw' raw then Q w (identical rendered s) Stop
                 else ∀ s', errors s < errors s' → Q w s' Stop
  end →
  hwp h (detectConflict t rendered raw) s w Q.
Proof.
  unfold detectConflict, recordRendered, recordedFor, record. intros HQ. hwp_step. hwp_step.
  destruct (s_conflicts s !! t_clusterRef t) as [known|] eqn:Hc; simpl in *.
  - rewrite TypedReferenceFromObject_law. change (MkTRef _ _ _) with (objRef rendered).
    destruct (known !! objRef rendered) as [existing|] eqn:Hk; simpl in *; [|by hwp_step].
    destruct (String.eqb existing raw); simpl; [by apply hwp_skip|by apply hwp_failWith].
  - rewrite TypedReferenceFromObject_law. by hwp_step.
Qed.

Lemma recordedFor_record rendered raw s ref k :
  recordedFor (record rendered raw s) ref k =
  if decide (ref = t_clusterRef t ∧ k = objRef rendered) then Some raw else recordedFor s ref k.
Proof. apply recordedFor_insert. Qed.

(** ** The second run of a target *)

Lemma ownedByThis_same obj obj2 o : sameRep obj obj2 → ownedByThis obj2 o = ownedByThis obj o.
Proof. intros H%sameRep_unfold. by rewrite H. Qed.

Lemma setManagementLabels_same obj obj2 u :
  sameRep obj obj2 → setManagementLabels providerName obj2 u = setManagementLabels providerName obj u.
Proof. intros H%sameRep_unfold. by rewrite H. Qed.

(** A copy is found, passes, and is written without a change. *)
Lemma tail_copy_again R obj o s2 wf :
  sameRep obj (s_Object s2) → stored wf (t_access t) (objRef R) = Some o → copyOf R obj o →
  isTracked R s2 →
  hwp h (checkExisting t R ;;; trackInStatus platformCluster t R ;;; syncTarget t R)%prog s2 wf
    (λ w'' s'' fl, w'' = wf ∧ fl = Next tt ∧ s'' = synced R o s2).
Proof.
  intros Hrep Hst (Href & Hown & Hmut) Htr. unfold checkExisting. hwp_step. hwp_step.
  apply hwp_fetchExisting. rewrite Hst. cbv beta iota. unfold checkOwnership. hwp_step. hwp_step.
  rewrite (ownedByThis_same _ _ o Hrep), Hown. hwp_step. hwp_step.
  unfold trackInStatus. hwp_step. hwp_step. unfold isTracked in Htr. rewrite Htr. hwp_step.
  unfold syncTarget. hwp_step. eapply hwp_call; [apply cou_read|].
  cbv beta iota. rewrite Hst. simpl. rewrite Hmut. hwp_step.
  refine (hwp_call h (CouWriteTarget (t_access t) o) s2 wf wf (inr o) _ _ _);
    [apply cou_write_unchanged; by rewrite Href|]. cbv beta iota. by apply hwp_synced.
Qed.

(** What was skipped is skipped again. *)
Lemma skipped_again R obj s2 wf msg (B : KM rstate unit) :
  sameRep obj (s_Object s2) → skipped R obj wf msg →
  hwp h (checkExisting t R ;;; B)%prog s2 wf (λ w'' s'' fl,
    w'' = wf ∧ fl = Stop ∧ s'' = set_Conditions s2 (skippedConditions R msg (s_Conditions s2))).
Proof.
  intros Hrep [(o & Hst & Hown & Hpol & ->)|(Hst & Hns & Hpol & Hin)];
    unfold checkExisting; hwp_step; hwp_step; apply hwp_fetchExisting; rewrite Hst; cbv beta iota.
  - unfold checkOwnership. hwp_step. hwp_step.
    rewrite (ownedByThis_same _ _ o Hrep), Hown, Hpol. by apply hwp_skip.
  - unfold ensureNamespace, skipNamespace.
    destruct (String.eqb_spec (u_Namespace R) "") as [|_]; [done|]. hwp_step.
    destruct (get_namespace (t_access t) (u_Namespace R) wf) as (r & Hr & Ha).
    eapply hwp_call; [exact Hr|]. cbv beta iota.
    cbv zeta in Hin. destruct (namespaceIn wf (t_access t) (u_Namespace R)) as [ns|]; simpl in Ha.
    + destruct Hin as [Hz ->]. subst r. rewrite Hz, Hpol. by apply hwp_skip.
    + subst msg. destruct Ha as [err ->]. rewrite Hpol. by apply hwp_skip.
Qed.

(** ** The first run of a target *)

Hypothesis skip_policy : GetNamespacePolicy (t_def t) = NamespacePolicySkip → ¬ creates.
Hypothesis access_known : t_access t = accessOf (t_clusterRef t).

(** The reference under which a target is tracked is the one under which its
    copy is recorded. *)
Hypothesis tracked_key :
  normalizeCluster (clusterStatusRef t) = normalizeCluster (Some (managedResourcesKey t)).

(** How a first run ends without an error: with a copy in the world, or
    skipped for a reason that the world still shows. *)
Definition settled (R : Unstructured) (s s' : rstate) (w' : W) (fl : Flow unit) : Prop :=
  match fl with
  | Next _ => ∃ o, stored w' (t_access t) (objRef R) = Some o ∧ copyOf R (s_Object s) o ∧
                   s_managed s' = s_managed (synced R o s) ∧
                   s_Conditions s' = s_Conditions (synced R o s)
  | Stop => ∃ msg, s_managed s' = s_managed s ∧
                   s_Conditions s' = skippedConditions R msg (s_Conditions s) ∧
                   skipped R (s_Object s) w' msg
  | Panic _ => False
  end.

Record tailKept (R : Unstructured) (s : rstate) (w : W) (s' : rstate) (w' : W) : Prop := {
  tk_object : sameRep (s_Object s) (s_Object s');
  tk_status : grown (rep_Replicas (s_Object s)) (rep_Replicas (s_Object s'));
  tk_sources : s_sources s' = s_sources s;
  tk_conflicts : s_conflicts s' = s_conflicts s;
  tk_managed : ∀ ref o, o ∈ managedAt s ref → o ∈ managedAt s' ref;
  tk_determined : is_Some (s_managed s) → is_Some (s_managed s');
  tk_tracked : tracksManaged s s → tracksManaged s' s';
  tk_conditions : s_Conditions s `prefix_of` s_Conditions s';
  tk_reported : reportedOn s' (t_clusterRef t) (objRef R);
  tk_namespaces : ¬ creates → namespaceIn w' = namespaceIn w;
  tk_stored : onlyWrote R w w';
  tk_sync : inSync s' w' }.

Lemma managedAt_synced R o s ref o' :
  o' ∈ managedAt (synced R o s) ref ↔
  o' ∈ managedAt s ref ∨ ref = managedResourcesKey t ∧ o' = o.
Proof.
  unfold managedAt, synced. simpl. destruct (decide (ref = managedResourcesKey t)) as [->|Hne].
  - rewrite lookup_insert_eq. simpl. rewrite elem_of_app, list_elem_of_singleton.
    destruct (s_managed s); simpl; [naive_solver|]. rewrite lookup_empty. simpl. set_solver.
  - rewrite lookup_insert_ne by done. destruct (s_managed s); simpl; [naive_solver|].
    rewrite lookup_empty. simpl. set_solver.
Qed.

Lemma tracksManaged_synced R o s :
  objRef o = objRef R → isTracked R s → tracksManaged s s → tracksManaged (synced R o s) (synced R o s).
Proof.
  intros Href Htr Hs ref o' Ho. change (rep_Replicas (s_Object (synced R o s))) with (rep_Replicas (s_Object s)).
  apply managedAt_synced in Ho as [Hin|[-> ->]]; [by apply Hs|].
  unfold isTracked, ContainsRaw in *. rewrite <- tracked_key. unfold objRef in Href.
  injection Href as -> -> ->. exact Htr.
Qed.

Lemma reportedOn_new s s' con st reason msg R :
  con = targetCon t R → s_Conditions s' = GenerateCreateCondition (s_Conditions s) con st reason msg →
  s_Conditions s `prefix_of` s_Conditions s' ∧ reportedOn s' (t_clusterRef t) (objRef R).
Proof.
  intros -> Hc. unfold reportedOn. rewrite Hc, GenerateCreateCondition_law. split; [by eexists|].
  rewrite fmap_app. apply elem_of_app. right. simpl. apply list_elem_of_singleton.
  unfold targetCon. by rewrite TypedReferenceFromObject_law.
Qed.

Lemma tail_first raw s w :
  let R := setManagementLabels providerName (s_Object s) raw in
  hwp h (checkExisting t R ;;; trackInStatus platformCluster t R ;;; syncTarget t R)%prog s w
    (λ w' s' fl,
      match fl with
      | Panic _ => True
      | _ => errors s < errors s' ∨ s_errs s' = s_errs s ∧
             (consistent w → inSync s w →
              tailKept R s w s' w' ∧ (noForeignLabel (s_Object s) raw → settled R s s' w' fl))
      end).
Proof.
  intros R. hwp_step. eapply hwp_mono; [|apply hwp_consistent, checkExisting_first].
  intros w1 s1 [[]| |why] [H1 Hw1]; [|destruct H1 as [?|(-> & msg & -> & Hskip)]|done].
  - destruct H1 as (-> & Hst1 & Hrep1 & Hns1). hwp_step.
    eapply hwp_mono; [|apply hwp_consistent, trackInStatus_first].
    intros w2 s2 [[]| |why] [H2 Hw2]; [|by left|done]. destruct H2 as [He2 H2].
    eapply hwp_mono; [|apply (syncTarget_first raw (s_Object s))].
    intros w3 s3 [[]| |why] H3; [|left; unfold errors in *; congruence|done].
    destruct H3 as (o & -> & Hns3 & Hrep3 & Honly & H3).
    right. split; [by simpl|]. intros Hw Hsync. specialize (Hw2 (Hw1 Hw)).
    destruct H2 as ((Heq2 & Hobj2 & Hgr2) & Htr2 & [Hs2 Hold2] & Hst2 & Hns2).
    { unfold inSync. by rewrite Hrep1. }
    destruct (reportedOn_new s2 (synced R o s2) _ _ _ _ R eq_refl eq_refl) as [Hpre Hreported].
    assert (s_Conditions s2 = s_Conditions s ∧ s_managed s2 = s_managed s ∧
            s_sources s2 = s_sources s ∧ s_conflicts s2 = s_conflicts s) as (Hc2 & Hm2 & Hsrc2 & Hcon2)
      by by rewrite Heq2.
    split.
    + split; try done.
      * intros ref o' Ho. apply managedAt_synced. left. unfold managedAt in *. by rewrite Hm2.
      * intros Htr. apply tracksManaged_synced; [by apply Honly|done|].
        intros ref o' Ho. unfold managedAt in Ho. rewrite Hm2 in Ho.
        apply (grown_keeps (λ l, ContainsRaw (u_GVK o') (u_Namespace o') (u_Name o') (Some ref) l = true)
                 _ _ (λ _ _ _ _ _, Contains_Add_mono _ _ _ _ _) Hgr2), Htr, Ho.
      * by rewrite <- Hc2.
      * intros Hc. rewrite Hns3, Hns2. by apply Hns1.
      * intros acc k Hne. destruct (Honly Hw2) as [Ho _]. by rewrite Ho, Hst2, Hst1.
      * split; [by rewrite Hrep3|done].
    + intros Hlabel. destruct (H3 Hw2 Hlabel) as (Ho & Hcopy). exists o.
      unfold synced. simpl. rewrite Hm2, Hc2. by split_and!.
  - by left.
  - right. split; [done|]. intros _ Hsync. split; [|by exists msg].
    destruct (reportedOn_new s (set_Conditions s (skippedConditions R msg (s_Conditions s))) _ _ _ _ R
      eq_refl eq_refl) as [Hpre Hreported]. by split.
Qed.

Lemma recorded_ref rendered raw s :
  recordedFor (record rendered raw s) (t_clusterRef t) (objRef rendered) = Some raw.
Proof. rewrite recordedFor_record. by rewrite decide_True. Qed.

Lemma extends_record rendered raw s :
  recordedFor s (t_clusterRef t) (objRef rendered) = None → extends s (record rendered raw s).
Proof.
  intros Hn ref k r Hr. rewrite recordedFor_record. case_decide as Heq; [|done].
  destruct Heq as [-> ->]. congruence.
Qed.

(** What the first run of a target keeps. *)
Lemma target_kept rendered raw s w s' w' :
  let s1 := record rendered raw s in
  recordedFor s (t_clusterRef t) (objRef rendered) = None →
  tailKept (setManagementLabels providerName (s_Object s) rendered) s1 w s' w' →
  kept s w s' w'.
Proof.
  intros s1 Hnone [Hobj Hgr Hsrc Hcon Hm Hd Ht Hc Hr Hns Honly Hsync]. split; try done.
  - intros Hall ref k Hk. unfold recordedFor in Hk. rewrite Hcon in Hk.
    fold (recordedFor s1 ref k) in Hk. unfold s1 in Hk. rewrite recordedFor_record in Hk.
    case_decide as Heq; [by destruct Heq as [-> ->]|]. destruct Hc as [cs Hc].
    unfold reportedOn. rewrite Hc, fmap_app. apply elem_of_app. left. by apply Hall.
  - intros ref k r Hr'. unfold recordedFor. rewrite Hcon. by apply extends_record.
  - intros ref k [r Hr']. apply Honly. rewrite access_known. intros [= Ha ->].
    apply accessOf_inj in Ha as ->. change (objRef (setManagementLabels _ _ _)) with (objRef rendered) in Hr'.
    congruence.
Qed.

(** The second run of a target that the first run has settled. *)
Lemma target_again tn rendered raw s w s' w' fl :
  let s1 := record rendered raw s in
  recordedFor s (t_clusterRef t) (objRef rendered) = None →
  manifestOf t tn s = Some (rendered, raw) →
  tailKept (setManagementLabels providerName (s_Object s) rendered) s1 w s' w' →
  settled (setManagementLabels providerName (s_Object s) rendered) s1 s' w' fl →
  again (handleTarget providerName platformCluster tmpl t tn) s s' w' fl.
Proof.
  intros s1 Hnone Hman Htk Hset s2 wf _ Hsim Htrack [Hns2 Hag].
  pose proof Hsim as (Hrep2 & Hsrc2 & Hcon2 & Hmg2 & Hc2).
  pose proof (tk_conflicts _ _ _ _ _ Htk) as Hcon.
  set (R := setManagementLabels providerName (s_Object s) rendered) in *.
  assert (stored wf (t_access t) (objRef R) = stored w' (t_access t) (objRef R)) as Hst.
  { rewrite access_known. apply Hag; [done|]. exists raw. unfold recordedFor. rewrite Hcon.
    apply (recorded_ref rendered). }
  assert (recordedFor s2 (t_clusterRef t) (objRef rendered) = None) as Hnone2
    by (unfold recordedFor in *; by rewrite Hcon2).
  unfold handleTarget. hwp_step. apply hwp_renderTarget.
  rewrite (manifestOf_same t tn s s2), Hman by done. hwp_step.
  apply hwp_detectConflict. rewrite Hnone2. hwp_step. hwp_step.
  assert (setManagementLabels providerName (s_Object (record rendered raw s2)) rendered = R) as ->
    by by apply setManagementLabels_same.
  assert (s_conflicts (record rendered raw s2) = s_conflicts s') as Hrec
    by (rewrite Hcon; unfold s1, record; simpl; by rewrite Hcon2).
  destruct fl as [[]| |why]; [| |done].
  - destruct Hset as (o & Ho & Hcopy & Hm & Hc). eapply hwp_mono; [|apply (tail_copy_again R (s_Object s) o)].
    + intros w'' s'' fl (-> & -> & ->). split; [done|]. split; [done|].
      unfold repeated. rewrite Hm, Hc, <- Hrec. unfold synced, s1, record. simpl.
      by rewrite Hmg2, Hc2.
    + exact Hrep2.
    + by rewrite Hst.
    + exact Hcopy.
    + assert (o ∈ managedAt s' (managedResourcesKey t)) as Hin.
      { unfold managedAt. rewrite Hm. apply (managedAt_synced R o s1). by right. }
      apply Htrack in Hin. destruct Hcopy as (Href & _). unfold isTracked, ContainsRaw in *.
      rewrite tracked_key. unfold objRef in Href. injection Href as Hg Hn Hname.
      change (u_GVK R) with (u_GVK rendered). change (u_Namespace R) with (u_Namespace rendered).
      change (u_Name R) with (u_Name rendered). by rewrite <- Hg, <- Hn, <- Hname.
  - destruct Hset as (msg & Hm & Hc & Hskip). eapply hwp_mono; [|apply (skipped_again R (s_Object s) _ wf msg)].
    + intros w'' s'' fl (-> & -> & ->). split; [done|]. split; [done|].
      unfold repeated. rewrite Hm, Hc, <- Hrec. unfold s1, record. simpl. rewrite <- Hmg2, <- Hc2.
      by destruct s2.
    + exact Hrep2.
    + destruct Hskip as [(o & Ho & Hf)|(Ho & Hns' & Hpol & Hin)].
      * left. exists o. by rewrite Hst.
      * right. split; [by rewrite Hst|]. split; [done|]. split; [done|].
        by rewrite Hns2 by by apply skip_policy.
Qed.

(** An identical copy is skipped again. *)
Lemma identical_again tn rendered raw s w' :
  manifestOf t tn s = Some (rendered, raw) →
  recordedFor s (t_clusterRef t) (objRef rendered) = Some raw →
  again (handleTarget providerName platformCluster tmpl t tn) s (identical rendered s) w' Stop.
Proof.
  intros Hman Hrec s2 wf _ Hsim _ _. pose proof Hsim as (Hrep2 & Hsrc2 & Hcon2 & Hmg2 & Hc2).
  unfold handleTarget. hwp_step. apply hwp_renderTarget.
  rewrite (manifestOf_same t tn s s2), Hman by done. hwp_step. apply hwp_detectConflict.
  assert (recordedFor s2 (t_clusterRef t) (objRef rendered) = Some raw) as ->
    by (unfold recordedFor in *; by rewrite Hcon2).
  rewrite String.eqb_refl. split; [done|]. split; [done|]. by apply repeated_withCondition.
Qed.

Lemma handleTarget_converges tn : converges (handleTarget providerName platformCluster tmpl t tn).
Proof.
  intros s w Hw. unfold handleTarget. hwp_step. apply hwp_renderTarget.
  destruct (manifestOf t tn s) as [[rendered raw]|] eqn:Hman.
  2: { split; [|done]. intros s' He. split; [lia|]. intros _ Hle. lia. }
  hwp_step. apply hwp_detectConflict.
  destruct (recordedFor s (t_clusterRef t) (objRef rendered)) as [raw'|] eqn:Hrec.
  - destruct (String.eqb_spec raw' raw) as [->|_].
    + split; [done|]. intros Hsync _. split; [by apply kept_withCondition|].
      intros _. by apply (identical_again tn rendered raw).
    + intros s' He. split; [lia|]. intros _ Hle. lia.
  - hwp_step. hwp_step. set (s1 := record rendered raw s).
    eapply hwp_mono; [|by apply tail_first].
    set (R := setManagementLabels providerName (s_Object s1) rendered).
    assert (∀ w' s' fl, errors s1 < errors s' ∨ s_errs s' = s_errs s1 ∧
              (consistent w → inSync s1 w → tailKept R s1 w s' w' ∧
                              (noForeignLabel (s_Object s1) rendered → settled R s1 s' w' fl)) →
            errors s ≤ errors s' ∧
            (inSync s w → errors s' ≤ errors s → kept s w s' w' ∧
              (recognisable s → again (handleTarget providerName platformCluster tmpl t tn) s s' w' fl))) as Hdone.
    { intros w' s' fl [He|[He Ht]].
      - unfold errors, s1 in *. simpl in He. split; [lia|]. intros. lia.
      - split; [unfold errors; by rewrite He|]. intros Hsync _. destruct (Ht Hw Hsync) as [Hk Hset].
        split; [by eapply target_kept|]. intros Hr.
        assert (noForeignLabel (s_Object s1) rendered) as Hl by (intros Hty; by apply (Hr Hty t tn _ raw)).
        by eapply target_again; [| |apply Hk|apply Hset]. }
    intros w' s' [[]| |why] H; [by apply Hdone..|done].
Qed.

End Target.
(** ** The loops over clusters and target definitions *)

Variable clusterList : list Cluster.

Definition listed (c : option Cluster) : Prop :=
  match c with Some c => c ∈ clusterList | None => True end.

(** The provider gives the access of a cluster under its name. *)
Hypothesis provider_access : ∀ c access,
  listed c → providerAccess (ClusterNameFromCluster c) = inr access → access = accessOf (clusterRefOf c).

(** A selector that has to look at the namespaces. *)
Definition selectsByLabels (td : TargetDefinition) : Prop :=
  ∃ sel, td_Namespace td ≫= ntd_Selector = Some sel ∧ MatchIdentities sel = None.

(** A target definition whose outcome does not depend on what the others do:
    its copies are not next to a cluster, and it does not look at namespaces
    when namespaces may be created. *)
Definition steadyDef (td : TargetDefinition) : Prop :=
  isNextTo td = false ∧
  (GetNamespacePolicy td = NamespacePolicyCreate → creates) ∧
  (GetNamespacePolicy td = NamespacePolicySkip ∨ selectsByLabels td → ¬ creates).

Lemma converges_errsAppend e : converges (errsAppend (Some e)).
Proof.
  intros s w _. unfold errsAppend. hwp_step. unfold errors. simpl. rewrite omap_app, length_app. simpl.
  split; [lia|]. intros. lia.
Qed.

Lemma selectNamespaces_converges sel name items : converges (selectNamespaces sel name items).
Proof.
  induction items as [|ns items IH]; simpl; [apply converges_ret|].
  destruct (NamespaceSelection.Matches (Some sel) ns) as [err|ok].
  - apply converges_bind; [apply converges_errsAppend|done].
  - apply converges_bind; [done|]. intros names. apply converges_ret.
Qed.

(** Calls that only read, and answer the same in the second run. *)
Lemma converges_read {A} e (f : Resp e → KM rstate A) :
  (∀ w, consistent w → ∃ r, h e w = (w, r) ∧
     ∀ w', consistent w' → (¬ creates → namespaceIn w' = namespaceIn w) → h e w' = (w', r)) →
  (∀ r, converges (f r)) → converges (bind (call e) f).
Proof.
  intros He Hf s w Hw. destruct (He w Hw) as (r & Hr & Hagain). hwp_step.
  eapply hwp_call; [exact Hr|]. cbv beta iota. eapply hwp_mono; [|by apply (Hf r s w)].
  assert (∀ w' s' fl,
    errors s ≤ errors s' ∧
    (inSync s w → errors s' ≤ errors s →
     kept s w s' w' ∧ (recognisable s → again (f r) s s' w' fl)) →
    errors s ≤ errors s' ∧
    (inSync s w → errors s' ≤ errors s →
     kept s w s' w' ∧ (recognisable s → again (bind (call e) f) s s' w' fl))) as Hgoal.
  { intros w' s' fl [Hle H]. split; [done|]. intros Hsync Hle'. destruct (H Hsync Hle') as [Hk Ha].
    split; [done|]. intros Hrec s2 wf Hwf Hsim Hcov Hag. hwp_step.
    assert (h e wf = (wf, r)) as Hr2.
    { apply Hagain; [done|]. intros Hc. destruct Hag as [-> _]; [|done]. by apply Hk. }
    eapply hwp_call; [exact Hr2|]. cbv beta iota. by apply Ha. }
  intros w' s' [a| |why] H; [by apply Hgoal..|done].
Qed.

Section Cluster.
Variable td : TargetDefinition.
Hypothesis td_steady : steadyDef td.

Lemma resolveTarget_converges c : converges (resolveTarget platformCluster td c (ClusterNameFromCluster c)).
Proof.
  destruct td_steady as (Hnext & _ & Hsel). unfold resolveTarget. rewrite Hnext.
  apply converges_read.
  { intros w Hw. eexists. split; [by apply provider_get|]. intros w' Hw' _. by apply provider_get. }
  intros [err|access]; [apply converges_failWith|].
  destruct (td_Namespace td ≫= ntd_Selector) as [sel|] eqn:Hs; [|apply converges_ret].
  destruct (MatchIdentities sel) as [ids|] eqn:Hid; [apply converges_ret|].
  apply converges_read.
  { intros w Hw. destruct (list_namespaces access w) as (r & Hr & Hagain). exists r.
    split; [done|]. intros w' _ Hns. apply Hagain, Hns, Hsel. right. by exists sel. }
  intros [err|items]; [apply converges_failWith|].
  apply converges_bind; [apply selectNamespaces_converges|]. intros names. apply converges_ret.
Qed.

Lemma resolveTarget_access c s w :
  listed c → consistent w →
  hwp h (resolveTarget platformCluster td c (ClusterNameFromCluster c)) s w
    (λ _ _ fl, ∀ r, fl = Next r → r.1 = accessOf (clusterRefOf c)).
Proof.
  intros Hc Hw. destruct td_steady as (Hnext & _ & _). unfold resolveTarget. rewrite Hnext. hwp_step.
  eapply hwp_call; [by apply provider_get|]. cbv beta iota.
  destruct (providerAccess (ClusterNameFromCluster c)) as [err|access] eqn:Hacc;
    [by apply hwp_failWith|].
  apply provider_access in Hacc as ->; [|done].
  destruct (td_Namespace td ≫= ntd_Selector) as [sel|]; [|hwp_step; by intros r [= <-]].
  destruct (MatchIdentities sel); [hwp_step; by intros r [= <-]|]. hwp_step.
  destruct (list_namespaces (accessOf (clusterRefOf c)) w) as (r & Hr & _).
  eapply hwp_call; [exact Hr|]. cbv beta iota.
  destruct r as [err|items]; [by apply hwp_failWith|]. hwp_step.
  eapply hwp_mono; [|by apply selectNamespaces_converges].
  intros w' s' [names| |why] _; [|done..]. hwp_step. by intros r [= <-].
Qed.

Lemma handleCluster_converges c :
  listed c → converges (handleCluster providerName platformCluster tmpl td c).
Proof.
  intros Hc. unfold handleCluster. destruct (clusterInDeletion c); [apply converges_stop|].
  apply (converges_bind_post (λ r, r.1 = accessOf (clusterRefOf c)));
    [by intros s w Hw; apply resolveTarget_access|apply resolveTarget_converges|].
  intros [access names] Hacc. simpl in Hacc. apply converges_bind.
  - apply converges_for_each. intros tn _. destruct td_steady as (Hnext & Hcreate & Hskip).
    apply handleTarget_converges; simpl; [done| |done|].
    + intros Hp. apply Hskip. by left.
    + unfold clusterStatusRef, managedResourcesKey. simpl. rewrite Hnext. by destruct c.
  - intros []. apply converges_createCon.
Qed.

Lemma handleTargetDef_converges :
  converges (handleTargetDef providerName platformCluster clusterList tmpl td).
Proof.
  apply converges_for_each. intros c Hc. apply handleCluster_converges. unfold matchedClusters in Hc.
  destruct (td_Cluster td); [|by apply list_elem_of_singleton in Hc as ->].
  apply list_elem_of_fmap in Hc as (c' & -> & Hc'). simpl. by apply elem_of_filterb in Hc' as [? _].
Qed.

End Cluster.

Lemma targets_converge targets :
  (∀ td, td ∈ targets → steadyDef td) →
  converges (for_each targets (handleTargetDef providerName platformCluster clusterList tmpl)).
Proof.
  intros H. apply converges_for_each. intros td Htd. by apply handleTargetDef_converges, H.
Qed.

End Convergence.

(** ** What is assumed of the target definitions *)

(** The target definitions do not interfere: no copies next to clusters, and
    when one of them creates namespaces, none looks at namespaces otherwise. *)
Definition steady (targets : list TargetDefinition) : Prop :=
  ∀ td, td ∈ targets →
    steadyDef (∃ td', td' ∈ targets ∧ GetNamespacePolicy td' = NamespacePolicyCreate) td.

