(* ===== verification/Quiescence.v ===== *)
(** * The second run of handleCreateOrUpdate

    [handleCreateOrUpdate] as a whole against an honest server: when a first
    run reports no error, a second run that starts from the stored object reads
    the same sources, determines the same managed resources, reports the same
    conditions and changes nothing.  The loop over the target definitions is
    the subject of [Convergence]; here are the steps around it. *)

From S2P Require Import Prelude GoLib ApiTypes External Effects Kube.
From S2P Require Import StatusList ConditionNames ReplicaState ReplicaTarget ReplicaCreateOrUpdate.
From S2P Require Import OutcomeProperties HonestServer Convergence.

Section Quiescence.
Context `{X : Ext} {XL : ExtLaws X}.
Context {W : Type} {h : ∀ e : Req, W → W * Resp e} `{!HonestServer h}.
Variables (providerName : string) (platformCluster : Access) (clusterList : list Cluster).
Variables (kind : ReplicaType) (nn : NamespacedName).

#[local] Abbreviation inSync := (inSync (h := h) platformCluster kind nn).

(** ** The finalizer *)

Lemma hwp_returnWith {A} con rerr s w (Q : W → rstate → Flow A → Prop) :
  (∀ s', s_ReconcileError s' ≠ None → Q w s' Stop) → hwp h (returnWith con rerr) s w Q.
Proof. intros H. unfold returnWith, createCon. do 5 hwp_step. by apply H. Qed.

(** The state with other finalizers on the object. *)
Definition finalized (fs : list string) (s : rstate) : rstate :=
  let obj := rep_set_Finalizers fs (s_Object s) in set_OldObject (set_Object s obj) obj.

Lemma finalized_same s w : inSync s w → finalized (rep_Finalizers (s_Object s)) s = s.
Proof. intros [_ Hold]. unfold finalized. destruct s as [[] ?]. simpl in *. by rewrite Hold. Qed.

Lemma ensureFinalizer_first s w :
  inSync s w →
  hwp h (ensureFinalizer platformCluster) s w (λ w' s' fl,
    match fl with
    | Next _ => stored w' = stored w ∧ inSync s' w' ∧
                ∃ fs, ReplicaFinalizer ∈ fs ∧ s' = finalized fs s
    | Stop => s_ReconcileError s' ≠ None
    | Panic _ => True
    end).
Proof.
  intros Hs. pose proof Hs as [Hsync Hold]. unfold ensureFinalizer. hwp_step. hwp_step. rewrite AddFinalizer_law.
  destruct (decide (ReplicaFinalizer ∈ rep_Finalizers (s_Object s))) as [Hin|Hout];
    cbv beta iota; hwp_step; hwp_step.
  - hwp_step. replace (set_Object s _) with s by (by destruct s as [[]]). split; [done|].
    split; [done|]. eexists. split; [exact Hin|]. symmetry. by eapply finalized_same.
  - hwp_step. hwp_step. hwp_step. cbn [s_Object s_OldObject set_Object].
    set (obj := rep_set_Finalizers _ _).
    pose proof (replica_patch platformCluster obj (s_OldObject s) w kind nn) as Hp.
    pose proof (objects_same (PatchReplica platformCluster obj (s_OldObject s)) w eq_refl) as Hst.
    destruct (h (PatchReplica platformCluster obj (s_OldObject s)) w) as [w1 r] eqn:Hr.
    eapply hwp_call; [exact Hr|]. hwp_step. hwp_step.
    destruct (r.2) as [err|]; [by apply hwp_returnWith|]. hwp_step.
    rewrite Hold in Hp. destruct (Hp Hsync eq_refl eq_refl) as [-> Hobj].
    split; [done|]. split; [done|]. exists (rep_Finalizers (s_Object s) ++ [ReplicaFinalizer]).
    split; [|by destruct s]. apply elem_of_app. right. by left.
Qed.

Lemma ensureFinalizer_again s w Q :
  ReplicaFinalizer ∈ rep_Finalizers (s_Object s) → Q w s (Next tt) →
  hwp h (ensureFinalizer platformCluster) s w Q.
Proof.
  intros Hin HQ. unfold ensureFinalizer. hwp_step. hwp_step. rewrite AddFinalizer_law, decide_True by done.
  cbv beta iota. hwp_step. hwp_step. hwp_step.
  replace (set_Object s _) with s; [done|]. destruct s as [[]]. done.
Qed.

(** ** The template and the sources *)

Definition parsed (spec : ReplicaSpec) : option (option string) :=
  match spec_Template spec with
  | Some text => match TemplateParse text with Some _ => None | None => Some (Some text) end
  | None => if Nat.ltb 1 (length (spec_Sources spec)) then None else Some None
  end.

Lemma parsed_template spec tmpl : parsed spec = Some tmpl → tmpl = spec_Template spec.
Proof.
  unfold parsed. destruct (spec_Template spec); [destruct (TemplateParse _)|case_match]; congruence.
Qed.

Lemma hwp_parseTemplate s w (Q : W → rstate → Flow (option string) → Prop) :
  match parsed (rep_Spec (s_Object s)) with
  | Some tmpl => Q w s (Next tmpl)
  | None => ∀ s', s_ReconcileError s' ≠ None → Q w s' Stop
  end → hwp h parseTemplate s w Q.
Proof.
  unfold parsed, parseTemplate. intros HQ. hwp_step. hwp_step.
  destruct (spec_Template _) as [text|].
  - destruct (TemplateParse text); [by apply hwp_returnWith|by hwp_step].
  - destruct (Nat.ltb _ _); [by apply hwp_returnWith|by hwp_step].
Qed.

(** What reading the sources one after the other yields: the sources and the
    conditions that report them. *)
Fixpoint fetched (w : W) (srcs : list ReferenceWithID)
    (r : gmap string Unstructured * list Condition) : option (gmap string Unstructured * list Condition) :=
  match srcs with
  | [] => Some r
  | src :: srcs =>
      match stored w platformCluster (src_Ref src) with
      | Some o =>
          fetched w srcs
            (<[src_ID src := o]> r.1,
             GenerateCreateCondition r.2 (SourceCondition (src_Ref src)) ConditionTrue
               ConditionReasonSourceRead
               (sprint ["Source resource '"; namespacedName (u_Namespace o) (u_Name o); "' (id: ";
                        src_ID src; ") successfully read"]))
      | None => None
      end
  end.

Lemma fetched_ext w w' srcs r :
  (∀ src, src ∈ srcs → stored w' platformCluster (src_Ref src) = stored w platformCluster (src_Ref src)) →
  fetched w' srcs r = fetched w srcs r.
Proof.
  revert r. induction srcs as [|src srcs IH]; intros r H; simpl; [done|].
  rewrite H by by left. destruct (stored w _ _); [|done]. apply IH. intros src' Hs. apply H. by right.
Qed.

Definition withSources (r : gmap string Unstructured * list Condition) (s : rstate) : rstate :=
  set_Conditions (set_sources s r.1) r.2.

Lemma hwp_fetchSources srcs s w (Q : W → rstate → Flow unit → Prop) :
  match fetched w srcs (s_sources s, s_Conditions s) with
  | Some r => Q w (withSources r s) (Next tt)
  | None => ∀ s', s_ReconcileError s' ≠ None → Q w s' Stop
  end →
  hwp h (for_each_return srcs (fetchSource platformCluster)) s w Q.
Proof.
  revert s. induction srcs as [|src srcs IH]; intros s HQ; simpl in *.
  { hwp_step. by destruct s. }
  unfold fetchSource. hwp_step. hwp_step. set (ref := src_Ref src) in *.
  destruct (get_object platformCluster (tref_GVK ref) (tref_Namespace ref) (tref_Name ref) w)
    as (r & Hr & Ha).
  replace (MkTRef _ _ _) with ref in Ha by (by destruct ref).
  eapply hwp_call; [exact Hr|]. cbv beta iota zeta.
  destruct (stored w platformCluster ref) as [o|]; simpl in Ha;
    [subst r|destruct Ha as [err ->]; by apply hwp_returnWith].
  hwp_step. hwp_step. unfold createCon. hwp_step. by apply IH.
Qed.

(** ** The whole function *)

(** The steps before the loop over the target definitions: for a first and a
    second run. *)
Definition prologue {A} (k : option string → KM rstate A) : KM rstate A :=
  (ensureFinalizer platformCluster ;;;
   let! tmpl := parseTemplate in
   fetchSources platformCluster ;;;
   createCon ConditionTypeMeta ConditionTrue "" "" ;;;
   modify (λ s, set_managed s (Some ∅)) ;;;
   k tmpl)%prog.

(** The state in which the loop starts. *)
Definition begun (r : gmap string Unstructured * list Condition) (s : rstate) : rstate :=
  set_managed (withCondition ConditionTypeMeta ConditionTrue "" "" (withSources r s)) (Some ∅).

Lemma prologue_middle {A} (k : option string → KM rstate A) s w (Q : W → rstate → Flow A → Prop) :
  let spec := rep_Spec (s_Object s) in
  (∀ r, parsed spec = Some (spec_Template spec) →
        fetched w (spec_Sources spec) (s_sources s, s_Conditions s) = Some r →
        hwp h (k (spec_Template spec)) (begun r s) w Q) →
  (∀ s', s_ReconcileError s' ≠ None → Q w s' Stop) →
  hwp h (let! tmpl := parseTemplate in
         fetchSources platformCluster ;;;
         createCon ConditionTypeMeta ConditionTrue "" "" ;;;
         modify (λ s, set_managed s (Some ∅)) ;;;
         k tmpl)%prog s w Q.
Proof.
  intros spec Hk HS. hwp_step. apply hwp_parseTemplate. fold spec.
  destruct (parsed spec) as [tmpl|] eqn:Hparsed; [|exact HS].
  pose proof (parsed_template _ _ Hparsed) as ->. hwp_step. unfold fetchSources. hwp_step. hwp_step.
  apply hwp_fetchSources. fold spec.
  destruct (fetched w _ _) as [r|] eqn:Hf; [|exact HS].
  hwp_step. unfold createCon. hwp_step. hwp_step. hwp_step. by apply Hk.
Qed.

Lemma prologue_first {A} (k : option string → KM rstate A) s w (Q : W → rstate → Flow A → Prop) :
  let spec := rep_Spec (s_Object s) in
  inSync s w →
  (∀ fs r w', stored w' = stored w → (consistent w → consistent w') → inSync (finalized fs s) w' →
     ReplicaFinalizer ∈ fs → parsed spec = Some (spec_Template spec) →
     fetched w (spec_Sources spec) (s_sources s, s_Conditions s) = Some r →
     hwp h (k (spec_Template spec)) (begun r (finalized fs s)) w' Q) →
  (∀ w' s', s_ReconcileError s' ≠ None → Q w' s' Stop) → (∀ w' s' why, Q w' s' (Panic why)) →
  hwp h (prologue k) s w Q.
Proof.
  intros spec Hs Hk HS HP. unfold prologue. hwp_step.
  eapply hwp_mono; [|by apply hwp_consistent, ensureFinalizer_first].
  intros w1 s1 [[]| |why] [H1 Hw1]; [|by apply HS|apply HP].
  destruct H1 as (Hst & Hsync & fs & Hfin & ->). apply prologue_middle; [|apply HS].
  intros r Hparsed Hf. apply Hk; try done. rewrite <- Hf. symmetry. apply fetched_ext. by rewrite Hst.
Qed.

Lemma prologue_again {A} (k : option string → KM rstate A) s w r Q :
  let spec := rep_Spec (s_Object s) in
  ReplicaFinalizer ∈ rep_Finalizers (s_Object s) →
  parsed spec = Some (spec_Template spec) →
  fetched w (spec_Sources spec) (s_sources s, s_Conditions s) = Some r →
  hwp h (k (spec_Template spec)) (begun r s) w Q →
  hwp h (prologue k) s w Q.
Proof.
  intros spec Hfin Hparsed Hf Hk. unfold prologue. hwp_step. apply ensureFinalizer_again; [done|].
  hwp_step. apply hwp_parseTemplate. fold spec. rewrite Hparsed. hwp_step. unfold fetchSources. hwp_step.
  hwp_step. apply hwp_fetchSources. fold spec. rewrite Hf. hwp_step. unfold createCon. by do 3 hwp_step.
Qed.

Definition loop (tmpl : option string) : KM rstate unit :=
  (let! s := get in
   for_each (spec_Targets (rep_Spec (s_Object s)))
     (handleTargetDef providerName platformCluster clusterList tmpl) ;;;
   finishCreateOrUpdate)%prog.

Lemma handleCreateOrUpdate_prologue :
  handleCreateOrUpdate providerName platformCluster clusterList = prologue loop.
Proof. done. Qed.

Definition concludedState (s : rstate) (rem : list string) : rstate :=
  set_ReconcileError (set_ConditionsToRemove s rem) (Aggregate (s_errs s)).

Lemma hwp_finish s w (Q : W → rstate → Flow unit → Prop) :
  (∀ rem, Q w (concludedState s rem) (Next tt)) → hwp h finishCreateOrUpdate s w Q.
Proof.
  intros HQ. unfold finishCreateOrUpdate. hwp_step. unfold concludedState in HQ.
  destruct (s_templatingErrorSet s); [|apply HQ].
  replace (set_ReconcileError s _) with (concludedState s (s_ConditionsToRemove s)) by by destruct s.
  apply HQ.
Qed.

Lemma no_errors s : Aggregate (s_errs s) = None → errors s = 0.
Proof.
  rewrite Aggregate_nil. unfold errors. induction 1 as [|e l -> _ IH]; [done|]. exact IH.
Qed.

Variable accessOf : ObjectReference → Access.
Hypothesis accessOf_inj : ∀ ref ref', accessOf ref = accessOf ref' → ref = ref'.
Hypothesis provider_access : ∀ c access,
  listed clusterList c → providerAccess (ClusterNameFromCluster c) = inr access →
  access = accessOf (clusterRefOf c).

(** ** The first run *)

#[local] Abbreviation createsSome targets :=
  (∃ td', td' ∈ targets ∧ GetNamespacePolicy td' = NamespacePolicyCreate).

(** The state in which the loop of a run for [rep] starts. *)
Definition loopState (fs : list string) (r : gmap string Unstructured * list Condition) (rep : Replica)
    : rstate := begun r (finalized fs (rstate_init rep)).

(** What is known after a first run without errors, which started with [rep]. *)
Definition concluded (rep : Replica) (w1 : W) (s2 : rstate) (w2 : W) : Prop :=
  let spec := rep_Spec rep in
  let creates := createsSome (spec_Targets spec) in
  ∃ fs r wA sB rem, s2 = concludedState sB rem ∧ ReplicaFinalizer ∈ fs ∧
    parsed spec = Some (spec_Template spec) ∧ fetched w1 (spec_Sources spec) (∅, []) = Some r ∧
    consistent w2 ∧ kept platformCluster accessOf creates kind nn (loopState fs r rep) wA sB w2 ∧
    (recognisable (spec_Template spec) (loopState fs r rep) →
     again accessOf creates
       (for_each (spec_Targets spec)
          (handleTargetDef providerName platformCluster clusterList (spec_Template spec)))
       (loopState fs r rep) sB w2 (Next tt)).

Lemma first_run_concludes rep w1 :
  steady (spec_Targets (rep_Spec rep)) → consistent w1 →
  replicaAt w1 platformCluster kind nn = Some rep →
  hwp h (handleCreateOrUpdate providerName platformCluster clusterList) (rstate_init rep) w1
    (λ w2 s2 fl,
      match fl with
      | Panic _ => True
      | _ => s_ReconcileError s2 = None → fl = Next tt ∧ concluded rep w1 s2 w2
      end).
Proof.
  intros Hsteady Hw1 Hrep. rewrite handleCreateOrUpdate_prologue.
  assert (inSync (rstate_init rep) w1) as Hsync by done.
  apply prologue_first; [exact Hsync| |done|done].
  intros fs r wA Hst HwA HsA Hfin Hparsed Hf. specialize (HwA Hw1). unfold loop.
  hwp_step. hwp_step. hwp_step. fold (loopState fs r rep).
  pose proof (λ tmpl, targets_converge providerName platformCluster accessOf accessOf_inj _ tmpl
    kind nn clusterList provider_access _ Hsteady) as Hconv.
  eapply hwp_mono; [|apply hwp_consistent, hwp_and; [|apply (Hconv _ (loopState fs r rep) wA HwA)]].
  2: { apply (hwp_for_each h _ _ _ _ (λ _ _ _, True)); [|done]. intros.
       apply hwp_true. by intros ? ? []. }
  intros w2 sB [[]| |why] [[Hns H] Hw2]; [|done..]. apply hwp_finish.
  intros rem Hnone. split; [done|]. apply no_errors in Hnone.
  destruct H as [_ H]. destruct (H HsA ltac:(lia)) as [Hk Ha].
  exists fs, r, wA, sB, rem. split_and!; try done. by apply Hw2.
Qed.

(** The facts that the rest of the reconcile needs. *)
Lemma concluded_facts rep w1 s2 w2 :
  concluded rep w1 s2 w2 →
  inSync s2 w2 ∧ consistent w2 ∧ (∃ fs, sameRep (rep_set_Finalizers fs rep) (s_Object s2)) ∧
  grown (rep_Replicas rep) (rep_Replicas (s_Object s2)) ∧ allReported s2 ∧ is_Some (s_managed s2) ∧
  tracksManaged s2 s2.
Proof.
  intros (fs & r & wA & sB & rem & -> & Hfin & Hp & Hf & Hw2 & Hk & Ha). split_and!.
  - apply Hk.
  - done.
  - exists fs. exact (kp_object _ _ _ _ _ _ _ _ _ Hk).
  - exact (kp_status _ _ _ _ _ _ _ _ _ Hk).
  - apply Hk. intros ref k []. done.
  - apply Hk. by eexists.
  - apply Hk. intros ref o Ho. by apply not_elem_of_nil in Ho.
Qed.

(** ** The second run *)

(** The manifests of the (Cluster)Replica, from the sources in the world, bring
    no source namespace label to the copies of a ClusterReplica. *)
Definition ownLabels (rep : Replica) (w : W) : Prop :=
  ∀ r, fetched w (spec_Sources (rep_Spec rep)) (∅, []) = Some r →
    recognisable (h := h) (spec_Template (rep_Spec rep)) (set_sources (rstate_init rep) r.1).

Lemma second_run_repeats rep w1 s2 w2 rep3 wf :
  let spec := rep_Spec rep in
  concluded rep w1 s2 w2 → ownLabels rep w1 → consistent wf →
  sameRep (s_Object s2) rep3 → tracksManaged s2 (rstate_init rep3) →
  (∀ src, src ∈ spec_Sources spec →
     stored wf platformCluster (src_Ref src) = stored w1 platformCluster (src_Ref src)) →
  namespaceIn wf = namespaceIn w2 →
  (∀ ref k, is_Some (recordedFor s2 ref k) → stored wf (accessOf ref) k = stored w2 (accessOf ref) k) →
  hwp h (handleCreateOrUpdate providerName platformCluster clusterList) (rstate_init rep3) wf
    (λ w' s4 fl, w' = wf ∧ fl = Next tt ∧ s_Object s4 = rep3 ∧ s_OldObject s4 = rep3 ∧
       s_Conditions s4 = s_Conditions s2 ∧ s_managed s4 = s_managed s2 ∧
       s_RequeueAfter s4 = 0%Z ∧ s_ReconcileError s4 = None).
Proof.
  intros spec (fs & r & wA & sB & rem & -> & Hfin & Hp & Hf & Hw2 & Hk & Ha) Hrec Hwf Hrep3 Htrack
    Hsources Hns Hstored.
  pose proof (sameRep_unfold _ _ Hrep3) as H3. pose proof (sameRep_unfold _ _ (kp_object _ _ _ _ _ _ _ _ _ Hk)) as HB.
  assert (rep_Spec rep3 = spec) as Hspec by by rewrite H3; simpl; rewrite HB.
  assert (rep_Finalizers rep3 = fs) as Hfs by by rewrite H3; simpl; rewrite HB.
  rewrite handleCreateOrUpdate_prologue. apply (prologue_again _ _ _ r); simpl; rewrite ?Hspec, ?Hfs; try done.
  { rewrite <- Hf. by apply fetched_ext. }
  unfold loop. hwp_step. hwp_step. hwp_step. simpl. rewrite Hspec.
  eapply hwp_mono; [|apply Ha; [| exact Hwf| |exact Htrack|]].
  - intros w' s5 fl (-> & -> & ->). apply hwp_finish. intros rem'. split_and!; try done.
    by apply Aggregate_nil.
  - exact (Hrec r Hf).
  - split; [|done]. pose proof (kp_object _ _ _ _ _ _ _ _ _ Hk). unfold sameRep in *. simpl in *. congruence.
  - split; [by intros _|]. intros ref k _. apply Hstored.
Qed.

End Quiescence.
