(* ===== verification/DeletionRuns.v ===== *)
(** * Deletion against an honest server

    The second half of [reconcile], [deleteObsoleteResources] and the completion
    of the status list, as runs against an honest server.

    A first run without errors that does not wait for a deletion touches
    obsolete resources only, reports no further conditions, and leaves nothing
    to delete ([deletion_first]).  A run that finds nothing to delete only
    reads ([deletion_again]). *)

From S2P Require Import Prelude GoLib ApiTypes External Effects Kube.
From S2P Require Import StatusList ConditionNames ReplicaState ReplicaTarget ReplicaDelete DeleteSelection.
From S2P Require Import ReplicaReconcile DeleteProperties CreateProperties OutcomeProperties.
From S2P Require Import HonestServer Convergence.

(** ** The status list *)

Section Entries.
Implicit Types (l : CreatedResourcesWithTypeList).

Lemma statusEntries_elem l ref res :
  (ref, res) ∈ statusEntries l ↔
  ∃ g r, (g, r) ∈ tracked l ∧ ref = refOfCopy r ∧ res = trefOfCopy g r.
Proof.
  split.
  - intros (x & Hin & Hx)%list_elem_of_bind. apply list_elem_of_fmap in Hin as (r & [= -> ->] & Hr).
    exists (crt_Type x), r. split; [|done]. apply elem_of_tracked. by exists x.
  - intros (g & r & Hin & -> & ->). by apply statusEntries_tracked.
Qed.

Lemma statusEntries_mono l l' ref res :
  tracked l ⊆ tracked l' → (ref, res) ∈ statusEntries l → (ref, res) ∈ statusEntries l'.
Proof. rewrite !statusEntries_elem. set_solver. Qed.

Lemma normalized_mono l l' : tracked l ⊆ tracked l' → normalized l' → normalized l.
Proof. intros Hsub Hn g r Hin. apply (Hn g r). set_solver. Qed.

Lemma normalized_AddRaw gvk ns n c l : normalized l → normalized (AddRaw gvk ns n c l).
Proof.
  intros Hn g r. unfold AddRaw. rewrite tracked_Add, elem_of_union, elem_of_singleton.
  intros [[= -> ->]|Hin]; [symmetry; apply normalizeCluster_idem|by apply (Hn g)].
Qed.

(** An entry of a normalized list is the entry for its reference. *)
Lemma statusEntries_entry l ref res :
  normalized l → (ref, res) ∈ statusEntries l → entryOf ref res ∈ tracked l.
Proof.
  intros Hn (g & r & Hin & -> & ->)%statusEntries_elem. by rewrite entryOf_copy by by apply (Hn g).
Qed.

Lemma entryOf_inj ref res ref' res' : entryOf ref res = entryOf ref' res' → ref = ref' ∧ res = res'.
Proof.
  destruct ref as [a b], ref' as [a' b'], res as [g ns n], res' as [g' ns' n'].
  unfold entryOf. simpl. intros [= -> Hc -> ->]. split; [|done]. revert Hc.
  destruct (String.eqb_spec a ""), (String.eqb_spec b ""), (String.eqb_spec a' ""), (String.eqb_spec b' "");
    simpl; intros Hc; congruence.
Qed.

(** The keys of the map of resources are the clusters of the entries. *)
Lemma resourcesInStatus_key l ref L :
  resourcesInStatus l !! ref = Some L → ∃ res, (ref, res) ∈ statusEntries l.
Proof.
  intros HL. pose proof (resourcesInStatus_lookup l ref) as Hl. rewrite HL in Hl.
  assert (L ≠ []) as Hne.
  { clear Hl. revert HL. unfold resourcesInStatus. generalize (statusEntries l). intros es.
    induction es as [|[ref' res'] es IH] using rev_ind; simpl; [by rewrite lookup_empty|].
    rewrite foldl_app. simpl. unfold addToDelete at 1. simpl. rewrite lookup_insert_Some.
    intros [[_ <-]|[_ H]]; [by destruct (default [] _)|by apply IH]. }
  destruct L as [|res L]; [done|]. exists res. apply Hl. by left.
Qed.

(** The clusters the deletion visits. *)
Lemma selected_key `{X : Ext} clusterList s managed ref :
  is_Some (selected clusterList s managed !! ref) ↔
  present clusterList ref ∧
  (IsZero (rep_DeletionTimestamp (s_Object s)) = true →
   seenClusterConditions (s_Conditions s) !! ClusterCondition ref ≠ Some ConditionFalse) ∧
  ∃ res, (ref, res) ∈ statusEntries (rep_Replicas (s_Object s)).
Proof.
  assert (is_Some (candidates s managed !! ref) ↔
          ∃ res, (ref, res) ∈ statusEntries (rep_Replicas (s_Object s))) as Hc.
  { unfold candidates, removeManaged. rewrite map_lookup_imap, lookup_fmap.
    pose proof (resourcesInStatus_lookup (rep_Replicas (s_Object s)) ref) as Hl.
    pose proof (resourcesInStatus_key (rep_Replicas (s_Object s)) ref) as Hk.
    destruct (resourcesInStatus _ !! ref) as [L|]; simpl; [naive_solver|].
    split; [by intros []|]. intros [res Hres]. by destruct (Hl res). }
  rewrite <- Hc. clear Hc. unfold selected, protectTargets, protectClusters. rewrite map_lookup_imap.
  destruct (IsZero _); simpl;
    match goal with |- is_Some (?o ≫= _) ↔ _ =>
      transitivity (is_Some o); [by destruct o|] end; unfold is_Some;
    repeat setoid_rewrite map_lookup_filter_Some; naive_solver.
Qed.

End Entries.

(** ** What protects a resource *)

Section Protection.
Context `{X : Ext}.

(** Shortened names keep the prefix of their kind. *)
Definition namesKeepPrefix : Prop :=
  ∀ ref res, HasPrefix (TargetCondition ref res) ConditionTypeTargetPrefix = true.

Lemma seenConditions_some (f : string → bool) cs t :
  f t = true → t ∈ con_Type <$> cs → is_Some (seenConditions f cs !! t).
Proof.
  intros Hf. unfold seenConditions. generalize (∅ : gmap string ConditionStatus).
  assert (∀ m : gmap string ConditionStatus, is_Some (m !! t) ∨ t ∈ con_Type <$> cs → is_Some
    (foldl (λ m c, if f (con_Type c) then <[con_Type c := con_Status c]> m else m) m cs !! t)) as H.
  { induction cs as [|c cs IH]; intros m; simpl.
    - intros [?|?%not_elem_of_nil]; done.
    - rewrite elem_of_cons. intros Hin. apply IH.
      destruct (decide (t = con_Type c)) as [->|Hne].
      + left. rewrite Hf. by rewrite lookup_insert_eq.
      + destruct Hin as [Hm|[?|Hin]]; [left|done|by right].
        destruct (f (con_Type c)); [by rewrite lookup_insert_ne|done]. }
  intros m Hin. apply H. by right.
Qed.

(** A target that has been reported on is not deleted. *)
Lemma reported_protected clusterList s ref res :
  namesKeepPrefix → reportedOn s ref res → ¬ obsolete clusterList s ref res.
Proof.
  intros Hp Hr (_ & _ & _ & Hnone). unfold seenTargetConditions in Hnone.
  edestruct (seenConditions_some
    (λ t, negb (HasPrefix t ConditionTypeClusterPrefix) && HasPrefix t ConditionTypeTargetPrefix)
    (s_Conditions s) (TargetCondition ref res)) as [x Hx]; [|exact Hr|congruence].
  rewrite Hp, andb_true_r, negb_true_iff. specialize (Hp ref res).
  by apply HasPrefix_inv in Hp as [r ->].
Qed.

End Protection.

(** ** The deletion of a first run *)

Section First.
Context `{X : Ext} {XL : ExtLaws X}.
Context {W : Type} {h : ∀ e : Req, W → W * Resp e} `{!HonestServer h}.
Variables (providerName : string) (platformCluster : Access) (clusterList : list Cluster).

(** The rule for [range] over a map. *)
Lemma hwp_range_map {A} (m : gmap ObjectReference A) (body : ObjectReference → A → KM rstate unit) s w
    (I : list ObjectReference → W → rstate → Prop) :
  (∀ pre k a s' w', m !! k = Some a → I pre w' s' →
     hwp h (body k a) s' w' (λ w'' s'' fl,
       match fl with Panic _ => True | _ => I (pre ++ [k]) w'' s'' end)) →
  I [] w s →
  hwp h (range_map m body) s w (λ w' s' fl,
    match fl with
    | Next _ => ∃ order, order ≡ₚ (map_to_list m).*1 ∧ I order w' s'
    | Stop => False
    | Panic _ => True
    end).
Proof.
  intros Hbody HI. unfold range_map, range_keys. hwp_step. hwp_step.
  destruct (range_order (map_to_list m).*1 w) as [r Hr]. eapply hwp_call; [exact Hr|]. hwp_step.
  set (order := if decide _ then _ else _).
  assert (order ≡ₚ (map_to_list m).*1) as Hperm by apply range_order_perm.
  eapply hwp_mono; [|apply (hwp_for_each h order _ s w I); [|exact HI]].
  - intros w' s' [[]| |why]; [by exists order|done..].
  - intros pre k post s' w' Heq HI'.
    assert (k ∈ (map_to_list m).*1) as Hin.
    { rewrite <- Hperm, Heq. apply elem_of_app. right. by left. }
    apply list_elem_of_fmap in Hin as ([k' a] & -> & Ha%elem_of_map_to_list). simpl.
    rewrite Ha. by apply Hbody.
Qed.

(** What the calculus for histories shows of a part, its runs satisfy. *)
Lemma hwp_mwp {A} (m : KM rstate A) P s w (Q : KHistory → rstate → Flow A → Prop)
    (R : W → rstate → Flow A → Prop) :
  mwp P m s [] Q → hwp h m s w R →
  hwp h m s w (λ w' s' fl, R w' s' fl ∧ ∃ tr, Q tr s' fl).
Proof.
  intros Hm HR. eapply hwp_mono; [|apply hwp_exec, HR]. intros w' s' fl [H (tr & Hex)].
  split; [done|]. exists tr. by destruct (mwp_exec _ _ _ _ _ _ _ Hm Hex).
Qed.

Lemma hwp_failed {A} con rerr s w (Q : W → rstate → Flow A → Prop) :
  Q w (withError con rerr s) Stop → hwp h (failWith con rerr) s w Q.
Proof. intros H. unfold failWith, errsAppend, createCon. by do 5 hwp_step. Qed.

(** A run that has met an error, or that waits for a deletion. *)
Definition waiting (cs : list Condition) : bool := existsb waitsForDeletion cs.
Definition troubled (s : rstate) : Prop := 0 < errors s ∨ waiting (s_Conditions s) = true.

Variable accessOf : ObjectReference → Access.
Hypothesis reaches : ∀ ref access,
  present clusterList ref → providerAccess (ClusterNameFromReference ref) = inr access →
  access = accessOf ref.

(** The state in which the deletion starts. *)
Variable s0 : rstate.

Definition touched (acc : Access) (k : TypedObjectReference) : Prop :=
  ∃ ref, obsolete clusterList s0 ref k ∧ acc = accessOf ref.

(** How the deletion moves on: it changes obsolete resources only, and without
    trouble no condition. *)
Record passes (s : rstate) (w : W) (s' : rstate) (w' : W) : Prop := {
  ps_object : sameRep (s_Object s) (s_Object s');
  ps_old : s_OldObject s' = s_OldObject s;
  ps_managed : s_managed s' = s_managed s;
  ps_error : s_ReconcileError s' = s_ReconcileError s;
  ps_replicas : replicaAt w' = replicaAt w;
  ps_namespaces : namespaceIn w' = namespaceIn w;
  ps_stored : ∀ acc k, ¬ touched acc k → stored w' acc k = stored w acc k;
  ps_consistent : consistent w → consistent w';
  ps_troubled : troubled s → troubled s';
  ps_calm : troubled s' ∨ s_Conditions s' = s_Conditions s }.

Lemma passes_refl s w : passes s w s w.
Proof. split; try done. by right. Qed.

Lemma passes_trans s w s1 w1 s2 w2 : passes s w s1 w1 → passes s1 w1 s2 w2 → passes s w s2 w2.
Proof.
  intros [Ho Hold Hm He Hr Hn Hs Hc Ht Hq] [Ho' Hold' Hm' He' Hr' Hn' Hs' Hc' Ht' Hq'].
  split; try (by etrans); try (by auto).
  - intros acc k Hk. by rewrite Hs', Hs.
  - destruct Hq' as [?| ->]; [by left|]. destruct Hq as [?| ->]; [left; auto|by right].
Qed.

(** Steps of the state alone. *)
Lemma passes_state s s' w :
  sameRep (s_Object s) (s_Object s') → s_OldObject s' = s_OldObject s → s_managed s' = s_managed s →
  s_ReconcileError s' = s_ReconcileError s → (troubled s → troubled s') →
  troubled s' ∨ s_Conditions s' = s_Conditions s → passes s w s' w.
Proof. intros. by split. Qed.

Lemma passes_failed con rerr s w : passes s w (withError con rerr s) w.
Proof.
  assert (troubled (withError con rerr s)).
  { left. unfold errors. simpl. rewrite omap_app, length_app. simpl. lia. }
  apply passes_state; try done; auto.
Qed.

Lemma passes_reported con st reason msg s w :
  troubled (withCondition con st reason msg s) → passes s w (withCondition con st reason msg s) w.
Proof. intros. apply passes_state; try done; auto. Qed.

Lemma waiting_reported con st msg s :
  troubled (withCondition con st ConditionReasonWaitingForResourceDeletion msg s).
Proof.
  right. unfold waiting, withCondition. simpl. rewrite GenerateCreateCondition_law, existsb_app.
  simpl. rewrite orb_true_r. done.
Qed.

Lemma troubled_withCondition con st reason msg s :
  troubled s → troubled (withCondition con st reason msg s).
Proof.
  intros [He|Hw]; [by left|]. right. unfold waiting, withCondition in *. simpl.
  by rewrite GenerateCreateCondition_law, existsb_app, Hw.
Qed.

Lemma passes_dropped ref res s w : passes s w (dropped ref res s) w.
Proof. apply passes_state; try done; auto. Qed.

Lemma hwp_forget ref res s w Q :
  Q w (dropped ref res s) (Next tt) → hwp h (forget ref res) s w Q.
Proof. intros H. unfold forget, removeCondition, removeRawFromStatus. by do 3 hwp_step. Qed.

(** A request about one obsolete resource. *)
Lemma passes_write e acc k s w w' r :
  h e w = (w', r) → writesReplica e = false → createsNamespace e = false →
  writesObject e = Some (acc, k) → touched acc k → passes s w s w'.
Proof.
  intros Hr H1 H2 H3 Hk. pose proof (replicas_same e w H1) as Hrep. pose proof (namespaces_same e w H2) as Hns.
  pose proof (objects_frame e w) as Hst. pose proof (consistent_step e w) as Hc.
  rewrite Hr in Hrep, Hns, Hst, Hc. split; try done; [|by right].
  intros acc' k' Hne. apply Hst. rewrite H3. intros [= -> ->]. done.
Qed.

Lemma deleteResource_passes ref name res s w :
  obsolete clusterList s0 ref res → consistent w →
  hwp h (deleteResource providerName ref name (accessOf ref) res) s w
    (λ w' s' _, passes s w s' w').
Proof.
  intros Hob Hw. assert (touched (accessOf ref) res) as Ht by by exists ref.
  unfold deleteResource, failDelete, awaitDeletion. hwp_step.
  destruct (get_object (accessOf ref) (tref_GVK res) (tref_Namespace res) (tref_Name res) w)
    as (r & Hr & Ha).
  replace (MkTRef _ _ _) with res in Ha by (by destruct res).
  eapply hwp_call; [exact Hr|]. cbv beta iota.
  destruct (stored w (accessOf ref) res) as [rtd|] eqn:Hst; simpl in Ha;
    [subst r|destruct Ha as [err ->]; apply hwp_forget, passes_dropped].
  pose proof (consistent_key _ _ _ _ Hw Hst) as Hkey.
  hwp_step. hwp_step. cbv zeta.
  destruct (isManaged _ _ _); cbn [negb]; [|apply hwp_forget, passes_dropped].
  assert (∀ s w msg, hwp h (createCon (TargetCondition ref res) ConditionFalse
      ConditionReasonWaitingForResourceDeletion msg ;;; stop)%prog s w
      (λ w' s' (_ : Flow unit), passes s w s' w')) as Hawait.
  { intros s1 w1 msg. apply hwp_skip, passes_reported, waiting_reported. }
  destruct (String.eqb _ _); [|destruct (IsZero _); [|apply Hawait]].
  - hwp_step. destruct (h (PatchObject (accessOf ref) (u_set_Labels (stripLabels (u_Labels rtd)) rtd) rtd) w) as [w1 r] eqn:He.
    assert (passes s w s w1) as Hp
      by (eapply (passes_write _ (accessOf ref) res); [exact He|done|done|by rewrite <- Hkey|done]).
    eapply hwp_call; [exact He|]. cbv beta iota. destruct r.
    + apply hwp_failed. eapply passes_trans; [done|apply passes_failed].
    + apply hwp_forget. eapply passes_trans; [done|apply passes_dropped].
  - hwp_step. destruct (h (DeleteObject (accessOf ref) rtd) w) as [w1 r] eqn:He.
    assert (passes s w s w1) as Hp
      by (eapply (passes_write _ (accessOf ref) res); [exact He|done|done|by rewrite <- Hkey|done]).
    eapply hwp_call; [exact He|]. cbv beta iota. destruct r.
    + eapply hwp_mono; [|apply Hawait]. intros w' s' fl. by apply passes_trans.
    + eapply hwp_mono; [|apply Hawait]. intros w' s' fl. by apply passes_trans.
    + apply hwp_failed. eapply passes_trans; [done|apply passes_failed].
Qed.

(** The loops. *)
#[local] Abbreviation passing s w :=
  (λ w' s' fl, match fl with Panic _ => True | _ => passes s w s' w' end).

Lemma passing_trans {A} s w s1 w1 w2 s2 (fl : Flow A) :
  passes s w s1 w1 → passing s1 w1 w2 s2 fl → passing s w w2 s2 fl.
Proof. destruct fl; [by apply passes_trans..|done]. Qed.

Lemma passes_loop {T} (l : list T) (body : T → KM rstate unit) s w :
  (∀ x s' w', x ∈ l → consistent w' → hwp h (body x) s' w' (passing s' w')) →
  consistent w → hwp h (for_each l body) s w (passing s w).
Proof.
  intros Hbody Hw.
  eapply hwp_mono; [|apply (hwp_for_each h l body s w (λ _ w' s', passes s w s' w')); [|apply passes_refl]].
  { by intros w' s' [[]| |why]. }
  intros pre x post s' w' -> Hp. eapply hwp_mono; [|apply Hbody; [apply elem_of_app; right; by left|by apply Hp]].
  intros w'' s'' fl H. exact (passing_trans _ _ _ _ _ _ fl Hp H).
Qed.

Lemma pruneCluster_passes ref L s w :
  consistent w → hwp h (pruneCluster clusterList ref L) s w (passing s w).
Proof.
  intros Hw. unfold pruneCluster.
  case_bool_decide; [hwp_step; apply passes_refl|]. case_bool_decide; [hwp_step; apply passes_refl|].
  hwp_step. eapply hwp_mono; [|apply passes_loop; [|done]].
  - intros w' s' [[]| |why] Hp; [|done..]. unfold removeCondition. do 3 hwp_step.
    eapply passes_trans; [exact Hp|]. by apply passes_state; try done; auto.
  - intros res s' w' _ _. apply hwp_forget, passes_dropped.
Qed.

(** One cluster: it can be reached, or there is trouble. *)
Lemma deleteInCluster_passes ref L s w :
  present clusterList ref → (∀ res, res ∈ L → obsolete clusterList s0 ref res) → consistent w →
  hwp h (deleteInCluster providerName ref L) s w (λ w' s' fl,
    match fl with
    | Panic _ => True
    | _ => passes s w s' w' ∧
           (troubled s' ∨ ∃ access, providerAccess (ClusterNameFromReference ref) = inr access)
    end).
Proof.
  intros Hpres Hob Hw. unfold deleteInCluster. hwp_step. eapply hwp_call; [by apply provider_get|].
  cbv beta iota zeta. destruct (providerAccess _) as [err|access] eqn:Hacc.
  - unfold errsAppend. hwp_step. hwp_step. set (s1 := set_errs _ _).
    assert (troubled s1) as Ht by (left; unfold errors, s1; simpl; rewrite omap_app, length_app; simpl; lia).
    assert (passes s w s1 w) as Hp by (apply passes_state; try done; auto).
    hwp_step. eapply hwp_mono;
      [|apply (hwp_for_each h L _ s1 w (λ _ w' s', passes s w s' w' ∧ troubled s')); [|done]].
    + intros w' s' [[]| |why]; [|done..]. intros [Hp' Ht']. hwp_step. auto.
    + intros pre res post s' w' _ [Hp' Ht']. unfold createCon. hwp_step.
      assert (∀ st reason msg, troubled (withCondition (TargetCondition ref res) st reason msg s')) as Hs.
      { intros. by apply troubled_withCondition. }
      split; [|apply Hs]. eapply passes_trans; [exact Hp'|]. by apply passes_reported.
  - rewrite (reaches _ _ Hpres Hacc). eapply hwp_mono; [|apply passes_loop; [|done]].
    + intros w' s' [[]| |why] Hp; [| |done]; (split; [exact Hp|right; by eexists]).
    + intros res s' w' Hres Hw'. eapply hwp_mono; [|apply deleteResource_passes; [by apply Hob|done]].
      by intros w'' s'' [].
Qed.

(** The whole function: without trouble the conditions stay, obsolete
    resources are all that is touched, and the clusters with resources to look
    at can be reached. *)
Definition cleared (managed : gmap ObjectReference (list Unstructured)) (w : W) (s' : rstate) (w' : W)
    : Prop :=
  s_ReconcileError s0 = None ∧ sameRep (s_Object s0) (s_Object s') ∧ s_OldObject s' = s_OldObject s0 ∧
  s_managed s' = s_managed s0 ∧ s_Conditions s' = s_Conditions s0 ∧
  replicaAt w' = replicaAt w ∧ namespaceIn w' = namespaceIn w ∧ consistent w' ∧
  (∀ acc k, ¬ touched acc k → stored w' acc k = stored w acc k) ∧
  ∀ ref L, selected clusterList s0 managed !! ref = Some L →
    ∃ access, providerAccess (ClusterNameFromReference ref) = inr access.

Lemma Aggregate_errors s :
  Aggregate (s_errs s ++ [s_ReconcileError s]) = None → errors s = 0 ∧ s_ReconcileError s = None.
Proof.
  rewrite Aggregate_nil, Forall_app, Forall_singleton. unfold errors. intros [H ->]. split; [|done].
  induction H as [|e l -> _ IH]; [done|]. exact IH.
Qed.

(** The pruning loop leaves the candidates of the clusters that exist. *)
Lemma pruning_first (m : toDeleteMap) s w :
  s_toDelete s = m → consistent w →
  hwp h (range_map m (pruneCluster clusterList)) s w (λ w' s' fl,
    match fl with
    | Next _ => passes s w s' w' ∧ s_Conditions s' = s_Conditions s ∧
                s_toDelete s' = filter (λ '(ref, _), present clusterList ref) m
    | Stop => False
    | Panic _ => True
    end).
Proof.
  intros Hm Hw. eapply hwp_mono; [|eapply hwp_mwp; [by apply (pruning_spec providerName clusterList s0 m)|]].
  2: { apply (hwp_range_map m _ s w (λ _ w' s', passes s w s' w')); [|apply passes_refl].
       intros pre ref L s' w' _ Hp. eapply hwp_mono; [|apply pruneCluster_passes; by apply Hp].
       intros w'' s'' fl H. exact (passing_trans _ _ _ _ _ _ fl Hp H). }
  intros w' s' [[]| |why]; [|by intros [? _]|done].
  intros [(order & _ & Hp) (tr & _ & _ & Hpr & Htd & _)]. split; [done|]. split; [by apply Hpr|done].
Qed.

(** The deletion loop looks at every cluster. *)
Lemma deletion_loop_first (m : toDeleteMap) s w :
  (∀ ref L, m !! ref = Some L → present clusterList ref ∧
     ∀ res, res ∈ L → obsolete clusterList s0 ref res) →
  consistent w →
  hwp h (range_map m (deleteInCluster providerName)) s w (λ w' s' fl,
    match fl with
    | Next _ => passes s w s' w' ∧
                (troubled s' ∨ ∀ ref L, m !! ref = Some L →
                   ∃ access, providerAccess (ClusterNameFromReference ref) = inr access)
    | Stop => False
    | Panic _ => True
    end).
Proof.
  intros Hm Hw. eapply hwp_mono; [|apply (hwp_range_map m _ s w (λ visited w' s', passes s w s' w' ∧
    (troubled s' ∨ ∀ ref, ref ∈ visited →
       ∃ access, providerAccess (ClusterNameFromReference ref) = inr access)))].
  - intros w' s' [[]| |why]; [|done..]. intros (order & Hord & Hp & Hr). split; [done|].
    destruct Hr as [?|Hr]; [by left|right]. intros ref L HL. apply Hr. by eapply range_order_complete.
  - intros pre ref L s' w' HL [Hp Hr]. destruct (Hm ref L HL) as [Hpres Hob].
    eapply hwp_mono; [|apply deleteInCluster_passes; [done|done|by apply Hp]].
    intros w'' s'' fl H. destruct fl as [[]| |why]; [| |done]; destruct H as [Hp' Hr'];
      (split; [by eapply passes_trans|]; destruct Hr' as [?|Hr']; [by left|];
       destruct Hr as [Ht|Hr]; [left; by apply Hp'|right];
       intros ref' [Hin| ->%list_elem_of_singleton]%elem_of_app; [by apply Hr|done]).
  - split; [apply passes_refl|]. right. intros ref ?%not_elem_of_nil. done.
Qed.

Lemma deletion_first managed w :
  s_managed s0 = Some managed → consistent w →
  hwp h (deleteObsoleteResources providerName clusterList false) s0 w (λ w' s' fl,
    match fl with
    | Panic _ => True
    | _ => s_ReconcileError s' = None → waiting (s_Conditions s') = false → cleared managed w s' w'
    end).
Proof.
  intros Hm Hw. unfold deleteObsoleteResources. hwp_step. hwp_step. rewrite Hm. hwp_step. hwp_step.
  hwp_step. hwp_step. cbn [s_toDelete set_errs set_toDelete]. fold (candidates s0 managed).
  set (cand := candidates s0 managed). set (s1 := set_errs (set_toDelete s0 cand) []).
  hwp_step. eapply hwp_mono; [|by apply (pruning_first cand s1 w)].
  intros w2 s2 [[]| |why]; [|done..]. intros (Hp2 & Hc2 & Htd2).
  hwp_step. hwp_step. hwp_step. hwp_step. cbn [s_toDelete set_toDelete]. rewrite Hc2, Htd2.
  change (s_Conditions s1) with (s_Conditions s0). fold (selected clusterList s0 managed).
  set (sel := selected clusterList s0 managed). set (s3 := set_toDelete s2 sel).
  assert (passes s1 w s3 w2) as Hp3 by (eapply passes_trans; [exact Hp2|by apply passes_state; try done; auto]).
  hwp_step. eapply hwp_mono; [|apply (deletion_loop_first sel s3 w2)].
  2: { intros ref L HL. pose proof (selected_lookup clusterList s0 managed ref Hm) as Hl. fold sel in Hl.
       rewrite HL in Hl. destruct Hl as (Hpres & _ & Hl). split; [done|]. intros res. apply Hl. }
  2: { by apply Hp3. }
  intros w4 s4 [[]| |why]; [|done..]. intros [Hp4 Hreach]. do 3 hwp_step.
  simpl. intros He Hwait. pose proof (passes_trans _ _ _ _ _ _ Hp3 Hp4) as Hp.
  destruct (Aggregate_errors (cleaned s4) He) as [Hz Hnone]. 
  assert (¬ troubled s4) as Hcalm.
  { intros [Ht|Ht]; [|unfold waiting in *; congruence]. unfold errors in *. simpl in Hz. lia. }
  destruct Hreach as [?|Hreach]; [done|]. destruct (ps_calm _ _ _ _ Hp) as [?|Hconds]; [done|].
  split; [rewrite <- Hnone; symmetry; exact (ps_error _ _ _ _ Hp)|].
  split; [exact (ps_object _ _ _ _ Hp)|]. split; [exact (ps_old _ _ _ _ Hp)|].
  split; [exact (ps_managed _ _ _ _ Hp)|]. split; [exact Hconds|].
  split; [apply Hp|]. split; [apply Hp|]. split; [by apply Hp|]. split; [apply Hp|]. exact Hreach.
Qed.

End First.

(** ** The deletion of a second run *)

Section Again.
Context `{X : Ext} {XL : ExtLaws X}.
Context {W : Type} {h : ∀ e : Req, W → W * Resp e} `{!HonestServer h}.
Variables (providerName : string) (platformCluster : Access) (clusterList : list Cluster).

(** Only the bookkeeping of the deletion has changed. *)
Definition idle (s s' : rstate) : Prop :=
  s' = set_toDelete (set_ConditionsToRemove s (s_ConditionsToRemove s')) (s_toDelete s').

Lemma idle_refl s : idle s s.
Proof. by destruct s. Qed.

Lemma idle_trans s s1 s2 : idle s s1 → idle s1 s2 → idle s s2.
Proof. unfold idle. intros -> ->. done. Qed.

(** A loop over nothing, in each of the clusters. *)
Lemma pruneCluster_again ref L s w :
  (¬ present clusterList ref → L = []) →
  hwp h (pruneCluster clusterList ref L) s w (λ w' s' fl, w' = w ∧ idle s s').
Proof.
  intros HL. unfold pruneCluster.
  case_bool_decide as Hz; [hwp_step; split; [done|apply idle_refl]|].
  case_bool_decide as He; [hwp_step; split; [done|apply idle_refl]|].
  rewrite HL by (by intros [?|?]). simpl. unfold removeCondition. by do 4 hwp_step.
Qed.

Lemma range_again (m : gmap ObjectReference (list TypedObjectReference)) body s w :
  (∀ ref L s' w', m !! ref = Some L → w' = w → hwp h (body ref L) s' w' (λ w'' s'' fl, w'' = w ∧ idle s' s'')) →
  hwp h (range_map m body) s w (λ w' s' fl,
    match fl with Next _ => w' = w ∧ idle s s' | Stop => False | Panic _ => True end).
Proof.
  intros Hb. eapply hwp_mono; [|apply (hwp_range_map m body s w (λ _ w' s', w' = w ∧ idle s s'))].
  - intros w' s' [[]| |why]; [by intros (_ & _ & H)|done..].
  - intros pre ref L s' w' HL [-> Hs]. eapply hwp_mono; [|by apply Hb].
    intros w'' s'' fl [-> Hs']. destruct fl; [by split; [|eapply idle_trans]..|done].
  - split; [done|apply idle_refl].
Qed.

(** Nothing is selected: the function reads only. *)
Definition settledAfter (s : rstate) (w w' : W) (s' : rstate) : Prop :=
  w' = w ∧ s_Object s' = s_Object s ∧ s_OldObject s' = s_OldObject s ∧
  s_Conditions s' = s_Conditions s ∧ s_managed s' = s_managed s ∧
  s_RequeueAfter s' = s_RequeueAfter s ∧ s_ReconcileError s' = None.

Lemma deletion_again s managed w :
  s_managed s = Some managed → consistent w →
  (∀ ref res, unmanaged s ref res → present clusterList ref) →
  (∀ ref res, ¬ obsolete clusterList s ref res) →
  (∀ ref L, selected clusterList s managed !! ref = Some L →
     ∃ access, providerAccess (ClusterNameFromReference ref) = inr access) →
  compact (rep_Replicas (s_Object s)) → s_ReconcileError s = None →
  hwp h (deleteObsoleteResources providerName clusterList false) s w (λ w' s' fl,
    match fl with Panic _ => True | _ => settledAfter s w w' s' end).
Proof.
  intros Hm Hw Hpres Hobs Hreach Hcomp Herr.
  unfold deleteObsoleteResources. hwp_step. hwp_step. rewrite Hm. do 4 hwp_step.
  cbn [s_toDelete set_errs set_toDelete]. fold (candidates s managed).
  set (cand := candidates s managed). set (s1 := set_errs (set_toDelete s cand) []).
  hwp_step. eapply hwp_mono; [|eapply hwp_mwp; [by apply (pruning_spec providerName clusterList s cand s1)|]].
  2: { apply range_again. intros ref L s' w' HL ->. apply pruneCluster_again. intros Hnp.
       pose proof (candidates_lookup s managed ref Hm) as Hl. fold cand in Hl. rewrite HL in Hl.
       destruct L as [|res L]; [done|]. exfalso. apply Hnp, (Hpres ref res), Hl. by left. }
  intros w2 s2 [[]| |why]; [|by intros [? _]|by intros [_ (? & [=] & _)]].
  intros [[-> Hs2] (tr & _ & _ & [_ _ Hc2 _] & Htd2 & _)].
  do 4 hwp_step. cbn [s_toDelete set_toDelete]. rewrite Hc2, Htd2.
  change (s_Conditions s1) with (s_Conditions s).
  fold (selected clusterList s managed).
  set (sel := selected clusterList s managed). set (s3 := set_toDelete s2 sel).
  hwp_step. eapply hwp_mono; [|apply (range_again sel)].
  2: { intros ref L s' w' HL ->. destruct (Hreach ref L HL) as [access Hacc].
       pose proof (selected_lookup clusterList s managed ref Hm) as Hl. fold sel in Hl. rewrite HL in Hl.
       destruct L as [|res L]; [|exfalso; apply (Hobs ref res), Hl; by left].
       unfold deleteInCluster. hwp_step. eapply hwp_call; [by apply provider_get|]. rewrite Hacc.
       cbv beta iota zeta. simpl. hwp_step. split; [done|apply idle_refl]. }
  intros w4 s4 [[]| |why]; [|done..]. intros [-> Hs4]. do 3 hwp_step.
  assert (s_Object s4 = s_Object s ∧ s_OldObject s4 = s_OldObject s ∧ s_Conditions s4 = s_Conditions s ∧
          s_managed s4 = s_managed s ∧ s_RequeueAfter s4 = s_RequeueAfter s ∧
          s_ReconcileError s4 = None ∧ s_errs s4 = []) as (Ho & Hold & Hc & Hm4 & Hr & He & Hes).
  { rewrite Hs4. unfold s3. simpl. rewrite Hs2. by split_and!. }
  split; [done|]. simpl. rewrite Ho, He, Hes. split.
  { rewrite Cleanup_compact by done. by destruct (s_Object s) as [????????? []]. }
  split_and!; try done. apply Aggregate_nil. by constructor.
Qed.

Lemma deletion_again_ends s managed w :
  s_managed s = Some managed → consistent w →
  (∀ ref res, unmanaged s ref res → present clusterList ref) →
  (∀ ref res, ¬ obsolete clusterList s ref res) →
  (∀ ref L, selected clusterList s managed !! ref = Some L →
     ∃ access, providerAccess (ClusterNameFromReference ref) = inr access) →
  compact (rep_Replicas (s_Object s)) → s_ReconcileError s = None →
  hwp h (deleteObsoleteResources providerName clusterList false) s w (λ w' s' fl,
    fl = Next tt ∧ settledAfter s w w' s').
Proof.
  intros Hm ??????. eapply hwp_mono; [|by eapply hwp_exec, deletion_again].
  intros w' s' fl [Hs (tr & Hex)]. pose proof (function_outcome _ _ s managed Hm _ _ _ Hex) as [[-> _] _]. done.
Qed.

(** ** The completion of the status *)

(** The status entry of a managed resource. *)
Definition managedEntry (s : rstate) (e : entry) : Prop :=
  ∃ ref o, o ∈ managedAt s ref ∧ e = entryOf ref (referenceOf o).

Lemma managedAt_lookup s managed ref objs o :
  s_managed s = Some managed → managed !! ref = Some objs → o ∈ objs → o ∈ managedAt s ref.
Proof. intros Hm Hl Ho. unfold managedAt. rewrite Hm. simpl. by rewrite Hl. Qed.

Lemma addManaged_first s w :
  hwp h addManagedToStatus s w (λ w' s' fl, fl = Next tt ∧ w' = w ∧
    s' = set_Object s (s_Object s') ∧ sameRep (s_Object s) (s_Object s') ∧ tracksManaged s s' ∧
    (compact (rep_Replicas (s_Object s)) → compact (rep_Replicas (s_Object s'))) ∧
    ∀ e, e ∈ tracked (rep_Replicas (s_Object s')) →
         e ∈ tracked (rep_Replicas (s_Object s)) ∨ managedEntry s e).
Proof.
  set (I := λ w' s', w' = w ∧
    s' = set_Object s (s_Object s') ∧ sameRep (s_Object s) (s_Object s') ∧
    (compact (rep_Replicas (s_Object s)) → compact (rep_Replicas (s_Object s'))) ∧
    ∀ e, e ∈ tracked (rep_Replicas (s_Object s')) →
         e ∈ tracked (rep_Replicas (s_Object s)) ∨ managedEntry s e).
  assert (I w s) as H0 by (split_and!; try done; [by destruct s|auto]).
  eapply hwp_mono; [|eapply (hwp_mwp _ (λ _ _, True) _ _ _ (λ w' s' fl,
    match fl with Panic _ => True | _ => I w' s' end)); [by apply addManagedToStatus_spec|]].
  - intros w' s' fl [H (tr & _ & Hall & ->)]. destruct H as (-> & Hs & Hrep & Hc & He).
    split_and!; try done. intros ref o Ho. unfold managedAt in Ho.
    destruct (s_managed s) as [m|] eqn:Hm; [|by apply not_elem_of_nil in Ho].
    simpl in Ho. destruct (m !! ref) as [objs|] eqn:Hl; [|by apply not_elem_of_nil in Ho].
    apply (Hall m ref objs o); [by rewrite Hs|done|done].
  - unfold addManagedToStatus. hwp_step. hwp_step. destruct (s_managed s) as [m|] eqn:Hm; [|by hwp_step].
    eapply hwp_mono; [|apply (hwp_range_map m _ s w (λ _, I)); [|exact H0]].
    { intros w' s' [[]| |why]; [by intros (? & _ & HI)|done..]. }
    intros _ ref objs s' w' Hl HI.
    eapply hwp_mono; [|apply (hwp_for_each h objs _ s' w' (λ _, I)); [|exact HI]].
    { by intros w'' s'' [[]| |why]. }
    clear s' w' HI. intros pre o post s' w' -> (-> & Hs & Hrep & Hc & He). hwp_step. split; [done|].
    split; [by rewrite Hs|]. split; [done|]. cbn [s_Object set_Object]. rewrite rep_Replicas_set. split.
    + intros H. by apply compact_Add, Hc.
    + intros e. unfold AddRaw. rewrite tracked_Add, elem_of_union, elem_of_singleton.
      intros [->|Hin]; [|by apply He]. right. exists ref, o. split; [|done].
      eapply managedAt_lookup; [done|done|]. apply elem_of_app. right. by left.
Qed.

(** What is there is not added again. *)
Lemma addManaged_again s w :
  tracksManaged s s →
  hwp h addManagedToStatus s w (λ w' s' fl, fl = Next tt ∧ w' = w ∧ s' = s).
Proof.
  intros Htr. eapply hwp_mono; [|eapply (hwp_mwp _ (λ _ _, True) _ _ _ (λ w' s' fl,
    match fl with Panic _ => True | _ => w' = w ∧ s' = s end)); [by apply addManagedToStatus_spec|]].
  { intros w' s' fl [H (tr & _ & _ & ->)]. done. }
  unfold addManagedToStatus. hwp_step. hwp_step. destruct (s_managed s) as [m|] eqn:Hm; [|by hwp_step].
  eapply hwp_mono; [|apply (hwp_range_map m _ s w (λ _ w' s', w' = w ∧ s' = s)); [|done]].
  { intros w' s' [[]| |why]; [by intros (? & _ & HI)|done..]. }
  intros _ ref objs s' w' Hl [-> ->].
  eapply hwp_mono; [|apply (hwp_for_each h objs _ s w (λ _ w' s', w' = w ∧ s' = s)); [|done]].
  { by intros w'' s'' [[]| |why]. }
  intros pre o post s' w' -> [-> ->]. hwp_step. split; [done|]. unfold AddRaw.
  rewrite Add_contained.
  - by destruct s as [[????????? []]].
  - apply (Htr ref o). eapply managedAt_lookup; [done|done|]. apply elem_of_app. right. by left.
Qed.

(** ** Waiting *)

Lemma skipWaiting_first s w :
  hwp h (skipWaiting false) s w (λ w' s' fl, fl = Next tt ∧ w' = w ∧
    s' = set_RequeueAfter s (s_RequeueAfter s')).
Proof.
  unfold skipWaiting. hwp_step. hwp_step.
  destruct (Z.ltb 0 (s_RequeueAfter s)); [|hwp_step; by destruct s].
  destruct (Nat.eqb _ 0); hwp_step; [done|by destruct s].
Qed.

Lemma skipWaiting_again s w :
  s_RequeueAfter s = 0%Z → hwp h (skipWaiting false) s w (λ w' s' fl, fl = Next tt ∧ w' = w ∧ s' = s).
Proof. intros H. unfold skipWaiting. hwp_step. hwp_step. rewrite H. simpl. by hwp_step. Qed.

End Again.
