(* ===== verification/ComingToRest.v ===== *)
(** * Coming to rest

    A whole [Reconcile] against an honest server, and a second one from the
    world it leaves, or from any world that agrees with that one ([atRest]).
    [Quiescence] has the second run of the part that creates and updates,
    [DeletionRuns] that of the deletion and of the completion of the status;
    here is their composition, with the status updates.

    What the status still lists after the first reconcile is managed, or has
    been reported on ([deletion_complete]).  The second reconcile reports the
    same and manages the same, so it selects nothing for deletion. *)

From S2P Require Import Prelude GoLib ApiTypes External Effects Kube.
From S2P Require Import Shared StatusList ConditionNames ReplicaState ReplicaTarget ReplicaCreateOrUpdate.
From S2P Require Import ReplicaDelete DeleteSelection ReplicaReconcile DeleteProperties CreateProperties.
From S2P Require Import OutcomeProperties HonestServer Convergence Quiescence DeletionRuns.

(** ** The whole reconcile *)

Section Whole.
Context `{X : Ext} {XL : ExtLaws X}.
Context {W : Type} {h : ∀ e : Req, W → W * Resp e} `{!HonestServer h}.
Variables (providerName : string) (platformCluster : Access) (clusterList : list Cluster).
Variables (kind : ReplicaType) (nn : NamespacedName).
Variable accessOf : ObjectReference → Access.

(** Different clusters are reached through different accesses, under the names
    of the Clusters and of the references to them alike. *)
Record reachable : Prop := {
  rc_inj : ∀ ref ref', accessOf ref = accessOf ref' → ref = ref';
  rc_cluster : ∀ c access, listed clusterList c →
    providerAccess (ClusterNameFromCluster c) = inr access → access = accessOf (clusterRefOf c);
  rc_reference : ∀ ref access, present clusterList ref →
    providerAccess (ClusterNameFromReference ref) = inr access → access = accessOf ref }.

Hypothesis Hreach : reachable.
Hypothesis Hnames : namesKeepPrefix.

(** What the first reconcile of [rep] from [w0] leaves behind: the states after
    the part that creates and updates, and at the end. *)
Record rested (rep : Replica) (w0 : W) (s2 : rstate) (w2 : W)
    (managed : gmap ObjectReference (list Unstructured)) (sf : rstate) (wf : W) : Prop := {
  rs_concluded : concluded providerName platformCluster clusterList kind nn accessOf rep w0 s2 w2;
  rs_managed : s_managed s2 = Some managed;
  rs_object : sameRep (s_Object s2) (s_Object sf);
  rs_old : s_OldObject sf = s_OldObject s2;
  rs_conditions : s_Conditions sf = s_Conditions s2;
  rs_tracks : tracksManaged s2 sf;
  rs_compact : compact (rep_Replicas (s_Object sf));
  rs_tracked : tracked (rep_Replicas (s_Object sf)) ⊆ tracked (rep_Replicas (s_Object s2));
  rs_unmanaged : ∀ ref res, (ref, res) ∈ statusEntries (rep_Replicas (s_Object sf)) →
    res ∉ referenceOf <$> managedAt s2 ref → present clusterList ref ∧ ¬ obsolete clusterList s2 ref res;
  rs_replicas : replicaAt wf = replicaAt w2;
  rs_namespaces : namespaceIn wf = namespaceIn w2;
  rs_consistent : consistent wf;
  rs_stored : ∀ ref k, is_Some (recordedFor s2 ref k) →
    stored wf (accessOf ref) k = stored w2 (accessOf ref) k;
  rs_reach : ∀ ref L, selected clusterList s2 managed !! ref = Some L →
    ∃ access, providerAccess (ClusterNameFromReference ref) = inr access }.

Lemma managedEntry_tracked s s' e :
  tracksManaged s s' → wf (rep_Replicas (s_Object s')) → managedEntry s e →
  e ∈ tracked (rep_Replicas (s_Object s')).
Proof.
  intros Htr Hwf (ref & o & Ho & ->). specialize (Htr ref o Ho). unfold ContainsRaw in Htr.
  rewrite Contains_tracked in Htr by done. by apply bool_decide_eq_true in Htr.
Qed.

(** Every target that was rendered is left alone by the deletion. *)
Lemma rendered_untouched s2 ref k :
  allReported s2 → is_Some (recordedFor s2 ref k) → ¬ touched clusterList accessOf s2 (accessOf ref) k.
Proof.
  intros Hrep Hk (ref' & Hob & Heq). apply (rc_inj Hreach) in Heq as ->.
  eapply reported_protected; [exact Hnames|by apply Hrep|exact Hob].
Qed.

(** What the status lists after the deletion is managed or protected. *)
Lemma deletion_complete s2 managed s3 sf tr ref res :
  s_managed s2 = Some managed → wf (rep_Replicas (s_Object s2)) →
  normalized (rep_Replicas (s_Object s2)) →
  outcomeOf providerName clusterList s2 tr s3 →
  s_Conditions s3 = s_Conditions s2 → managedAt s3 = managedAt s2 →
  tracked (rep_Replicas (s_Object sf)) ⊆ tracked (rep_Replicas (s_Object s2)) →
  (∀ e, e ∈ tracked (rep_Replicas (s_Object sf)) →
        e ∈ tracked (rep_Replicas (s_Object s3)) ∨ managedEntry s3 e) →
  (ref, res) ∈ statusEntries (rep_Replicas (s_Object sf)) →
  res ∉ referenceOf <$> managedAt s2 ref → present clusterList ref ∧ ¬ obsolete clusterList s2 ref res.
Proof.
  intros Hm Hwf Hnorm Ho Hc Hma Hsub Hin Hentry Hun.
  pose proof (statusEntries_entry _ _ _ (normalized_mono _ _ Hsub Hnorm) Hentry) as He.
  assert (entryOf ref res ∈ tracked (rep_Replicas (s_Object s3))) as He3.
  { destruct (Hin _ He) as [?|(ref' & o & Ho' & [-> ->]%entryOf_inj)]; [done|]. exfalso. apply Hun.
    rewrite Hma in Ho'. by apply list_elem_of_fmap_2. }
  assert (unmanaged s2 ref res) as Hu by (split; [by eapply statusEntries_mono|exact Hun]).
  split.
  - destruct (decide (present clusterList ref)) as [|Hnp]; [done|]. exfalso.
    by apply (oc_pruned _ _ _ _ _ Ho Hwf ref res Hu Hnp).
  - intros Hob. destruct (oc_dealt _ _ _ _ _ Ho ref res Hob) as [_ Hb].
    destruct (Hb Hwf He3) as [_ (reason & message & Hcond)]. rewrite Hc in Hcond.
    apply (reported_protected clusterList s2 ref res Hnames); [|done].
    unfold reportedOn. by apply (list_elem_of_fmap_2 con_Type) in Hcond.
Qed.

(** The deletion and the completion of the status, in a first run. *)
Lemma finish_first rep w0 s2 w2 managed :
  concluded providerName platformCluster clusterList kind nn accessOf rep w0 s2 w2 →
  wf (rep_Replicas rep) → normalized (rep_Replicas rep) →
  s_managed s2 = Some managed →
  hwp h (finishReconcile providerName clusterList false) s2 w2 (λ wf sf fl,
    fl = Next false ∧
    (s_ReconcileError sf = None → waiting (s_Conditions sf) = false →
     rested rep w0 s2 w2 managed sf wf)).
Proof.
  intros Hcon Hwf Hnorm Hm.
  destruct (concluded_facts _ _ _ _ _ _ _ _ _ _ Hcon) as (Hsync & Hw2 & _ & Hgr & Hrep & _ & Htr).
  pose proof (grown_keeps wf _ _ (λ _ _ _ _ _, wf_Add _ _ _) Hgr Hwf) as Hwf2.
  pose proof (grown_keeps normalized _ _ normalized_AddRaw Hgr Hnorm) as Hnorm2.
  unfold finishReconcile. hwp_step.
  eapply hwp_mono; [|apply hwp_exec, (deletion_first providerName clusterList accessOf
    (rc_reference Hreach) s2 managed w2 Hm Hw2)].
  intros w3 s3 fl [Hcl (tr & Hex)].
  destruct (function_outcome _ _ s2 managed Hm _ _ _ Hex) as [(-> & Ho & Hcomp) _].
  hwp_step. eapply hwp_mono; [|apply addManaged_first].
  intros w4 s4 fl (-> & -> & Hs4 & Hrep4 & Htr4 & Hcomp4 & Hin4). hwp_step.
  eapply hwp_mono; [|apply skipWaiting_first]. intros w5 s5 fl (-> & -> & Hs5). hwp_step. split; [done|].
  rewrite Hs5, Hs4. simpl. intros He Hwait.
  destruct (Hcl He Hwait) as (_ & Hobj & Hold & Hm3 & Hc3 & Hrp & Hns & Hw3 & Hst & Hrc).
  assert (managedAt s3 = managedAt s2) as Hma by (unfold managedAt; by rewrite Hm3).
  assert (tracked (rep_Replicas (s_Object s4)) ⊆ tracked (rep_Replicas (s_Object s2))) as Hsub.
  { intros e [Hin|Hme]%Hin4; [by apply (oc_shrinks _ _ _ _ _ Ho)|].
    apply (managedEntry_tracked s2 s2); [done|done|]. destruct Hme as (ref & o & Hin & ->).
    exists ref, o. by rewrite <- Hma. }
  split; simpl; try done.
  - unfold sameRep in *. congruence.
  - intros ref o Hin. apply (Htr4 ref o). by rewrite Hma.
  - by apply Hcomp4.
  - intros ref res. by eapply deletion_complete.
  - intros ref k Hk. by apply Hst, rendered_untouched.
Qed.

(** An error that was reported before is reported in the end. *)
Lemma finish_failed s w :
  s_ReconcileError s ≠ None → consistent w →
  hwp h (finishReconcile providerName clusterList false) s w (λ wf sf fl,
    fl = Next false ∧ (s_ReconcileError sf = None → waiting (s_Conditions sf) = false → False)).
Proof.
  intros Herr Hw. unfold finishReconcile. hwp_step.
  assert (∀ s3 w3, (s_ReconcileError s3 = None → waiting (s_Conditions s3) = false → False) →
    hwp h (addManagedToStatus ;;; skipWaiting false ;;; ret false)%prog s3 w3 (λ wf sf fl,
      fl = Next false ∧ (s_ReconcileError sf = None → waiting (s_Conditions sf) = false → False))) as Hrest.
  { intros s3 w3 H3. hwp_step. eapply hwp_mono; [|apply addManaged_first].
    intros w4 s4 fl (-> & _ & Hs4 & _). hwp_step. eapply hwp_mono; [|apply skipWaiting_first].
    intros w5 s5 fl (-> & _ & Hs5). hwp_step. split; [done|]. by rewrite Hs5, Hs4. }
  destruct (s_managed s) as [managed|] eqn:Hm.
  - eapply hwp_mono; [|apply hwp_exec, (deletion_first providerName clusterList accessOf
      (rc_reference Hreach) s managed w Hm Hw)].
    intros w3 s3 fl [Hcl (tr & Hex)].
    destruct (function_outcome _ _ s managed Hm _ _ _ Hex) as [(-> & _ & _) _].
    apply Hrest. intros He Hwait. destruct (Hcl He Hwait) as (Hnone & _). done.
  - unfold deleteObsoleteResources. hwp_step. hwp_step. rewrite Hm. hwp_step. by apply Hrest.
Qed.

Lemma listed_first rep w0 :
  IsZero (rep_DeletionTimestamp rep) = true → steady (spec_Targets (rep_Spec rep)) → consistent w0 →
  replicaAt w0 platformCluster kind nn = Some rep →
  wf (rep_Replicas rep) → normalized (rep_Replicas rep) →
  hwp h (reconcileListed providerName platformCluster clusterList) (rstate_init rep) w0 (λ wf sf fl,
    match fl with
    | Panic _ => True
    | _ => fl = Next false ∧
           (s_ReconcileError sf = None → waiting (s_Conditions sf) = false →
            ∃ s2 w2 managed, rested rep w0 s2 w2 managed sf wf)
    end).
Proof.
  intros Hz Hsteady Hw0 Hrep Hwf Hnorm. unfold reconcileListed. hwp_step. hwp_step.
  cbn [s_Object rstate_init]. rewrite Hz. do 3 hwp_step.
  eapply hwp_mono; [|apply hwp_consistent, (first_run_concludes providerName platformCluster clusterList
    kind nn accessOf (rc_inj Hreach) (rc_cluster Hreach) rep w0 Hsteady Hw0 Hrep)].
  intros w2 s2 fl [H Hw2]. specialize (Hw2 Hw0).
  destruct (s_ReconcileError s2) as [e|] eqn:Herr.
  - assert (hwp h (finishReconcile providerName clusterList false) s2 w2 (λ wf sf fl,
      match fl with
      | Panic _ => True
      | _ => fl = Next false ∧
             (s_ReconcileError sf = None → waiting (s_Conditions sf) = false →
              ∃ s2 w2 managed, rested rep w0 s2 w2 managed sf wf)
      end)) as Hfail.
    { eapply hwp_mono; [|apply finish_failed; [by rewrite Herr|done]].
      intros w' s' fl' [-> H']. split; [done|]. intros H1 H2. by destruct (H' H1 H2). }
    destruct fl as [[]| |why]; [hwp_step; exact Hfail|hwp_step; exact Hfail|done].
  - destruct fl as [[]| |why]; [|by destruct (H eq_refl)|done].
    destruct (H eq_refl) as [_ Hcon]. hwp_step.
    destruct (concluded_facts _ _ _ _ _ _ _ _ _ _ Hcon) as (_ & _ & _ & _ & _ & [managed Hm] & _).
    fold (finishReconcile providerName clusterList false).
    eapply hwp_mono; [|by apply (finish_first rep w0 s2 w2 managed)].
    intros w' s' fl' [-> H']. split; [done|]. intros H1 H2. by exists s2, w2, managed; apply H'.
Qed.

(** The second run starts from the object that the first one left. *)
Lemma listed_again rep w0 s2 w2 managed sf wf w1 rep3 :
  rested rep w0 s2 w2 managed sf wf →
  IsZero (rep_DeletionTimestamp rep) = true → ownLabels (h := h) platformCluster rep w0 → consistent w1 →
  stored w1 = stored wf → namespaceIn w1 = namespaceIn wf →
  sameRep rep3 (s_Object sf) → rep_Replicas rep3 = rep_Replicas (s_Object sf) →
  (∀ src, src ∈ spec_Sources (rep_Spec rep) →
     stored w1 platformCluster (src_Ref src) = stored w0 platformCluster (src_Ref src)) →
  hwp h (reconcileListed providerName platformCluster clusterList) (rstate_init rep3) w1 (λ w' s' fl,
    w' = w1 ∧ fl = Next false ∧ s_Object s' = rep3 ∧ s_OldObject s' = rep3 ∧
    s_Conditions s' = s_Conditions sf ∧ s_RequeueAfter s' = 0%Z ∧ s_ReconcileError s' = None).
Proof.
  intros Hrs Hz Hown Hw1 Hst Hns Hrep3 Hl3 Hsrc.
  pose proof (rs_concluded _ _ _ _ _ _ _ Hrs) as Hcon. pose proof (rs_managed _ _ _ _ _ _ _ Hrs) as Hm.
  destruct (concluded_facts _ _ _ _ _ _ _ _ _ _ Hcon) as (_ & _ & [fs Hfs] & _).
  assert (sameRep (s_Object s2) rep3) as Hsame
    by (pose proof (rs_object _ _ _ _ _ _ _ Hrs); unfold sameRep in *; congruence).
  assert (IsZero (rep_DeletionTimestamp rep3) = true ∧
          IsZero (rep_DeletionTimestamp (s_Object s2)) = true) as [Hz3 Hz2].
  { rewrite (sameRep_unfold _ _ Hsame), (sameRep_unfold _ _ Hfs). by simpl. }
  unfold reconcileListed. hwp_step. hwp_step. cbn [s_Object rstate_init]. rewrite Hz3. do 3 hwp_step.
  eapply hwp_mono; [|apply (second_run_repeats providerName platformCluster clusterList kind nn accessOf
    rep w0 s2 w2 rep3 w1 Hcon Hown Hw1 Hsame)].
  - intros w' s4 fl (-> & -> & Ho4 & Hold4 & Hc4 & Hm4 & Hr4 & He4). hwp_step.
    fold (finishReconcile providerName clusterList false). unfold finishReconcile. hwp_step.
    assert (∀ ref res, unmanaged s4 ref res →
              present clusterList ref ∧ ¬ obsolete clusterList s2 ref res) as Hun.
    { intros ref res [Hin Hnot]. rewrite Ho4, Hl3 in Hin. rewrite Hm4 in Hnot.
      by apply (rs_unmanaged _ _ _ _ _ _ _ Hrs). }
    assert (∀ ref, unprotected s4 ref = unprotected s2 ref) as Hup.
    { intros ref. unfold unprotected. by rewrite Ho4, Hc4, Hz3, Hz2. }
    assert (tracked (rep_Replicas (s_Object s4)) ⊆ tracked (rep_Replicas (s_Object s2))) as Hsub
      by (rewrite Ho4, Hl3; apply Hrs).
    eapply hwp_mono; [|apply (deletion_again_ends providerName clusterList s4 managed w1); try done].
    + intros w' s5 fl (-> & -> & Ho5 & Hold5 & Hc5 & Hm5 & Hr5 & He5). hwp_step.
      eapply hwp_mono; [|apply addManaged_again].
      * intros w' s' fl (-> & -> & ->). hwp_step.
        eapply hwp_mono; [|apply skipWaiting_again; congruence].
        intros w'' s'' fl (-> & -> & ->). hwp_step. split_and!; try congruence.
        rewrite Hc5, Hc4. symmetry. apply Hrs.
      * intros ref o Ho. rewrite Ho5, Ho4, Hl3. apply (rs_tracks _ _ _ _ _ _ _ Hrs ref o).
        unfold managedAt in *. by rewrite <- Hm4, <- Hm5.
    + congruence.
    + intros ref res Hu. by apply (Hun ref res).
    + intros ref res (Hu & Hp & Hpr). apply (Hun ref res Hu). split; [|split; [done|by rewrite <- Hup]].
      destruct Hu as [Hin Hnot]. split; [by eapply statusEntries_mono|]. by rewrite Hm4 in Hnot.
    + intros ref L HL. assert (is_Some (selected clusterList s4 managed !! ref)) as Hk by by eexists.
      apply selected_key in Hk as (Hp & Hcl & res & Hres).
      destruct (selected clusterList s2 managed !! ref) as [L2|] eqn:HL2;
        [by eapply (rs_reach _ _ _ _ _ _ _ Hrs)|].
      assert (is_Some (selected clusterList s2 managed !! ref)) as [? Hk]; [|congruence].
      apply selected_key. split; [done|]. split; [rewrite <- Hc4; intros _; apply Hcl; by rewrite Ho4|].
      exists res. by eapply statusEntries_mono.
    + rewrite Ho4, Hl3. apply Hrs.
  - intros ref o Ho. simpl. rewrite Hl3. by apply (rs_tracks _ _ _ _ _ _ _ Hrs).
  - done.
  - rewrite Hns. apply Hrs.
  - intros ref k Hk. rewrite Hst. by apply Hrs.
Qed.

End Whole.

#[global] Arguments rs_concluded {_ _ _ _ _ _ _ _ _ _ _ _ _ _ _ _ _} _.
#[global] Arguments rs_object {_ _ _ _ _ _ _ _ _ _ _ _ _ _ _ _ _} _.
#[global] Arguments rs_old {_ _ _ _ _ _ _ _ _ _ _ _ _ _ _ _ _} _.
#[global] Arguments rs_conditions {_ _ _ _ _ _ _ _ _ _ _ _ _ _ _ _ _} _.
#[global] Arguments rs_replicas {_ _ _ _ _ _ _ _ _ _ _ _ _ _ _ _ _} _.
#[global] Arguments rs_consistent {_ _ _ _ _ _ _ _ _ _ _ _ _ _ _ _ _} _.

(** ** Reconcile *)

Section Reconcile.
Context `{X : Ext} {XL : ExtLaws X}.
Context {W : Type} {h : ∀ e : Req, W → W * Resp e} `{!HonestServer h}.
Variables (providerName : string) (req : Request) (platformCluster : Access) (clusterList : list Cluster).
Variable accessOf : ObjectReference → Access.
Hypothesis Hreach : reachable (h := h) clusterList accessOf.
Hypothesis Hnames : namesKeepPrefix.

#[local] Abbreviation replicaOf w :=
  (replicaAt w platformCluster (kindOfRequest req) (req_NamespacedName req)).
#[local] Abbreviation rested :=
  (rested providerName platformCluster clusterList (kindOfRequest req) (req_NamespacedName req) accessOf).

(** A (Cluster)Replica to which the theorem applies: it is to be reconciled,
    not deleted; its status list is of its type; its target definitions do not
    interfere. *)
Record settling (rep : Replica) (w : W) : Prop := {
  st_operation : operationOf rep = OpNone;
  st_alive : IsZero (rep_DeletionTimestamp rep) = true;
  st_wf : wf (rep_Replicas rep);
  st_normalized : normalized (rep_Replicas rep);
  st_steady : steady (spec_Targets (rep_Spec rep));
  st_labels : ownLabels (h := h) platformCluster rep w }.

Lemma reconcileFetched_listed s w (Q : W → rstate → Flow bool → Prop) :
  clustersAt w platformCluster = inr clusterList →
  hwp h (reconcileListed providerName platformCluster clusterList) s w Q →
  hwp h (reconcileFetched providerName platformCluster) s w Q.
Proof.
  intros Hc H. unfold reconcileFetched. hwp_step.
  eapply hwp_call; [apply list_clusters|]. by rewrite Hc.
Qed.

Lemma hwp_reconcile (si : sharedInformation) w rep (Q : W → sharedInformation → Flow ReconcileResult → Prop) :
  replicaOf w = Some rep → operationOf rep = OpNone → clustersAt w platformCluster = inr clusterList →
  hwp h (reconcileListed providerName platformCluster clusterList) (rstate_init rep) w (λ w' s fl,
    match fl with
    | Panic why => Q w' si (Panic why)
    | Stop => Q w' si (Next (to_rr s))
    | Next unset => Q w' si (Next (if unset then to_rr_gone s else to_rr s))
    end) →
  hwp h (reconcile providerName req platformCluster) si w Q.
Proof.
  intros Hrep Hop Hc H. unfold reconcile. hwp_step.
  destruct (get_replica platformCluster (kindOfRequest req) (req_NamespacedName req) w) as (r & Hr & Ha).
  eapply hwp_call; [exact Hr|]. cbv beta iota. rewrite Hrep in Ha. simpl in Ha. subst r. rewrite Hop.
  unfold runFetched. hwp_step. apply hwp_local.
  apply (reconcileFetched_listed _ _ _ Hc) in H.
  eapply (hwp_mono h) in H; [exact H|]. intros w' s [unset| |why] HQ; cbv beta iota; by hwp_step.
Qed.

(** No run changes the Clusters. *)
Lemma run_clusters {A} (p : Prog Resp A) w : clustersAt (run h p w).1.1 = clustersAt w.
Proof.
  revert w. induction p as [a|e k IH]; intros w; simpl; [done|].
  pose proof (clusters_same e w) as He. destruct (h e w) as [w1 r]. specialize (IH r w1).
  destruct (run h (k r) w1) as [[w2 tr] a]. simpl in *. congruence.
Qed.

(** The status update at the end of [Reconcile]. *)
Definition finalUpdate (rr : ReconcileResult) : Req :=
  UpdateStatus platformCluster rr phaseFunc
    (requeueFunc match rr_Object rr with
                 | Some rep => negb (Z.eqb (rep_Generation rep) (st_ObservedGeneration (rep_Status rep)))
                 | None => false
                 end).

Definition finalResult (rr : ReconcileResult) (r : Replica * Z * option string) : Z * option string :=
  match r.2, rr_Object rr with
  | None, Some _ => (capInterval (GetInterval (rep_Spec r.1.1)) r.1.2, None)
  | _, _ => (r.1.2, r.2)
  end.

(** [Reconcile] is [reconcile] and the status update. *)
Lemma run_Reconcile (si : sharedInformation) w :
  providerAccess (req_Cluster req) = inr platformCluster → consistent w →
  run h (Reconcile providerName req si) w =
  let access := Ev (ProviderGet (req_Cluster req)) (inr platformCluster) in
  let '(w1, tr, (si1, fl)) :=
    run h (reconcile providerName req platformCluster (ClearPending (req_NamespacedName req) si)) w in
  match fl with
  | Next rr =>
      let '(w2, r) := h (finalUpdate rr) w1 in
      (w2, access :: tr ++ [Ev (finalUpdate rr) r], (si1, Next (finalResult rr r)))
  | Stop => (w1, access :: tr, (si1, Stop))
  | Panic why => (w1, access :: tr, (si1, Panic why))
  end.
Proof.
  intros Hp Hw. unfold Reconcile. rewrite run_seq.
  change (run h (modify _ si) w) with (w, @nil KEvent, (ClearPending (req_NamespacedName req) si, Next tt)).
  cbv beta iota. rewrite (run_request h (ProviderGet (req_Cluster req)) _ _ w w (inr platformCluster)) by by rewrite provider_get, Hp.
  cbv beta iota. rewrite run_seq.
  destruct (run h (reconcile _ _ _ _) w) as [[w1 tr] [si1 [rr| |why]]]; cbv beta iota zeta; [|done..].
  change (UpdateStatus _ _ _ _) with (finalUpdate rr).
  destruct (h (finalUpdate rr) w1) as [w2 r] eqn:Hr. rewrite (run_request h (finalUpdate rr) _ _ _ _ _ Hr).
  destruct r as [[updated after] [err|]]; [done|]. unfold finalResult. simpl. by destruct (rr_Object rr).
Qed.

(** A reconcile ends with the status update. *)
Lemma last_Reconcile (si : sharedInformation) w rr :
  providerAccess (req_Cluster req) = inr platformCluster → consistent w →
  let r := run h (reconcile providerName req platformCluster (ClearPending (req_NamespacedName req) si)) w in
  r.2.2 = Next rr →
  last (run h (Reconcile providerName req si) w).1.2 =
    Some (Ev (finalUpdate rr) (h (finalUpdate rr) r.1.1).2).
Proof.
  intros Hp Hw r Hr. rewrite run_Reconcile by done. fold r. destruct r as [[w1 tr] [si1 fl]]. simpl in *.
  subst fl. destruct (h (finalUpdate rr) w1) as [w2 a]. simpl. by rewrite last_cons, last_snoc.
Qed.

Lemma finalUpdate_inj rr rr' r r' :
  @Some KEvent (Ev (finalUpdate rr) r) = Some (Ev (finalUpdate rr') r') → rr = rr'.
Proof.
  intros Heq. apply (f_equal (fmap ev_req)) in Heq. simpl in Heq. unfold finalUpdate in Heq. congruence.
Qed.

(** The first reconcile, up to its status update. *)
Lemma reconcile_first rep si w0 :
  consistent w0 → replicaOf w0 = Some rep → settling rep w0 →
  clustersAt w0 platformCluster = inr clusterList →
  hwp h (reconcile providerName req platformCluster) si w0 (λ wf si' fl,
    match fl with
    | Next rr => ∃ sf, rr = to_rr sf ∧
        (s_ReconcileError sf = None → waiting (s_Conditions sf) = false →
         ∃ s2 w2 managed, rested rep w0 s2 w2 managed sf wf)
    | _ => True
    end).
Proof.
  intros Hw0 Hrep [Hop Hz Hwf Hnorm Hsteady _] Hcl. apply (hwp_reconcile _ _ _ _ Hrep Hop Hcl).
  eapply hwp_mono; [|by apply (listed_first providerName platformCluster clusterList
    (kindOfRequest req) (req_NamespacedName req) accessOf Hreach Hnames rep w0)].
  intros wf sf [[]| |why]; [by intros [? _]|intros [_ H]; by exists sf|by intros [? _]|done].
Qed.

(** A world in which the (Cluster)Replica, its copies and the namespaces are as
    a reconcile has left them, up to the parts of the status that are written
    by the status update only. *)
Record atRest (sf : rstate) (wf w : W) : Prop := {
  ar_consistent : consistent w;
  ar_stored : stored w = stored wf;
  ar_namespaces : namespaceIn w = namespaceIn wf;
  ar_clusters : clustersAt w platformCluster = inr clusterList;
  ar_replica : ∃ rep1, replicaOf w = Some rep1 ∧ sameRep rep1 (s_Object sf) ∧
                       rep_Replicas rep1 = rep_Replicas (s_Object sf) }.

(** The status update stores the object of the result. *)
Lemma update_rested rep w0 s2 w2 managed sf wf w1 r :
  rested rep w0 s2 w2 managed sf wf → clustersAt wf platformCluster = inr clusterList →
  h (finalUpdate (to_rr sf)) wf = (w1, r) → r.2 = None → atRest sf wf w1.
Proof.
  intros Hrs Hcl Hr Hnone.
  destruct (concluded_facts _ _ _ _ _ _ _ _ _ _ (rs_concluded Hrs)) as ([Hsync Hold] & _).
  pose proof (update_status platformCluster (to_rr sf) (s_Object sf) (s_OldObject sf) phaseFunc
    (requeueFunc (negb (Z.eqb (rep_Generation (s_Object sf)) (st_ObservedGeneration (rep_Status (s_Object sf))))))
    wf (kindOfRequest req) (req_NamespacedName req) eq_refl eq_refl) as Hu.
  pose proof (consistent_step (finalUpdate (to_rr sf)) wf (rs_consistent Hrs)) as Hc.
  split.
  - by rewrite Hr in Hc.
  - rewrite <- (objects_same (finalUpdate (to_rr sf)) wf eq_refl). by rewrite Hr.
  - rewrite <- (namespaces_same (finalUpdate (to_rr sf)) wf eq_refl). by rewrite Hr.
  - rewrite <- Hcl, <- (clusters_same (finalUpdate (to_rr sf)) wf). by rewrite Hr.
  - change (UpdateStatus _ _ _ _) with (finalUpdate (to_rr sf)) in Hu. rewrite Hr in Hu.
    destruct Hu as (o & Ho & [?|[? _]]); [| |by exists o|done].
    + rewrite (rs_old Hrs), Hold. apply Hrs.
    + rewrite (rs_replicas Hrs), (rs_old Hrs), Hold. done.
Qed.

(** What does not write keeps the world at rest. *)
Lemma atRest_step sf wf w e :
  writesObject e = None → createsNamespace e = false → writesReplica e = false →
  atRest sf wf w → atRest sf wf (h e w).1.
Proof.
  intros Ho Hn Hr [Hc Hst Hns Hcl Hrep]. split.
  - by apply consistent_step.
  - by rewrite objects_same.
  - by rewrite namespaces_same.
  - by rewrite clusters_same.
  - by rewrite replicas_same.
Qed.

(** A status update that hands over the stored object keeps it at rest, whether
    it succeeds or fails. *)
Lemma atRest_update sf wf w rr rep1 :
  atRest sf wf w → replicaOf w = Some rep1 → sameRep rep1 (s_Object sf) →
  rep_Replicas rep1 = rep_Replicas (s_Object sf) →
  rr_Object rr = Some rep1 → rr_OldObject rr = Some rep1 →
  atRest sf wf (h (finalUpdate rr) w).1.
Proof.
  intros [Hc Hst Hns Hcl _] Hrep Hsame Hl Ho Hold. split.
  - by apply consistent_step.
  - by rewrite objects_same.
  - by rewrite namespaces_same.
  - by rewrite clusters_same.
  - pose proof (update_status platformCluster rr rep1 rep1 phaseFunc
      (requeueFunc match rr_Object rr with
                   | Some rep => negb (Z.eqb (rep_Generation rep) (st_ObservedGeneration (rep_Status rep)))
                   | None => false
                   end) w (kindOfRequest req) (req_NamespacedName req) Ho Hold eq_refl Hrep) as Hu.
    change (UpdateStatus _ _ _ _) with (finalUpdate rr) in Hu.
    destruct (h (finalUpdate rr) w) as [w' r]. destruct Hu as (o & Ho' & [[Hs' Hl']|[_ ->]]).
    + exists o. unfold sameRep in *. split_and!; [done|congruence..].
    + by exists rep1.
Qed.

(** The reconcile of a (Cluster)Replica at rest. *)
Lemma reconcile_at_rest rep w0 s2 w2 managed sf wf w rep1 si :
  rested rep w0 s2 w2 managed sf wf → settling rep w0 →
  (∀ src, src ∈ spec_Sources (rep_Spec rep) →
     stored wf platformCluster (src_Ref src) = stored w0 platformCluster (src_Ref src)) →
  atRest sf wf w → replicaOf w = Some rep1 → sameRep rep1 (s_Object sf) →
  rep_Replicas rep1 = rep_Replicas (s_Object sf) →
  hwp h (reconcile providerName req platformCluster) si w (λ w' si' fl, w' = w ∧ si' = si ∧
    ∃ rr, fl = Next rr ∧ rr_Object rr = Some rep1 ∧ rr_OldObject rr = Some rep1 ∧
          rr_Conditions rr = s_Conditions sf ∧ rr_ReconcileError rr = None).
Proof.
  intros Hrs [Hop Hz _ _ _ Hown] Hsrc [Hc Hst Hns Hcl _] Hrep Hsame Hl.
  assert (operationOf rep1 = OpNone) as Hop1.
  { destruct (concluded_facts _ _ _ _ _ _ _ _ _ _ (rs_concluded Hrs)) as (_ & _ & [fs Hfs] & _).
    pose proof (rs_object Hrs) as Hobj.
    assert (sameRep (rep_set_Finalizers fs rep) rep1) as H by (unfold sameRep in *; congruence).
    apply sameRep_unfold in H. rewrite H. exact Hop. }
  apply (hwp_reconcile _ _ rep1); [done|done|done|].
  eapply hwp_mono; [|apply (listed_again providerName platformCluster clusterList
    (kindOfRequest req) (req_NamespacedName req) accessOf rep w0 s2 w2 managed sf wf w rep1); try done].
  - intros w' s' fl (-> & -> & Ho & Hold & Hc' & _ & He). split; [done|]. split; [done|].
    exists (to_rr s'). simpl. by rewrite Ho, Hold, Hc', He.
  - intros src Hin. rewrite Hst. by apply Hsrc.
Qed.

(** What a further [Reconcile] does: it ends with a status update with the
    stored object, its only effect on the world. *)
Record repeats (rep1 : Replica) (conditions : list Condition) (w w' : W) (tr : KHistory)
    (result : Z * option string) : Prop := {
  rp_update : ∃ rr r,
    last tr = Some (Ev (finalUpdate rr) r) ∧ h (finalUpdate rr) w = (w', r) ∧
    rr_Object rr = Some rep1 ∧ rr_OldObject rr = Some rep1 ∧
    rr_Conditions rr = conditions ∧ rr_ReconcileError rr = None ∧ result = finalResult rr r;
  rp_stored : stored w' = stored w;
  rp_namespaces : namespaceIn w' = namespaceIn w }.

Lemma Reconcile_at_rest rep w0 s2 w2 managed sf wf w rep1 si :
  providerAccess (req_Cluster req) = inr platformCluster →
  rested rep w0 s2 w2 managed sf wf → settling rep w0 →
  (∀ src, src ∈ spec_Sources (rep_Spec rep) →
     stored wf platformCluster (src_Ref src) = stored w0 platformCluster (src_Ref src)) →
  atRest sf wf w → replicaOf w = Some rep1 → sameRep rep1 (s_Object sf) →
  rep_Replicas rep1 = rep_Replicas (s_Object sf) →
  ∃ w' tr res,
    run h (Reconcile providerName req si) w =
      (w', tr, (ClearPending (req_NamespacedName req) si, Next res)) ∧
    repeats rep1 (s_Conditions sf) w w' tr res ∧ atRest sf wf w'.
Proof.
  intros Hp Hrs Hset Hsrc Hrest Hrep Hsame Hl.
  pose proof (reconcile_at_rest rep w0 s2 w2 managed sf wf w rep1 (ClearPending (req_NamespacedName req) si)
    Hrs Hset Hsrc Hrest Hrep Hsame Hl) as H.
  destruct (run_hwp h _ _ _ _ H) as (w' & tr & si' & fl & Hr & -> & -> & rr & -> & Ho & Hold & Hc & He).
  rewrite run_Reconcile, Hr by (done || apply Hrest).
  pose proof (atRest_update sf wf w rr rep1 Hrest Hrep Hsame Hl Ho Hold) as Hrest'.
  destruct (h (finalUpdate rr) w) as [w1 r] eqn:Hu. simpl in Hrest'.
  exists w1. do 2 eexists. split; [done|]. split; [|done].
  split.
  - exists rr, r. by rewrite last_cons, last_snoc.
  - by rewrite (ar_stored _ _ _ Hrest'), (ar_stored _ _ _ Hrest).
  - by rewrite (ar_namespaces _ _ _ Hrest'), (ar_namespaces _ _ _ Hrest).
Qed.

(** The first reconcile leaves a world at rest. *)
Lemma Reconcile_comes_to_rest rep si w0 w1 tr1 si1 res1 rr1 r1 :
  providerAccess (req_Cluster req) = inr platformCluster → consistent w0 →
  replicaOf w0 = Some rep → settling rep w0 → clustersAt w0 platformCluster = inr clusterList →
  run h (Reconcile providerName req si) w0 = (w1, tr1, (si1, Next res1)) →
  last tr1 = Some (Ev (finalUpdate rr1) r1) →
  res1.2 = None → rr_ReconcileError rr1 = None → existsb waitsForDeletion (rr_Conditions rr1) = false →
  ∃ s2 w2 managed sf wf,
    rr1 = to_rr sf ∧ rested rep w0 s2 w2 managed sf wf ∧ atRest sf wf w1.
Proof.
  intros Hp Hw0 Hrep Hset Hcl Hrun Hlast Hres Herr Hwait.
  rewrite run_Reconcile in Hrun by done.
  pose proof (reconcile_first rep (ClearPending (req_NamespacedName req) si) w0 Hw0 Hrep Hset Hcl) as H1.
  destruct (run_hwp h _ _ _ _ H1) as (wf & tr & si' & fl & Hr1 & Hfl).
  pose proof (run_clusters (reconcile providerName req platformCluster
    (ClearPending (req_NamespacedName req) si)) w0) as Hclf. rewrite Hr1 in Hrun, Hclf. simpl in Hclf.
  destruct fl as [rr| |why]; [|by injection Hrun..].
  destruct (h (finalUpdate rr) wf) as [w' r] eqn:Hu. injection Hrun as -> <- -> <-.
  rewrite last_cons, last_snoc in Hlast. apply finalUpdate_inj in Hlast as ->.
  destruct Hfl as (sf & -> & Hfl). destruct (Hfl Herr Hwait) as (s2 & w2 & managed & Hrs).
  assert (r.2 = None) as Hnone by (unfold finalResult in Hres; simpl in Hres; by destruct (r.2)).
  exists s2, w2, managed, sf, wf. split; [done|]. split; [done|].
  eapply update_rested; [done|by rewrite Hclf|done|done].
Qed.

(** Let a whole reconcile against an honest server (what is written is stored,
    nobody else writes, the template engine has no side effects) end without
    an error and without waiting for a deletion: whatever it created, updated,
    deleted or released on the way, a second reconcile from the world it
    leaves behind changes nothing before the status update: no copy, no
    namespace, no finalizer and no entry of the status.  It reports the same
    conditions, and the status update it ends with gets the stored object,
    unchanged. *)
Theorem reconcile_comes_to_rest rep si w0 w1 tr1 si1 res1 rr1 r1 :
  providerAccess (req_Cluster req) = inr platformCluster → consistent w0 →
  replicaOf w0 = Some rep → settling rep w0 → clustersAt w0 platformCluster = inr clusterList →
  run h (Reconcile providerName req si) w0 = (w1, tr1, (si1, Next res1)) →
  last tr1 = Some (Ev (finalUpdate rr1) r1) →
  res1.2 = None → rr_ReconcileError rr1 = None → existsb waitsForDeletion (rr_Conditions rr1) = false →
  (∀ src, src ∈ spec_Sources (rep_Spec rep) →
     stored w1 platformCluster (src_Ref src) = stored w0 platformCluster (src_Ref src)) →
  ∃ rep1, replicaOf w1 = Some rep1 ∧ rep_Replicas <$> rr_Object rr1 = Some (rep_Replicas rep1) ∧
  ∀ si2, ∃ w2 tr2 res2,
    run h (Reconcile providerName req si2) w1 =
      (w2, tr2, (ClearPending (req_NamespacedName req) si2, Next res2)) ∧
    repeats rep1 (rr_Conditions rr1) w1 w2 tr2 res2.
Proof.
  intros Hp Hw0 Hrep Hset Hcl Hrun Hlast Hres Herr Hwait Hsrc.
  destruct (Reconcile_comes_to_rest rep si w0 w1 tr1 si1 res1 rr1 r1)
    as (s2 & w2 & managed & sf & wf & -> & Hrs & Hrest); [done..|].
  destruct (ar_replica _ _ _ Hrest) as (rep1 & Hrep1 & Hsame & Hl). exists rep1. split; [done|].
  split; [simpl; by rewrite Hl|]. intros si2.
  destruct (Reconcile_at_rest rep w0 s2 w2 managed sf wf w1 rep1 si2)
    as (w3 & tr & res & Hr & Hrp & _); try done; [|by exists w3, tr, res].
  intros src Hin. rewrite <- (ar_stored _ _ _ Hrest). by apply Hsrc.
Qed.

End Reconcile.

(** ** A concrete pair of reconciles *)

From S2P Require Import FakeServer Scenarios.

(** The access of the platform cluster, and different ones for other names. *)
Definition accessByRef (ref : ObjectReference) : Access :=
  if decide (ref = zeroRef) then MkAccess "" else MkAccess ("#" +:+ pretty (encode ref)).

Lemma accessByRef_inj ref ref' : accessByRef ref = accessByRef ref' → ref = ref'.
Proof.
  unfold accessByRef. repeat case_decide; intros [=]; try congruence.
  by apply (inj encode), (inj pretty).
Qed.

(** Without Clusters, only the platform cluster is looked at. *)
Lemma platform_reachable : reachable (h := serve) [] accessByRef.
Proof.
  assert (accessByRef zeroRef = MkAccess "") as Hz by (unfold accessByRef; by rewrite decide_True).
  split; [apply accessByRef_inj| |].
  - intros [c|] access Hc; [by apply not_elem_of_nil in Hc|]. intros [= <-]. exact (eq_sym Hz).
  - intros ref access [->|Hin]; [|by apply elem_of_list_to_set, not_elem_of_nil in Hin].
    intros [= <-]. exact (eq_sym Hz).
Qed.

Lemma HasPrefix_substring s p n :
  HasPrefix s p = true → String.length p ≤ n → HasPrefix (String.substring 0 n s) p = true.
Proof.
  unfold HasPrefix. revert s n. induction p as [|c p IH]; intros s n; [by destruct (String.substring 0 n s)|].
  destruct s as [|d s]; simpl; [done|]. destruct n as [|n]; [lia|]. simpl.
  destruct (Ascii.ascii_dec c d); [|done]. intros H Hn. apply IH; [done|lia].
Qed.

Lemma fake_namesKeepPrefix : namesKeepPrefix.
Proof.
  intros ref res. unfold TargetCondition. apply HasPrefix_substring; [|vm_compute; lia].
  apply HasPrefix_append.
Qed.

Lemma run_eta {A B C D} (x : A * B * (C * D)) d : x.2.2 = d → x = (x.1.1, x.1.2, (x.2.1, d)).
Proof. destruct x as [[a b] [c d']]. simpl. by intros ->. Qed.

(** A reconcile that creates a copy and releases another one, which is no
    longer selected and marked "Keep". *)
Definition w_keep : world :=
  w_obsolete ((ReplicaDeletionPolicyLabel, ReplicaDeletionPolicyKeep) :: copyLabels "replica" "app" "r1").
Definition keepReplica : Replica := default createdReplica (w_replica w_keep).

(** The result it hands to the status update, and the answer to that. *)
Definition keepReconcile :=
  run serve (reconcile provider request platform (ClearPending (req_NamespacedName request) Reset)) w_keep.
Definition keepResult : ReconcileResult :=
  match keepReconcile.2.2 with Next rr => rr | _ => emptyResult end.
Definition keepAnswer := (serve (finalUpdate platform keepResult) keepReconcile.1.1).2.

Lemma keep_settling : settling (h := serve) platform keepReplica w_keep.
Proof.
  split; try (vm_compute; reflexivity).
  - unfold wf. concrete.
  - unfold normalized. intros g r Hin. apply elem_of_tracked in Hin as (x & Hx & <- & Hr).
    apply list_elem_of_singleton in Hx as ->. by apply list_elem_of_singleton in Hr as ->.
  - intros td Htd. apply list_elem_of_singleton in Htd as ->. split; [done|]. split.
    + intros _. exists (hostTarget ["t1"] None None). split; [by left|done].
    + intros [Hp|(sel & Hs & Hid)] _; [done|]. by injection Hs as <-.
  - intros r _ Hty. exfalso. revert Hty. vm_compute. discriminate.
Qed.

Lemma keep_consistent : consistent (h := serve) w_keep.
Proof.
  split; [done|].
  assert (map_Forall (λ k o, objRef o = k.2) (w_objects w_keep)) as Hall by concrete.
  intros acc k o Hk. exact (Hall (acc, k) o Hk).
Qed.

(** The first reconcile writes two objects and forgets the released copy; the
    second one changes nothing. *)
Lemma reconcile_comes_to_rest_witness :
  (w_objects (final run_keep) !! ("", MkTRef configMap "t1" "cm") ≠ None ∧
   rep_Replicas <$> w_replica (final run_keep) = Some (tracks None "t1" "cm")) ∧
  ∃ rep1, w_replica (final run_keep) = Some rep1 ∧ ∀ si2, ∃ w2 tr2 res2,
    run serve (Reconcile provider request si2) (final run_keep) =
      (w2, tr2, (ClearPending (req_NamespacedName request) si2, Next res2)) ∧
    repeats platform rep1 (rr_Conditions keepResult) (final run_keep) w2 tr2 res2.
Proof.
  split; [split; [vm_compute; discriminate|vm_compute; reflexivity]|].
  assert ((outcome run_keep).2 = Next (3600000000000%Z, None)) as Hfl by (vm_compute; reflexivity).
  pose proof (run_eta run_keep _ Hfl) as Hrun.
  destruct (reconcile_comes_to_rest provider request platform [] accessByRef platform_reachable
    fake_namesKeepPrefix keepReplica Reset w_keep (final run_keep) (history run_keep)
    (outcome run_keep).1 (3600000000000%Z, None) keepResult keepAnswer
    eq_refl keep_consistent eq_refl keep_settling eq_refl Hrun)
    as (rep1 & Hrep1 & _ & Hsecond).
  - apply (last_Reconcile provider request platform Reset w_keep); [reflexivity|exact keep_consistent|].
    vm_compute. reflexivity.
  - reflexivity.
  - vm_compute. reflexivity.
  - vm_compute. reflexivity.
  - intros src Hsrc. apply list_elem_of_singleton in Hsrc as ->. vm_compute. reflexivity.
  - exists rep1. split; [exact Hrep1|]. exact Hsecond.
Defined.
