(* ===== verification/StayingAtRest.v ===== *)
(** * Staying at rest

    The controllers of the service share one world: the API servers and the
    shared information.  [ComingToRest] has the first reconcile of a
    (Cluster)Replica and one after it; here is every sequence of what the
    service does after the first one: reconciles of the (Cluster)Replica,
    however often and with whatever outcome of their status updates; reconciles
    of the namespace controller, for any namespace; and, in between, any change
    of the shared information by events, notifications and other callers. *)

From S2P Require Import Prelude GoLib ApiTypes External Effects Kube.
From S2P Require Import Shared NamespaceController StatusList ReplicaState ReplicaReconcile.
From S2P Require Import HonestServer Quiescence DeletionRuns ComingToRest.

(** ** Programs that only read *)

Definition readsOnly (e : Req) : Prop :=
  writesObject e = None ∧ createsNamespace e = false ∧ writesReplica e = false.

Section Reading.
Context {W : Type} {h : ∀ e : Req, W → W * Resp e}.

(** What every request of a run keeps, the run keeps. *)
Lemma run_invariant {A} (P : Req → Prop) (I : W → Prop) (p : Prog Resp A) w :
  (∀ e w, P e → I w → I (h e w).1) →
  Forall (λ ev, P (ev_req ev)) (run h p w).1.2 → I w → I (run h p w).1.1.
Proof.
  intros HP. revert w. induction p as [a|e k IH]; intros w; simpl; [done|].
  pose proof (HP e w) as He. destruct (h e w) as [w1 r]. specialize (IH r w1).
  destruct (run h (k r) w1) as [[w2 tr2] a]. simpl in *.
  intros [Hpe Htr]%Forall_cons Hw. by apply IH, He.
Qed.

Lemma permitted_Forall (P : Req → Prop) (tr : KHistory) :
  permitted (λ _ e, P e) tr → Forall (λ ev, P (ev_req ev)) tr.
Proof.
  intros H. apply Forall_forall. intros ev (pre & post & ->)%list_elem_of_split. by eapply H.
Qed.

End Reading.

Section Namespaces.
Context `{X : Ext}.

Lemma enqueue_loop_reads clusterName ns (l : list Replica) (P : KHistory → Req → Prop) si tr Q :
  (∀ si', Q tr si' (Next tt)) →
  mwp P (for_each l (λ rep,
    if replicaIsRelevantForNamespaceEvent rep ns clusterName
    then modify (EnqueueReplica rep) else ret tt)) si tr Q.
Proof.
  intros HQ. eapply mwp_mono; [|apply (mwp_for_each _ l _ si tr (λ tr' _, tr' = tr) True)].
  - intros tr' si' fl (-> & Hfl & _). by rewrite Hfl.
  - intros rep tr' si' _ ->. by destruct (replicaIsRelevantForNamespaceEvent _ _ _); mwp_step.
  - done.
Qed.

(** The namespace controller only reads. *)
Lemma namespace_reconcile_reads reqCluster reqName si :
  mwp (λ _ e, readsOnly e) (NamespaceController.reconcile reqCluster reqName) si [] (λ _ _ _, True).
Proof.
  unfold NamespaceController.reconcile. mwp_step. mwp_step; [done|]. mwp_step; [by mwp_step|].
  mwp_step. mwp_step; [done|]. mwp_step; [|by mwp_step|by mwp_step].
  mwp_step. mwp_step; [done|]. mwp_step; [by mwp_step|]. unfold enqueueMatchingReplicas.
  mwp_step. mwp_step; [done|]. mwp_step; [by mwp_step|].
  mwp_step. mwp_step; [done|]. mwp_step; [by mwp_step|].
  mwp_step. apply enqueue_loop_reads. intros si'. by mwp_step.
Qed.

End Namespaces.

(** ** The service over one world *)

Section Service.
Context `{X : Ext} {XL : ExtLaws X}.
Context {W : Type} {h : ∀ e : Req, W → W * Resp e} `{!HonestServer h}.
Variables (providerName : string) (req : Request) (platformCluster : Access) (clusterList : list Cluster).
Variable accessOf : ObjectReference → Access.
Hypothesis Hreach : reachable (h := h) clusterList accessOf.
Hypothesis Hnames : namesKeepPrefix.

#[local] Abbreviation replicaOf w :=
  (replicaAt w platformCluster (kindOfRequest req) (req_NamespacedName req)).
#[local] Abbreviation atRest := (atRest req platformCluster clusterList).

(** One thing the service does after the first reconcile. *)
Inductive activity : sharedInformation * W → sharedInformation * W → Prop :=
| activity_reconcile si w si' w' tr fl :
    run h (Reconcile providerName req si) w = (w', tr, (si', fl)) → activity (si, w) (si', w')
| activity_namespace reqCluster reqName si w si' w' tr fl :
    run h (NamespaceController.reconcile reqCluster reqName si) w = (w', tr, (si', fl)) →
    activity (si, w) (si', w')
| activity_shared si si' w : activity (si, w) (si', w).

Definition later : sharedInformation * W → sharedInformation * W → Prop := rtc activity.

Lemma atRest_namespace sf wf w reqCluster reqName si :
  atRest sf wf w → atRest sf wf (run h (NamespaceController.reconcile reqCluster reqName si) w).1.1.
Proof.
  apply (run_invariant readsOnly).
  - intros e w' (Ho & Hn & Hr). by apply atRest_step.
  - pose proof (run_exec h (NamespaceController.reconcile reqCluster reqName si) w) as Hex.
    destruct (run h _ w) as [[w' tr] [si' fl]].
    by destruct (mwp_exec _ _ _ _ _ _ _ (namespace_reconcile_reads reqCluster reqName si) Hex) as [_ H%permitted_Forall].
Qed.

(** The world stays at rest whatever the service does. *)
Lemma later_atRest rep w0 s2 w2 managed sf wf x y :
  providerAccess (req_Cluster req) = inr platformCluster →
  rested providerName platformCluster clusterList (kindOfRequest req) (req_NamespacedName req) accessOf
    rep w0 s2 w2 managed sf wf →
  settling platformCluster rep w0 →
  (∀ src, src ∈ spec_Sources (rep_Spec rep) →
     stored wf platformCluster (src_Ref src) = stored w0 platformCluster (src_Ref src)) →
  later x y → atRest sf wf x.2 → atRest sf wf y.2.
Proof.
  intros Hp Hrs Hset Hsrc. induction 1 as [|x y z Hxy _ IH]; [done|]. intros Hx. apply IH. clear IH.
  destruct Hxy as [si w si' w' tr fl Hrun|c n si w si' w' tr fl Hrun|]; simpl in Hx |- *; [| |done].
  - destruct (ar_replica _ _ _ _ _ _ Hx) as (rep1 & Hrep1 & Hsame & Hl).
    destruct (Reconcile_at_rest providerName req platformCluster clusterList accessOf
      rep w0 s2 w2 managed sf wf w rep1 si)
      as (w1 & tr1 & res & Hr & _ & Hrest); [done..|]. rewrite Hrun in Hr. by injection Hr as -> _ _ _.
  - pose proof (atRest_namespace sf wf w c n si Hx) as H. by rewrite Hrun in H.
Qed.

(** C12: The controller comes to rest and stays there.  Let a whole reconcile
    against an honest server (what is written is stored, nobody else writes,
    the template engine has no side effects) end without an error and without
    waiting for a deletion, whatever it created, updated, deleted or released
    on the way.  Then, whatever the service does afterwards, however often the
    (Cluster)Replica and the namespaces are reconciled, whether or not the
    status updates succeed, and whatever is sent and received in between: the
    copies and the namespaces stay as they are, the (Cluster)Replica keeps its
    metadata, its spec and its list of copies, and every further reconcile ends
    without an error and with the same conditions, its only writing request
    being a status update with the stored object.  Assumed are: different
    clusters are reached through different accesses ([reachable]); the
    (Cluster)Replica is neither in deletion nor annotated with an operation
    (ignore or reconcile), its status list is of its type (no entry names the
    empty cluster reference), its target definitions do not interfere (none is next to a
    cluster, and when one creates namespaces, none skips missing ones or
    selects namespaces by labels), and the manifests of a ClusterReplica bring
    no source namespace label ([settling]); no source is changed by the first
    reconcile; and shortened condition names keep their prefix
    ([namesKeepPrefix]).  A ClusterReplica whose source brings that label does
    not come to rest, see [Divergences.inherited_label_disowns]. *)
Theorem reconcile_stays_at_rest rep si w0 w1 tr1 si1 res1 rr1 r1 :
  providerAccess (req_Cluster req) = inr platformCluster → consistent w0 →
  replicaOf w0 = Some rep → settling platformCluster rep w0 →
  clustersAt w0 platformCluster = inr clusterList →
  run h (Reconcile providerName req si) w0 = (w1, tr1, (si1, Next res1)) →
  last tr1 = Some (Ev (finalUpdate platformCluster rr1) r1) →
  res1.2 = None → rr_ReconcileError rr1 = None → existsb waitsForDeletion (rr_Conditions rr1) = false →
  (∀ src, src ∈ spec_Sources (rep_Spec rep) →
     stored w1 platformCluster (src_Ref src) = stored w0 platformCluster (src_Ref src)) →
  ∃ rep1, replicaOf w1 = Some rep1 ∧ rep_Replicas <$> rr_Object rr1 = Some (rep_Replicas rep1) ∧
  ∀ si2 w2, later (si1, w1) (si2, w2) →
    stored w2 = stored w1 ∧ namespaceIn w2 = namespaceIn w1 ∧
    ∃ rep2, replicaOf w2 = Some rep2 ∧ sameRep rep2 rep1 ∧ rep_Replicas rep2 = rep_Replicas rep1 ∧
    ∃ w3 tr res,
      run h (Reconcile providerName req si2) w2 =
        (w3, tr, (ClearPending (req_NamespacedName req) si2, Next res)) ∧
      repeats platformCluster rep2 (rr_Conditions rr1) w2 w3 tr res.
Proof.
  intros Hp Hw0 Hrep Hset Hcl Hrun Hlast Hres Herr Hwait Hsrc.
  destruct (Reconcile_comes_to_rest providerName req platformCluster clusterList accessOf Hreach Hnames
    rep si w0 w1 tr1 si1 res1 rr1 r1) as (s2 & w2 & managed & sf & wf & -> & Hrs & Hrest); [done..|].
  assert (∀ src, src ∈ spec_Sources (rep_Spec rep) →
    stored wf platformCluster (src_Ref src) = stored w0 platformCluster (src_Ref src)) as Hsrcf.
  { intros src Hin. rewrite <- (ar_stored _ _ _ _ _ _ Hrest). by apply Hsrc. }
  destruct (ar_replica _ _ _ _ _ _ Hrest) as (rep1 & Hrep1 & Hsame1 & Hl1). exists rep1.
  split; [done|]. split; [simpl; by rewrite Hl1|]. intros si2 w3 Hlater.
  pose proof (later_atRest rep w0 s2 w2 managed sf wf _ _ Hp Hrs Hset Hsrcf Hlater Hrest) as Hrest3.
  simpl in Hrest3. split; [by rewrite (ar_stored _ _ _ _ _ _ Hrest3), (ar_stored _ _ _ _ _ _ Hrest)|].
  split; [by rewrite (ar_namespaces _ _ _ _ _ _ Hrest3), (ar_namespaces _ _ _ _ _ _ Hrest)|].
  destruct (ar_replica _ _ _ _ _ _ Hrest3) as (rep2 & Hrep2 & Hsame2 & Hl2). exists rep2.
  split; [done|]. split; [unfold sameRep in *; congruence|]. split; [congruence|].
  destruct (Reconcile_at_rest providerName req platformCluster clusterList accessOf
    rep w0 s2 w2 managed sf wf w3 rep2 si2) as (w4 & tr & res & Hr & Hrp & _); [done..|].
  by exists w4, tr, res.
Qed.

End Service.

(** ** A concrete sequence *)

From S2P Require Import FakeServer Scenarios.

Lemma run_surjective {A B C D} (x : A * B * (C * D)) : x = (x.1.1, x.1.2, (x.2.1, x.2.2)).
Proof. by destruct x as [[a b] [c d]]. Qed.

(** After the reconcile of [run_keep]: the reconcile of a namespace, the receipt
    of what it has enqueued, and another reconcile of the (Cluster)Replica. *)
Definition keepNamespace :=
  run serve (NamespaceController.reconcile "" "t1" (outcome run_keep).1) (final run_keep).
Definition keepAgain := run serve (Reconcile provider request Reset) keepNamespace.1.1.

Lemma keep_later :
  later (h := serve) provider request ((outcome run_keep).1, final run_keep)
    (keepAgain.2.1, keepAgain.1.1).
Proof.
  eapply rtc_l; [exact (activity_namespace _ _ _ _ _ _ _ _ _ _ (run_surjective keepNamespace))|].
  eapply rtc_l; [exact (activity_shared _ _ _ Reset _)|].
  eapply rtc_l; [exact (activity_reconcile _ _ _ _ _ _ _ _ (run_surjective keepAgain))|]. constructor.
Qed.

Lemma reconcile_stays_at_rest_witness :
  (w_objects (final run_keep) !! ("", MkTRef configMap "t1" "cm") ≠ None ∧
   rep_Replicas <$> w_replica (final run_keep) = Some (tracks None "t1" "cm")) ∧
  ∃ rep2, w_replica keepAgain.1.1 = Some rep2 ∧ rep_Replicas rep2 = tracks None "t1" "cm" ∧
    stored (h := serve) keepAgain.1.1 = stored (h := serve) (final run_keep) ∧
    ∃ w3 tr res,
      run serve (Reconcile provider request keepAgain.2.1) keepAgain.1.1 =
        (w3, tr, (ClearPending (req_NamespacedName request) keepAgain.2.1, Next res)) ∧
      repeats platform rep2 (rr_Conditions keepResult) keepAgain.1.1 w3 tr res.
Proof.
  assert (rep_Replicas <$> w_replica (final run_keep) = Some (tracks None "t1" "cm")) as Htracks
    by (vm_compute; reflexivity).
  split; [split; [vm_compute; discriminate|exact Htracks]|].
  assert ((outcome run_keep).2 = Next (3600000000000%Z, None)) as Hfl by (vm_compute; reflexivity).
  destruct (reconcile_stays_at_rest provider request platform [] accessByRef platform_reachable
    fake_namesKeepPrefix keepReplica Reset w_keep (final run_keep) (history run_keep)
    (outcome run_keep).1 (3600000000000%Z, None) keepResult keepAnswer
    eq_refl keep_consistent eq_refl keep_settling eq_refl (run_eta run_keep _ Hfl))
    as (rep1 & Hrep1 & _ & Hlater).
  - apply (last_Reconcile provider request platform Reset w_keep); [reflexivity|exact keep_consistent|].
    vm_compute. reflexivity.
  - reflexivity.
  - vm_compute. reflexivity.
  - vm_compute. reflexivity.
  - intros src Hsrc. apply list_elem_of_singleton in Hsrc as ->. vm_compute. reflexivity.
  - destruct (Hlater _ _ keep_later) as (Hst & _ & rep2 & Hrep2 & _ & Hl2 & Hrun).
    assert (w_replica (final run_keep) = Some rep1) as Hr1 by exact Hrep1.
    rewrite Hr1 in Htracks. injection Htracks as Hl1.
    exists rep2. split; [exact Hrep2|]. split; [by rewrite Hl2|]. split; [exact Hst|exact Hrun].
Defined.
